(** * A shallow embedding of the matching engine core

    The development follows [include/Common.h], [include/Order.h],
    [src/Order.cpp], [include/Trade.h], [include/OrderBook.h],
    [src/OrderBook.cpp], [include/MatchingEngine.h],
    [src/MatchingEngine.cpp], [include/Message.h] and the message handling
    of [src/Server.cpp].

    Modelling choices, shared by every definition below:

    - [uint64_t] values ([OrderId], [Quantity], the counters) are numbers of
      type [N]; the places where the C++ arithmetic can wrap around are written
      with [wrap64] and [sub64].  [Price] is [int64_t], modelled by [Z]; prices
      are only compared and copied, never added.
    - Orders are shared ([std::shared_ptr<Order>]) between the caller, the
      FIFO queue of a price level and the book's index.  The model keeps them
      in a store ([Heap], a list indexed by pointer) and every container holds
      pointers, so a mutation through one path is seen through the others.
    - A [std::list] iterator stays valid until its node is erased.  Each node
      of a level's queue therefore carries an identity ([node]) drawn from a
      per-level counter, and the level's [orderMap_] maps an order id to a node
      identity.  Dereferencing an identity whose node was erased, or a pointer
      outside the store, is undefined behaviour in C++; the model returns
      [None] there.
    - The two [std::map]s of a book are association lists kept in iteration
      order (asks ascending, bids descending).
    - The mutex, the timestamps and the notification callbacks are left out:
      every operation runs to completion under the book lock, no code compares
      timestamps, and callbacks are client code. *)

From stdpp Require Import gmap strings list fin_maps sorting.
From Stdlib Require Import ZArith NArith Lia.

Set Default Proof Using "Type".

(** ** Common.h *)

Abbreviation OrderId := N (only parsing).
Abbreviation Price := Z (only parsing).
Abbreviation Quantity := N (only parsing).

(** Pointers into the store of shared orders, and identities of list nodes. *)
Abbreviation ptr := nat (only parsing).
Abbreviation node := nat (only parsing).

Definition two64 : N := 18446744073709551616%N.

(** Unsigned 64-bit wrap-around of a sum and of a difference. *)
Definition wrap64 (n : N) : N := (n mod two64)%N.
Definition sub64 (a b : N) : N := ((a + two64 - b mod two64) mod two64)%N.

Inductive Side := BUY | SELL.

Inductive OrderType := MARKET | LIMIT | STOP_LOSS | STOP_LIMIT | IOC | FOK.

Inductive OrderStatus := PENDING | PARTIAL_FILL | FILLED | CANCELLED | REJECTED.

#[global] Instance Side_eq_dec : EqDecision Side.
Proof. solve_decision. Defined.
#[global] Instance OrderType_eq_dec : EqDecision OrderType.
Proof. solve_decision. Defined.
#[global] Instance OrderStatus_eq_dec : EqDecision OrderStatus.
Proof. solve_decision. Defined.

(** ** Order.h, Order.cpp *)

Module Order.

Record t := mk {
  orderId_ : OrderId;
  symbol_ : string;
  side_ : Side;
  type_ : OrderType;
  price_ : Price;
  quantity_ : Quantity;
  remainingQuantity_ : Quantity;
  stopPrice_ : Price;
  status_ : OrderStatus;
  clientId_ : string
}.

(** [Order::Order]: the remaining quantity starts at the quantity, the
    status at PENDING and the client id empty. *)
Definition new (orderId : OrderId) (symbol : string) (side : Side)
    (type : OrderType) (price : Price) (quantity : Quantity)
    (stopPrice : Price) : t :=
  {| orderId_ := orderId; symbol_ := symbol; side_ := side; type_ := type;
     price_ := price; quantity_ := quantity; remainingQuantity_ := quantity;
     stopPrice_ := stopPrice; status_ := PENDING; clientId_ := String.EmptyString |}.

Definition setPrice (price : Price) (o : t) : t :=
  {| orderId_ := orderId_ o; symbol_ := symbol_ o; side_ := side_ o;
     type_ := type_ o; price_ := price; quantity_ := quantity_ o;
     remainingQuantity_ := remainingQuantity_ o; stopPrice_ := stopPrice_ o;
     status_ := status_ o; clientId_ := clientId_ o |}.

Definition setQuantity (quantity : Quantity) (o : t) : t :=
  {| orderId_ := orderId_ o; symbol_ := symbol_ o; side_ := side_ o;
     type_ := type_ o; price_ := price_ o; quantity_ := quantity;
     remainingQuantity_ := quantity; stopPrice_ := stopPrice_ o;
     status_ := status_ o; clientId_ := clientId_ o |}.

Definition setStatus (status : OrderStatus) (o : t) : t :=
  {| orderId_ := orderId_ o; symbol_ := symbol_ o; side_ := side_ o;
     type_ := type_ o; price_ := price_ o; quantity_ := quantity_ o;
     remainingQuantity_ := remainingQuantity_ o; stopPrice_ := stopPrice_ o;
     status_ := status; clientId_ := clientId_ o |}.

Definition setClientId (clientId : string) (o : t) : t :=
  {| orderId_ := orderId_ o; symbol_ := symbol_ o; side_ := side_ o;
     type_ := type_ o; price_ := price_ o; quantity_ := quantity_ o;
     remainingQuantity_ := remainingQuantity_ o; stopPrice_ := stopPrice_ o;
     status_ := status_ o; clientId_ := clientId |}.

Definition getFilledQuantity (o : t) : Quantity :=
  sub64 (quantity_ o) (remainingQuantity_ o).

Definition isFilled (o : t) : bool := (remainingQuantity_ o =? 0)%N.

Definition isActive (o : t) : bool :=
  bool_decide (status_ o = PENDING) || bool_decide (status_ o = PARTIAL_FILL).

(** [Order::fill].  The quantity is first clamped to the remaining
    quantity, so the unsigned subtraction cannot wrap. *)
Definition fill (quantity : Quantity) (o : t) : t :=
  let quantity := if (remainingQuantity_ o <? quantity)%N
                  then remainingQuantity_ o else quantity in
  let remaining := (remainingQuantity_ o - quantity)%N in
  let status :=
    if (remaining =? 0)%N then FILLED
    else if (remaining <? quantity_ o)%N then PARTIAL_FILL
    else status_ o in
  {| orderId_ := orderId_ o; symbol_ := symbol_ o; side_ := side_ o;
     type_ := type_ o; price_ := price_ o; quantity_ := quantity_ o;
     remainingQuantity_ := remaining; stopPrice_ := stopPrice_ o;
     status_ := status; clientId_ := clientId_ o |}.

(** [Order::shouldTrigger]. *)
Definition shouldTrigger (currentPrice : Price) (o : t) : bool :=
  if bool_decide (type_ o ≠ STOP_LOSS) && bool_decide (type_ o ≠ STOP_LIMIT)
  then false
  else match side_ o with
       | BUY => (stopPrice_ o <=? currentPrice)%Z
       | SELL => (currentPrice <=? stopPrice_ o)%Z
       end.

End Order.

(** The store of orders: [h !! p] is the object behind the shared pointer
    [p]. *)
Abbreviation Heap := (list Order.t) (only parsing).

(** ** Trade.h *)

Module Trade.

Record t := mk {
  buyOrderId_ : OrderId;
  sellOrderId_ : OrderId;
  symbol_ : string;
  price_ : Price;
  quantity_ : Quantity
}.

End Trade.

(** ** OrderBook.h, OrderBook.cpp: PriceLevel *)

Module PriceLevel.

Record t := mk {
  price_ : Price;
  totalQuantity_ : Quantity;
  orders_ : list (node * ptr);
  orderMap_ : gmap N node;
  nextNode_ : node
}.

(** [PriceLevel(price)]. *)
Definition new (price : Price) : t :=
  {| price_ := price; totalQuantity_ := 0%N; orders_ := [];
     orderMap_ := ∅; nextNode_ := 0 |}.

Definition getOrderCount (l : t) : nat := length (orders_ l).

Definition isEmpty (l : t) : bool :=
  match orders_ l with [] => true | _ => false end.

(** The queue after a direct mutation through [getOrders()]: only the
    list changes. *)
Definition setOrders (orders : list (node * ptr)) (l : t) : t :=
  {| price_ := price_ l; totalQuantity_ := totalQuantity_ l;
     orders_ := orders; orderMap_ := orderMap_ l; nextNode_ := nextNode_ l |}.

(** The pointer held by the node an iterator designates, if the node is
    still in the list. *)
Fixpoint deref (n : node) (orders : list (node * ptr)) : option ptr :=
  match orders with
  | [] => None
  | (n', p) :: orders' => if decide (n = n') then Some p else deref n orders'
  end.

(** [orders_.erase(it)]. *)
Fixpoint eraseNode (n : node) (orders : list (node * ptr)) : list (node * ptr) :=
  match orders with
  | [] => []
  | (n', p) :: orders' =>
      if decide (n = n') then orders' else (n', p) :: eraseNode n orders'
  end.

(** [PriceLevel::addOrder]. *)
Definition addOrder (order : ptr) (h : Heap) (l : t) : option t :=
  o ← h !! order;
  Some {| price_ := price_ l;
          totalQuantity_ := wrap64 (totalQuantity_ l + Order.remainingQuantity_ o);
          orders_ := orders_ l ++ [(nextNode_ l, order)];
          orderMap_ := <[Order.orderId_ o := nextNode_ l]> (orderMap_ l);
          nextNode_ := S (nextNode_ l) |}.

(** [PriceLevel::removeOrder]. *)
Definition removeOrder (orderId : OrderId) (h : Heap) (l : t) : option t :=
  match orderMap_ l !! orderId with
  | None => Some l
  | Some it =>
      p ← deref it (orders_ l);
      o ← h !! p;
      Some {| price_ := price_ l;
              totalQuantity_ := sub64 (totalQuantity_ l) (Order.remainingQuantity_ o);
              orders_ := eraseNode it (orders_ l);
              orderMap_ := delete orderId (orderMap_ l);
              nextNode_ := nextNode_ l |}
  end.

(** [PriceLevel::getOrder]; the outer [option] is definedness, the inner
    one the null pointer. *)
Definition getOrder (orderId : OrderId) (l : t) : option (option ptr) :=
  match orderMap_ l !! orderId with
  | None => Some None
  | Some it => p ← deref it (orders_ l); Some (Some p)
  end.

(** The pointers of the queue, front first. *)
Definition queue (l : t) : list ptr := (orders_ l).*2.

End PriceLevel.

(** ** The ordered maps of a book

    [std::map<Price, PriceLevel, Compare>] as an association list in
    iteration order.  [comp] is the comparator: [Z.ltb] for the asks
    ([std::less]), [Z.gtb] for the bids ([std::greater]). *)

Module Levels.

Abbreviation t := (list (Price * PriceLevel.t)) (only parsing).

(** [find(price)]. *)
Fixpoint find (price : Price) (m : t) : option PriceLevel.t :=
  match m with
  | [] => None
  | (k, l) :: m' => if (price =? k)%Z then Some l else find price m'
  end.

(** Assignment through [m[price]] or through an iterator: the entry is
    replaced when the key is present, and inserted at its place in the
    iteration order otherwise. *)
Fixpoint set (comp : Price → Price → bool) (price : Price) (l : PriceLevel.t)
    (m : t) : t :=
  match m with
  | [] => [(price, l)]
  | (k, l') :: m' =>
      if (price =? k)%Z then (price, l) :: m'
      else if comp price k then (price, l) :: (k, l') :: m'
      else (k, l') :: set comp price l m'
  end.

(** [erase(it)] for the iterator [find(price)] returned. *)
Fixpoint erase (price : Price) (m : t) : t :=
  match m with
  | [] => []
  | (k, l) :: m' => if (price =? k)%Z then m' else (k, l) :: erase price m'
  end.

(** [m[price]]: the level at the key, default-made when the key is absent. *)
Definition at_ (price : Price) (m : t) : PriceLevel.t :=
  default (PriceLevel.new price) (find price m).

(** [m[order->getPrice()].addOrder(order)]. *)
Definition addOrderAt (comp : Price → Price → bool) (price : Price)
    (order : ptr) (h : Heap) (m : t) : option t :=
  l ← PriceLevel.addOrder order h (at_ price m);
  Some (set comp price l m).

(** The block shared by [cancelOrder] and [modifyOrder]:
    [find], [removeOrder], and [erase] when the level became empty. *)
Definition removeOrderAt (comp : Price → Price → bool) (price : Price)
    (orderId : OrderId) (h : Heap) (m : t) : option t :=
  match find price m with
  | None => Some m
  | Some l =>
      l' ← PriceLevel.removeOrder orderId h l;
      Some (if PriceLevel.isEmpty l' then erase price m else set comp price l' m)
  end.

End Levels.

(** ** OrderBook.h, OrderBook.cpp: OrderBook *)

Module OrderBook.

Record t := mk {
  symbol_ : string;
  bids_ : Levels.t;
  asks_ : Levels.t;
  orderMap_ : gmap N ptr
}.

(** [OrderBook(symbol)]. *)
Definition new (symbol : string) : t :=
  {| symbol_ := symbol; bids_ := []; asks_ := []; orderMap_ := ∅ |}.

Definition setBids (bids : Levels.t) (b : t) : t :=
  {| symbol_ := symbol_ b; bids_ := bids; asks_ := asks_ b; orderMap_ := orderMap_ b |}.

Definition setAsks (asks : Levels.t) (b : t) : t :=
  {| symbol_ := symbol_ b; bids_ := bids_ b; asks_ := asks; orderMap_ := orderMap_ b |}.

Definition setOrderMap (orderMap : gmap N ptr) (b : t) : t :=
  {| symbol_ := symbol_ b; bids_ := bids_ b; asks_ := asks_ b; orderMap_ := orderMap |}.

(** [OrderBook::addOrder]. *)
Definition addOrder (order : ptr) (h : Heap) (b : t) : option t :=
  o ← h !! order;
  let b := setOrderMap (<[Order.orderId_ o := order]> (orderMap_ b)) b in
  match Order.side_ o with
  | BUY =>
      bids ← Levels.addOrderAt Z.gtb (Order.price_ o) order h (bids_ b);
      Some (setBids bids b)
  | SELL =>
      asks ← Levels.addOrderAt Z.ltb (Order.price_ o) order h (asks_ b);
      Some (setAsks asks b)
  end.

(** [OrderBook::cancelOrder]. *)
Definition cancelOrder (orderId : OrderId) (h : Heap) (b : t)
    : option (bool * Heap * t) :=
  match orderMap_ b !! orderId with
  | None => Some (false, h, b)
  | Some order =>
      o ← h !! order;
      let h := <[order := Order.setStatus CANCELLED o]> h in
      b ← match Order.side_ o with
          | BUY =>
              bids ← Levels.removeOrderAt Z.gtb (Order.price_ o) orderId h (bids_ b);
              Some (setBids bids b)
          | SELL =>
              asks ← Levels.removeOrderAt Z.ltb (Order.price_ o) orderId h (asks_ b);
              Some (setAsks asks b)
          end;
      Some (true, h, setOrderMap (delete orderId (orderMap_ b)) b)
  end.

(** [OrderBook::modifyOrder]. *)
Definition modifyOrder (orderId : OrderId) (newPrice : Price)
    (newQuantity : Quantity) (h : Heap) (b : t) : option (bool * Heap * t) :=
  match orderMap_ b !! orderId with
  | None => Some (false, h, b)
  | Some order =>
      o ← h !! order;
      b ← match Order.side_ o with
          | BUY =>
              bids ← Levels.removeOrderAt Z.gtb (Order.price_ o) orderId h (bids_ b);
              Some (setBids bids b)
          | SELL =>
              asks ← Levels.removeOrderAt Z.ltb (Order.price_ o) orderId h (asks_ b);
              Some (setAsks asks b)
          end;
      let h := <[order := Order.setStatus PENDING
                            (Order.setQuantity newQuantity
                               (Order.setPrice newPrice o))]> h in
      b ← match Order.side_ o with
          | BUY =>
              bids ← Levels.addOrderAt Z.gtb newPrice order h (bids_ b);
              Some (setBids bids b)
          | SELL =>
              asks ← Levels.addOrderAt Z.ltb newPrice order h (asks_ b);
              Some (setAsks asks b)
          end;
      Some (true, h, b)
  end.

(** [OrderBook::getOrder]: the pointer in the index, or null. *)
Definition getOrder (orderId : OrderId) (b : t) : option ptr :=
  orderMap_ b !! orderId.

(** What the sweep threads through its two loops besides the levels: the
    store, the book's index and the vector of trades. *)
Record sweep := mkSweep {
  sw_heap : Heap;
  sw_orderMap : gmap N ptr;
  sw_trades : list Trade.t
}.

(** The inner [while] of [executeMatches], over the queue of one level.
    The result is the queue left in the level. *)
Fixpoint matchQueue (symbol : string) (order : ptr)
    (orders : list (node * ptr)) (s : sweep)
    : option (list (node * ptr) * sweep) :=
  match orders with
  | [] => Some ([], s)
  | (n, matchingOrder) :: orders' =>
      o ← sw_heap s !! order;
      if (0 <? Order.remainingQuantity_ o)%N then
        m ← sw_heap s !! matchingOrder;
        let fillQty := N.min (Order.remainingQuantity_ o)
                             (Order.remainingQuantity_ m) in
        let tradePrice := Order.price_ m in
        let trade :=
          {| Trade.buyOrderId_ :=
               if decide (Order.side_ o = BUY)
               then Order.orderId_ o else Order.orderId_ m;
             Trade.sellOrderId_ :=
               if decide (Order.side_ o = SELL)
               then Order.orderId_ o else Order.orderId_ m;
             Trade.symbol_ := symbol;
             Trade.price_ := tradePrice;
             Trade.quantity_ := fillQty |} in
        let h := <[order := Order.fill fillQty o]> (sw_heap s) in
        m ← h !! matchingOrder;
        let h := <[matchingOrder := Order.fill fillQty m]> h in
        m ← h !! matchingOrder;
        if Order.isFilled m then
          matchQueue symbol order orders'
            {| sw_heap := h;
               sw_orderMap := delete (Order.orderId_ m) (sw_orderMap s);
               sw_trades := sw_trades s ++ [trade] |}
        else
          '(orders'', s') ← matchQueue symbol order orders'
            {| sw_heap := h;
               sw_orderMap := sw_orderMap s;
               sw_trades := sw_trades s ++ [trade] |};
          Some ((n, matchingOrder) :: orders'', s')
      else Some (orders, s)
  end.

(** The outer [while] of [executeMatches], over the levels of the opposite
    side in iteration order.  [tooFar] is the price test of the overload:
    it is looked at for LIMIT orders only.  The result is the map left
    behind. *)
Fixpoint matchLevels (tooFar : Order.t → Price → bool) (symbol : string)
    (order : ptr) (levels : Levels.t) (s : sweep) : option (Levels.t * sweep) :=
  match levels with
  | [] => Some ([], s)
  | (price, level) :: levels' =>
      o ← sw_heap s !! order;
      if (0 <? Order.remainingQuantity_ o)%N then
        if bool_decide (Order.type_ o = LIMIT) && tooFar o price
        then Some (levels, s)
        else
          '(orders, s) ← matchQueue symbol order (PriceLevel.orders_ level) s;
          let level := PriceLevel.setOrders orders level in
          if PriceLevel.isEmpty level then
            matchLevels tooFar symbol order levels' s
          else
            '(levels'', s) ← matchLevels tooFar symbol order levels' s;
            Some ((price, level) :: levels'', s)
      else Some (levels, s)
  end.

(** The price tests of the two overloads of [executeMatches]. *)
Definition askTooHigh (o : Order.t) (price : Price) : bool :=
  bool_decide (Order.side_ o = BUY) && (Order.price_ o <? price)%Z.

Definition bidTooLow (o : Order.t) (price : Price) : bool :=
  bool_decide (Order.side_ o = SELL) && (price <? Order.price_ o)%Z.

(** [OrderBook::executeMatches] on [asks_] (the [std::less] overload). *)
Definition executeMatches_asks (order : ptr) (fillEntireOrder : bool)
    (h : Heap) (b : t) : option (list Trade.t * Heap * t) :=
  '(asks, s) ← matchLevels askTooHigh (symbol_ b) order (asks_ b)
      {| sw_heap := h; sw_orderMap := orderMap_ b; sw_trades := [] |};
  Some (sw_trades s, sw_heap s, setOrderMap (sw_orderMap s) (setAsks asks b)).

(** [OrderBook::executeMatches] on [bids_] (the [std::greater] overload). *)
Definition executeMatches_bids (order : ptr) (fillEntireOrder : bool)
    (h : Heap) (b : t) : option (list Trade.t * Heap * t) :=
  '(bids, s) ← matchLevels bidTooLow (symbol_ b) order (bids_ b)
      {| sw_heap := h; sw_orderMap := orderMap_ b; sw_trades := [] |};
  Some (sw_trades s, sw_heap s, setOrderMap (sw_orderMap s) (setBids bids b)).

(** The dispatch on the side that every [match...Order] starts with. *)
Definition executeMatches (order : ptr) (fillEntireOrder : bool)
    (h : Heap) (b : t) : option (list Trade.t * Heap * t) :=
  o ← h !! order;
  match Order.side_ o with
  | BUY => executeMatches_asks order fillEntireOrder h b
  | SELL => executeMatches_bids order fillEntireOrder h b
  end.

(** The loop of [canFillEntireOrder]; [availableQty] is the accumulator. *)
Fixpoint canFillLoop (tooFar : Order.t → Price → bool) (o : Order.t)
    (levels : Levels.t) (availableQty : Quantity) : bool :=
  match levels with
  | [] => false
  | (price, level) :: levels' =>
      if (bool_decide (Order.type_ o = LIMIT) || bool_decide (Order.type_ o = FOK))
         && tooFar o price
      then false
      else
        let availableQty := wrap64 (availableQty + PriceLevel.totalQuantity_ level) in
        if (Order.remainingQuantity_ o <=? availableQty)%N then true
        else canFillLoop tooFar o levels' availableQty
  end.

(** [OrderBook::canFillEntireOrder], both overloads. *)
Definition canFillEntireOrder_asks (o : Order.t) (levels : Levels.t) : bool :=
  canFillLoop askTooHigh o levels 0%N.

Definition canFillEntireOrder_bids (o : Order.t) (levels : Levels.t) : bool :=
  canFillLoop bidTooLow o levels 0%N.

(** The tail of [matchMarketOrder] and [matchIOCOrder]: what is left
    unfilled is cancelled. *)
Definition cancelUnfilled (order : ptr) (h : Heap) : option Heap :=
  o ← h !! order;
  Some (if (0 <? Order.remainingQuantity_ o)%N
        then <[order := Order.setStatus CANCELLED o]> h else h).

(** [OrderBook::matchMarketOrder]. *)
Definition matchMarketOrder (order : ptr) (h : Heap) (b : t)
    : option (list Trade.t * Heap * t) :=
  '(trades, h, b) ← executeMatches order false h b;
  h ← cancelUnfilled order h;
  Some (trades, h, b).

(** [OrderBook::matchLimitOrder]. *)
Definition matchLimitOrder (order : ptr) (h : Heap) (b : t)
    : option (list Trade.t * Heap * t) :=
  o0 ← h !! order;
  '(trades, h, b) ← executeMatches order false h b;
  o ← h !! order;
  if (0 <? Order.remainingQuantity_ o)%N && Order.isActive o then
    match Order.side_ o0 with
    | BUY =>
        bids ← Levels.addOrderAt Z.gtb (Order.price_ o) order h (bids_ b);
        Some (trades, h,
              setOrderMap (<[Order.orderId_ o := order]> (orderMap_ b))
                (setBids bids b))
    | SELL =>
        asks ← Levels.addOrderAt Z.ltb (Order.price_ o) order h (asks_ b);
        Some (trades, h,
              setOrderMap (<[Order.orderId_ o := order]> (orderMap_ b))
                (setAsks asks b))
    end
  else Some (trades, h, b).

(** [OrderBook::matchIOCOrder]. *)
Definition matchIOCOrder (order : ptr) (h : Heap) (b : t)
    : option (list Trade.t * Heap * t) :=
  '(trades, h, b) ← executeMatches order false h b;
  h ← cancelUnfilled order h;
  Some (trades, h, b).

(** [OrderBook::matchFOKOrder]. *)
Definition matchFOKOrder (order : ptr) (h : Heap) (b : t)
    : option (list Trade.t * Heap * t) :=
  o ← h !! order;
  let canFill :=
    match Order.side_ o with
    | BUY => canFillEntireOrder_asks o (asks_ b)
    | SELL => canFillEntireOrder_bids o (bids_ b)
    end in
  if negb canFill then
    Some ([], <[order := Order.setStatus CANCELLED o]> h, b)
  else executeMatches order true h b.

(** [OrderBook::matchOrder]. *)
Definition matchOrder (order : ptr) (h : Heap) (b : t)
    : option (list Trade.t * Heap * t) :=
  o ← h !! order;
  match Order.type_ o with
  | MARKET => matchMarketOrder order h b
  | LIMIT => matchLimitOrder order h b
  | IOC => matchIOCOrder order h b
  | FOK => matchFOKOrder order h b
  | STOP_LOSS | STOP_LIMIT => matchLimitOrder order h b
  end.

(** Market data. *)
Definition getBestBid (b : t) : Price :=
  match bids_ b with [] => 0%Z | (price, _) :: _ => price end.

Definition getBestAsk (b : t) : Price :=
  match asks_ b with [] => 0%Z | (price, _) :: _ => price end.

Definition getBidQuantityAtLevel (price : Price) (b : t) : Quantity :=
  match Levels.find price (bids_ b) with
  | Some l => PriceLevel.totalQuantity_ l
  | None => 0%N
  end.

Definition getAskQuantityAtLevel (price : Price) (b : t) : Quantity :=
  match Levels.find price (asks_ b) with
  | Some l => PriceLevel.totalQuantity_ l
  | None => 0%N
  end.

Definition depth (levels : nat) (m : Levels.t) : list (Price * Quantity) :=
  (λ kl, (kl.1, PriceLevel.totalQuantity_ kl.2)) <$> take levels m.

Definition getBidDepth (levels : nat) (b : t) := depth levels (bids_ b).
Definition getAskDepth (levels : nat) (b : t) := depth levels (asks_ b).

End OrderBook.

(** ** MatchingEngine.h, MatchingEngine.cpp *)

Module MatchingEngineCore.

Record t := mk {
  orderBooks_ : gmap string OrderBook.t;
  orderToSymbol_ : gmap N string;
  nextOrderId_ : OrderId;
  totalOrders_ : N;
  totalTrades_ : N
}.

(** [MatchingEngineCore()]. *)
Definition new : t :=
  {| orderBooks_ := ∅; orderToSymbol_ := ∅; nextOrderId_ := 1%N;
     totalOrders_ := 0%N; totalTrades_ := 0%N |}.

(** [getOrCreateOrderBook]: the book registered for the symbol, a new one
    when there is none. *)
Definition getOrCreateOrderBook (symbol : string) (e : t) : OrderBook.t :=
  default (OrderBook.new symbol) (orderBooks_ e !! symbol).

(** [MatchingEngineCore::submitOrder].  [std::make_shared<Order>] puts the
    new order at the end of the store.  The trades handed to the trade
    callback are returned next to the order id. *)
Definition submitOrder (symbol : string) (side : Side) (type : OrderType)
    (price : Price) (quantity : Quantity) (clientId : string)
    (stopPrice : Price) (h : Heap) (e : t)
    : option (OrderId * list Trade.t * Heap * t) :=
  let orderId := nextOrderId_ e in
  let order := length h in
  let h := h ++ [Order.setClientId clientId
                   (Order.new orderId symbol side type price quantity stopPrice)] in
  let book := getOrCreateOrderBook symbol e in
  '(trades, h, book) ← OrderBook.matchOrder order h book;
  Some (orderId, trades, h,
        {| orderBooks_ := <[symbol := book]> (orderBooks_ e);
           orderToSymbol_ := <[orderId := symbol]> (orderToSymbol_ e);
           nextOrderId_ := wrap64 (nextOrderId_ e + 1);
           totalOrders_ := wrap64 (totalOrders_ e + 1);
           totalTrades_ := wrap64 (totalTrades_ e + N.of_nat (length trades)) |}).

(** [MatchingEngineCore::cancelOrder]. *)
Definition cancelOrder (orderId : OrderId) (h : Heap) (e : t)
    : option (bool * Heap * t) :=
  match orderToSymbol_ e !! orderId with
  | None => Some (false, h, e)
  | Some symbol =>
      match orderBooks_ e !! symbol with
      | None => Some (false, h, e)
      | Some book =>
          '(success, h, book) ← OrderBook.cancelOrder orderId h book;
          Some (success, h,
                {| orderBooks_ := <[symbol := book]> (orderBooks_ e);
                   orderToSymbol_ :=
                     if (success : bool) then delete orderId (orderToSymbol_ e)
                     else orderToSymbol_ e;
                   nextOrderId_ := nextOrderId_ e;
                   totalOrders_ := totalOrders_ e;
                   totalTrades_ := totalTrades_ e |})
      end
  end.

(** [MatchingEngineCore::modifyOrder]. *)
Definition modifyOrder (orderId : OrderId) (newPrice : Price)
    (newQuantity : Quantity) (h : Heap) (e : t) : option (bool * Heap * t) :=
  match orderToSymbol_ e !! orderId with
  | None => Some (false, h, e)
  | Some symbol =>
      match orderBooks_ e !! symbol with
      | None => Some (false, h, e)
      | Some book =>
          '(success, h, book) ← OrderBook.modifyOrder orderId newPrice newQuantity h book;
          Some (success, h,
                {| orderBooks_ := <[symbol := book]> (orderBooks_ e);
                   orderToSymbol_ := orderToSymbol_ e;
                   nextOrderId_ := nextOrderId_ e;
                   totalOrders_ := totalOrders_ e;
                   totalTrades_ := totalTrades_ e |})
      end
  end.

(** [MatchingEngineCore::getOrder]: a pointer, or null. *)
Definition getOrder (orderId : OrderId) (e : t) : option ptr :=
  match orderToSymbol_ e !! orderId with
  | None => None
  | Some symbol =>
      match orderBooks_ e !! symbol with
      | None => None
      | Some book => OrderBook.getOrder orderId book
      end
  end.

Definition getBestBid (symbol : string) (e : t) : Price :=
  match orderBooks_ e !! symbol with
  | None => 0%Z
  | Some book => OrderBook.getBestBid book
  end.

Definition getBestAsk (symbol : string) (e : t) : Price :=
  match orderBooks_ e !! symbol with
  | None => 0%Z
  | Some book => OrderBook.getBestAsk book
  end.

(** [MatchingEngineCore::getBidDepth], [MatchingEngineCore::getAskDepth]. *)
Definition getBidDepth (symbol : string) (levels : nat) (e : t)
    : list (Price * Quantity) :=
  match orderBooks_ e !! symbol with
  | None => []
  | Some book => OrderBook.getBidDepth levels book
  end.

Definition getAskDepth (symbol : string) (levels : nat) (e : t)
    : list (Price * Quantity) :=
  match orderBooks_ e !! symbol with
  | None => []
  | Some book => OrderBook.getAskDepth levels book
  end.

(** [getTotalOrders], [getTotalTrades]. *)
Definition getTotalOrders (e : t) : N := totalOrders_ e.
Definition getTotalTrades (e : t) : N := totalTrades_ e.

End MatchingEngineCore.

(** ** Message.h *)

Inductive MessageType :=
  | NEW_ORDER | CANCEL_ORDER | MODIFY_ORDER | ORDER_ACK | ORDER_REJECT
  | EXECUTION_REPORT | MARKET_DATA | HEARTBEAT.

#[global] Instance MessageType_eq_dec : EqDecision MessageType.
Proof. solve_decision. Defined.

(** The [char] arrays of the messages.  An array is the list of its
    elements; a [std::string] may hold any character, the NUL character
    included. *)
Module CharArray.

Definition NUL : Ascii.ascii := Ascii.zero.

(** The characters of a C string: those before the first NUL. *)
Fixpoint untilNul (a : list Ascii.ascii) : list Ascii.ascii :=
  match a with
  | [] => []
  | c :: a' => if decide (c = NUL) then [] else c :: untilNul a'
  end.

(** [std::memset(a, 0, sizeof(a))]. *)
Definition zeroed (size : nat) : list Ascii.ascii := replicate size NUL.

(** [std::strncpy(dest, s.c_str(), n)], for [n] within the array: the
    first [n] characters of the C string, followed by NULs up to [n] when
    the C string is shorter; the array keeps what it holds from [n] on. *)
Definition strncpy (dest : list Ascii.ascii) (s : string) (n : nat)
    : list Ascii.ascii :=
  let src := take n (untilNul (String.list_ascii_of_string s)) in
  src ++ replicate (n - length src) NUL ++ drop n dest.

(** [std::string(a)]: the characters before the first NUL.  Without a NUL
    in the array the constructor reads past its end, which is undefined. *)
Definition toString (a : list Ascii.ascii) : option string :=
  if decide (NUL ∈ a) then Some (String.string_of_list_ascii (untilNul a))
  else None.

End CharArray.

(** The header of a message.  Its [length] field is [sizeof] of the message,
    a number of the ABI that no code reads; it is left out. *)
Module MessageHeader.

Record t := mk { type : MessageType; timestamp : N }.

(** [MessageHeader(t, len)]. *)
Definition new (t : MessageType) : MessageHeader.t :=
  {| type := t; timestamp := 0%N |}.

End MessageHeader.

Module NewOrderMessage.

Record t := mk {
  header : MessageHeader.t;
  clientOrderId : OrderId;
  symbol : list Ascii.ascii;
  side : Side;
  orderType : OrderType;
  price : Price;
  quantity : Quantity;
  stopPrice : Price;
  clientId : list Ascii.ascii
}.

Definition sizeof_symbol : nat := 16.
Definition sizeof_clientId : nat := 32.

(** [NewOrderMessage()]. *)
Definition new : t :=
  {| header := MessageHeader.new NEW_ORDER; clientOrderId := 0%N;
     symbol := CharArray.zeroed sizeof_symbol; side := BUY; orderType := LIMIT;
     price := 0%Z; quantity := 0%N; stopPrice := 0%Z;
     clientId := CharArray.zeroed sizeof_clientId |}.

Definition setSymbol (s : string) (m : t) : t :=
  {| header := header m; clientOrderId := clientOrderId m;
     symbol := CharArray.strncpy (symbol m) s (sizeof_symbol - 1);
     side := side m; orderType := orderType m; price := price m;
     quantity := quantity m; stopPrice := stopPrice m; clientId := clientId m |}.

Definition setClientId (id : string) (m : t) : t :=
  {| header := header m; clientOrderId := clientOrderId m; symbol := symbol m;
     side := side m; orderType := orderType m; price := price m;
     quantity := quantity m; stopPrice := stopPrice m;
     clientId := CharArray.strncpy (clientId m) id (sizeof_clientId - 1) |}.

Definition getSymbol (m : t) : option string := CharArray.toString (symbol m).
Definition getClientId (m : t) : option string := CharArray.toString (clientId m).

End NewOrderMessage.

Module CancelOrderMessage.

Record t := mk {
  header : MessageHeader.t;
  orderId : OrderId;
  clientId : list Ascii.ascii
}.

Definition sizeof_clientId : nat := 32.

(** [CancelOrderMessage()]. *)
Definition new : t :=
  {| header := MessageHeader.new CANCEL_ORDER; orderId := 0%N;
     clientId := CharArray.zeroed sizeof_clientId |}.

Definition setClientId (id : string) (m : t) : t :=
  {| header := header m; orderId := orderId m;
     clientId := CharArray.strncpy (clientId m) id (sizeof_clientId - 1) |}.

Definition getClientId (m : t) : option string := CharArray.toString (clientId m).

End CancelOrderMessage.

Module ModifyOrderMessage.

Record t := mk {
  header : MessageHeader.t;
  orderId : OrderId;
  newPrice : Price;
  newQuantity : Quantity;
  clientId : list Ascii.ascii
}.

Definition sizeof_clientId : nat := 32.

(** [ModifyOrderMessage()]. *)
Definition new : t :=
  {| header := MessageHeader.new MODIFY_ORDER; orderId := 0%N; newPrice := 0%Z;
     newQuantity := 0%N; clientId := CharArray.zeroed sizeof_clientId |}.

Definition setClientId (id : string) (m : t) : t :=
  {| header := header m; orderId := orderId m; newPrice := newPrice m;
     newQuantity := newQuantity m;
     clientId := CharArray.strncpy (clientId m) id (sizeof_clientId - 1) |}.

Definition getClientId (m : t) : option string := CharArray.toString (clientId m).

End ModifyOrderMessage.

Module OrderAckMessage.

Record t := mk {
  header : MessageHeader.t;
  clientOrderId : OrderId;
  orderId : OrderId;
  status : OrderStatus;
  message : list Ascii.ascii
}.

Definition sizeof_message : nat := 128.

(** [OrderAckMessage()]. *)
Definition new : t :=
  {| header := MessageHeader.new ORDER_ACK; clientOrderId := 0%N; orderId := 0%N;
     status := PENDING; message := CharArray.zeroed sizeof_message |}.

Definition setClientOrderId (id : OrderId) (m : t) : t :=
  {| header := header m; clientOrderId := id; orderId := orderId m;
     status := status m; message := message m |}.

Definition setOrderId (id : OrderId) (m : t) : t :=
  {| header := header m; clientOrderId := clientOrderId m; orderId := id;
     status := status m; message := message m |}.

Definition setStatus (st : OrderStatus) (m : t) : t :=
  {| header := header m; clientOrderId := clientOrderId m; orderId := orderId m;
     status := st; message := message m |}.

Definition setMessage (msg : string) (m : t) : t :=
  {| header := header m; clientOrderId := clientOrderId m; orderId := orderId m;
     status := status m;
     message := CharArray.strncpy (message m) msg (sizeof_message - 1) |}.

Definition getMessage (m : t) : option string := CharArray.toString (message m).

End OrderAckMessage.

Module ExecutionReportMessage.

Record t := mk {
  header : MessageHeader.t;
  orderId : OrderId;
  symbol : list Ascii.ascii;
  side : Side;
  executionPrice : Price;
  executionQuantity : Quantity;
  remainingQuantity : Quantity;
  status : OrderStatus;
  tradeId : N
}.

Definition sizeof_symbol : nat := 16.

(** [ExecutionReportMessage()]. *)
Definition new : t :=
  {| header := MessageHeader.new EXECUTION_REPORT; orderId := 0%N;
     symbol := CharArray.zeroed sizeof_symbol; side := BUY; executionPrice := 0%Z;
     executionQuantity := 0%N; remainingQuantity := 0%N; status := PENDING;
     tradeId := 0%N |}.

Definition setSymbol (s : string) (m : t) : t :=
  {| header := header m; orderId := orderId m;
     symbol := CharArray.strncpy (symbol m) s (sizeof_symbol - 1);
     side := side m; executionPrice := executionPrice m;
     executionQuantity := executionQuantity m;
     remainingQuantity := remainingQuantity m; status := status m;
     tradeId := tradeId m |}.

Definition getSymbol (m : t) : option string := CharArray.toString (symbol m).

End ExecutionReportMessage.

(** ** Server.cpp: the handlers of the messages

    A handler runs on the thread of its client; the model is the run of
    one handler with no other thread calling the engine meanwhile.  What is
    printed is left out, and so is the result of [sendMessage], which no
    handler looks at: the handlers return the messages they pass to
    [sendMessage], in order. *)

Module Server.

Inductive sent :=
  | SentAck (ack : OrderAckMessage.t)
  | SentExecutionReport (exec : ExecutionReportMessage.t).

(** [Server::handleNewOrder]. *)
Definition handleNewOrder (msg : NewOrderMessage.t) (h : Heap)
    (e : MatchingEngineCore.t)
    : option (list sent * Heap * MatchingEngineCore.t) :=
  symbol ← NewOrderMessage.getSymbol msg;
  clientId ← NewOrderMessage.getClientId msg;
  '(orderId, _, h, e) ←
    MatchingEngineCore.submitOrder symbol (NewOrderMessage.side msg)
      (NewOrderMessage.orderType msg) (NewOrderMessage.price msg)
      (NewOrderMessage.quantity msg) clientId (NewOrderMessage.stopPrice msg) h e;
  let ack :=
    OrderAckMessage.setMessage "Order accepted"
      (OrderAckMessage.setStatus PENDING
         (OrderAckMessage.setOrderId orderId
            (OrderAckMessage.setClientOrderId (NewOrderMessage.clientOrderId msg)
               OrderAckMessage.new))) in
  match MatchingEngineCore.getOrder orderId e with
  | None => Some ([SentAck ack], h, e)
  | Some order =>
      o ← h !! order;
      if bool_decide (Order.status_ o ≠ PENDING) then
        let exec :=
          ExecutionReportMessage.setSymbol (Order.symbol_ o)
            ExecutionReportMessage.new in
        let exec :=
          {| ExecutionReportMessage.header := ExecutionReportMessage.header exec;
             ExecutionReportMessage.orderId := orderId;
             ExecutionReportMessage.symbol := ExecutionReportMessage.symbol exec;
             ExecutionReportMessage.side := Order.side_ o;
             ExecutionReportMessage.executionPrice := Order.price_ o;
             ExecutionReportMessage.executionQuantity := Order.getFilledQuantity o;
             ExecutionReportMessage.remainingQuantity := Order.remainingQuantity_ o;
             ExecutionReportMessage.status := Order.status_ o;
             ExecutionReportMessage.tradeId := ExecutionReportMessage.tradeId exec |} in
        Some ([SentAck ack; SentExecutionReport exec], h, e)
      else Some ([SentAck ack], h, e)
  end.

(** [Server::handleCancelOrder]. *)
Definition handleCancelOrder (msg : CancelOrderMessage.t) (h : Heap)
    (e : MatchingEngineCore.t)
    : option (list sent * Heap * MatchingEngineCore.t) :=
  '(success, h, e) ←
    MatchingEngineCore.cancelOrder (CancelOrderMessage.orderId msg) h e;
  let ack := OrderAckMessage.setOrderId (CancelOrderMessage.orderId msg)
               OrderAckMessage.new in
  let ack :=
    if (success : bool) then
      OrderAckMessage.setMessage "Order cancelled"
        (OrderAckMessage.setStatus CANCELLED ack)
    else
      OrderAckMessage.setMessage "Order not found"
        (OrderAckMessage.setStatus REJECTED ack) in
  Some ([SentAck ack], h, e).

(** [Server::handleModifyOrder]. *)
Definition handleModifyOrder (msg : ModifyOrderMessage.t) (h : Heap)
    (e : MatchingEngineCore.t)
    : option (list sent * Heap * MatchingEngineCore.t) :=
  '(success, h, e) ←
    MatchingEngineCore.modifyOrder (ModifyOrderMessage.orderId msg)
      (ModifyOrderMessage.newPrice msg) (ModifyOrderMessage.newQuantity msg) h e;
  let ack := OrderAckMessage.setOrderId (ModifyOrderMessage.orderId msg)
               OrderAckMessage.new in
  let ack :=
    if (success : bool) then
      OrderAckMessage.setMessage "Order modified"
        (OrderAckMessage.setStatus PENDING ack)
    else
      OrderAckMessage.setMessage "Failed to modify order"
        (OrderAckMessage.setStatus REJECTED ack) in
  Some ([SentAck ack], h, e).

(** *** The receive loop

    The socket of a client is the sequence of the bytes that arrive on it
    before the connection ends.  The sizes of the structs and the value of
    [header.type] for given bytes belong to the ABI: they are parameters. *)

Section loop.

Variable sizeofHeader : nat.
Variable sizeofMessage : MessageType → nat.
(** [header.type] after the bytes were copied into the header; [None]
    stands for a value that is none of the enumerators. *)
Variable headerType : list Byte.byte → option MessageType.

(** [Server::receiveMessage]: the bytes read, or failure when the
    connection ends before [len] bytes came; and what is left to read. *)
Definition receiveMessage (len : nat) (stream : list Byte.byte)
    : option (list Byte.byte) * list Byte.byte :=
  if decide (len ≤ length stream)
  then (Some (take len stream), drop len stream)
  else (None, []).

(** [Server::handleClient] while [running_] is set: the calls of the
    handlers, each with the bytes copied into its message; the echo of a
    heartbeat counts as its handler.  [fuel] bounds the iterations. *)
Fixpoint handleClient (fuel : nat) (stream : list Byte.byte)
    : option (list (MessageType * list Byte.byte)) :=
  match fuel with
  | 0 => None
  | S fuel =>
      match receiveMessage sizeofHeader stream with
      | (None, _) => Some []
      | (Some header, stream) =>
          match headerType header with
          | Some ((NEW_ORDER | CANCEL_ORDER | MODIFY_ORDER | HEARTBEAT) as t) =>
              match receiveMessage (sizeofMessage t) stream with
              | (Some msg, stream) =>
                  calls ← handleClient fuel stream;
                  Some ((t, msg) :: calls)
              | (None, stream) => handleClient fuel stream
              end
          | _ => handleClient fuel stream
          end
      end
  end.

End loop.

End Server.


(** * Vocabulary of the properties *)

(** The keys of a map in iteration order, and the pointers resting in it,
    best level first and front of each queue first. *)
Definition keys (m : Levels.t) : list Price := m.*1.

Definition resting (m : Levels.t) : list ptr :=
  m ≫= (λ kl, PriceLevel.queue kl.2).

(** An order rests in a book when a queue or the index holds its pointer. *)
Definition restsIn (p : ptr) (b : OrderBook.t) : Prop :=
  p ∈ resting (OrderBook.bids_ b) ∨ p ∈ resting (OrderBook.asks_ b)
  ∨ ∃ orderId, OrderBook.orderMap_ b !! orderId = Some p.

(** Every pointer of the book designates an order of the store. *)
Definition closedLevels (h : Heap) (m : Levels.t) : Prop :=
  Forall (λ p, p < length h) (resting m).

Definition closed (h : Heap) (b : OrderBook.t) : Prop :=
  closedLevels h (OrderBook.bids_ b) ∧ closedLevels h (OrderBook.asks_ b).

(** The side an incoming order sweeps, and the side it rests on. *)
Definition opposite (side : Side) (b : OrderBook.t) : Levels.t :=
  match side with BUY => OrderBook.asks_ b | SELL => OrderBook.bids_ b end.

Definition ownSide (side : Side) (b : OrderBook.t) : Levels.t :=
  match side with BUY => OrderBook.bids_ b | SELL => OrderBook.asks_ b end.

(** The id of the resting order in a trade made by a taker of the given
    side. *)
Definition passiveId (side : Side) (t : Trade.t) : OrderId :=
  match side with
  | BUY => Trade.sellOrderId_ t
  | SELL => Trade.buyOrderId_ t
  end.

(** Fields read through a pointer; the defaults are never met on a closed
    book. *)
Definition remainingOf (h : Heap) (p : ptr) : Quantity :=
  from_option Order.remainingQuantity_ 0%N (h !! p).

Definition idOf (h : Heap) (p : ptr) : OrderId :=
  from_option Order.orderId_ 0%N (h !! p).

(** Σ remainingQuantity over the FIFO queue of a level. *)
Definition queueRemaining (h : Heap) (l : PriceLevel.t) : Quantity :=
  foldr (λ p acc, (remainingOf h p + acc)%N) 0%N (PriceLevel.queue l).

Definition aggregateConsistent (h : Heap) (l : PriceLevel.t) : Prop :=
  PriceLevel.totalQuantity_ l = queueRemaining h l.

(** What can be observed of a level and of a book: keys, aggregates, queues
    and the index.  Node identities and the per-level id index stay
    inside. *)
Definition levelView (kl : Price * PriceLevel.t) : Price * Quantity * list ptr :=
  (kl.1, PriceLevel.totalQuantity_ kl.2, PriceLevel.queue kl.2).

Record bookView := mkView {
  v_symbol : string;
  v_bids : list (Price * Quantity * list ptr);
  v_asks : list (Price * Quantity * list ptr);
  v_orderMap : gmap N ptr
}.

Definition view (b : OrderBook.t) : bookView :=
  {| v_symbol := OrderBook.symbol_ b;
     v_bids := levelView <$> OrderBook.bids_ b;
     v_asks := levelView <$> OrderBook.asks_ b;
     v_orderMap := OrderBook.orderMap_ b |}.

(** The index printed as a list, for the examples. *)
Definition indexed (b : OrderBook.t) : list (OrderId * ptr) :=
  map_to_list (OrderBook.orderMap_ b).

(** The book at rest is not crossed. *)
Definition notCrossed (b : OrderBook.t) : Prop :=
  OrderBook.bids_ b = [] ∨ OrderBook.asks_ b = []
  ∨ (OrderBook.getBestBid b < OrderBook.getBestAsk b)%Z.

(** The representation invariant of the two [std::map]s: keys strictly
    increasing along the asks and strictly decreasing along the bids. *)
Definition sortedAsks (m : Levels.t) : Prop := StronglySorted Z.lt (keys m).
Definition sortedBids (m : Levels.t) : Prop := StronglySorted Z.gt (keys m).

Definition sortedBook (b : OrderBook.t) : Prop :=
  sortedBids (OrderBook.bids_ b) ∧ sortedAsks (OrderBook.asks_ b).

(** No level is empty, and every aggregate is a [uint64_t]. *)
Definition noEmptyLevel (m : Levels.t) : Prop :=
  Forall (λ kl, PriceLevel.isEmpty kl.2 = false) m.

Definition boundedTotals (m : Levels.t) : Prop :=
  Forall (λ kl, (PriceLevel.totalQuantity_ kl.2 < two64)%N) m.

(** ** Orders under [fill] *)

(** One call of [Order::fill], and the fields no fill changes. *)
Definition fillStep (o o' : Order.t) : Prop := ∃ q, o' = Order.fill q o.

Definition sameStatic (o o' : Order.t) : Prop :=
  Order.orderId_ o' = Order.orderId_ o
  ∧ Order.symbol_ o' = Order.symbol_ o
  ∧ Order.side_ o' = Order.side_ o
  ∧ Order.type_ o' = Order.type_ o
  ∧ Order.price_ o' = Order.price_ o
  ∧ Order.quantity_ o' = Order.quantity_ o.

(** FILLED exactly when nothing remains. *)
Definition filledIffDone (o : Order.t) : Prop :=
  Order.status_ o = FILLED ↔ Order.remainingQuantity_ o = 0%N.

(** The store after some fills: same length, each order reached from its
    former self by calls of [fill]. *)
Definition filledFrom (h h' : Heap) : Prop := Forall2 (rtc fillStep) h h'.

Ltac nbool :=
  repeat match goal with
  | |- context [(?a <? ?b)%N] => destruct (N.ltb_spec a b)
  | |- context [(?a =? ?b)%N] => destruct (N.eqb_spec a b)
  | |- context [(?a <=? ?b)%N] => destruct (N.leb_spec a b)
  | H : context [(?a <? ?b)%N] |- _ => destruct (N.ltb_spec a b)
  | H : context [(?a =? ?b)%N] |- _ => destruct (N.eqb_spec a b)
  | H : context [(?a <=? ?b)%N] |- _ => destruct (N.leb_spec a b)
  end.

(** ** Orders of the scenarios

    Prices are dollars times 10000: 1490000 is 149.00, 1500000 is 150.00,
    1520000 is 152.00. *)

Definition AAPL : string := "AAPL".

Definition order (orderId : OrderId) (side : Side) (type : OrderType)
    (price : Price) (quantity : Quantity) : Order.t :=
  Order.new orderId AAPL side type price quantity 0.

(** Submitting the orders behind the pointers one after the other to
    [matchOrder], keeping the trades of each call. *)
Fixpoint matchAll (orders : list ptr) (h : Heap) (b : OrderBook.t)
    : option (list (list Trade.t) * Heap * OrderBook.t) :=
  match orders with
  | [] => Some ([], h, b)
  | order :: orders' =>
      '(trades, h, b) ← OrderBook.matchOrder order h b;
      '(rest, h, b) ← matchAll orders' h b;
      Some (trades :: rest, h, b)
  end.

(** A resting sell of 100 at 150.00, a buy of 50 at 150.00 that fills half of
    it, and a fill-or-kill buy of 100 at 150.00. *)
Definition partialFillOrders : Heap :=
  [ order 1 SELL LIMIT 1500000 100; order 2 BUY LIMIT 1500000 50;
    order 3 BUY FOK 1500000 100 ].

(** A resting sell of 50 at 150.00 and three buys of 50 at 149.00 that
    differ by their type only. *)
Definition belowAskOrders : Heap :=
  [ order 1 SELL LIMIT 1500000 50; order 2 BUY IOC 1490000 50;
    order 3 BUY STOP_LIMIT 1490000 50; order 4 BUY LIMIT 1490000 50;
    order 5 BUY STOP_LOSS 1490000 50 ].

(** A sell of 100 at 150.00 and a buy of 100 at 149.00, both resting. *)
Definition spreadOrders : Heap :=
  [ order 1 SELL LIMIT 1500000 100; order 2 BUY LIMIT 1490000 100 ].

(** A buy of quantity zero. *)
Definition zeroOrders : Heap := [ order 1 BUY LIMIT 1500000 0 ].

(** Scenario S2: a sell of 100 at 150.00, then a buy of 50 at 152.00. *)
Definition improvementOrders : Heap :=
  [ order 1 SELL LIMIT 1500000 100; order 2 BUY LIMIT 1520000 50 ].

(** Scenario S3: three sells A, B, C of 100 at 150.00, then a buy of 150 at
    150.00. *)
Definition fifoOrders : Heap :=
  [ order 1 SELL LIMIT 1500000 100; order 2 SELL LIMIT 1500000 100;
    order 3 SELL LIMIT 1500000 100; order 4 BUY LIMIT 1500000 150 ].

(** [addOrder] for each pointer in turn. *)
Fixpoint addAll (orders : list ptr) (h : Heap) (b : OrderBook.t)
    : option OrderBook.t :=
  match orders with
  | [] => Some b
  | order :: orders' => b ← OrderBook.addOrder order h b; addAll orders' h b
  end.

(** ** One iteration of the inner loop of the sweep *)

(** The trade built when the incoming order [o] meets the resting order
    [m]. *)
Definition tradeOf (symbol : string) (o m : Order.t) : Trade.t :=
  {| Trade.buyOrderId_ :=
       if decide (Order.side_ o = BUY) then Order.orderId_ o else Order.orderId_ m;
     Trade.sellOrderId_ :=
       if decide (Order.side_ o = SELL) then Order.orderId_ o else Order.orderId_ m;
     Trade.symbol_ := symbol;
     Trade.price_ := Order.price_ m;
     Trade.quantity_ :=
       N.min (Order.remainingQuantity_ o) (Order.remainingQuantity_ m) |}.

(** The state of the sweep after the two fills, with the id of the resting
    order erased from the index when [erased] is set. *)
Definition afterFills (order matchingOrder : ptr) (o m m1 : Order.t)
    (symbol : string) (erased : bool) (s : OrderBook.sweep) : OrderBook.sweep :=
  let fillQty := N.min (Order.remainingQuantity_ o) (Order.remainingQuantity_ m) in
  {| OrderBook.sw_heap :=
       <[matchingOrder := Order.fill fillQty m1]>
         (<[order := Order.fill fillQty o]> (OrderBook.sw_heap s));
     OrderBook.sw_orderMap :=
       if erased then delete (Order.orderId_ m1) (OrderBook.sw_orderMap s)
       else OrderBook.sw_orderMap s;
     OrderBook.sw_trades := OrderBook.sw_trades s ++ [tradeOf symbol o m] |}.

(** The trade [t] of a taker of the given side was made against the order
    resting behind [q]: it carries that order's price and id. *)
Definition tradeWith (h : Heap) (side : Side) (t : Trade.t) (q : ptr) : Prop :=
  ∃ m, h !! q = Some m
       ∧ Trade.price_ t = Order.price_ m
       ∧ passiveId side t = Order.orderId_ m.

(** The index after the ids of the orders behind the nodes [erased] were
    erased from it. *)
Definition eraseIds (h : Heap) (erased : list (node * ptr))
    (orderMap : gmap N ptr) : gmap N ptr :=
  foldr (λ nq idx, delete (idOf h nq.2) idx) orderMap erased.

(** ** The two sides seen from an incoming order *)

(** The price test of the overload of [executeMatches] a side selects, the
    comparator of the map the order rests in, and the updates of the two
    maps. *)
Definition tooFarOf (side : Side) : Order.t → Price → bool :=
  match side with
  | BUY => OrderBook.askTooHigh
  | SELL => OrderBook.bidTooLow
  end.

Definition ownComp (side : Side) : Price → Price → bool :=
  match side with BUY => Z.gtb | SELL => Z.ltb end.

Definition setOpposite (side : Side) (levels : Levels.t) (b : OrderBook.t)
    : OrderBook.t :=
  match side with
  | BUY => OrderBook.setAsks levels b
  | SELL => OrderBook.setBids levels b
  end.

Definition setOwnSide (side : Side) (levels : Levels.t) (b : OrderBook.t)
    : OrderBook.t :=
  match side with
  | BUY => OrderBook.setBids levels b
  | SELL => OrderBook.setAsks levels b
  end.

(** The test [matchFOKOrder] starts with. *)
Definition canFill (o : Order.t) (b : OrderBook.t) : bool :=
  match Order.side_ o with
  | BUY => OrderBook.canFillEntireOrder_asks o (OrderBook.asks_ b)
  | SELL => OrderBook.canFillEntireOrder_bids o (OrderBook.bids_ b)
  end.

(** The book after [matchLimitOrder] put the order behind [p] to rest. *)
Definition rested (p : ptr) (o : Order.t) (h : Heap) (b : OrderBook.t)
    : option OrderBook.t :=
  levels ← Levels.addOrderAt (ownComp (Order.side_ o)) (Order.price_ o) p h
             (ownSide (Order.side_ o) b);
  Some (OrderBook.setOrderMap (<[Order.orderId_ o := p]> (OrderBook.orderMap_ b))
          (setOwnSide (Order.side_ o) levels b)).

(** The store after the tail of [matchMarketOrder] and [matchIOCOrder]. *)
Definition cancelledIfUnfilled (p : ptr) (o : Order.t) (h : Heap) : Heap :=
  if (0 <? Order.remainingQuantity_ o)%N
  then <[p := Order.setStatus CANCELLED o]> h else h.

(** The types [matchOrder] sends to [matchLimitOrder]. *)
Definition restingType (type : OrderType) : Prop :=
  type = LIMIT ∨ type = STOP_LOSS ∨ type = STOP_LIMIT.

(** The books of the scenarios once their first orders rest. *)
Definition bookAfter (orders : list ptr) (h : Heap) : OrderBook.t :=
  default (OrderBook.new AAPL) (addAll orders h (OrderBook.new AAPL)).

Definition improvementBook : OrderBook.t := bookAfter [0] improvementOrders.
Definition fifoBook : OrderBook.t := bookAfter [0; 1; 2] fifoOrders.

Definition partialFillBook : OrderBook.t :=
  match matchAll [0; 1] partialFillOrders (OrderBook.new AAPL) with
  | Some (_, _, b) => b
  | None => OrderBook.new AAPL
  end.

Definition partialFillHeap : Heap :=
  match matchAll [0; 1] partialFillOrders (OrderBook.new AAPL) with
  | Some (_, h, _) => h
  | None => partialFillOrders
  end.

Definition belowAskBook : OrderBook.t := bookAfter [0] belowAskOrders.

Definition spreadBook : OrderBook.t :=
  match matchAll [0; 1] spreadOrders (OrderBook.new AAPL) with
  | Some (_, _, b) => b
  | None => OrderBook.new AAPL
  end.

(** The book is not crossed, said on the first keys of the two maps. *)
Definition crossFree (bids asks : Levels.t) : Prop :=
  ∀ kb ka, head (keys bids) = Some kb → head (keys asks) = Some ka → (kb < ka)%Z.

(** An order as its constructor leaves it: PENDING, nothing filled. *)
Definition isNew (o : Order.t) : Prop :=
  Order.status_ o = PENDING ∧ Order.remainingQuantity_ o = Order.quantity_ o.

(** The order behind [p] rests at its price on its side and is indexed
    under its id. *)
Definition restsAtItsPrice (p : ptr) (o : Order.t) (b : OrderBook.t) : Prop :=
  (∃ l, Levels.find (Order.price_ o) (ownSide (Order.side_ o) b) = Some l
        ∧ p ∈ PriceLevel.queue l)
  ∧ OrderBook.orderMap_ b !! Order.orderId_ o = Some p.

(** ** Well-formed books

    What every book built by the operations satisfies: the maps are
    sorted, no level is empty, every aggregate is a [uint64_t], and the
    identities of the nodes of a queue are below the level's counter. *)
Definition freshNodes (l : PriceLevel.t) : Prop :=
  Forall (λ nq, nq.1 < PriceLevel.nextNode_ l) (PriceLevel.orders_ l).

Definition wfLevel (l : PriceLevel.t) : Prop :=
  PriceLevel.isEmpty l = false
  ∧ (PriceLevel.totalQuantity_ l < two64)%N
  ∧ freshNodes l.

Definition wfLevels (m : Levels.t) : Prop := Forall (λ kl, wfLevel kl.2) m.

Definition wfBook (b : OrderBook.t) : Prop :=
  sortedBook b ∧ wfLevels (OrderBook.bids_ b) ∧ wfLevels (OrderBook.asks_ b).

(** The predicates on books are decidable, so that they can be checked on
    a given book by computation. *)
#[global] Instance closed_dec h b : Decision (closed h b).
Proof. unfold closed, closedLevels. apply _. Defined.

#[global] Instance sortedBook_dec b : Decision (sortedBook b).
Proof. unfold sortedBook, sortedBids, sortedAsks. apply _. Defined.

#[global] Instance wfLevel_dec l : Decision (wfLevel l).
Proof. unfold wfLevel, freshNodes. apply _. Defined.

#[global] Instance wfBook_dec b : Decision (wfBook b).
Proof. unfold wfBook, wfLevels. apply _. Defined.

(** ** The invariant of the books of an engine *)

(** The strict order of the map an order of the given side rests in. *)
Definition sideOrder (side : Side) : relation Z :=
  match side with BUY => Z.gt | SELL => Z.lt end.

(** A node of the queue of the level at [price], on the given side of the
    book of [symbol]: it holds an order of that side, price and symbol that
    is not FILLED, and the level and the book index it under its id. *)
Definition nodeOk (h : Heap) (symbol : string) (side : Side)
    (idx : gmap N ptr) (price : Price) (l : PriceLevel.t)
    (nq : node * ptr) : Prop :=
  ∃ m, h !! nq.2 = Some m
       ∧ Order.side_ m = side
       ∧ Order.price_ m = price
       ∧ Order.symbol_ m = symbol
       ∧ Order.status_ m ≠ FILLED
       ∧ PriceLevel.orderMap_ l !! Order.orderId_ m = Some nq.1
       ∧ idx !! Order.orderId_ m = Some nq.2.

Definition levelOk (h : Heap) (symbol : string) (side : Side)
    (idx : gmap N ptr) (kl : Price * PriceLevel.t) : Prop :=
  freshNodes kl.2
  ∧ NoDup (PriceLevel.orders_ kl.2).*1
  ∧ Forall (nodeOk h symbol side idx kl.1 kl.2) (PriceLevel.orders_ kl.2).

Definition sideOk (h : Heap) (symbol : string) (side : Side)
    (idx : gmap N ptr) (m : Levels.t) : Prop :=
  StronglySorted (sideOrder side) (keys m)
  ∧ Forall (levelOk h symbol side idx) m.

(** All the pointers resting in a book. *)
Definition allResting (b : OrderBook.t) : list ptr :=
  resting (OrderBook.bids_ b) ++ resting (OrderBook.asks_ b).

(** Every entry of the index designates a resting order with that id. *)
Definition indexOk (h : Heap) (b : OrderBook.t) : Prop :=
  ∀ orderId q,
    OrderBook.orderMap_ b !! orderId = Some q →
    q ∈ allResting b ∧ ∃ m, h !! q = Some m ∧ Order.orderId_ m = orderId.

Definition bookOk (h : Heap) (symbol : string) (b : OrderBook.t) : Prop :=
  sideOk h symbol BUY (OrderBook.orderMap_ b) (OrderBook.bids_ b)
  ∧ sideOk h symbol SELL (OrderBook.orderMap_ b) (OrderBook.asks_ b)
  ∧ NoDup (allResting b)
  ∧ indexOk h b.

(** Distinct orders of the store have distinct ids. *)
Definition idsDistinct (h : Heap) : Prop :=
  ∀ p q o m, h !! p = Some o → h !! q = Some m →
             Order.orderId_ o = Order.orderId_ m → p = q.

(** An order is FILLED only when nothing remains of it, and an order of
    positive quantity of which nothing remains is FILLED. *)
Definition filledOnlyWhenDone (h : Heap) : Prop :=
  ∀ p o, h !! p = Some o → Order.status_ o = FILLED →
         Order.remainingQuantity_ o = 0%N.

Definition doneIsFilled (h : Heap) : Prop :=
  ∀ p o, h !! p = Some o → Order.remainingQuantity_ o = 0%N →
         (0 < Order.quantity_ o)%N → Order.status_ o = FILLED.

(** ** The invariant of an engine *)

(** The order behind [p] rests in no book of the engine. *)
Definition restsNowhere (p : ptr) (e : MatchingEngineCore.t) : Prop :=
  ∀ symbol b, MatchingEngineCore.orderBooks_ e !! symbol = Some b →
              p ∉ allResting b.

Definition engineOk (h : Heap) (e : MatchingEngineCore.t) : Prop :=
  MatchingEngineCore.nextOrderId_ e = (N.of_nat (length h) + 1)%N
  ∧ (∀ p o, h !! p = Some o → Order.orderId_ o = (N.of_nat p + 1)%N)
  ∧ (∀ p o, h !! p = Some o →
            MatchingEngineCore.orderToSymbol_ e !! Order.orderId_ o
              = Some (Order.symbol_ o)
            ∨ (Order.status_ o = CANCELLED ∧ restsNowhere p e))
  ∧ filledOnlyWhenDone h
  ∧ doneIsFilled h
  ∧ ∀ symbol b, MatchingEngineCore.orderBooks_ e !! symbol = Some b →
                bookOk h symbol b.

(** The states an engine goes through: from a new engine and an empty
    store, by [submitOrder] (as long as the id counter does not wrap
    around), [cancelOrder] and [modifyOrder]. *)
Inductive reachable : Heap → MatchingEngineCore.t → Prop :=
  | reach_new : reachable [] MatchingEngineCore.new
  | reach_submit h e symbol side type price quantity clientId stopPrice
      orderId trades h' e' :
      reachable h e →
      (MatchingEngineCore.nextOrderId_ e + 1 < two64)%N →
      MatchingEngineCore.submitOrder symbol side type price quantity clientId
        stopPrice h e = Some (orderId, trades, h', e') →
      reachable h' e'
  | reach_cancel h e orderId r h' e' :
      reachable h e →
      MatchingEngineCore.cancelOrder orderId h e = Some (r, h', e') →
      reachable h' e'
  | reach_modify h e orderId newPrice newQuantity r h' e' :
      reachable h e →
      MatchingEngineCore.modifyOrder orderId newPrice newQuantity h e
        = Some (r, h', e') →
      reachable h' e'.

Definition otherSide (side : Side) : Side :=
  match side with BUY => SELL | SELL => BUY end.

(** The order [OrderBook::modifyOrder] puts back into the book. *)
Definition modified (newPrice : Price) (newQuantity : Quantity) (o : Order.t)
    : Order.t :=
  Order.setStatus PENDING (Order.setQuantity newQuantity (Order.setPrice newPrice o)).

(** The store and the engine after one more [submitOrder], with no client
    id and no stop price; they stay as they are where the call is not
    defined. *)
Definition submitted (symbol : string) (side : Side) (type : OrderType)
    (price : Price) (quantity : Quantity) (s : Heap * MatchingEngineCore.t)
    : Heap * MatchingEngineCore.t :=
  match MatchingEngineCore.submitOrder symbol side type price quantity
          String.EmptyString 0 s.1 s.2 with
  | Some (_, _, h, e) => (h, e)
  | None => s
  end.

(** A sell of 50 at 150.0000 met by a buy of 50 at the same price. *)
Definition filledState : Heap * MatchingEngineCore.t :=
  submitted AAPL BUY LIMIT 1500000 50
    (submitted AAPL SELL LIMIT 1500000 50 ([], MatchingEngineCore.new)).

(** ** Accounting of a sweep *)

(** The id of the incoming order in a trade made by a taker of the given
    side. *)
Definition takerId (side : Side) (t : Trade.t) : OrderId :=
  match side with
  | BUY => Trade.buyOrderId_ t
  | SELL => Trade.sellOrderId_ t
  end.

(** Σ quantity over a vector of trades, and Σ remainingQuantity over the
    orders behind a list of pointers. *)
Definition tradedQuantity (trades : list Trade.t) : N :=
  foldr (λ t acc, (Trade.quantity_ t + acc)%N) 0%N trades.

Definition totalRemaining (h : Heap) (ps : list ptr) : N :=
  foldr (λ p acc, (remainingOf h p + acc)%N) 0%N ps.

(** ** Prices of a sweep *)

(** Every order in the queue of a level bears the price of the level. *)
Definition pricedAt (h : Heap) (m : Levels.t) : Prop :=
  Forall (λ kl, Forall (λ q, ∃ o, h !! q = Some o ∧ Order.price_ o = kl.1)
                  (PriceLevel.queue kl.2)) m.

(** A price a taker of the given side with the given limit accepts, and
    the order in which a taker of the given side prefers prices. *)
Definition withinLimit (side : Side) (limit price : Price) : Prop :=
  match side with
  | BUY => (price ≤ limit)%Z
  | SELL => (limit ≤ price)%Z
  end.

Definition noWorse (side : Side) : relation Z :=
  match side with
  | BUY => Z.le
  | SELL => Z.ge
  end.

Definition priceOf (h : Heap) (p : ptr) : Price :=
  from_option Order.price_ 0%Z (h !! p).

(** ** More on the states of an engine *)

(** Every book is registered under its own symbol. *)
Definition bookSymbols (e : MatchingEngineCore.t) : Prop :=
  ∀ symbol b, MatchingEngineCore.orderBooks_ e !! symbol = Some b →
              OrderBook.symbol_ b = symbol.

(** Every order resting in the book is PENDING or PARTIAL_FILL. *)
Definition restingActive (h : Heap) (b : OrderBook.t) : Prop :=
  ∀ q, q ∈ allResting b → ∃ o, h !! q = Some o ∧ Order.isActive o = true.

(** No level of the book is empty. *)
Definition noEmptyBook (b : OrderBook.t) : Prop :=
  noEmptyLevel (OrderBook.bids_ b) ∧ noEmptyLevel (OrderBook.asks_ b).

(** What holds of every book of an engine besides [bookOk]. *)
Definition engineRests (h : Heap) (e : MatchingEngineCore.t) : Prop :=
  ∀ symbol b, MatchingEngineCore.orderBooks_ e !! symbol = Some b →
              restingActive h b ∧ noEmptyBook b.

(** The best price of a side of the book of a symbol, as the engine
    returns it. *)
Definition getBest (side : Side) (symbol : string) (e : MatchingEngineCore.t)
    : Price :=
  match side with
  | BUY => MatchingEngineCore.getBestBid symbol e
  | SELL => MatchingEngineCore.getBestAsk symbol e
  end.

(** A price at least as good as another one for an order resting on the
    given side: higher for a bid, lower for an ask. *)
Definition atLeastAsGood (side : Side) (best price : Price) : Prop :=
  match side with
  | BUY => (price ≤ best)%Z
  | SELL => (best ≤ price)%Z
  end.

(** ** States of the engine for the examples *)

(** A sell of 100 at 150.0000 resting in the book of AAPL. *)
Definition restingState : Heap * MatchingEngineCore.t :=
  submitted AAPL SELL LIMIT 1500000 100 ([], MatchingEngineCore.new).

(** Sells of 50 at 150.0000 and at 151.0000 and a buy of 100 at 149.0000,
    all resting in the book of AAPL. *)
Definition ladderState : Heap * MatchingEngineCore.t :=
  submitted AAPL BUY LIMIT 1490000 100
    (submitted AAPL SELL LIMIT 1510000 50
       (submitted AAPL SELL LIMIT 1500000 50 ([], MatchingEngineCore.new))).

(** Two sells of 100 at 150.0000 resting one behind the other. *)
Definition fifoState : Heap * MatchingEngineCore.t :=
  submitted AAPL SELL LIMIT 1500000 100
    (submitted AAPL SELL LIMIT 1500000 100 ([], MatchingEngineCore.new)).

(** The resting sell of AAPL and a buy of 50 of MSFT at 300.0000. *)
Definition MSFT : string := "MSFT".

Definition twoSymbolState : Heap * MatchingEngineCore.t :=
  submitted MSFT BUY LIMIT 3000000 50 restingState.

(** The depth of a side of the book of a symbol, as the engine returns
    it. *)
Definition getDepth (side : Side) (symbol : string) (levels : nat)
    (e : MatchingEngineCore.t) : list (Price * Quantity) :=
  match side with
  | BUY => MatchingEngineCore.getBidDepth symbol levels e
  | SELL => MatchingEngineCore.getAskDepth symbol levels e
  end.

(** ** Fill-or-kill *)

#[global] Instance withinLimit_dec side limit price :
  Decision (withinLimit side limit price).
Proof. destruct side; simpl; apply _. Defined.

(** The levels at prices a taker of the given side and limit accepts, and
    the quantity resting at them on the side the taker trades with. *)
Definition withinLevels (side : Side) (limit : Price) (m : Levels.t) : Levels.t :=
  filter (λ kl, withinLimit side limit kl.1) m.

Definition available (h : Heap) (side : Side) (limit : Price) (b : OrderBook.t)
    : N :=
  totalRemaining h (resting (withinLevels side limit (opposite side b))).

(** The aggregate of every level of the map is the sum over its queue. *)
Definition consistentLevels (h : Heap) (m : Levels.t) : Prop :=
  Forall (λ kl, aggregateConsistent h kl.2) m.

(** ** Exact aggregates *)

(** The aggregate of a level is the sum over its queue, with no wrap-around
    behind it; the levels of a map, and the books of an engine. *)
Definition exactLevel (h : Heap) (l : PriceLevel.t) : Prop :=
  aggregateConsistent h l ∧ (PriceLevel.totalQuantity_ l < two64)%N.

Definition exactLevels (h : Heap) (m : Levels.t) : Prop :=
  Forall (λ kl, exactLevel h kl.2) m.

Definition exactBook (h : Heap) (b : OrderBook.t) : Prop :=
  exactLevels h (OrderBook.bids_ b) ∧ exactLevels h (OrderBook.asks_ b).

Definition exactAggregates (h : Heap) (e : MatchingEngineCore.t) : Prop :=
  ∀ symbol b, MatchingEngineCore.orderBooks_ e !! symbol = Some b → exactBook h b.

(** No aggregate wraps around when the quantity is added to it. *)
Definition roomLevels (quantity : Quantity) (m : Levels.t) : Prop :=
  Forall (λ kl, (PriceLevel.totalQuantity_ kl.2 + quantity < two64)%N) m.

Definition roomBook (quantity : Quantity) (b : OrderBook.t) : Prop :=
  roomLevels quantity (OrderBook.bids_ b) ∧ roomLevels quantity (OrderBook.asks_ b).

Definition roomFor (quantity : Quantity) (e : MatchingEngineCore.t) : Prop :=
  (quantity < two64)%N
  ∧ ∀ symbol b, MatchingEngineCore.orderBooks_ e !! symbol = Some b →
                roomBook quantity b.

(** ** Messages *)

(** An array of the given size that ends with a NUL. *)
Definition terminated (size : nat) (a : list Ascii.ascii) : Prop :=
  length a = size ∧ last a = Some CharArray.NUL.

(** The characters of a string, and what an array of the given size keeps
    of the string: its characters before the first NUL, [size - 1] of them
    at most. *)
Definition chars (s : string) : list Ascii.ascii := String.list_ascii_of_string s.

Definition truncated (size : nat) (s : string) : string :=
  String.string_of_list_ascii (take (size - 1) (CharArray.untilNul (chars s))).

(** The arrays of a new order message end with a NUL. *)
Definition terminatedOrder (m : NewOrderMessage.t) : Prop :=
  terminated NewOrderMessage.sizeof_symbol (NewOrderMessage.symbol m)
  ∧ terminated NewOrderMessage.sizeof_clientId (NewOrderMessage.clientId m).

(** An order of which something remains is PENDING with nothing filled, or
    PARTIAL_FILL with something filled. *)
Definition pendingUntilFilled (o : Order.t) : Prop :=
  (Order.remainingQuantity_ o ≤ Order.quantity_ o)%N
  ∧ ((0 < Order.remainingQuantity_ o)%N →
     (Order.status_ o = PENDING
      ∧ Order.remainingQuantity_ o = Order.quantity_ o)
     ∨ (Order.status_ o = PARTIAL_FILL
        ∧ (Order.remainingQuantity_ o < Order.quantity_ o)%N)).

(** ** Messages of the examples *)

(** The message a client builds for a buy of 80 AAPL at 150.5000. *)
Definition buyMessage : NewOrderMessage.t :=
  NewOrderMessage.setClientId "client1"
    (NewOrderMessage.setSymbol AAPL
       {| NewOrderMessage.header := MessageHeader.new NEW_ORDER;
          NewOrderMessage.clientOrderId := 7;
          NewOrderMessage.symbol := CharArray.zeroed NewOrderMessage.sizeof_symbol;
          NewOrderMessage.side := BUY;
          NewOrderMessage.orderType := LIMIT;
          NewOrderMessage.price := 1505000;
          NewOrderMessage.quantity := 80;
          NewOrderMessage.stopPrice := 0;
          NewOrderMessage.clientId :=
            CharArray.zeroed NewOrderMessage.sizeof_clientId |}).

(** The messages of a client that cancels the order 2, and that cancels an
    order 9 the engine never saw. *)
Definition cancelMessage (orderId : OrderId) : CancelOrderMessage.t :=
  CancelOrderMessage.setClientId "client1"
    {| CancelOrderMessage.header := MessageHeader.new CANCEL_ORDER;
       CancelOrderMessage.orderId := orderId;
       CancelOrderMessage.clientId :=
         CharArray.zeroed CancelOrderMessage.sizeof_clientId |}.

(** ** The receive loop *)

(** The types of the messages the receive loop of the server handles. *)
Definition handledType (t : MessageType) : Prop :=
  t = NEW_ORDER ∨ t = CANCEL_ORDER ∨ t = MODIFY_ORDER ∨ t = HEARTBEAT.

(** A layout for the examples: headers of 16 bytes, whose first byte gives
    the type, and the sizes of the four messages on a 64-bit ABI. *)
Definition exampleHeader : nat := 16.

Definition exampleSize (t : MessageType) : nat :=
  match t with
  | NEW_ORDER => 104
  | CANCEL_ORDER => 56
  | MODIFY_ORDER => 72
  | HEARTBEAT => 24
  | _ => 16
  end.

Definition exampleType (header : list Byte.byte) : option MessageType :=
  match header with
  | Byte.x00 :: _ => Some NEW_ORDER
  | Byte.x01 :: _ => Some CANCEL_ORDER
  | Byte.x02 :: _ => Some MODIFY_ORDER
  | Byte.x03 :: _ => Some ORDER_ACK
  | Byte.x04 :: _ => Some ORDER_REJECT
  | Byte.x05 :: _ => Some EXECUTION_REPORT
  | Byte.x06 :: _ => Some MARKET_DATA
  | Byte.x07 :: _ => Some HEARTBEAT
  | _ => None
  end.

(** The bytes of a cancel message in this layout, as far as the loop looks
    at them: the type first, then zeros. *)
Definition exampleCancel : list Byte.byte :=
  Byte.x01 :: replicate 55 Byte.x00.

(** ** The orders behind a level *)

(** The order behind [p] is one of the symbol, side and price that
    [getOrder] finds; and the pointers of the store with such an order. *)
Definition live (h : Heap) (e : MatchingEngineCore.t) (symbol : string)
    (side : Side) (price : Price) (p : ptr) : Prop :=
  ∃ o, h !! p = Some o
       ∧ MatchingEngineCore.getOrder (Order.orderId_ o) e = Some p
       ∧ Order.symbol_ o = symbol ∧ Order.side_ o = side ∧ Order.price_ o = price.

#[global] Instance live_dec h e symbol side price p :
  Decision (live h e symbol side price p).
Proof.
  unfold live. destruct (h !! p) as [o|].
  - destruct (decide (MatchingEngineCore.getOrder (Order.orderId_ o) e = Some p
                      ∧ Order.symbol_ o = symbol ∧ Order.side_ o = side
                      ∧ Order.price_ o = price)) as [H|H].
    + left. by exists o.
    + right. intros (o' & Ho' & H'). injection Ho' as <-. by apply H.
  - right. by intros (o & ? & _).
Defined.

Definition liveAt (h : Heap) (e : MatchingEngineCore.t) (symbol : string)
    (side : Side) (price : Price) : list ptr :=
  filter (live h e symbol side price) (seq 0 (length h)).


(** * Orders under [fill] *)

Lemma fill_remaining q o :
  Order.remainingQuantity_ (Order.fill q o)
  = (Order.remainingQuantity_ o - N.min q (Order.remainingQuantity_ o))%N.
Proof. unfold Order.fill; simpl. nbool; f_equal; lia. Qed.

Lemma fill_static q o : sameStatic o (Order.fill q o).
Proof. repeat split. Qed.

Lemma fill_isFilled q o :
  Order.isFilled (Order.fill q o) = true
  ↔ (Order.remainingQuantity_ o ≤ q)%N.
Proof.
  unfold Order.isFilled. rewrite fill_remaining, N.eqb_eq. lia.
Qed.

Lemma fill_status_filled q o :
  Order.remainingQuantity_ (Order.fill q o) = 0%N
  → Order.status_ (Order.fill q o) = FILLED.
Proof.
  unfold Order.fill; simpl. nbool; try done; lia.
Qed.

Lemma fill_filledIffDone q o : filledIffDone o → filledIffDone (Order.fill q o).
Proof.
  unfold filledIffDone. intros Ho. split; [|apply fill_status_filled].
  unfold Order.fill; simpl. nbool; try done; intros Hs; apply Ho in Hs; lia.
Qed.

Lemma fill_status_active q o :
  Order.isActive o = true →
  Order.remainingQuantity_ (Order.fill q o) ≠ 0%N →
  Order.isActive (Order.fill q o) = true.
Proof.
  unfold Order.fill, Order.isActive; simpl. nbool; try done.
Qed.

Lemma setStatus_static st o : sameStatic o (Order.setStatus st o).
Proof. repeat split. Qed.

#[global] Instance sameStatic_refl : Reflexive sameStatic.
Proof. repeat split. Qed.

#[global] Instance sameStatic_trans : Transitive sameStatic.
Proof.
  intros a b c (?&?&?&?&?&?) (?&?&?&?&?&?). repeat split; congruence.
Qed.

(** What a sequence of fills preserves. *)
Lemma fills_static o o' : rtc fillStep o o' → sameStatic o o'.
Proof.
  induction 1 as [|a b c [q ->] _ IH]; [reflexivity|].
  etrans; [apply fill_static|done].
Qed.

Lemma fills_remaining_le o o' :
  rtc fillStep o o' → (Order.remainingQuantity_ o' ≤ Order.remainingQuantity_ o)%N.
Proof.
  induction 1 as [|a b c [q ->] _ IH]; [lia|].
  rewrite fill_remaining in IH. lia.
Qed.

Lemma fills_filledIffDone o o' :
  rtc fillStep o o' → filledIffDone o → filledIffDone o'.
Proof.
  induction 1 as [|a b c [q ->] _ IH]; [done|].
  intros. by apply IH, fill_filledIffDone.
Qed.

Lemma fills_active o o' :
  rtc fillStep o o' → Order.isActive o = true →
  Order.remainingQuantity_ o' ≠ 0%N → Order.isActive o' = true.
Proof.
  induction 1 as [|a b c [q ->] Hbc IH]; [done|].
  intros Ha Hc. apply IH; [|done]. apply fill_status_active; [done|].
  apply fills_remaining_le in Hbc. lia.
Qed.

#[global] Instance filledFrom_refl : Reflexive filledFrom.
Proof. intros h. apply Forall2_same_length_lookup. split; [done|]. intros; simplify_eq. done. Qed.

#[global] Instance filledFrom_trans : Transitive filledFrom.
Proof.
  intros h1 h2 h3 H12 H23. eapply Forall2_trans; [|done..].
  intros ??? ??. by etrans.
Qed.

Lemma filledFrom_length h h' : filledFrom h h' → length h' = length h.
Proof. intros H. symmetry. by eapply Forall2_length. Qed.

Lemma filledFrom_lookup h h' p o :
  filledFrom h h' → h !! p = Some o →
  ∃ o', h' !! p = Some o' ∧ rtc fillStep o o'.
Proof. intros H Hp. by eapply Forall2_lookup_l in H. Qed.

Lemma filledFrom_lookup_r h h' p o' :
  filledFrom h h' → h' !! p = Some o' →
  ∃ o, h !! p = Some o ∧ rtc fillStep o o'.
Proof. intros H Hp. by eapply Forall2_lookup_r in H. Qed.

Lemma filledFrom_fill h p o q :
  h !! p = Some o → filledFrom h (<[p := Order.fill q o]> h).
Proof.
  intros Hp. apply Forall2_same_length_lookup.
  split; [by rewrite length_insert|].
  intros i x y Hx Hy. destruct (decide (i = p)) as [->|Hne].
  - rewrite list_lookup_insert_eq in Hy by (by eapply lookup_lt_Some).
    simplify_eq. apply rtc_once. by exists q.
  - rewrite list_lookup_insert_ne in Hy by done. by simplify_eq.
Qed.

Lemma filledFrom_idOf h h' p : filledFrom h h' → idOf h' p = idOf h p.
Proof.
  intros H. unfold idOf. destruct (h !! p) as [o|] eqn:Hp.
  - destruct (filledFrom_lookup _ _ _ _ H Hp) as (o'&->&Hf).
    apply fills_static in Hf. apply Hf.
  - apply lookup_ge_None in Hp. rewrite <- (filledFrom_length _ _ H) in Hp.
    apply lookup_ge_None in Hp. by rewrite Hp.
Qed.


(** * The inner loop of the sweep *)

Lemma matchQueue_nil sym p s : OrderBook.matchQueue sym p [] s = Some ([], s).
Proof. done. Qed.

(** The cases of one iteration: the incoming order has nothing left, or the
    head of the queue is filled and erased, or it is partly filled and
    stays. *)
Lemma matchQueue_cons sym p n q orders s r :
  OrderBook.matchQueue sym p ((n, q) :: orders) s = Some r →
  ∃ o, OrderBook.sw_heap s !! p = Some o ∧
    ((Order.remainingQuantity_ o = 0%N ∧ r = ((n, q) :: orders, s))
     ∨ ((0 < Order.remainingQuantity_ o)%N ∧
        ∃ m m1,
          OrderBook.sw_heap s !! q = Some m
          ∧ <[p := Order.fill (N.min (Order.remainingQuantity_ o)
                                     (Order.remainingQuantity_ m)) o]>
              (OrderBook.sw_heap s) !! q = Some m1
          ∧ ((Order.remainingQuantity_ m1
                ≤ N.min (Order.remainingQuantity_ o) (Order.remainingQuantity_ m))%N
             ∧ OrderBook.matchQueue sym p orders (afterFills p q o m m1 sym true s)
               = Some r
             ∨ (N.min (Order.remainingQuantity_ o) (Order.remainingQuantity_ m)
                  < Order.remainingQuantity_ m1)%N
               ∧ ∃ orders' s',
                   OrderBook.matchQueue sym p orders (afterFills p q o m m1 sym false s)
                   = Some (orders', s')
                   ∧ r = ((n, q) :: orders', s')))).
Proof.
  intros H. cbn [OrderBook.matchQueue] in H.
  destruct (OrderBook.sw_heap s !! p) as [o|] eqn:Ho; [|done].
  exists o. split; [done|]. cbn [mbind option_bind] in H.
  destruct (N.ltb_spec 0 (Order.remainingQuantity_ o)) as [Hpos|Hzero].
  2:{ left. split; [lia|]. by simplify_eq. }
  right. split; [done|].
  destruct (OrderBook.sw_heap s !! q) as [m|] eqn:Hm; [|done].
  cbn [mbind option_bind] in H.
  set (fq := N.min _ _) in *.
  destruct (<[p:=Order.fill fq o]> (OrderBook.sw_heap s) !! q) as [m1|] eqn:Hm1;
    [|done].
  cbn [mbind option_bind] in H.
  exists m, m1. split; [done|]. split; [done|].
  rewrite list_lookup_insert_eq in H.
  2:{ rewrite length_insert. apply lookup_lt_Some in Hm. done. }
  cbn [mbind option_bind] in H.
  destruct (Order.isFilled (Order.fill fq m1)) eqn:Hfilled.
  - left. split; [by apply fill_isFilled|]. done.
  - right. split.
    { apply not_true_iff_false in Hfilled. rewrite fill_isFilled in Hfilled. lia. }
    unfold afterFills. fold fq.
    match type of H with
    | context [OrderBook.matchQueue ?a ?b ?c ?d] =>
        destruct (OrderBook.matchQueue a b c d) as [[orders' s']|] eqn:Hrec
    end; [|done].
    cbn in H. simplify_eq. by exists orders', s'.
Qed.

(** Induction along the iterations of the inner loop. *)
Lemma matchQueue_ind sym p
    (P : list (node * ptr) → OrderBook.sweep →
         list (node * ptr) → OrderBook.sweep → Prop) :
  (∀ s, P [] s [] s) →
  (∀ n q orders s o,
     OrderBook.sw_heap s !! p = Some o →
     Order.remainingQuantity_ o = 0%N →
     P ((n, q) :: orders) s ((n, q) :: orders) s) →
  (∀ n q orders s o m m1 orders' s',
     OrderBook.sw_heap s !! p = Some o →
     (0 < Order.remainingQuantity_ o)%N →
     OrderBook.sw_heap s !! q = Some m →
     <[p := Order.fill (N.min (Order.remainingQuantity_ o)
                              (Order.remainingQuantity_ m)) o]>
       (OrderBook.sw_heap s) !! q = Some m1 →
     (Order.remainingQuantity_ m1
        ≤ N.min (Order.remainingQuantity_ o) (Order.remainingQuantity_ m))%N →
     OrderBook.matchQueue sym p orders (afterFills p q o m m1 sym true s)
       = Some (orders', s') →
     P orders (afterFills p q o m m1 sym true s) orders' s' →
     P ((n, q) :: orders) s orders' s') →
  (∀ n q orders s o m m1 orders' s',
     OrderBook.sw_heap s !! p = Some o →
     (0 < Order.remainingQuantity_ o)%N →
     OrderBook.sw_heap s !! q = Some m →
     <[p := Order.fill (N.min (Order.remainingQuantity_ o)
                              (Order.remainingQuantity_ m)) o]>
       (OrderBook.sw_heap s) !! q = Some m1 →
     (N.min (Order.remainingQuantity_ o) (Order.remainingQuantity_ m)
        < Order.remainingQuantity_ m1)%N →
     OrderBook.matchQueue sym p orders (afterFills p q o m m1 sym false s)
       = Some (orders', s') →
     P orders (afterFills p q o m m1 sym false s) orders' s' →
     P ((n, q) :: orders) s ((n, q) :: orders') s') →
  ∀ orders s orders' s',
    OrderBook.matchQueue sym p orders s = Some (orders', s') →
    P orders s orders' s'.
Proof.
  intros Hnil Hstop Hfilled Hpartial orders.
  induction orders as [|[n q] orders IH]; intros s orders' s' H.
  - rewrite matchQueue_nil in H. simplify_eq. apply Hnil.
  - apply matchQueue_cons in H as (o & Ho & [[Hz ?]|[Hpos (m & m1 & Hm & Hm1 & Hcase)]]).
    + simplify_eq. by eapply Hstop.
    + destruct Hcase as [[Hle Hrec]|[Hlt (orders'' & s'' & Hrec & ?)]].
      * eapply Hfilled; eauto.
      * simplify_eq. eapply Hpartial; eauto.
Qed.

Ltac queue_induction H :=
  match type of H with
  | OrderBook.matchQueue ?sym ?p ?orders ?s = Some (?orders', ?s') =>
      pattern orders, s, orders', s';
      eapply (matchQueue_ind sym p); [| | | |exact H];
      clear H; try clear orders s orders' s'; cbv beta
  end.

(** The pointer of the resting order read after the fill of the incoming
    one: the same object when the two pointers differ, the incoming order
    just filled when they are the same. *)
Lemma reread_matching (h : Heap) (p q : ptr) o m fq m1 :
  h !! p = Some o → h !! q = Some m →
  <[p := Order.fill fq o]> h !! q = Some m1 →
  (q ≠ p ∧ m1 = m) ∨ (q = p ∧ m = o ∧ m1 = Order.fill fq o).
Proof.
  intros Ho Hm Hm1. destruct (decide (q = p)) as [->|Hne].
  - right. rewrite list_lookup_insert_eq in Hm1 by (by eapply lookup_lt_Some).
    by simplify_eq.
  - left. rewrite list_lookup_insert_ne in Hm1 by done. by simplify_eq.
Qed.

Lemma afterFills_heap p q o m m1 sym e s :
  OrderBook.sw_heap s !! p = Some o →
  OrderBook.sw_heap s !! q = Some m →
  <[p := Order.fill (N.min (Order.remainingQuantity_ o)
                           (Order.remainingQuantity_ m)) o]>
    (OrderBook.sw_heap s) !! q = Some m1 →
  filledFrom (OrderBook.sw_heap s)
    (OrderBook.sw_heap (afterFills p q o m m1 sym e s)).
Proof.
  intros Ho Hm Hm1. unfold afterFills; simpl.
  etrans; [by apply (filledFrom_fill _ p o)|].
  by apply (filledFrom_fill _ q m1).
Qed.

(** The store only changes by fills. *)
Lemma matchQueue_filledFrom sym p orders s orders' s' :
  OrderBook.matchQueue sym p orders s = Some (orders', s') →
  filledFrom (OrderBook.sw_heap s) (OrderBook.sw_heap s').
Proof.
  revert orders s orders' s'. apply matchQueue_ind.
  - done.
  - done.
  - intros n q orders s o m m1 orders' s' Ho _ Hm Hm1 _ _ IH.
    etrans; [|exact IH]. by apply afterFills_heap.
  - intros n q orders s o m m1 orders' s' Ho _ Hm Hm1 _ _ IH.
    etrans; [|exact IH]. by apply afterFills_heap.
Qed.

(** The incoming order after the two fills of an iteration that leaves the
    resting order in the queue: nothing remains of it. *)
Lemma afterFills_partial_done p q o m m1 sym e s :
  OrderBook.sw_heap s !! p = Some o →
  OrderBook.sw_heap s !! q = Some m →
  <[p := Order.fill (N.min (Order.remainingQuantity_ o)
                           (Order.remainingQuantity_ m)) o]>
    (OrderBook.sw_heap s) !! q = Some m1 →
  (N.min (Order.remainingQuantity_ o) (Order.remainingQuantity_ m)
     < Order.remainingQuantity_ m1)%N →
  q ≠ p ∧ m1 = m ∧
  ∃ o', OrderBook.sw_heap (afterFills p q o m m1 sym e s) !! p = Some o'
        ∧ Order.remainingQuantity_ o' = 0%N.
Proof.
  intros Ho Hm Hm1 Hlt.
  destruct (reread_matching _ _ _ _ _ _ _ Ho Hm Hm1) as [[Hne ->]|(-> & -> & ->)].
  - split; [done|]. split; [done|]. unfold afterFills; simpl.
    rewrite list_lookup_insert_ne by done.
    rewrite list_lookup_insert_eq by (by eapply lookup_lt_Some).
    eexists; split; [done|]. rewrite fill_remaining. lia.
  - rewrite fill_remaining in Hlt. lia.
Qed.

(** Once nothing remains of the incoming order, the loop leaves the queue
    and the state as they are. *)
Lemma matchQueue_done sym p orders s o :
  OrderBook.sw_heap s !! p = Some o →
  Order.remainingQuantity_ o = 0%N →
  OrderBook.matchQueue sym p orders s = Some (orders, s).
Proof.
  intros Ho Hz. destruct orders as [|[n q] orders]; [done|].
  cbn [OrderBook.matchQueue]. rewrite Ho. cbn. by rewrite Hz.
Qed.

(** When the loop ends, the queue is exhausted or nothing remains of the
    incoming order. *)
Lemma matchQueue_exhausts sym p orders s orders' s' :
  OrderBook.matchQueue sym p orders s = Some (orders', s') →
  orders' = [] ∨
  ∃ o', OrderBook.sw_heap s' !! p = Some o' ∧ Order.remainingQuantity_ o' = 0%N.
Proof.
  revert orders s orders' s'. apply matchQueue_ind.
  - by left.
  - intros. right. eauto.
  - done.
  - intros n q orders s o m m1 orders' s' Ho Hpos Hm Hm1 Hlt Hrec _. right.
    destruct (afterFills_partial_done p q o m m1 sym false s) as (_&_&o1&Ho1&Hz);
      [done..|].
    rewrite (matchQueue_done _ _ _ _ _ Ho1 Hz) in Hrec. simplify_eq. eauto.
Qed.

Lemma tradeWith_filledFrom h h' side t q :
  filledFrom h h' → tradeWith h' side t q → tradeWith h side t q.
Proof.
  intros Hf (m' & Hm' & Hprice & Hid).
  destruct (filledFrom_lookup_r _ _ _ _ Hf Hm') as (m & Hm & Hfills).
  apply fills_static in Hfills as (Hi & _ & _ & _ & Hp & _).
  exists m. split; [done|]. split; congruence.
Qed.

Lemma tradeOf_tradeWith (h : Heap) sym o m q :
  h !! q = Some m → tradeWith h (Order.side_ o) (tradeOf sym o m) q.
Proof.
  intros Hm. exists m. split; [done|]. split; [done|].
  unfold passiveId, tradeOf. by destruct (Order.side_ o).
Qed.

Lemma eraseIds_delete h erased id idx :
  eraseIds h erased (delete id idx) = delete id (eraseIds h erased idx).
Proof.
  induction erased as [|nq erased IH]; [done|]. simpl.
  rewrite IH. apply delete_delete.
Qed.

Lemma eraseIds_filledFrom h h' erased idx :
  filledFrom h h' → eraseIds h' erased idx = eraseIds h erased idx.
Proof.
  intros Hf. induction erased as [|nq erased IH]; [done|]. simpl.
  by rewrite IH, (filledFrom_idOf _ _ _ Hf).
Qed.

(** What one run of the inner loop does.  The queue splits into the nodes
    erased, all at the front and all filled, and the queue left; there is
    one trade per erased node, in queue order, and at most one more, with
    the node now at the front; the ids of the erased orders leave the
    index. *)
Lemma matchQueue_shape sym p orders s orders' s' o :
  OrderBook.matchQueue sym p orders s = Some (orders', s') →
  OrderBook.sw_heap s !! p = Some o →
  ∃ erased partial new,
    orders = erased ++ orders'
    ∧ partial `prefix_of` orders' ∧ length partial ≤ 1
    ∧ OrderBook.sw_trades s' = OrderBook.sw_trades s ++ new
    ∧ Forall2 (tradeWith (OrderBook.sw_heap s) (Order.side_ o)) new
        ((erased ++ partial).*2)
    ∧ Forall (λ nq, remainingOf (OrderBook.sw_heap s') nq.2 = 0%N) erased
    ∧ OrderBook.sw_orderMap s'
      = eraseIds (OrderBook.sw_heap s) erased (OrderBook.sw_orderMap s)
    ∧ (∀ r, r ≠ p → r ∉ (erased ++ partial).*2 →
            OrderBook.sw_heap s' !! r = OrderBook.sw_heap s !! r)
    ∧ Forall (λ nq, remainingOf (OrderBook.sw_heap s') nq.2 ≠ 0%N) partial.
Proof.
  intros H. revert o. queue_induction H.
  - intros s o _. exists [], [], [].
    split_and!; [done|apply prefix_nil|simpl; lia|by rewrite app_nil_r
                |constructor|constructor|done|done|constructor].
  - intros n q orders s o _ _ o0 _. exists [], [], [].
    split_and!; [done|apply prefix_nil|simpl; lia|by rewrite app_nil_r
                |constructor|constructor|done|done|constructor].
  - intros n q orders s o m m1 orders' s' Ho Hpos Hm Hm1 Hle Hrec IH o0 Ho0.
    simplify_eq.
    pose proof (afterFills_heap p q o m m1 sym true s Ho Hm Hm1) as Hf.
    destruct (filledFrom_lookup _ _ _ _ Hf Ho) as (o2 & Ho2 & Hfills).
    destruct (IH _ Ho2)
      as (erased & partial & new & -> & Hpre & Hlen & Htr & Hnew & Hdone & Hidx & Hframe
          & Hpartial).
    exists ((n, q) :: erased), partial, (tradeOf sym o m :: new).
    split; [done|]. split; [done|]. split; [done|].
    split. { rewrite Htr. simpl. by rewrite <- app_assoc. }
    split.
    { simpl. constructor; [by apply tradeOf_tradeWith|].
      apply fills_static in Hfills as (_ & _ & Hside & _). rewrite Hside in Hnew.
      eapply Forall2_impl; [exact Hnew|]. intros t r. by apply tradeWith_filledFrom. }
    split.
    { constructor; [|done]. simpl.
      pose proof (matchQueue_filledFrom _ _ _ _ _ _ Hrec) as Hf'.
      assert (OrderBook.sw_heap (afterFills p q o m m1 sym true s) !! q
              = Some (Order.fill (N.min (Order.remainingQuantity_ o)
                                        (Order.remainingQuantity_ m)) m1)) as Hq.
      { unfold afterFills; simpl.
        apply list_lookup_insert_eq. rewrite length_insert. by eapply lookup_lt_Some. }
      destruct (filledFrom_lookup _ _ _ _ Hf' Hq) as (m' & Hm' & Hfills').
      unfold remainingOf. rewrite Hm'. simpl.
      apply fills_remaining_le in Hfills'. rewrite fill_remaining in Hfills'. lia. }
    split.
    { rewrite Hidx. rewrite (eraseIds_filledFrom _ _ _ _ Hf). simpl.
      rewrite eraseIds_delete. f_equal.
      assert (filledFrom (OrderBook.sw_heap s)
                (<[p := Order.fill (N.min (Order.remainingQuantity_ o)
                                          (Order.remainingQuantity_ m)) o]>
                   (OrderBook.sw_heap s))) as Hf1 by (by apply filledFrom_fill).
      rewrite <- (filledFrom_idOf _ _ q Hf1). unfold idOf. by rewrite Hm1. }
    split; [|done].
    intros r Hrp Hr. simpl in Hr. apply not_elem_of_cons in Hr as [Hrq Hr].
    rewrite (Hframe r Hrp Hr). unfold afterFills; simpl.
    by rewrite !list_lookup_insert_ne.
  - intros n q orders s o m m1 orders' s' Ho Hpos Hm Hm1 Hlt Hrec _ o0 Ho0.
    simplify_eq.
    destruct (afterFills_partial_done p q o m m1 sym false s) as (Hqp&Hm1m&o1&Ho1&Hz);
      [done..|].
    rewrite (matchQueue_done _ _ _ _ _ Ho1 Hz) in Hrec. simplify_eq.
    exists [], [(n, q)], [tradeOf sym o m]. split; [done|].
    split; [by apply prefix_cons, prefix_nil|]. split; [simpl; lia|].
    split; [done|]. split.
    { simpl. constructor; [by apply tradeOf_tradeWith|constructor]. }
    split; [constructor|]. split; [done|]. split.
    { intros r Hrp Hr. simpl in Hr. apply not_elem_of_cons in Hr as [Hrq _].
      unfold afterFills; simpl. by rewrite !list_lookup_insert_ne. }
    constructor; [|constructor]. unfold remainingOf, afterFills. simpl.
    rewrite list_lookup_insert_eq
      by (rewrite length_insert; by eapply lookup_lt_Some).
    change (Order.remainingQuantity_
              (Order.fill (N.min (Order.remainingQuantity_ o)
                                 (Order.remainingQuantity_ m)) m) ≠ 0%N).
    rewrite fill_remaining. lia.
Qed.

(** The loop is defined as soon as its pointers are in the store. *)
Lemma matchQueue_defined sym p orders s :
  p < length (OrderBook.sw_heap s) →
  Forall (λ q, q < length (OrderBook.sw_heap s)) orders.*2 →
  is_Some (OrderBook.matchQueue sym p orders s).
Proof.
  revert s. induction orders as [|[n q] orders IH]; intros s Hp Hq; [done|].
  apply Forall_cons in Hq as [Hq Hqs]. simpl in Hq.
  destruct (lookup_lt_is_Some_2 _ _ Hp) as [o Ho].
  destruct (lookup_lt_is_Some_2 _ _ Hq) as [m Hm].
  cbn [OrderBook.matchQueue]. rewrite Ho. cbn [mbind option_bind].
  destruct (0 <? Order.remainingQuantity_ o)%N; [|done].
  rewrite Hm. cbn [mbind option_bind].
  set (fq := N.min _ _).
  destruct (lookup_lt_is_Some_2 (<[p:=Order.fill fq o]> (OrderBook.sw_heap s)) q)
    as [m1 Hm1]; [by rewrite length_insert|].
  rewrite Hm1. cbn [mbind option_bind].
  rewrite list_lookup_insert_eq by (by rewrite length_insert).
  cbn [mbind option_bind].
  destruct (Order.isFilled _).
  - apply IH; simpl; rewrite !length_insert; done.
  - match goal with
    | |- context [OrderBook.matchQueue ?a ?b ?c ?d] =>
        destruct (IH d) as [[orders' s'] ->]
    end; [simpl; by rewrite !length_insert..|done].
Qed.


(** * The outer loop of the sweep *)

Lemma matchLevels_nil tooFar sym p s :
  OrderBook.matchLevels tooFar sym p [] s = Some ([], s).
Proof. done. Qed.

(** Once nothing remains of the incoming order, the outer loop stops. *)
Lemma matchLevels_done tooFar sym p levels s o :
  OrderBook.sw_heap s !! p = Some o →
  Order.remainingQuantity_ o = 0%N →
  OrderBook.matchLevels tooFar sym p levels s = Some (levels, s).
Proof.
  intros Ho Hz. destruct levels as [|[price level] levels]; [done|].
  cbn [OrderBook.matchLevels]. rewrite Ho. cbn. by rewrite Hz.
Qed.

(** The cases of one iteration of the outer loop: nothing remains of the
    incoming order; the price test breaks the loop; the level is emptied
    and erased; or the level keeps orders, and then the loop is over. *)
Lemma matchLevels_cons tooFar sym p price level levels s r :
  OrderBook.matchLevels tooFar sym p ((price, level) :: levels) s = Some r →
  ∃ o, OrderBook.sw_heap s !! p = Some o ∧
    ((Order.remainingQuantity_ o = 0%N ∧ r = ((price, level) :: levels, s))
     ∨ ((0 < Order.remainingQuantity_ o)%N ∧ Order.type_ o = LIMIT
        ∧ tooFar o price = true ∧ r = ((price, level) :: levels, s))
     ∨ ((0 < Order.remainingQuantity_ o)%N
        ∧ (Order.type_ o = LIMIT → tooFar o price = false)
        ∧ ∃ orders s1,
            OrderBook.matchQueue sym p (PriceLevel.orders_ level) s = Some (orders, s1)
            ∧ ((orders = []
                ∧ OrderBook.matchLevels tooFar sym p levels s1 = Some r)
               ∨ (orders ≠ []
                  ∧ r = ((price, PriceLevel.setOrders orders level) :: levels, s1))))).
Proof.
  intros H. cbn [OrderBook.matchLevels] in H.
  destruct (OrderBook.sw_heap s !! p) as [o|] eqn:Ho; [|done].
  exists o. split; [done|]. cbn [mbind option_bind] in H.
  destruct (N.ltb_spec 0 (Order.remainingQuantity_ o)) as [Hpos|Hzero].
  2:{ left. split; [lia|]. by simplify_eq. }
  right.
  destruct (bool_decide (Order.type_ o = LIMIT) && tooFar o price) eqn:Hbreak.
  { left. apply andb_true_iff in Hbreak as [Hty Hfar]. apply bool_decide_eq_true in Hty.
    by simplify_eq. }
  right. split; [done|]. split.
  { intros Hty. apply andb_false_iff in Hbreak as [Hn|]; [|done].
    by apply bool_decide_eq_false in Hn. }
  destruct (OrderBook.matchQueue sym p (PriceLevel.orders_ level) s)
    as [[orders s1]|] eqn:Hq; [|done].
  exists orders, s1. split; [done|]. cbn in H.
  destruct orders as [|nq orders].
  - left. done.
  - right. split; [done|]. cbn in H.
    destruct (matchQueue_exhausts _ _ _ _ _ _ Hq) as [?|(o1 & Ho1 & Hz)]; [done|].
    rewrite (matchLevels_done _ _ _ _ _ _ Ho1 Hz) in H. cbn in H. by simplify_eq.
Qed.

(** Induction along the iterations of the outer loop. *)
Lemma matchLevels_ind tooFar sym p
    (P : Levels.t → OrderBook.sweep → Levels.t → OrderBook.sweep → Prop) :
  (∀ s, P [] s [] s) →
  (∀ price level levels s o,
     OrderBook.sw_heap s !! p = Some o →
     Order.remainingQuantity_ o = 0%N →
     P ((price, level) :: levels) s ((price, level) :: levels) s) →
  (∀ price level levels s o,
     OrderBook.sw_heap s !! p = Some o →
     (0 < Order.remainingQuantity_ o)%N →
     Order.type_ o = LIMIT → tooFar o price = true →
     P ((price, level) :: levels) s ((price, level) :: levels) s) →
  (∀ price level levels s o s1 levels' s',
     OrderBook.sw_heap s !! p = Some o →
     (0 < Order.remainingQuantity_ o)%N →
     (Order.type_ o = LIMIT → tooFar o price = false) →
     OrderBook.matchQueue sym p (PriceLevel.orders_ level) s = Some ([], s1) →
     OrderBook.matchLevels tooFar sym p levels s1 = Some (levels', s') →
     P levels s1 levels' s' →
     P ((price, level) :: levels) s levels' s') →
  (∀ price level levels s o orders s1,
     OrderBook.sw_heap s !! p = Some o →
     (0 < Order.remainingQuantity_ o)%N →
     (Order.type_ o = LIMIT → tooFar o price = false) →
     OrderBook.matchQueue sym p (PriceLevel.orders_ level) s = Some (orders, s1) →
     orders ≠ [] →
     P ((price, level) :: levels) s
       ((price, PriceLevel.setOrders orders level) :: levels) s1) →
  ∀ levels s levels' s',
    OrderBook.matchLevels tooFar sym p levels s = Some (levels', s') →
    P levels s levels' s'.
Proof.
  intros Hnil Hstop Hbreak Herased Hkept levels.
  induction levels as [|[price level] levels IH]; intros s levels' s' H.
  - rewrite matchLevels_nil in H. simplify_eq. apply Hnil.
  - apply matchLevels_cons in H
      as (o & Ho & [[Hz ?]|[(Hpos & Hty & Hfar & ?)|(Hpos & Hnear & orders & s1 & Hq & Hcase)]]).
    + simplify_eq. by eapply Hstop.
    + simplify_eq. by eapply Hbreak.
    + destruct Hcase as [[-> Hrec]|[Hne ?]].
      * eapply Herased; eauto.
      * simplify_eq. eapply Hkept; eauto.
Qed.

Ltac levels_induction H :=
  match type of H with
  | OrderBook.matchLevels ?tooFar ?sym ?p ?levels ?s = Some (?levels', ?s') =>
      pattern levels, s, levels', s';
      eapply (matchLevels_ind tooFar sym p); [| | | | |exact H];
      clear H; try clear levels s levels' s'; cbv beta
  end.

(** The store only changes by fills. *)
Lemma matchLevels_filledFrom tooFar sym p levels s levels' s' :
  OrderBook.matchLevels tooFar sym p levels s = Some (levels', s') →
  filledFrom (OrderBook.sw_heap s) (OrderBook.sw_heap s').
Proof.
  intros H. levels_induction H; try done.
  - intros price level levels s o s1 levels' s' _ _ _ Hq _ IH.
    etrans; [|exact IH]. by eapply matchQueue_filledFrom.
  - intros price level levels s o orders s1 _ _ _ Hq _.
    by eapply matchQueue_filledFrom.
Qed.

(** A suffix of the keys is left, in the same order. *)
Lemma matchLevels_keys tooFar sym p levels s levels' s' :
  OrderBook.matchLevels tooFar sym p levels s = Some (levels', s') →
  keys levels' `suffix_of` keys levels.
Proof.
  intros H. levels_induction H; try done.
  intros price level levels s o s1 levels' s' _ _ _ _ _ IH.
  unfold keys in *. simpl. by apply suffix_cons_r.
Qed.

(** Why the loop ended: nothing remains of the incoming order, or the
    side is exhausted, or the incoming order is a LIMIT order and the best
    level left fails its price test. *)
Lemma matchLevels_exhausts tooFar sym p levels s levels' s' o :
  OrderBook.matchLevels tooFar sym p levels s = Some (levels', s') →
  OrderBook.sw_heap s !! p = Some o →
  ∃ o', OrderBook.sw_heap s' !! p = Some o' ∧
    (Order.remainingQuantity_ o' = 0%N
     ∨ levels' = []
     ∨ (Order.type_ o = LIMIT ∧
        ∃ price level rest, levels' = (price, level) :: rest
                            ∧ tooFar o' price = true)).
Proof.
  intros H. revert o. levels_induction H.
  - intros s o Ho. exists o. split; [done|]. by right; left.
  - intros price level levels s o Ho Hz o0 Ho0. simplify_eq.
    exists o. split; [done|]. by left.
  - intros price level levels s o Ho Hpos Hty Hfar o0 Ho0. simplify_eq.
    exists o. split; [done|]. right; right. split; [done|]. eauto.
  - intros price level levels s o s1 levels' s' Ho Hpos Hnear Hq Hrec IH o0 Ho0.
    simplify_eq.
    pose proof (matchQueue_filledFrom _ _ _ _ _ _ Hq) as Hf.
    destruct (filledFrom_lookup _ _ _ _ Hf Ho) as (o1 & Ho1 & Hfills).
    destruct (IH _ Ho1) as (o' & Ho' & Hcase). exists o'. split; [done|].
    destruct Hcase as [?|[?|[Hty ?]]]; [by left|by right; left|].
    right; right. split; [|done].
    apply fills_static in Hfills as (_&_&_&Hty'&_). congruence.
  - intros price level levels s o orders s1 Ho Hpos Hnear Hq Hne o0 Ho0.
    destruct (matchQueue_exhausts _ _ _ _ _ _ Hq) as [?|(o1 & Ho1 & Hz)]; [done|].
    exists o1. split; [done|]. by left.
Qed.

Lemma resting_cons price level levels :
  resting ((price, level) :: levels) = PriceLevel.queue level ++ resting levels.
Proof. done. Qed.

Lemma resting_app levels1 levels2 :
  resting (levels1 ++ levels2) = resting levels1 ++ resting levels2.
Proof. unfold resting. apply bind_app. Qed.

Lemma eraseIds_app h erased1 erased2 idx :
  eraseIds h (erased1 ++ erased2) idx
  = eraseIds h erased1 (eraseIds h erased2 idx).
Proof. unfold eraseIds. apply foldr_app. Qed.

Lemma eraseIds_comm h erased1 erased2 idx :
  eraseIds h erased1 (eraseIds h erased2 idx)
  = eraseIds h erased2 (eraseIds h erased1 idx).
Proof.
  induction erased1 as [|nq erased1 IH]; [done|]. simpl.
  by rewrite IH, eraseIds_delete.
Qed.

Lemma remaining_zero_filledFrom h h' r :
  filledFrom h h' → remainingOf h r = 0%N → remainingOf h' r = 0%N.
Proof.
  intros Hf. unfold remainingOf. destruct (h !! r) as [o|] eqn:Hr.
  - destruct (filledFrom_lookup _ _ _ _ Hf Hr) as (o' & -> & Hfills). simpl.
    apply fills_remaining_le in Hfills. lia.
  - apply lookup_ge_None in Hr. rewrite <- (filledFrom_length _ _ Hf) in Hr.
    apply lookup_ge_None in Hr. by rewrite Hr.
Qed.

(** What one sweep does to a side.  The resting pointers, best level first,
    split into those erased, all filled, and those left; there is one trade
    per erased order, in that order, and at most one more, with the order
    now at the front of the side; the ids of the erased orders leave the
    index; no other order changes. *)
Lemma matchLevels_shape tooFar sym p levels s levels' s' o :
  OrderBook.matchLevels tooFar sym p levels s = Some (levels', s') →
  OrderBook.sw_heap s !! p = Some o →
  ∃ erased partial new,
    resting levels = erased.*2 ++ resting levels'
    ∧ partial `prefix_of` resting levels' ∧ length partial ≤ 1
    ∧ OrderBook.sw_trades s' = OrderBook.sw_trades s ++ new
    ∧ Forall2 (tradeWith (OrderBook.sw_heap s) (Order.side_ o)) new
        (erased.*2 ++ partial)
    ∧ Forall (λ nq, remainingOf (OrderBook.sw_heap s') nq.2 = 0%N) erased
    ∧ OrderBook.sw_orderMap s'
      = eraseIds (OrderBook.sw_heap s) erased (OrderBook.sw_orderMap s)
    ∧ (∀ r, r ≠ p → r ∉ erased.*2 ++ partial →
            OrderBook.sw_heap s' !! r = OrderBook.sw_heap s !! r)
    ∧ Forall (λ q, remainingOf (OrderBook.sw_heap s') q ≠ 0%N) partial.
Proof.
  intros H. revert o. levels_induction H.
  - intros s o _. exists [], [], [].
    split_and!; [done|apply prefix_nil|simpl; lia|by rewrite app_nil_r
                |constructor|constructor|done|done|constructor].
  - intros price level levels s o _ _ o0 _. exists [], [], [].
    split_and!; [done|apply prefix_nil|simpl; lia|by rewrite app_nil_r
                |constructor|constructor|done|done|constructor].
  - intros price level levels s o _ _ _ _ o0 _. exists [], [], [].
    split_and!; [done|apply prefix_nil|simpl; lia|by rewrite app_nil_r
                |constructor|constructor|done|done|constructor].
  - intros price level levels s o s1 levels' s' Ho Hpos Hnear Hq Hrec IH o0 Ho0.
    simplify_eq.
    pose proof (matchQueue_filledFrom _ _ _ _ _ _ Hq) as Hf.
    pose proof (matchLevels_filledFrom _ _ _ _ _ _ _ Hrec) as Hf'.
    destruct (filledFrom_lookup _ _ _ _ Hf Ho) as (o1 & Ho1 & Hfills).
    destruct (matchQueue_shape _ _ _ _ _ _ _ Hq Ho)
      as (erasedQ & partialQ & newQ & HQ & HpreQ & _ & HtrQ & HnewQ & HdoneQ & HidxQ & HframeQ
          & _).
    apply prefix_nil_inv in HpreQ as ->. rewrite !app_nil_r in *.
    destruct (IH _ Ho1)
      as (erased & partial & new & HL & Hpre & Hlen & Htr & Hnew & Hdone & Hidx & Hframe
          & Hpartial).
    exists (erasedQ ++ erased), partial, (newQ ++ new).
    split_and!; [|done|done|..|done].
    + rewrite resting_cons, HL. unfold PriceLevel.queue. rewrite HQ.
      by rewrite fmap_app, <- app_assoc.
    + by rewrite Htr, HtrQ, <- app_assoc.
    + rewrite fmap_app, <- app_assoc. apply Forall2_app; [done|].
      apply fills_static in Hfills as (_ & _ & Hside & _). rewrite Hside in Hnew.
      eapply Forall2_impl; [exact Hnew|]. intros t r. by apply tradeWith_filledFrom.
    + apply Forall_app. split; [|done].
      eapply Forall_impl; [exact HdoneQ|]. intros nq. by apply remaining_zero_filledFrom.
    + rewrite Hidx, HidxQ, (eraseIds_filledFrom _ _ _ _ Hf), eraseIds_app.
      apply eraseIds_comm.
    + intros r Hrp Hr. rewrite fmap_app, <- app_assoc in Hr.
      apply not_elem_of_app in Hr as [Hr1 Hr2].
      rewrite (Hframe r Hrp Hr2). by apply HframeQ.
  - intros price level levels s o orders s1 Ho Hpos Hnear Hq Hne o0 Ho0.
    simplify_eq.
    destruct (matchQueue_shape _ _ _ _ _ _ _ Hq Ho)
      as (erasedQ & partialQ & newQ & HQ & HpreQ & HlenQ & HtrQ & HnewQ & HdoneQ & HidxQ & HframeQ
          & HpartialQ).
    exists erasedQ, partialQ.*2, newQ.
    split_and!; [| | |done|..].
    + rewrite !resting_cons. unfold PriceLevel.queue at 1. rewrite HQ. simpl.
      by rewrite fmap_app, <- app_assoc.
    + rewrite resting_cons. apply prefix_app_r. unfold PriceLevel.queue; simpl.
      destruct HpreQ as [k ->]. rewrite fmap_app. by eexists.
    + by rewrite length_fmap.
    + by rewrite fmap_app in HnewQ.
    + done.
    + done.
    + intros r Hrp Hr. apply HframeQ; [done|]. by rewrite fmap_app.
    + apply Forall_fmap. eapply Forall_impl; [exact HpartialQ|]. done.
Qed.

(** The loop is defined as soon as its pointers are in the store. *)
Lemma matchLevels_defined tooFar sym p levels s :
  p < length (OrderBook.sw_heap s) →
  Forall (λ q, q < length (OrderBook.sw_heap s)) (resting levels) →
  is_Some (OrderBook.matchLevels tooFar sym p levels s).
Proof.
  revert s. induction levels as [|[price level] levels IH]; intros s Hp Hq; [done|].
  rewrite resting_cons in Hq. apply Forall_app in Hq as [Hq Hqs].
  destruct (lookup_lt_is_Some_2 _ _ Hp) as [o Ho].
  cbn [OrderBook.matchLevels]. rewrite Ho. cbn [mbind option_bind].
  destruct (0 <? Order.remainingQuantity_ o)%N; [|done].
  destruct (_ && _); [done|].
  destruct (matchQueue_defined sym p (PriceLevel.orders_ level) s Hp Hq)
    as [[orders s1] Hrun].
  rewrite Hrun. cbn.
  pose proof (matchQueue_filledFrom _ _ _ _ _ _ Hrun) as Hf.
  apply filledFrom_length in Hf.
  destruct (IH s1) as [[levels' s'] Hrec]; [by rewrite Hf..|].
  rewrite Hrec. by destruct (PriceLevel.isEmpty _).
Qed.


(** * [executeMatches] and [matchOrder] *)

(** [executeMatches] is the outer loop on the opposite side, started with
    the book's index and no trade. *)
Lemma executeMatches_inv p fe h b trades h' b' :
  OrderBook.executeMatches p fe h b = Some (trades, h', b') →
  ∃ o levels' s',
    h !! p = Some o
    ∧ OrderBook.matchLevels (tooFarOf (Order.side_ o)) (OrderBook.symbol_ b) p
        (opposite (Order.side_ o) b)
        {| OrderBook.sw_heap := h; OrderBook.sw_orderMap := OrderBook.orderMap_ b;
           OrderBook.sw_trades := [] |}
      = Some (levels', s')
    ∧ trades = OrderBook.sw_trades s'
    ∧ h' = OrderBook.sw_heap s'
    ∧ b' = OrderBook.setOrderMap (OrderBook.sw_orderMap s')
             (setOpposite (Order.side_ o) levels' b).
Proof.
  unfold OrderBook.executeMatches. intros H.
  destruct (h !! p) as [o|] eqn:Ho; [|done]. cbn in H. exists o.
  destruct (Order.side_ o) eqn:Hside;
    [unfold OrderBook.executeMatches_asks in H
    |unfold OrderBook.executeMatches_bids in H];
    match type of H with
    | context [OrderBook.matchLevels ?a ?b ?c ?d ?e] =>
        destruct (OrderBook.matchLevels a b c d e) as [[levels' s']|] eqn:Hrun
    end; try done; cbn in H; simplify_eq; by exists levels', s'.
Qed.

Lemma executeMatches_defined p fe h b :
  p < length h → closed h b → is_Some (OrderBook.executeMatches p fe h b).
Proof.
  intros Hp [Hbids Hasks]. unfold OrderBook.executeMatches.
  destruct (lookup_lt_is_Some_2 _ _ Hp) as [o ->]. cbn.
  destruct (Order.side_ o).
  - unfold OrderBook.executeMatches_asks.
    edestruct (matchLevels_defined OrderBook.askTooHigh) as [[??] ->];
      [..|done]; done.
  - unfold OrderBook.executeMatches_bids.
    edestruct (matchLevels_defined OrderBook.bidTooLow) as [[??] ->];
      [..|done]; done.
Qed.

Lemma executeMatches_filledFrom p fe h b trades h' b' :
  OrderBook.executeMatches p fe h b = Some (trades, h', b') → filledFrom h h'.
Proof.
  intros H. apply executeMatches_inv in H as (o & levels' & s' & _ & Hrun & _ & -> & _).
  by apply matchLevels_filledFrom in Hrun.
Qed.

Lemma executeMatches_lookup p fe h b trades hs bs o :
  OrderBook.executeMatches p fe h b = Some (trades, hs, bs) →
  h !! p = Some o →
  ∃ os, hs !! p = Some os ∧ rtc fillStep o os.
Proof.
  intros Hx Ho. apply executeMatches_filledFrom in Hx.
  by apply (filledFrom_lookup _ _ _ _ Hx Ho).
Qed.

(** [matchLimitOrder]: the sweep, after which the order comes to rest
    when something is left of it and it is active. *)
Lemma matchLimitOrder_inv p h b trades h' b' :
  OrderBook.matchLimitOrder p h b = Some (trades, h', b') →
  ∃ bs os,
    OrderBook.executeMatches p false h b = Some (trades, h', bs)
    ∧ h' !! p = Some os
    ∧ (((0 < Order.remainingQuantity_ os)%N
        ∧ Order.isActive os = true
        ∧ rested p os h' bs = Some b')
       ∨ ((Order.remainingQuantity_ os = 0%N ∨ Order.isActive os = false)
          ∧ b' = bs)).
Proof.
  unfold OrderBook.matchLimitOrder. intros H.
  destruct (h !! p) as [o|] eqn:Ho; [|done]. cbn in H.
  destruct (OrderBook.executeMatches p false h b) as [[[tr hs] bs]|] eqn:Hx; [|done].
  cbn in H. destruct (executeMatches_lookup _ _ _ _ _ _ _ _ Hx Ho) as (os & Hps & Hf).
  apply fills_static in Hf as (_ & _ & Hside & _).
  rewrite Hps in H. cbn in H.
  destruct (N.ltb_spec 0 (Order.remainingQuantity_ os)) as [Hpos|Hzero]; cbn in H.
  2:{ simplify_eq. exists b', os. split; [done|]. split; [done|]. right.
      split; [left; lia|done]. }
  destruct (Order.isActive os) eqn:Hact; cbn in H.
  2:{ simplify_eq. exists b', os. split; [done|]. split; [done|]. right.
      split; [by right|done]. }
  rewrite <- Hside in H.
  assert (rested p os hs bs = Some b' ∧ tr = trades ∧ hs = h') as (Hr & -> & ->).
  { unfold rested.
    destruct (Order.side_ os); cbn in *;
      match type of H with
      | context [Levels.addOrderAt ?a ?b ?c ?d ?e] =>
          destruct (Levels.addOrderAt a b c d e) as [levels|] eqn:Hadd
      end; try done; cbn in H; by simplify_eq. }
  exists bs, os. split; [done|]. split; [done|]. by left.
Qed.

(** The paths through [matchOrder]: a FOK order refused; or a sweep,
    followed by the cancellation of what is left (MARKET, IOC), by nothing
    (FOK), or by the order coming to rest when something is left of it and
    it is active (LIMIT and the two stop types). *)
Lemma matchOrder_inv p h b trades h' b' :
  OrderBook.matchOrder p h b = Some (trades, h', b') →
  ∃ o, h !! p = Some o ∧
    ((Order.type_ o = FOK ∧ canFill o b = false ∧ trades = []
      ∧ h' = <[p := Order.setStatus CANCELLED o]> h ∧ b' = b)
     ∨ ∃ fe hs bs os,
         OrderBook.executeMatches p fe h b = Some (trades, hs, bs)
         ∧ hs !! p = Some os
         ∧ (((Order.type_ o = MARKET ∨ Order.type_ o = IOC)
             ∧ h' = cancelledIfUnfilled p os hs ∧ b' = bs)
            ∨ (Order.type_ o = FOK ∧ canFill o b = true ∧ h' = hs ∧ b' = bs)
            ∨ (restingType (Order.type_ o) ∧ h' = hs
               ∧ (((0 < Order.remainingQuantity_ os)%N
                   ∧ Order.isActive os = true
                   ∧ rested p os hs bs = Some b')
                  ∨ ((Order.remainingQuantity_ os = 0%N ∨ Order.isActive os = false)
                     ∧ b' = bs))))).
Proof.
  unfold OrderBook.matchOrder. intros H.
  destruct (h !! p) as [o|] eqn:Ho; [|done]. cbn in H. exists o. split; [done|].
  assert (∀ tr hs bs,
            OrderBook.executeMatches p false h b = Some (tr, hs, bs) →
            OrderBook.cancelUnfilled p hs = Some h' → b' = bs → tr = trades →
            ∃ os, hs !! p = Some os ∧ h' = cancelledIfUnfilled p os hs) as Hcancel.
  { intros tr hs bs Hx Hc _ _. unfold OrderBook.cancelUnfilled in Hc.
    destruct (executeMatches_lookup _ _ _ _ _ _ _ _ Hx Ho) as (os & Hps & _).
    rewrite Hps in Hc. cbn in Hc. simplify_eq. by exists os. }
  assert (OrderBook.matchLimitOrder p h b = Some (trades, h', b') →
          restingType (Order.type_ o) →
          ∃ fe hs bs os,
            OrderBook.executeMatches p fe h b = Some (trades, hs, bs)
            ∧ hs !! p = Some os
            ∧ (((Order.type_ o = MARKET ∨ Order.type_ o = IOC)
                ∧ h' = cancelledIfUnfilled p os hs ∧ b' = bs)
               ∨ (Order.type_ o = FOK ∧ canFill o b = true ∧ h' = hs ∧ b' = bs)
               ∨ (restingType (Order.type_ o) ∧ h' = hs
                  ∧ (((0 < Order.remainingQuantity_ os)%N
                      ∧ Order.isActive os = true
                      ∧ rested p os hs bs = Some b')
                     ∨ ((Order.remainingQuantity_ os = 0%N
                         ∨ Order.isActive os = false)
                        ∧ b' = bs))))) as Hlimit.
  { intros Hl Hty. apply matchLimitOrder_inv in Hl as (bs & os & Hx & Hps & Hcase).
    exists false, h', bs, os. split; [done|]. split; [done|]. right; right. done. }
  destruct (Order.type_ o) eqn:Hty.
  - (* MARKET *)
    right. unfold OrderBook.matchMarketOrder in H.
    destruct (OrderBook.executeMatches p false h b) as [[[tr hs] bs]|] eqn:Hx; [|done].
    cbn in H. destruct (OrderBook.cancelUnfilled p hs) as [hc|] eqn:Hc; [|done].
    cbn in H. simplify_eq. destruct (Hcancel _ _ _ eq_refl Hc eq_refl eq_refl) as (os & ? & ?).
    exists false, hs, b', os. split; [done|]. split; [done|]. left. split; [by left|done].
  - right. apply Hlimit; [done|by left].
  - right. apply Hlimit; [done|by right; left].
  - right. apply Hlimit; [done|by right; right].
  - (* IOC *)
    right. unfold OrderBook.matchIOCOrder in H.
    destruct (OrderBook.executeMatches p false h b) as [[[tr hs] bs]|] eqn:Hx; [|done].
    cbn in H. destruct (OrderBook.cancelUnfilled p hs) as [hc|] eqn:Hc; [|done].
    cbn in H. simplify_eq. destruct (Hcancel _ _ _ eq_refl Hc eq_refl eq_refl) as (os & ? & ?).
    exists false, hs, b', os. split; [done|]. split; [done|]. left. split; [by right|done].
  - (* FOK *)
    unfold OrderBook.matchFOKOrder in H. rewrite Ho in H. cbn in H.
    fold (canFill o b) in H. destruct (canFill o b) eqn:Hcan; cbn in H.
    + right. destruct (executeMatches_lookup _ _ _ _ _ _ _ _ H Ho) as (os & Hps & _).
      exists true, h', b', os. split; [done|]. split; [done|].
      right; left. done.
    + left. by simplify_eq.
Qed.

Lemma opposite_setOpposite side levels idx b :
  opposite side (OrderBook.setOrderMap idx (setOpposite side levels b)) = levels.
Proof. by destruct side. Qed.

Lemma ownSide_setOpposite side levels idx b :
  ownSide side (OrderBook.setOrderMap idx (setOpposite side levels b))
  = ownSide side b.
Proof. by destruct side. Qed.

(** What the sweep does to a book: [matchLevels_shape] read on the book. *)
Lemma executeMatches_shape p fe h b trades h' b' o :
  OrderBook.executeMatches p fe h b = Some (trades, h', b') →
  h !! p = Some o →
  ∃ erased partial,
    resting (opposite (Order.side_ o) b)
      = erased.*2 ++ resting (opposite (Order.side_ o) b')
    ∧ partial `prefix_of` resting (opposite (Order.side_ o) b')
    ∧ length partial ≤ 1
    ∧ Forall2 (tradeWith h (Order.side_ o)) trades (erased.*2 ++ partial)
    ∧ Forall (λ nq, remainingOf h' nq.2 = 0%N) erased
    ∧ OrderBook.orderMap_ b' = eraseIds h erased (OrderBook.orderMap_ b)
    ∧ ownSide (Order.side_ o) b' = ownSide (Order.side_ o) b
    ∧ OrderBook.symbol_ b' = OrderBook.symbol_ b
    ∧ (∀ r, r ≠ p → r ∉ erased.*2 ++ partial → h' !! r = h !! r)
    ∧ Forall (λ q, remainingOf h' q ≠ 0%N) partial.
Proof.
  intros H Ho.
  apply executeMatches_inv in H as (o0 & levels' & s' & Ho0 & Hrun & -> & -> & ->).
  rewrite Ho in Ho0. injection Ho0 as <-.
  destruct (matchLevels_shape _ _ _ _ _ _ _ _ Hrun Ho)
    as (erased & partial & new & HL & Hpre & Hlen & Htr & Hnew & Hdone & Hidx & Hframe
        & Hpartial).
  simpl in *. exists erased, partial.
  rewrite opposite_setOpposite, ownSide_setOpposite.
  split_and!; try done.
  - by rewrite Htr.
  - by destruct (Order.side_ o).
Qed.

Lemma cancelledIfUnfilled_lookup_ne p os hs r :
  r ≠ p → cancelledIfUnfilled p os hs !! r = hs !! r.
Proof.
  intros Hne. unfold cancelledIfUnfilled.
  destruct (0 <? _)%N; [|done]. by rewrite list_lookup_insert_ne.
Qed.

Lemma cancelledIfUnfilled_remaining p os hs r :
  hs !! p = Some os →
  remainingOf (cancelledIfUnfilled p os hs) r = remainingOf hs r.
Proof.
  intros Hp. unfold cancelledIfUnfilled, remainingOf.
  destruct (0 <? _)%N; [|done]. destruct (decide (r = p)) as [->|Hne].
  - rewrite list_lookup_insert_eq by (by eapply lookup_lt_Some). by rewrite Hp.
  - by rewrite list_lookup_insert_ne.
Qed.

(** The orders [matchOrder] trades with are the first ones of the opposite
    side, best level first and front of each queue first: one trade each,
    in that order; all but possibly the last one are filled; no other
    resting order changes. *)
Lemma matchOrder_touched p h b trades h' b' o :
  OrderBook.matchOrder p h b = Some (trades, h', b') →
  h !! p = Some o →
  ∃ filled partial,
    (filled ++ partial) `prefix_of` resting (opposite (Order.side_ o) b)
    ∧ length partial ≤ 1
    ∧ Forall2 (tradeWith h (Order.side_ o)) trades (filled ++ partial)
    ∧ Forall (λ q, remainingOf h' q = 0%N) filled
    ∧ ∀ r, r ≠ p → r ∉ filled ++ partial → h' !! r = h !! r.
Proof.
  intros H Ho. apply matchOrder_inv in H as (o0 & Ho0 & Hcase).
  rewrite Ho in Ho0. injection Ho0 as <-.
  destruct Hcase as [(_ & _ & -> & -> & ->)|(fe & hs & bs & os & Hx & Hps & Hcase)].
  { exists [], []. split_and!; [apply prefix_nil|simpl; lia|constructor|constructor|].
    intros r Hr _. by rewrite list_lookup_insert_ne. }
  destruct (executeMatches_shape _ _ _ _ _ _ _ _ Hx Ho)
    as (erased & partial & HL & Hpre & Hlen & Hnew & Hdone & _ & _ & _ & Hframe & _).
  assert ((erased.*2 ++ partial) `prefix_of` resting (opposite (Order.side_ o) b))
    as Hprefix by (rewrite HL; by apply prefix_app).
  assert (Forall (λ q, remainingOf hs q = 0%N) erased.*2) as Hdone'.
  { apply Forall_fmap. eapply Forall_impl; [exact Hdone|]. done. }
  clear Hdone. rename Hdone' into Hdone.
  exists erased.*2, partial.
  destruct Hcase as [(_ & -> & ->)|[(_ & _ & -> & ->)|(_ & -> & _)]];
    split_and!; try done.
  - eapply Forall_impl; [exact Hdone|]. intros q Hq. simpl in Hq.
    by rewrite cancelledIfUnfilled_remaining.
  - intros r Hr Hnot. rewrite cancelledIfUnfilled_lookup_ne by done. by apply Hframe.
Qed.

(** [matchOrder] never changes the id, symbol, side, type, price or
    quantity of an order of the store. *)
Lemma filledFrom_static h h' : filledFrom h h' → Forall2 sameStatic h h'.
Proof. intros H. eapply Forall2_impl; [exact H|]. apply fills_static. Qed.

Lemma setStatus_insert_static (h : Heap) p o st :
  h !! p = Some o → Forall2 sameStatic h (<[p := Order.setStatus st o]> h).
Proof.
  intros Hp. apply Forall2_same_length_lookup. split; [by rewrite length_insert|].
  intros i x y Hx Hy. destruct (decide (i = p)) as [->|Hne].
  - rewrite list_lookup_insert_eq in Hy by (by eapply lookup_lt_Some).
    simplify_eq. apply setStatus_static.
  - rewrite list_lookup_insert_ne in Hy by done. by simplify_eq.
Qed.

Lemma matchOrder_static p h b trades h' b' :
  OrderBook.matchOrder p h b = Some (trades, h', b') → Forall2 sameStatic h h'.
Proof.
  intros H. apply matchOrder_inv in H as (o & Ho & Hcase).
  destruct Hcase as [(_ & _ & _ & -> & _)|(fe & hs & bs & os & Hx & Hps & Hcase)].
  { by apply setStatus_insert_static. }
  apply executeMatches_filledFrom, filledFrom_static in Hx.
  destruct Hcase as [(_ & -> & _)|[(_ & _ & -> & _)|(_ & -> & _)]]; try done.
  unfold cancelledIfUnfilled. destruct (0 <? _)%N; [|done].
  eapply Forall2_trans; [|exact Hx|by apply setStatus_insert_static].
  intros ???. apply sameStatic_trans.
Qed.

Lemma matchOrder_length p h b trades h' b' :
  OrderBook.matchOrder p h b = Some (trades, h', b') → length h' = length h.
Proof. intros H. apply matchOrder_static in H. symmetry. by eapply Forall2_length. Qed.

Lemma addOrderAt_defined comp price p (h : Heap) m :
  p < length h → is_Some (Levels.addOrderAt comp price p h m).
Proof.
  intros Hp. destruct (lookup_lt_is_Some_2 _ _ Hp) as [o Ho].
  unfold Levels.addOrderAt, PriceLevel.addOrder. rewrite Ho. by cbn.
Qed.

(** [matchOrder] is defined on a closed book. *)
Lemma matchOrder_defined p h b :
  p < length h → closed h b → is_Some (OrderBook.matchOrder p h b).
Proof.
  intros Hp Hcl. destruct (lookup_lt_is_Some_2 _ _ Hp) as [o Ho].
  assert (∀ fe, ∃ tr hs bs os,
            OrderBook.executeMatches p fe h b = Some (tr, hs, bs)
            ∧ hs !! p = Some os ∧ Order.side_ os = Order.side_ o) as Hx.
  { intros fe. destruct (executeMatches_defined p fe h b Hp Hcl) as [[[tr hs] bs] Hx].
    destruct (executeMatches_lookup _ _ _ _ _ _ _ _ Hx Ho) as (os & Hps & Hf).
    apply fills_static in Hf as (_&_&?&_). by exists tr, hs, bs, os. }
  assert (is_Some (OrderBook.matchLimitOrder p h b)) as Hlimit.
  { unfold OrderBook.matchLimitOrder. rewrite Ho. cbn.
    destruct (Hx false) as (tr & hs & bs & os & -> & Hps & Hside). cbn.
    rewrite Hps. cbn. destruct (_ && _); [|done].
    assert (p < length hs) as Hp' by (by eapply lookup_lt_Some).
    destruct (Order.side_ o).
    - by destruct (addOrderAt_defined Z.gtb (Order.price_ os) p hs (OrderBook.bids_ bs) Hp')
        as [? ->].
    - by destruct (addOrderAt_defined Z.ltb (Order.price_ os) p hs (OrderBook.asks_ bs) Hp')
        as [? ->]. }
  assert (is_Some ('(trades, h, b) ← OrderBook.executeMatches p false h b;
                   h ← OrderBook.cancelUnfilled p h; Some (trades, h, b))) as Hcancel.
  { destruct (Hx false) as (tr & hs & bs & os & -> & Hps & Hside). cbn.
    unfold OrderBook.cancelUnfilled. rewrite Hps. by cbn. }
  unfold OrderBook.matchOrder. rewrite Ho. cbn.
  destruct (Order.type_ o); try done.
  unfold OrderBook.matchFOKOrder. rewrite Ho. cbn.
  destruct (negb _); [done|].
  destruct (Hx true) as (tr & hs & bs & os & -> & _). done.
Qed.


(** * The ordered maps *)

Lemma find_Some_elem price m l :
  Levels.find price m = Some l → (price, l) ∈ m.
Proof.
  induction m as [|[k l'] m IH]; [done|]. simpl.
  destruct (Z.eqb_spec price k) as [->|Hne].
  - intros; simplify_eq. apply list_elem_of_here.
  - intros H. apply list_elem_of_further. by apply IH.
Qed.

Lemma find_None_keys price m :
  Levels.find price m = None ↔ price ∉ keys m.
Proof.
  unfold keys. induction m as [|[k l'] m IH]; simpl.
  - split; [intros _; apply not_elem_of_nil|done].
  - destruct (Z.eqb_spec price k) as [->|Hne].
    + split; [done|]. intros H. exfalso. apply H. apply list_elem_of_here.
    + rewrite IH. rewrite not_elem_of_cons. tauto.
Qed.

Lemma find_set comp price l m :
  Levels.find price (Levels.set comp price l m) = Some l.
Proof.
  induction m as [|[k l'] m IH]; simpl.
  - by rewrite Z.eqb_refl.
  - destruct (Z.eqb_spec price k) as [->|Hne]; simpl.
    + by rewrite Z.eqb_refl.
    + destruct (comp price k); simpl.
      * by rewrite Z.eqb_refl.
      * destruct (Z.eqb_spec price k); [done|]. apply IH.
Qed.

Lemma find_set_ne comp price price' l m :
  price' ≠ price →
  Levels.find price' (Levels.set comp price l m) = Levels.find price' m.
Proof.
  intros Hne. induction m as [|[k l'] m IH]; simpl.
  - by destruct (Z.eqb_spec price' price).
  - destruct (Z.eqb_spec price k) as [->|Hk]; simpl.
    + by destruct (Z.eqb_spec price' k).
    + destruct (comp price k); simpl.
      * by destruct (Z.eqb_spec price' price).
      * destruct (Z.eqb_spec price' k); [done|]. apply IH.
Qed.

Lemma set_set comp price l1 l2 m :
  Levels.set comp price l2 (Levels.set comp price l1 m) = Levels.set comp price l2 m.
Proof.
  induction m as [|[k l'] m IH]; simpl.
  - by rewrite Z.eqb_refl.
  - destruct (Z.eqb_spec price k) as [->|Hne]; simpl.
    + by rewrite Z.eqb_refl.
    + destruct (comp price k) eqn:Hc; simpl.
      * by rewrite Z.eqb_refl.
      * destruct (Z.eqb_spec price k); [done|]. by rewrite Hc, IH.
Qed.

Lemma erase_set_absent comp price l m :
  Levels.find price m = None →
  Levels.erase price (Levels.set comp price l m) = m.
Proof.
  induction m as [|[k l'] m IH]; simpl.
  - by rewrite Z.eqb_refl.
  - destruct (Z.eqb_spec price k) as [->|Hne]; [done|]. intros Hnone. simpl.
    destruct (comp price k); simpl.
    + by rewrite Z.eqb_refl.
    + destruct (Z.eqb_spec price k); [done|]. by rewrite IH.
Qed.

Lemma erase_keys_sublist price m :
  keys (Levels.erase price m) `sublist_of` keys m.
Proof.
  unfold keys. induction m as [|[k l] m IH]; simpl; [done|].
  destruct (Z.eqb_spec price k).
  - by apply sublist_cons.
  - simpl. by apply sublist_skip.
Qed.

Lemma erase_subseteq price m : Levels.erase price m ⊆ m.
Proof.
  induction m as [|[k l] m IH]; simpl; [done|].
  destruct (Z.eqb_spec price k).
  - by apply list_subseteq_cons.
  - intros x Hx. apply elem_of_cons in Hx as [->|Hx].
    + apply list_elem_of_here.
    + apply list_elem_of_further. by apply IH.
Qed.

(** ** Sorted maps

    [R] is the strict order of the map and [comp] its comparator:
    [Z.lt] and [Z.ltb] for the asks, [Z.gt] and [Z.gtb] for the bids. *)
Section sorted.
Context (R : relation Z) (comp : Price → Price → bool).
Hypothesis comp_spec : ∀ a b, comp a b = true ↔ R a b.
Hypothesis R_trans : Transitive R.
Hypothesis R_irrefl : ∀ a, ¬ R a a.
Hypothesis R_total : ∀ a b, a = b ∨ R a b ∨ R b a.

Lemma R_asym a b : R a b → ¬ R b a.
Proof using R_trans R_irrefl. intros Hab Hba. apply (R_irrefl a). by etrans. Qed.

Lemma set_keys_present price l l0 m :
  StronglySorted R (keys m) →
  Levels.find price m = Some l0 →
  keys (Levels.set comp price l m) = keys m.
Proof using comp_spec R_trans R_irrefl.
  unfold keys. induction m as [|[k l'] m IH]; [done|]. simpl.
  intros Hs Hf. apply StronglySorted_inv in Hs as [Hs Hk].
  destruct (Z.eqb_spec price k) as [->|Hne]; [done|].
  destruct (comp price k) eqn:Hc.
  - exfalso. apply comp_spec in Hc.
    apply find_Some_elem in Hf.
    assert (price ∈ m.*1) as Hin.
    { apply list_elem_of_fmap. by exists (price, l0). }
    rewrite Forall_forall in Hk. apply Hk in Hin. by apply (R_asym price k).
  - simpl. f_equal. by apply IH.
Qed.

Lemma set_sorted price l m :
  StronglySorted R (keys m) →
  StronglySorted R (keys (Levels.set comp price l m)).
Proof using comp_spec R_trans R_total.
  unfold keys. induction m as [|[k l'] m IH]; simpl.
  - intros _. repeat constructor.
  - intros Hs. pose proof Hs as Hs0.
    apply StronglySorted_inv in Hs as [Hs Hk].
    destruct (Z.eqb_spec price k) as [->|Hne]; [done|].
    destruct (comp price k) eqn:Hc; simpl.
    + apply comp_spec in Hc. constructor; [done|]. constructor; [done|].
      eapply Forall_impl; [exact Hk|]. intros x Hx. by etrans.
    + constructor; [by apply IH|].
      assert (R k price) as Hkp.
      { destruct (R_total price k) as [?|[H|?]]; [done| |done].
        apply comp_spec in H. congruence. }
      clear IH Hs0 Hs. induction m as [|[k' l''] m IH]; simpl.
      * by constructor.
      * apply Forall_cons in Hk as [Hk' Hk].
        destruct (Z.eqb_spec price k'); simpl.
        { constructor; [done|]. done. }
        destruct (comp price k'); simpl.
        { constructor; [done|]. by constructor. }
        constructor; [done|]. by apply IH.
Qed.

(** The first key after an assignment is the key assigned or the former
    first key. *)
Lemma set_head price l m k' :
  head (keys (Levels.set comp price l m)) = Some k' →
  k' = price ∨ head (keys m) = Some k'.
Proof.
  unfold keys. destruct m as [|[k l'] m]; simpl.
  - intros; simplify_eq. by left.
  - destruct (Z.eqb_spec price k) as [->|Hne]; simpl.
    + intros; simplify_eq. by left.
    + destruct (comp price k); simpl; intros; simplify_eq; [by left|by right].
Qed.

(** The first key of a sublist of a sorted list is the first key of the
    list or comes after it. *)
Lemma sublist_head (ks' ks : list Z) k' :
  StronglySorted R ks → ks' `sublist_of` ks → head ks' = Some k' →
  ∃ k, head ks = Some k ∧ (k = k' ∨ R k k').
Proof.
  intros Hs Hsub Hh. destruct ks' as [|x ks']; [done|]. simpl in Hh. simplify_eq.
  destruct ks as [|k ks]; [by apply sublist_nil_r in Hsub|].
  exists k. split; [done|].
  apply StronglySorted_inv in Hs as [_ Hk].
  apply sublist_cons_r in Hsub as [Hsub|(ks'' & Heq & Hsub)].
  - right. rewrite Forall_forall in Hk. apply Hk.
    eapply elem_of_sublist; [|exact Hsub]. apply list_elem_of_here.
  - left. by simplify_eq.
Qed.

Lemma sublist_sorted (ks' ks : list Z) :
  StronglySorted R ks → ks' `sublist_of` ks → StronglySorted R ks'.
Proof.
  intros Hs Hsub. revert Hs. induction Hsub as [|x l1 l2 Hsub IH|x l1 l2 Hsub IH].
  - done.
  - intros Hs. apply StronglySorted_inv in Hs as [Hs Hk].
    constructor; [by apply IH|].
    rewrite Forall_forall in *. intros y Hy. apply Hk.
    by eapply elem_of_sublist.
  - intros Hs. apply StronglySorted_inv in Hs as [Hs _]. by apply IH.
Qed.

End sorted.

Lemma ltb_spec_lt a b : Z.ltb a b = true ↔ Z.lt a b.
Proof. apply Z.ltb_lt. Qed.

Lemma gtb_spec_gt a b : Z.gtb a b = true ↔ Z.gt a b.
Proof. rewrite Z.gtb_ltb, Z.ltb_lt. lia. Qed.

#[global] Instance Zgt_trans : Transitive Z.gt.
Proof. intros a b c. lia. Qed.

#[global] Instance Zlt_trans : Transitive Z.lt.
Proof. intros a b c. lia. Qed.


(** * Cancelling, and the book at rest *)

Lemma removeOrderAt_inv comp price orderId h m m' :
  Levels.removeOrderAt comp price orderId h m = Some m' →
  (Levels.find price m = None ∧ m' = m)
  ∨ ∃ l l',
      Levels.find price m = Some l
      ∧ PriceLevel.removeOrder orderId h l = Some l'
      ∧ m' = if PriceLevel.isEmpty l' then Levels.erase price m
             else Levels.set comp price l' m.
Proof.
  unfold Levels.removeOrderAt. intros H.
  destruct (Levels.find price m) as [l|]; [|left; split; [done|]; by simplify_eq].
  right. destruct (PriceLevel.removeOrder orderId h l) as [l'|] eqn:Hrem; [|done].
  cbn in H. simplify_eq. exists l, l'. by split_and!.
Qed.

(** The paths through [cancelOrder]. *)
Lemma cancelOrder_inv orderId h b r h' b' :
  OrderBook.cancelOrder orderId h b = Some (r, h', b') →
  (OrderBook.orderMap_ b !! orderId = None ∧ r = false ∧ h' = h ∧ b' = b)
  ∨ ∃ p o levels',
      OrderBook.orderMap_ b !! orderId = Some p
      ∧ h !! p = Some o
      ∧ r = true
      ∧ h' = <[p := Order.setStatus CANCELLED o]> h
      ∧ Levels.removeOrderAt (ownComp (Order.side_ o)) (Order.price_ o) orderId h'
          (ownSide (Order.side_ o) b) = Some levels'
      ∧ b' = OrderBook.setOrderMap (delete orderId (OrderBook.orderMap_ b))
               (setOwnSide (Order.side_ o) levels' b).
Proof.
  unfold OrderBook.cancelOrder. intros H.
  destruct (OrderBook.orderMap_ b !! orderId) as [p|];
    [|left; split; [done|]; by simplify_eq].
  right. destruct (h !! p) as [o|] eqn:Ho; [|done]. cbn in H.
  exists p, o.
  destruct (Order.side_ o); cbn in *;
    match type of H with
    | context [Levels.removeOrderAt ?a ?b ?c ?d ?e] =>
        destruct (Levels.removeOrderAt a b c d e) as [levels'|] eqn:Hrem
    end; try done; cbn in H; simplify_eq; exists levels'; by split_and!.
Qed.

Lemma notCrossed_crossFree b :
  notCrossed b ↔ crossFree (OrderBook.bids_ b) (OrderBook.asks_ b).
Proof.
  unfold notCrossed, crossFree, OrderBook.getBestBid, OrderBook.getBestAsk, keys.
  destruct (OrderBook.bids_ b) as [|[kb lb] bids], (OrderBook.asks_ b) as [|[ka la] asks];
    simpl; split; try done; try (intros _; by left); try (intros _; right; by left).
  - intros [?|[?|?]]; try done. intros; by simplify_eq.
  - intros H. right; right. by apply H.
Qed.

Section sides.
Context (R : relation Z) (comp : Price → Price → bool).
Hypothesis comp_spec : ∀ a b, comp a b = true ↔ R a b.
Hypothesis R_trans : Transitive R.
Hypothesis R_irrefl : ∀ a, ¬ R a a.
Hypothesis R_total : ∀ a b, a = b ∨ R a b ∨ R b a.

Lemma removeOrderAt_keys price orderId h m m' :
  StronglySorted R (keys m) →
  Levels.removeOrderAt comp price orderId h m = Some m' →
  keys m' `sublist_of` keys m.
Proof using comp_spec R_trans R_irrefl.
  intros Hs H. apply removeOrderAt_inv in H as [[_ ->]|(l & l' & Hf & _ & ->)]; [done|].
  destruct (PriceLevel.isEmpty l').
  - apply erase_keys_sublist.
  - by erewrite (set_keys_present R comp).
Qed.

Lemma addOrderAt_sorted price p h m m' :
  StronglySorted R (keys m) →
  Levels.addOrderAt comp price p h m = Some m' →
  StronglySorted R (keys m').
Proof using comp_spec R_trans R_total.
  unfold Levels.addOrderAt. intros Hs H.
  destruct (PriceLevel.addOrder p h _) as [l|]; [|done]. cbn in H. simplify_eq.
  by apply (set_sorted R comp).
Qed.

Lemma addOrderAt_head price p h m m' k' :
  Levels.addOrderAt comp price p h m = Some m' →
  head (keys m') = Some k' →
  k' = price ∨ head (keys m) = Some k'.
Proof.
  unfold Levels.addOrderAt. intros H.
  destruct (PriceLevel.addOrder p h _) as [l|]; [|done]. cbn in H. simplify_eq.
  apply set_head.
Qed.

End sides.

Lemma Zlt_irrefl a : ¬ (a < a)%Z.
Proof. lia. Qed.

Lemma Zgt_irrefl a : ¬ (a > a)%Z.
Proof. lia. Qed.

Lemma Zlt_total a b : a = b ∨ (a < b)%Z ∨ (b < a)%Z.
Proof. lia. Qed.

Lemma Zgt_total a b : a = b ∨ (a > b)%Z ∨ (b > a)%Z.
Proof. lia. Qed.

(** Removing levels from the bids keeps the book uncrossed; so does removing
    levels from the asks. *)
Lemma crossFree_bids_sublist bids bids' asks :
  sortedBids bids → keys bids' `sublist_of` keys bids →
  crossFree bids asks → crossFree bids' asks.
Proof.
  intros Hs Hsub Hc kb ka Hkb Hka.
  destruct (sublist_head Z.gt _ _ _ Hs Hsub Hkb) as (k & Hk & Hrel).
  specialize (Hc _ _ Hk Hka). lia.
Qed.

Lemma crossFree_asks_sublist bids asks asks' :
  sortedAsks asks → keys asks' `sublist_of` keys asks →
  crossFree bids asks → crossFree bids asks'.
Proof.
  intros Hs Hsub Hc kb ka Hkb Hka.
  destruct (sublist_head Z.lt _ _ _ Hs Hsub Hka) as (k & Hk & Hrel).
  specialize (Hc _ _ Hkb Hk). lia.
Qed.

Lemma suffix_sublist {A} (l1 l2 : list A) : l1 `suffix_of` l2 → l1 `sublist_of` l2.
Proof. intros [k ->]. by apply sublist_inserts_l. Qed.

(** [cancelOrder] keeps the maps sorted and the book uncrossed. *)
Lemma cancelOrder_notCrossed orderId h b r h' b' :
  sortedBook b → notCrossed b →
  OrderBook.cancelOrder orderId h b = Some (r, h', b') →
  sortedBook b' ∧ notCrossed b'.
Proof.
  intros [Hsb Hsa] Hnc H.
  apply cancelOrder_inv in H as [(_ & _ & _ & ->)|(p & o & levels' & _ & _ & _ & _ & Hrem & ->)];
    [done|].
  rewrite notCrossed_crossFree in *.
  destruct (Order.side_ o); simpl in *.
  - pose proof (removeOrderAt_keys Z.gt Z.gtb gtb_spec_gt _ Zgt_irrefl _ _ _ _ _ Hsb Hrem)
      as Hsub.
    split; [split; [|done]|].
    + by eapply (sublist_sorted Z.gt).
    + by eapply crossFree_bids_sublist.
  - pose proof (removeOrderAt_keys Z.lt Z.ltb ltb_spec_lt _ Zlt_irrefl _ _ _ _ _ Hsa Hrem)
      as Hsub.
    split; [split; [done|]|].
    + by eapply (sublist_sorted Z.lt).
    + by eapply crossFree_asks_sublist.
Qed.

(** The sweep leaves the own side alone and a suffix of the opposite
    side. *)
Lemma executeMatches_sides p fe h b trades hs bs o :
  OrderBook.executeMatches p fe h b = Some (trades, hs, bs) →
  h !! p = Some o →
  ownSide (Order.side_ o) bs = ownSide (Order.side_ o) b
  ∧ keys (opposite (Order.side_ o) bs) `suffix_of` keys (opposite (Order.side_ o) b)
  ∧ ∃ os, hs !! p = Some os ∧
      (Order.remainingQuantity_ os = 0%N
       ∨ opposite (Order.side_ o) bs = []
       ∨ (Order.type_ o = LIMIT ∧
          ∃ price level rest,
            opposite (Order.side_ o) bs = (price, level) :: rest
            ∧ tooFarOf (Order.side_ o) os price = true)).
Proof.
  intros H Ho.
  apply executeMatches_inv in H as (o0 & levels' & s' & Ho0 & Hrun & -> & -> & ->).
  rewrite Ho in Ho0. injection Ho0 as <-.
  rewrite opposite_setOpposite, ownSide_setOpposite.
  split; [done|]. split; [by eapply matchLevels_keys|].
  by eapply matchLevels_exhausts.
Qed.

Lemma rested_sides p os hs bs b' :
  rested p os hs bs = Some b' →
  opposite (Order.side_ os) b' = opposite (Order.side_ os) bs
  ∧ Levels.addOrderAt (ownComp (Order.side_ os)) (Order.price_ os) p hs
      (ownSide (Order.side_ os) bs) = Some (ownSide (Order.side_ os) b')
  ∧ OrderBook.orderMap_ b' = <[Order.orderId_ os := p]> (OrderBook.orderMap_ bs)
  ∧ OrderBook.symbol_ b' = OrderBook.symbol_ bs.
Proof.
  unfold rested. intros H.
  destruct (Levels.addOrderAt _ _ _ _ _) as [levels|] eqn:Hadd; [|done].
  cbn in H. simplify_eq. by destruct (Order.side_ os).
Qed.

(** [matchOrder] keeps the maps sorted and the book uncrossed. *)
Lemma matchOrder_notCrossed p h b trades h' b' :
  sortedBook b → notCrossed b →
  OrderBook.matchOrder p h b = Some (trades, h', b') →
  sortedBook b' ∧ notCrossed b'.
Proof.
  intros Hsorted Hnc H. apply matchOrder_inv in H as (o & Ho & Hcase).
  destruct Hcase as [(_ & _ & _ & _ & ->)|(fe & hs & bs & os & Hx & Hps & Hcase)]; [done|].
  destruct (executeMatches_sides _ _ _ _ _ _ _ _ Hx Ho) as (Hown & Hopp & os' & Hps' & Hex).
  rewrite Hps in Hps'. injection Hps' as <-.
  destruct (executeMatches_lookup _ _ _ _ _ _ _ _ Hx Ho) as (os' & Hps' & Hf).
  rewrite Hps in Hps'. injection Hps' as <-.
  apply fills_static in Hf as (_ & _ & Hside & _ & _).
  apply suffix_sublist in Hopp.
  assert (sortedBook bs ∧ notCrossed bs) as [Hsorted' Hnc'].
  { rewrite notCrossed_crossFree in *.
    destruct Hsorted as [Hsb Hsa]. unfold sortedBook.
    destruct (Order.side_ o); simpl in *; rewrite Hown.
    - split; [split; [done|by eapply (sublist_sorted Z.lt)]|].
      by eapply crossFree_asks_sublist.
    - split; [split; [by eapply (sublist_sorted Z.gt)|done]|].
      by eapply crossFree_bids_sublist. }
  destruct Hcase as [(_ & _ & ->)|[(_ & _ & _ & ->)|(Hty & _ & Hrest)]]; [done..|].
  destruct Hrest as [(Hpos & _ & Hrested)|[_ ->]]; [|done].
  apply rested_sides in Hrested as (Ho' & Hadd & _).
  rewrite Hside in *.
  destruct Hsorted' as [Hsb Hsa].
  rewrite notCrossed_crossFree in *. unfold sortedBook.
  destruct (Order.side_ o); simpl in *; rewrite Ho'.
  - split.
    { split; [|done].
      by eapply (addOrderAt_sorted Z.gt Z.gtb gtb_spec_gt _ Zgt_total). }
    intros kb ka Hkb Hka.
    destruct (addOrderAt_head _ _ _ _ _ _ _ Hadd Hkb) as [->|Hold]; [|by eapply Hnc'].
    destruct Hex as [?|[Hnil|(_ & price & level & rest & Heq & Hfar)]]; [lia|..].
    + rewrite Hnil in Hka. done.
    + rewrite Heq in Hka. simpl in Hka. simplify_eq.
      unfold OrderBook.askTooHigh in Hfar. apply andb_true_iff in Hfar as [_ Hlt].
      by apply Z.ltb_lt in Hlt.
  - split.
    { split; [done|].
      by eapply (addOrderAt_sorted Z.lt Z.ltb ltb_spec_lt _ Zlt_total). }
    intros kb ka Hkb Hka.
    destruct (addOrderAt_head _ _ _ _ _ _ _ Hadd Hka) as [->|Hold]; [|by eapply Hnc'].
    destruct Hex as [?|[Hnil|(_ & price & level & rest & Heq & Hfar)]]; [lia|..].
    + rewrite Hnil in Hkb. done.
    + rewrite Heq in Hkb. simpl in Hkb. simplify_eq.
      unfold OrderBook.bidTooLow in Hfar. apply andb_true_iff in Hfar as [_ Hlt].
      by apply Z.ltb_lt in Hlt.
Qed.

(** * Orders that never rest, orders that come to rest *)

Lemma eraseIds_subseteq h erased (idx : gmap N ptr) : eraseIds h erased idx ⊆ idx.
Proof.
  induction erased as [|nq erased IH]; [done|]. simpl.
  etrans; [apply delete_subseteq|done].
Qed.

(** The sweep adds nothing to the book: the own side is as it was, the
    opposite side and the index only lose orders. *)
Lemma executeMatches_shrinks p fe h b trades hs bs o :
  OrderBook.executeMatches p fe h b = Some (trades, hs, bs) →
  h !! p = Some o →
  ownSide (Order.side_ o) bs = ownSide (Order.side_ o) b
  ∧ resting (opposite (Order.side_ o) bs) `suffix_of` resting (opposite (Order.side_ o) b)
  ∧ OrderBook.orderMap_ bs ⊆ OrderBook.orderMap_ b.
Proof.
  intros Hx Ho.
  destruct (executeMatches_shape _ _ _ _ _ _ _ _ Hx Ho)
    as (erased & partial & HL & _ & _ & _ & _ & Hidx & Hown & _).
  split; [done|]. split.
  - rewrite HL. by apply suffix_app_r.
  - rewrite Hidx. apply eraseIds_subseteq.
Qed.

Lemma restsIn_sides side p b :
  restsIn p b ↔
  p ∈ resting (ownSide side b) ∨ p ∈ resting (opposite side b)
  ∨ ∃ orderId, OrderBook.orderMap_ b !! orderId = Some p.
Proof. unfold restsIn. destruct side; simpl; tauto. Qed.

Lemma executeMatches_restsIn p fe h b trades hs bs r :
  OrderBook.executeMatches p fe h b = Some (trades, hs, bs) →
  restsIn r bs → restsIn r b.
Proof.
  intros Hx. pose proof Hx as Hx'.
  apply executeMatches_inv in Hx' as (o & _ & _ & Ho & _).
  destruct (executeMatches_shrinks _ _ _ _ _ _ _ _ Hx Ho) as (Hown & Hopp & Hidx).
  rewrite !(restsIn_sides (Order.side_ o)). rewrite Hown.
  intros [?|[Hin|[id Hid]]]; [by left| |].
  - right; left. destruct Hopp as [k ->]. apply elem_of_app. by right.
  - right; right. exists id. by eapply lookup_weaken.
Qed.

(** An order that came to rest is at the back of the queue of the level at
    its price, on its side, and the index maps its id to it. *)
Lemma rested_restsAtItsPrice p os hs bs b' :
  rested p os hs bs = Some b' → hs !! p = Some os → restsAtItsPrice p os b'.
Proof.
  intros H Hps. apply rested_sides in H as (_ & Hadd & Hidx & _).
  split.
  - unfold Levels.addOrderAt in Hadd.
    destruct (PriceLevel.addOrder p hs _) as [l|] eqn:Hl; [|done].
    cbn in Hadd. simplify_eq. exists l. rewrite <- Hadd. split; [apply find_set|].
    unfold PriceLevel.addOrder in Hl. rewrite Hps in Hl. cbn in Hl. simplify_eq.
    unfold PriceLevel.queue; simpl. rewrite fmap_app. apply elem_of_app. right.
    apply list_elem_of_here.
  - rewrite Hidx. apply lookup_insert_eq.
Qed.

Lemma cancelledIfUnfilled_lookup p os hs :
  hs !! p = Some os →
  cancelledIfUnfilled p os hs !! p
  = Some (if (0 <? Order.remainingQuantity_ os)%N
          then Order.setStatus CANCELLED os else os).
Proof.
  intros Hps. unfold cancelledIfUnfilled. destruct (0 <? _)%N; [|done].
  apply list_lookup_insert_eq. by eapply lookup_lt_Some.
Qed.


(** * Adding an order, then cancelling it *)

Lemma sub64_wrap64_add t r : (t < two64)%N → sub64 (wrap64 (t + r)) r = t.
Proof.
  intros Ht. unfold sub64, wrap64.
  assert (two64 ≠ 0)%N as Hne by done.
  pose proof (N.mod_upper_bound r two64 Hne) as Hc.
  pose proof (N.mod_upper_bound (t + r) two64 Hne) as Ha.
  pose proof (N.div_mod r two64 Hne) as Hr.
  pose proof (N.div_mod (t + r) two64 Hne) as Htr.
  set (a := ((t + r) mod two64)%N) in *. set (c := (r mod two64)%N) in *.
  set (q1 := ((t + r) / two64)%N) in *. set (q2 := (r / two64)%N) in *.
  assert ((a + two64 - c = t + 1 * two64)%N ∨ (a + two64 - c = t)%N) as [->| ->].
  { assert (q1 = q2 ∨ q1 = q2 + 1)%N as [->| ->] by nia; [left|right]; lia. }
  - rewrite N.Div0.mod_add. by apply N.mod_small.
  - by apply N.mod_small.
Qed.

Lemma deref_fresh n p orders :
  Forall (λ nq : node * ptr, nq.1 < n) orders →
  PriceLevel.deref n (orders ++ [(n, p)]) = Some p.
Proof.
  induction orders as [|[n' q] orders IH]; simpl.
  - intros _. by destruct (decide (n = n)).
  - intros H. apply Forall_cons in H as [Hlt H]. simpl in Hlt.
    destruct (decide (n = n')); [lia|]. by apply IH.
Qed.

Lemma eraseNode_fresh n p orders :
  Forall (λ nq : node * ptr, nq.1 < n) orders →
  PriceLevel.eraseNode n (orders ++ [(n, p)]) = orders.
Proof.
  induction orders as [|[n' q] orders IH]; simpl.
  - intros _. by destruct (decide (n = n)).
  - intros H. apply Forall_cons in H as [Hlt H]. simpl in Hlt.
    destruct (decide (n = n')); [lia|]. by rewrite IH.
Qed.

Section roundtrip.
Context (R : relation Z) (comp : Price → Price → bool).
Hypothesis comp_spec : ∀ a b, comp a b = true ↔ R a b.
Hypothesis R_trans : Transitive R.
Hypothesis R_irrefl : ∀ a, ¬ R a a.

(** Replacing a level by one with the same aggregate and queue changes
    nothing that can be seen. *)
Lemma set_view_present price l l0 m :
  StronglySorted R (keys m) →
  Levels.find price m = Some l0 →
  levelView (price, l) = levelView (price, l0) →
  levelView <$> Levels.set comp price l m = levelView <$> m.
Proof using comp_spec R_trans R_irrefl.
  unfold keys. induction m as [|[k l'] m IH]; [done|]. simpl.
  intros Hs Hf Hv. apply StronglySorted_inv in Hs as [Hs Hk].
  destruct (Z.eqb_spec price k) as [->|Hne].
  { injection Hf as ->.
    change (levelView (k, l) :: (levelView <$> m)
            = levelView (k, l0) :: (levelView <$> m)).
    by rewrite Hv. }
  destruct (comp price k) eqn:Hc.
  - exfalso. apply comp_spec in Hc.
    apply find_Some_elem in Hf.
    assert (price ∈ m.*1) as Hin.
    { apply list_elem_of_fmap. by exists (price, l0). }
    rewrite Forall_forall in Hk. apply Hk in Hin.
    by apply (R_asym R R_trans R_irrefl price k).
  - simpl. f_equal. by apply IH.
Qed.

(** [m[price].addOrder(order)] followed by the removal of the order from
    the level at [price] gives back the levels, aggregates and queues. *)
Lemma addOrderAt_removeOrderAt price p (h h' : Heap) o o' m :
  StronglySorted R (keys m) → wfLevels m →
  h !! p = Some o → h' !! p = Some o' →
  Order.remainingQuantity_ o' = Order.remainingQuantity_ o →
  ∃ m1 m2,
    Levels.addOrderAt comp price p h m = Some m1
    ∧ Levels.removeOrderAt comp price (Order.orderId_ o) h' m1 = Some m2
    ∧ levelView <$> m2 = levelView <$> m.
Proof using comp_spec R_trans R_irrefl.
  intros Hs Hwf Ho Ho' Hrem.
  unfold Levels.addOrderAt, PriceLevel.addOrder. rewrite Ho. cbn.
  set (l0 := Levels.at_ price m).
  set (l1 := PriceLevel.mk _ _ _ _ _).
  exists (Levels.set comp price l1 m).
  assert ((PriceLevel.totalQuantity_ l0 < two64)%N ∧ freshNodes l0
          ∧ (Levels.find price m = None → PriceLevel.orders_ l0 = [])
          ∧ (∀ l, Levels.find price m = Some l →
                  l0 = l ∧ PriceLevel.isEmpty l = false)) as (Hb & Hfresh & Hnone & Hsome).
  { unfold l0, Levels.at_. destruct (Levels.find price m) as [l|] eqn:Hf; simpl.
    - apply find_Some_elem in Hf. unfold wfLevels in Hwf.
      rewrite Forall_forall in Hwf. destruct (Hwf _ Hf) as (He & Hb & Hfr).
      split_and!; try done. intros ? [= <-]. done.
    - split_and!; try done. constructor. }
  unfold Levels.removeOrderAt. rewrite find_set.
  unfold PriceLevel.removeOrder. simpl.
  rewrite lookup_insert_eq.
  rewrite deref_fresh by done. cbn. rewrite Ho'. cbn.
  rewrite eraseNode_fresh by done.
  eexists. split; [done|]. split; [done|].
  unfold PriceLevel.isEmpty at 1. simpl.
  destruct (Levels.find price m) as [l|] eqn:Hf.
  - destruct (Hsome l eq_refl) as [Heq Hne].
    unfold PriceLevel.isEmpty in Hne. rewrite <- Heq in Hne.
    destruct (PriceLevel.orders_ l0) eqn:Horders; [done|].
    rewrite set_set. eapply set_view_present; [done|exact Hf|].
    unfold levelView, PriceLevel.queue. simpl.
    rewrite Hrem, sub64_wrap64_add by done. rewrite <- Heq.
    by rewrite Horders.
  - rewrite (Hnone eq_refl). by rewrite erase_set_absent.
Qed.

End roundtrip.


(** * The invariant of a book: maps and levels *)

Lemma ownComp_spec side a b : ownComp side a b = true ↔ sideOrder side a b.
Proof. destruct side; [apply gtb_spec_gt|apply ltb_spec_lt]. Qed.

#[global] Instance sideOrder_trans side : Transitive (sideOrder side).
Proof. destruct side; apply _. Qed.

Lemma sideOrder_irrefl side a : ¬ sideOrder side a a.
Proof. destruct side; simpl; lia. Qed.

Lemma sideOrder_total side a b : a = b ∨ sideOrder side a b ∨ sideOrder side b a.
Proof. destruct side; simpl; lia. Qed.

Lemma keys_app m1 m2 : keys (m1 ++ m2) = keys m1 ++ keys m2.
Proof. unfold keys. apply fmap_app. Qed.

(** In a sorted map, a key is found at the one entry that has it. *)
Lemma find_sorted_elem side price l m :
  StronglySorted (sideOrder side) (keys m) →
  (price, l) ∈ m → Levels.find price m = Some l.
Proof.
  unfold keys. induction m as [|[k l'] m IH]; simpl.
  - intros _ H. by apply elem_of_nil in H.
  - intros Hs Hin. apply StronglySorted_inv in Hs as [Hs Hk].
    apply elem_of_cons in Hin as [Heq|Hin].
    + simplify_eq. by rewrite Z.eqb_refl.
    + destruct (Z.eqb_spec price k) as [->|Hne]; [|by apply IH].
      exfalso. rewrite Forall_forall in Hk.
      apply (sideOrder_irrefl side k), Hk.
      apply list_elem_of_fmap. by exists (k, l).
Qed.

(** The three ways a sorted map is updated, read on a split of the map. *)
Lemma find_Some_split side price l m :
  StronglySorted (sideOrder side) (keys m) →
  Levels.find price m = Some l →
  ∃ m1 m2,
    m = m1 ++ (price, l) :: m2
    ∧ Levels.erase price m = m1 ++ m2
    ∧ ∀ l', Levels.set (ownComp side) price l' m = m1 ++ (price, l') :: m2.
Proof.
  unfold keys. induction m as [|[k l0] m IH]; [done|]. simpl.
  intros Hs Hf. pose proof Hs as Hs0. apply StronglySorted_inv in Hs as [Hs Hk].
  destruct (Z.eqb_spec price k) as [->|Hne].
  { simplify_eq. exists [], m. split; [done|]. split; [done|]. done. }
  destruct (IH Hs Hf) as (m1 & m2 & -> & Herase & Hset).
  exists ((k, l0) :: m1), m2. split; [done|]. split; [simpl; by rewrite Herase|].
  intros l'. destruct (ownComp side price k) eqn:Hc.
  - exfalso. apply ownComp_spec in Hc. rewrite Forall_forall in Hk.
    assert (sideOrder side k price) as Hkp.
    { apply Hk. rewrite fmap_app. apply elem_of_app. right. apply list_elem_of_here. }
    apply (sideOrder_irrefl side k). by etrans.
  - simpl. by rewrite Hset.
Qed.

Lemma find_None_split side price l' m :
  Levels.find price m = None →
  ∃ m1 m2,
    m = m1 ++ m2 ∧ Levels.set (ownComp side) price l' m = m1 ++ (price, l') :: m2.
Proof.
  induction m as [|[k l0] m IH]; simpl.
  { intros _. by exists [], []. }
  destruct (Z.eqb_spec price k) as [->|Hne]; [done|]. intros Hf.
  destruct (ownComp side price k).
  - by exists [], ((k, l0) :: m).
  - destruct (IH Hf) as (m1 & m2 & -> & Hset).
    exists ((k, l0) :: m1), m2. split; [done|]. simpl. by rewrite Hset.
Qed.

(** ** Nodes and levels under a change of the store and of the index *)

Lemma nodeOk_frame h h' symbol side idx idx' price l l' nq :
  nodeOk h symbol side idx price l nq →
  h' !! nq.2 = h !! nq.2 →
  (∀ orderId, PriceLevel.orderMap_ l !! orderId = Some nq.1 →
              idx !! orderId = Some nq.2 →
              PriceLevel.orderMap_ l' !! orderId = Some nq.1
              ∧ idx' !! orderId = Some nq.2) →
  nodeOk h' symbol side idx' price l' nq.
Proof.
  intros (m & Hm & Hside & Hprice & Hsym & Hst & Hl & Hi) Hh Hmaps.
  destruct (Hmaps _ Hl Hi) as [Hl' Hi'].
  exists m. rewrite Hh. by split_and!.
Qed.

Lemma levelOk_nodes h symbol side idx price l nq :
  levelOk h symbol side idx (price, l) → nq ∈ PriceLevel.orders_ l →
  nodeOk h symbol side idx price l nq.
Proof. intros (_ & _ & Hn) Hin. rewrite Forall_forall in Hn. by apply Hn. Qed.

Lemma elem_of_resting q m :
  q ∈ resting m ↔ ∃ price l n, (price, l) ∈ m ∧ (n, q) ∈ PriceLevel.orders_ l.
Proof.
  unfold resting. rewrite list_elem_of_bind. split.
  - intros ([price l] & Hq & Hin). unfold PriceLevel.queue in Hq. simpl in Hq.
    apply list_elem_of_fmap in Hq as ([n q'] & -> & Hq). by exists price, l, n.
  - intros (price & l & n & Hin & Hq). exists (price, l). split; [|done].
    unfold PriceLevel.queue. simpl. apply list_elem_of_fmap. by exists (n, q).
Qed.

(** What a resting pointer gives on a side that satisfies the invariant. *)
Lemma sideOk_resting h symbol side idx m q :
  sideOk h symbol side idx m → q ∈ resting m →
  ∃ price l n o,
    (price, l) ∈ m ∧ (n, q) ∈ PriceLevel.orders_ l
    ∧ Levels.find price m = Some l
    ∧ h !! q = Some o
    ∧ Order.side_ o = side ∧ Order.price_ o = price
    ∧ Order.symbol_ o = symbol ∧ Order.status_ o ≠ FILLED
    ∧ PriceLevel.orderMap_ l !! Order.orderId_ o = Some n
    ∧ idx !! Order.orderId_ o = Some q.
Proof.
  intros [Hs Hl] Hq. apply elem_of_resting in Hq as (price & l & n & Hin & Hq).
  rewrite Forall_forall in Hl. pose proof (Hl _ Hin) as Hlevel.
  destruct (levelOk_nodes _ _ _ _ _ _ _ Hlevel Hq)
    as (o & Ho & Hside & Hprice & Hsym & Hst & Hlm & Hi).
  exists price, l, n, o. split_and!; try done. by eapply find_sorted_elem.
Qed.

(** A side keeps the invariant when the store and the index change, as
    long as they do not change for the orders resting on it. *)
Lemma sideOk_frame h h' symbol side idx idx' m :
  sideOk h symbol side idx m →
  (∀ q, q ∈ resting m → h' !! q = h !! q) →
  (∀ q orderId, q ∈ resting m → idx !! orderId = Some q → idx' !! orderId = Some q) →
  sideOk h' symbol side idx' m.
Proof.
  intros [Hs Hl] Hh Hidx. split; [done|].
  rewrite Forall_forall in *. intros [price l] Hin.
  destruct (Hl _ Hin) as (Hfresh & Hnd & Hnodes). split_and!; try done.
  rewrite Forall_forall in *. intros [n q] Hq. simpl in *.
  assert (q ∈ resting m) as Hrest by (apply elem_of_resting; by exists price, l, n).
  eapply nodeOk_frame; [by apply Hnodes|by apply Hh|].
  intros orderId Hlm Hi. split; [done|]. by eapply Hidx.
Qed.


(** * The sweep keeps the invariant of the book *)

Lemma setOrders_same l : PriceLevel.setOrders (PriceLevel.orders_ l) l = l.
Proof. by destruct l. Qed.

(** Every level left by the sweep is a level of the side with a suffix of
    its queue and nothing else changed. *)
Lemma matchLevels_levels tooFar sym p levels s levels' s' :
  OrderBook.matchLevels tooFar sym p levels s = Some (levels', s') →
  Forall (λ kl', ∃ l, (kl'.1, l) ∈ levels
                      ∧ kl'.2 = PriceLevel.setOrders (PriceLevel.orders_ kl'.2) l
                      ∧ PriceLevel.orders_ kl'.2 `suffix_of` PriceLevel.orders_ l)
    levels'.
Proof.
  assert (∀ levels : Levels.t,
            Forall (λ kl', ∃ l, (kl'.1, l) ∈ levels
                      ∧ kl'.2 = PriceLevel.setOrders (PriceLevel.orders_ kl'.2) l
                      ∧ PriceLevel.orders_ kl'.2 `suffix_of` PriceLevel.orders_ l)
              levels) as Hsame.
  { intros m. apply Forall_forall. intros [k l] Hin. exists l.
    split; [done|]. split; [by rewrite setOrders_same|done]. }
  intros H. levels_induction H.
  - intros; constructor.
  - intros. apply Hsame.
  - intros. apply Hsame.
  - intros price level levels s o s1 levels' s' _ _ _ _ _ IH.
    eapply Forall_impl; [exact IH|]. intros kl' (l & Hin & Heq & Hsuf).
    exists l. split; [by apply list_elem_of_further|done].
  - intros price level levels s o orders s1 Ho _ _ Hq _.
    constructor.
    + exists level. simpl. split; [apply list_elem_of_here|]. split; [done|].
      destruct (matchQueue_shape _ _ _ _ _ _ _ Hq Ho) as (erased & _ & _ & -> & _).
      by apply suffix_app_r.
    + eapply Forall_impl; [apply (Hsame levels)|]. intros kl' (l & Hin & Heq & Hsuf).
      exists l. split; [by apply list_elem_of_further|done].
Qed.

Lemma fills_filledOnly o o' :
  rtc fillStep o o' →
  (Order.status_ o = FILLED → Order.remainingQuantity_ o = 0%N) →
  Order.status_ o' = FILLED → Order.remainingQuantity_ o' = 0%N.
Proof.
  induction 1 as [|a b c [q ->] _ IH]; [done|]. intros Ha. apply IH.
  unfold Order.fill; simpl. nbool; try done; try lia.
  intros Hs. apply Ha in Hs. lia.
Qed.

Lemma filledFrom_filledOnlyWhenDone h h' :
  filledFrom h h' → filledOnlyWhenDone h → filledOnlyWhenDone h'.
Proof.
  intros Hf Hh p o' Ho'. destruct (filledFrom_lookup_r _ _ _ _ Hf Ho') as (o & Ho & Hfills).
  apply (fills_filledOnly _ _ Hfills). by apply (Hh p).
Qed.

Lemma fills_doneIsFilled o o' :
  rtc fillStep o o' →
  (Order.remainingQuantity_ o = 0%N → (0 < Order.quantity_ o)%N →
   Order.status_ o = FILLED) →
  Order.remainingQuantity_ o' = 0%N → (0 < Order.quantity_ o')%N →
  Order.status_ o' = FILLED.
Proof.
  induction 1 as [|a b c [q ->] _ IH]; [done|]. intros Ha. apply IH.
  intros Hz _. by apply fill_status_filled.
Qed.

Lemma filledFrom_doneIsFilled h h' :
  filledFrom h h' → doneIsFilled h → doneIsFilled h'.
Proof.
  intros Hf Hh p o' Ho'. destruct (filledFrom_lookup_r _ _ _ _ Hf Ho') as (o & Ho & Hfills).
  apply (fills_doneIsFilled _ _ Hfills). by apply (Hh p).
Qed.

(** Erasing from the index the ids of orders it indexes keeps the entries
    of the other orders and removes theirs. *)
Lemma eraseIds_keep h erased (idx : gmap N ptr) orderId q :
  (∀ e, e ∈ erased → idx !! idOf h e.2 = Some e.2) →
  q ∉ erased.*2 →
  idx !! orderId = Some q →
  eraseIds h erased idx !! orderId = Some q.
Proof.
  intros Hidx Hq Hi. induction erased as [|e erased IH]; [done|]. simpl.
  simpl in Hq. apply not_elem_of_cons in Hq as [Hne Hq].
  rewrite lookup_delete_ne.
  - apply IH; [|done]. intros e' He'. apply Hidx. by apply list_elem_of_further.
  - intros Heq. rewrite <- Heq in Hi.
    rewrite (Hidx e) in Hi by apply list_elem_of_here. by simplify_eq.
Qed.

Lemma eraseIds_gone h erased (idx : gmap N ptr) e :
  e ∈ erased → eraseIds h erased idx !! idOf h e.2 = None.
Proof.
  induction erased as [|e' erased IH]; [by intros H; apply elem_of_nil in H|].
  intros Hin. simpl. apply elem_of_cons in Hin as [->|Hin].
  - apply lookup_delete_eq.
  - destruct (decide (idOf h e'.2 = idOf h e.2)) as [->|Hne].
    + apply lookup_delete_eq.
    + rewrite lookup_delete_ne by done. by apply IH.
Qed.

Lemma sideOk_idOf h symbol side idx m e :
  sideOk h symbol side idx m → e ∈ resting m → idx !! idOf h e = Some e.
Proof.
  intros Hs He.
  destruct (sideOk_resting _ _ _ _ _ _ Hs He) as (_ & _ & _ & o & _ & _ & _ & Ho & _ & _ & _ & _ & _ & Hi).
  unfold idOf. by rewrite Ho.
Qed.

(** The swept side keeps its invariant. *)
Lemma matchLevels_sideOk tooFar sym p levels s levels' s' o symbol side :
  OrderBook.matchLevels tooFar sym p levels s = Some (levels', s') →
  OrderBook.sw_heap s !! p = Some o →
  sideOk (OrderBook.sw_heap s) symbol side (OrderBook.sw_orderMap s) levels →
  NoDup (resting levels) →
  p ∉ resting levels →
  filledOnlyWhenDone (OrderBook.sw_heap s) →
  sideOk (OrderBook.sw_heap s') symbol side (OrderBook.sw_orderMap s') levels'.
Proof.
  intros Hrun Ho Hside Hnd Hp Hfilled.
  pose proof Hside as [Hs Hl].
  destruct (matchLevels_shape _ _ _ _ _ _ _ _ Hrun Ho)
    as (erased & partial & new & HL & Hpre & Hlen & _ & _ & _ & Hidx & Hframe & Hpartial).
  pose proof (matchLevels_filledFrom _ _ _ _ _ _ _ Hrun) as Hf.
  pose proof (filledFrom_filledOnlyWhenDone _ _ Hf Hfilled) as Hfilled'.
  split.
  { eapply (sublist_sorted (sideOrder side)); [done|].
    apply suffix_sublist. by eapply matchLevels_keys. }
  pose proof (matchLevels_levels _ _ _ _ _ _ _ Hrun) as Hlevels.
  rewrite Forall_forall in *. intros [k l'] Hin'.
  destruct (Hlevels _ Hin') as (l & Hin & Heq & Hsuf). simpl in *.
  destruct (Hl _ Hin) as (Hfresh & Hndn & Hnodes). simpl in *.
  rewrite Heq. unfold levelOk, freshNodes. simpl.
  split_and!.
  - eapply Forall_forall. intros nq Hnq. unfold freshNodes in Hfresh.
    rewrite Forall_forall in Hfresh. apply Hfresh.
    destruct Hsuf as [k0 Hk0]. rewrite Hk0. apply elem_of_app. by right.
  - eapply sublist_NoDup; [exact Hndn|]. apply fmap_sublist. by apply suffix_sublist.
  - apply Forall_forall. intros [n q] Hnq.
    assert ((n, q) ∈ PriceLevel.orders_ l) as Hnq0.
    { destruct Hsuf as [k0 Hk0]. rewrite Hk0. apply elem_of_app. by right. }
    rewrite Forall_forall in Hnodes.
    destruct (Hnodes _ Hnq0) as (m & Hm & Hsd & Hprice & Hsym & Hst & Hlm & Hi).
    simpl in *.
    assert (q ∈ resting levels') as Hq'.
    { apply elem_of_resting. by exists k, l', n. }
    assert (q ∈ resting levels) as Hq.
    { apply elem_of_resting. by exists k, l, n. }
    assert (q ∉ erased.*2) as Hnot.
    { rewrite HL in Hnd. apply NoDup_app in Hnd as (_ & Hdisj & _).
      intros He. by apply (Hdisj q). }
    assert (q ≠ p) as Hqp by (intros ->; done).
    destruct (filledFrom_lookup _ _ _ _ Hf Hm) as (m' & Hm' & Hfills).
    pose proof (fills_static _ _ Hfills) as (Hid' & Hsym' & Hside' & _ & Hprice' & _).
    exists m'. simpl. rewrite Hid', Hsym', Hside', Hprice'.
    split_and!; try done.
    + destruct (decide (q ∈ partial)) as [Hpart|Hpart].
      * intros Hst'. apply (Hfilled' q m' Hm') in Hst'.
        rewrite Forall_forall in Hpartial. apply (Hpartial q Hpart).
        unfold remainingOf. by rewrite Hm'.
      * rewrite Hframe in Hm'; [by simplify_eq|done|].
        intros Hin2. apply elem_of_app in Hin2 as [?|?]; done.
    + rewrite Hidx. apply eraseIds_keep; [|done|done].
      intros e He. eapply sideOk_idOf; [exact Hside|].
      rewrite HL. apply elem_of_app. left. by apply list_elem_of_fmap_2.
Qed.


(** * Adding to a side and removing from it keep the invariant *)

Lemma resting_single price l : resting [(price, l)] = PriceLevel.queue l.
Proof. unfold resting. simpl. apply app_nil_r. Qed.

Lemma resting_split m1 price l m2 :
  resting (m1 ++ (price, l) :: m2)
  = resting m1 ++ PriceLevel.queue l ++ resting m2.
Proof. by rewrite resting_app, resting_cons. Qed.

Lemma levelOk_new h symbol side idx price :
  levelOk h symbol side idx (price, PriceLevel.new price).
Proof. split_and!; constructor. Qed.

(** The level [m[price]] designates satisfies the invariant, and the map
    splits around it. *)
Lemma at_split h symbol side idx price m l' :
  sideOk h symbol side idx m →
  ∃ m1 m2,
    Levels.set (ownComp side) price l' m = m1 ++ (price, l') :: m2
    ∧ resting m = resting m1 ++ PriceLevel.queue (Levels.at_ price m) ++ resting m2
    ∧ (∀ kl, kl ∈ m1 ++ m2 → kl ∈ m)
    ∧ levelOk h symbol side idx (price, Levels.at_ price m).
Proof.
  intros [Hs Hl]. unfold Levels.at_.
  destruct (Levels.find price m) as [l|] eqn:Hf; simpl.
  - destruct (find_Some_split _ _ _ _ Hs Hf) as (m1 & m2 & -> & _ & Hset).
    exists m1, m2. split; [apply Hset|]. split; [apply resting_split|].
    split.
    + intros kl Hin. apply elem_of_app in Hin as [?|?]; apply elem_of_app;
        [by left|right; by apply list_elem_of_further].
    + rewrite Forall_forall in Hl. apply Hl. apply elem_of_app. right.
      apply list_elem_of_here.
  - destruct (find_None_split side _ l' _ Hf) as (m1 & m2 & -> & Hset).
    exists m1, m2. split; [done|]. split; [by rewrite resting_app|].
    split; [done|]. apply levelOk_new.
Qed.

(** A node is not disturbed by entries made or erased under other ids. *)
Lemma nodeOk_other_id h symbol side idx idx' price l l' nq orderId :
  nodeOk h symbol side idx price l nq →
  (∀ m, h !! nq.2 = Some m → Order.orderId_ m ≠ orderId) →
  (∀ i, i ≠ orderId → PriceLevel.orderMap_ l' !! i = PriceLevel.orderMap_ l !! i) →
  (∀ i, i ≠ orderId → idx' !! i = idx !! i) →
  nodeOk h symbol side idx' price l' nq.
Proof.
  intros (m & Hm & Hside & Hprice & Hsym & Hst & Hl & Hi) Hne Hl' Hi'.
  exists m. pose proof (Hne m Hm) as Hneq.
  rewrite Hl', Hi' by done. by split_and!.
Qed.

Lemma levelOk_other_id h symbol side idx idx' kl orderId :
  levelOk h symbol side idx kl →
  (∀ q m, q ∈ PriceLevel.queue kl.2 → h !! q = Some m → Order.orderId_ m ≠ orderId) →
  (∀ i, i ≠ orderId → idx' !! i = idx !! i) →
  levelOk h symbol side idx' kl.
Proof.
  intros (Hfresh & Hnd & Hnodes) Hne Hi. split_and!; try done.
  rewrite Forall_forall in *. intros [n q] Hin.
  eapply nodeOk_other_id; [by apply Hnodes| |done|done].
  intros m Hm. eapply Hne; [|done]. unfold PriceLevel.queue.
  apply list_elem_of_fmap. by exists (n, q).
Qed.

(** [m[price].addOrder(order)] for an order of that side, price and symbol
    that is not resting on the side: the side keeps its invariant, with the
    index now mapping the id of the order to it, and the order is the one
    pointer more that rests on it. *)
Lemma addOrderAt_sideOk h symbol side idx m p o m' :
  sideOk h symbol side idx m →
  idsDistinct h →
  h !! p = Some o →
  Order.side_ o = side → Order.symbol_ o = symbol → Order.status_ o ≠ FILLED →
  p ∉ resting m →
  Levels.addOrderAt (ownComp side) (Order.price_ o) p h m = Some m' →
  sideOk h symbol side (<[Order.orderId_ o := p]> idx) m'
  ∧ resting m' ≡ₚ p :: resting m.
Proof.
  intros Hside Hids Ho Hsd Hsym Hst Hp Hadd.
  pose proof Hside as [Hs Hl].
  unfold Levels.addOrderAt, PriceLevel.addOrder in Hadd. rewrite Ho in Hadd.
  cbn in Hadd. injection Hadd as <-.
  set (l0 := Levels.at_ (Order.price_ o) m).
  set (l' := PriceLevel.mk _ _ _ _ _).
  destruct (at_split _ _ _ _ (Order.price_ o) _ l' Hside)
    as (m1 & m2 & Hset & Hrest & Hsub & Hl0).
  fold l0 in Hrest, Hl0.
  assert (∀ q mq, q ∈ resting m → h !! q = Some mq →
                  Order.orderId_ mq ≠ Order.orderId_ o) as Hne.
  { intros q mq Hq Hmq Heq. assert (q = p) as -> by (by eapply Hids). done. }
  assert (∀ i, i ≠ Order.orderId_ o →
               <[Order.orderId_ o := p]> idx !! i = idx !! i) as Hidx.
  { intros i Hi. by rewrite lookup_insert_ne. }
  split.
  - split.
    { apply (set_sorted (sideOrder side) (ownComp side));
        [apply ownComp_spec|apply _|apply sideOrder_total|done]. }
    rewrite Hset.
    assert (Forall (levelOk h symbol side (<[Order.orderId_ o := p]> idx)) (m1 ++ m2))
      as Hold.
    { rewrite Forall_forall in *. intros kl Hin.
      eapply levelOk_other_id; [by apply Hl, Hsub| |done].
      intros q mq Hq. apply Hne. apply elem_of_resting.
      unfold PriceLevel.queue in Hq.
      apply list_elem_of_fmap in Hq as ([n q'] & -> & Hq).
      destruct kl as [k l]. exists k, l, n. split; [by apply Hsub|done]. }
    apply Forall_app in Hold as [Hold1 Hold2].
    apply Forall_app. split; [done|]. constructor; [|done].
    destruct Hl0 as (Hfresh & Hnd & Hnodes). unfold levelOk. simpl.
    split_and!.
    + unfold freshNodes. simpl. apply Forall_app. split.
      * eapply Forall_impl; [exact Hfresh|]. simpl. lia.
      * constructor; [simpl; lia|constructor].
    + rewrite fmap_app. apply NoDup_app. split; [done|]. split.
      * intros n Hn Hn'. simpl in Hn'. apply list_elem_of_singleton in Hn'.
        apply list_elem_of_fmap in Hn as ([n0 q0] & -> & Hin).
        unfold freshNodes in Hfresh. rewrite Forall_forall in Hfresh.
        apply Hfresh in Hin. simpl in *. lia.
      * simpl. apply NoDup_singleton.
    + apply Forall_app. split.
      * rewrite Forall_forall in *. intros [n q] Hin.
        eapply nodeOk_other_id; [by apply Hnodes| | |done].
        -- intros mq. simpl. apply Hne. rewrite Hrest.
           apply elem_of_app. right. apply elem_of_app. left.
           unfold PriceLevel.queue. apply list_elem_of_fmap. by exists (n, q).
        -- intros i Hi. simpl. by rewrite lookup_insert_ne.
      * constructor; [|constructor]. exists o. simpl.
        rewrite !lookup_insert_eq. by split_and!.
  - rewrite Hset, resting_split, Hrest. unfold l', PriceLevel.queue at 1. simpl.
    rewrite fmap_app. simpl. fold (PriceLevel.queue l0).
    rewrite <- !app_assoc. simpl.
    rewrite (Permutation_middle (resting m1)).
    apply Permutation_app_head.
    rewrite <- (Permutation_middle (PriceLevel.queue l0)). done.
Qed.

Lemma deref_elem n q orders :
  NoDup orders.*1 → (n, q) ∈ orders → PriceLevel.deref n orders = Some q.
Proof.
  induction orders as [|[n' q'] orders IH]; simpl.
  - intros _ H. by apply elem_of_nil in H.
  - intros Hnd Hin. apply NoDup_cons in Hnd as [Hn' Hnd].
    apply elem_of_cons in Hin as [Heq|Hin].
    + simplify_eq. by destruct (decide (n' = n')).
    + destruct (decide (n = n')) as [->|Hne]; [|by apply IH].
      exfalso. apply Hn'. apply list_elem_of_fmap. by exists (n', q).
Qed.

Lemma eraseNode_split n q orders :
  NoDup orders.*1 → (n, q) ∈ orders →
  ∃ o1 o2, orders = o1 ++ (n, q) :: o2 ∧ PriceLevel.eraseNode n orders = o1 ++ o2.
Proof.
  induction orders as [|[n' q'] orders IH]; simpl.
  - intros _ H. by apply elem_of_nil in H.
  - intros Hnd Hin. apply NoDup_cons in Hnd as [Hn' Hnd].
    apply elem_of_cons in Hin as [Heq|Hin].
    + simplify_eq. destruct (decide (n' = n')); [|done]. by exists [], orders.
    + destruct (decide (n = n')) as [->|Hne].
      * exfalso. apply Hn'. apply list_elem_of_fmap. by exists (n', q).
      * destruct (IH Hnd Hin) as (o1 & o2 & -> & Heq).
        exists ((n', q') :: o1), o2. split; [done|]. simpl. by rewrite Heq.
Qed.

(** The removal of a resting order from the level at its price, as
    [cancelOrder] and [modifyOrder] do it, is defined; the side keeps its
    invariant, and the order is the one pointer fewer that rests on it.
    [h'] is the store the remaining quantity is read from. *)
Lemma removeOrderAt_sideOk h (h' : Heap) symbol side idx m p o :
  sideOk h symbol side idx m →
  idsDistinct h →
  NoDup (resting m) →
  h !! p = Some o →
  p ∈ resting m →
  p < length h' →
  ∃ m' r1 r2,
    Levels.removeOrderAt (ownComp side) (Order.price_ o) (Order.orderId_ o) h' m
      = Some m'
    ∧ sideOk h symbol side idx m'
    ∧ resting m = r1 ++ p :: r2
    ∧ resting m' = r1 ++ r2.
Proof.
  intros Hside Hids Hnd Ho Hp Hlen.
  pose proof Hside as [Hs Hl].
  destruct (sideOk_resting _ _ _ _ _ _ Hside Hp)
    as (price & l & n & o0 & Hin & Hnode & Hfind & Ho0 & _ & Hprice & _ & _ & Hlm & _).
  rewrite Ho in Ho0. injection Ho0 as <-. subst price.
  destruct (find_Some_split _ _ _ _ Hs Hfind) as (m1 & m2 & Hm & Herase & Hset).
  rewrite Forall_forall in Hl. destruct (Hl _ Hin) as (Hfresh & Hndn & Hnodes).
  simpl in *.
  destruct (eraseNode_split _ _ _ Hndn Hnode) as (o1 & o2 & Horders & Herased).
  destruct (lookup_lt_is_Some_2 _ _ Hlen) as [o' Ho'].
  unfold Levels.removeOrderAt. rewrite Hfind.
  unfold PriceLevel.removeOrder. rewrite Hlm.
  rewrite (deref_elem _ _ _ Hndn Hnode). cbn. rewrite Ho'. cbn.
  set (l' := PriceLevel.mk _ _ _ _ _).
  assert (resting m = (resting m1 ++ o1.*2) ++ p :: (o2.*2 ++ resting m2)) as Hrest.
  { rewrite Hm, resting_split. unfold PriceLevel.queue. rewrite Horders.
    rewrite fmap_app. simpl. by rewrite <- !app_assoc. }
  assert (levelOk h symbol side idx (Order.price_ o, l')) as Hl'.
  { unfold levelOk, l'. simpl. rewrite Herased. split_and!.
    - unfold freshNodes in *. simpl. rewrite Horders in Hfresh.
      apply Forall_app in Hfresh as [H1 H2]. apply Forall_cons in H2 as [_ H2].
      apply Forall_app. done.
    - eapply sublist_NoDup; [exact Hndn|]. rewrite Horders.
      apply fmap_sublist. apply sublist_app; [done|]. by apply sublist_cons.
    - rewrite Forall_forall in *. intros [n' q] Hq.
      assert ((n', q) ∈ PriceLevel.orders_ l) as Hq0.
      { rewrite Horders. apply elem_of_app in Hq as [?|?]; apply elem_of_app;
          [by left|right; by apply list_elem_of_further]. }
      assert (q ≠ p) as Hqp.
      { intros ->. rewrite Hrest in Hnd. apply NoDup_app in Hnd as (_ & Hdisj & Hnd2).
        apply NoDup_cons in Hnd2 as [Hnot _].
        apply elem_of_app in Hq as [Hq|Hq].
        - apply (Hdisj p); [|apply list_elem_of_here]. apply elem_of_app. right.
          apply list_elem_of_fmap. by exists (n', p).
        - apply Hnot. apply elem_of_app. left.
          apply list_elem_of_fmap. by exists (n', p). }
      eapply (nodeOk_other_id _ _ _ _ idx _ l l' _ (Order.orderId_ o));
        [by apply Hnodes| | |done].
      + intros mq Hmq Heq. simpl in Hmq. apply Hqp. by eapply Hids.
      + intros i Hi. simpl. by rewrite lookup_delete_ne. }
  assert (Forall (levelOk h symbol side idx) (m1 ++ m2)) as Hold.
  { rewrite Forall_forall. intros kl Hkl. apply Hl. rewrite Hm.
    apply elem_of_app in Hkl as [?|?]; apply elem_of_app;
      [by left|right; by apply list_elem_of_further]. }
  assert (keys (m1 ++ m2) `sublist_of` keys m) as Hkeys.
  { rewrite Hm, !keys_app. apply sublist_app; [done|]. simpl. by apply sublist_cons. }
  destruct (PriceLevel.isEmpty l') eqn:Hempty.
  - exists (m1 ++ m2), (resting m1 ++ o1.*2), (o2.*2 ++ resting m2).
    rewrite Herase. split; [done|]. split.
    { split; [by eapply (sublist_sorted (sideOrder side))|done]. }
    split; [done|].
    unfold PriceLevel.isEmpty, l' in Hempty. simpl in Hempty. rewrite Herased in Hempty.
    destruct o1, o2; try done. simpl. by rewrite resting_app, app_nil_r.
  - exists (m1 ++ (Order.price_ o, l') :: m2), (resting m1 ++ o1.*2), (o2.*2 ++ resting m2).
    rewrite Hset. split; [done|]. split.
    { split.
      - rewrite Hm in Hs. by rewrite keys_app in *.
      - apply Forall_app in Hold as [H1 H2]. apply Forall_app. split; [done|].
        by constructor. }
    split; [done|].
    rewrite resting_split. unfold PriceLevel.queue, l'. simpl. rewrite Herased.
    by rewrite fmap_app, <- !app_assoc.
Qed.


(** * The operations of a book keep its invariant *)

Lemma elem_of_allResting side q b :
  q ∈ allResting b ↔ q ∈ resting (ownSide side b) ∨ q ∈ resting (opposite side b).
Proof. unfold allResting. rewrite elem_of_app. destruct side; simpl; tauto. Qed.

Lemma allResting_sides side b :
  allResting b ≡ₚ resting (ownSide side b) ++ resting (opposite side b).
Proof. unfold allResting. destruct side; simpl; [done|apply Permutation_app_comm]. Qed.

(** The invariant of a book, read from the side of an order. *)
Lemma bookOk_sides side h symbol b :
  bookOk h symbol b ↔
  sideOk h symbol side (OrderBook.orderMap_ b) (ownSide side b)
  ∧ sideOk h symbol (otherSide side) (OrderBook.orderMap_ b) (opposite side b)
  ∧ NoDup (resting (ownSide side b) ++ resting (opposite side b))
  ∧ indexOk h b.
Proof.
  unfold bookOk. rewrite (allResting_sides side b). destruct side; simpl; tauto.
Qed.

Lemma bookOk_new h symbol : bookOk h symbol (OrderBook.new symbol).
Proof.
  split_and!; try (split; constructor).
  - constructor.
  - intros id q H. done.
Qed.

(** A book keeps its invariant when the store changes outside of it. *)
Lemma bookOk_frame h h' symbol b :
  bookOk h symbol b →
  (∀ q, q ∈ allResting b → h' !! q = h !! q) →
  bookOk h' symbol b.
Proof.
  intros (Hb & Ha & Hnd & Hidx) Hh. split_and!; try done.
  - eapply sideOk_frame; [exact Hb| |done].
    intros q Hq. apply Hh. apply elem_of_app. by left.
  - eapply sideOk_frame; [exact Ha| |done].
    intros q Hq. apply Hh. apply elem_of_app. by right.
  - intros id q Hi. destruct (Hidx _ _ Hi) as [Hq Hm]. split; [done|].
    by rewrite Hh.
Qed.

(** What the invariant says of a pointer resting in the book. *)
Lemma bookOk_resting h symbol b q :
  bookOk h symbol b → q ∈ allResting b →
  ∃ o, h !! q = Some o
       ∧ q ∈ resting (ownSide (Order.side_ o) b)
       ∧ Order.symbol_ o = symbol
       ∧ Order.status_ o ≠ FILLED
       ∧ OrderBook.orderMap_ b !! Order.orderId_ o = Some q.
Proof.
  intros (Hb & Ha & _) Hq. apply elem_of_app in Hq as [Hq|Hq].
  - destruct (sideOk_resting _ _ _ _ _ _ Hb Hq)
      as (_&_&_& o & _ & _ & _ & Ho & Hside & _ & Hsym & Hst & _ & Hi).
    exists o. rewrite Hside. by split_and!.
  - destruct (sideOk_resting _ _ _ _ _ _ Ha Hq)
      as (_&_&_& o & _ & _ & _ & Ho & Hside & _ & Hsym & Hst & _ & Hi).
    exists o. rewrite Hside. by split_and!.
Qed.

Lemma bookOk_closed h symbol b : bookOk h symbol b → closed h b.
Proof.
  intros Hb. split; apply Forall_forall; intros q Hq;
    (destruct (bookOk_resting _ _ _ q Hb) as (o & Ho & _);
     [apply elem_of_app; first [by left|by right]|by eapply lookup_lt_Some]).
Qed.

(** The sweep keeps the invariant; it adds no order to the book and
    changes no order outside of it but the incoming one. *)
Lemma executeMatches_bookOk p fe h b trades hs bs o symbol :
  OrderBook.executeMatches p fe h b = Some (trades, hs, bs) →
  h !! p = Some o →
  bookOk h symbol b →
  p ∉ allResting b →
  filledOnlyWhenDone h →
  bookOk hs symbol bs
  ∧ (∀ q, q ∈ allResting bs → q ∈ allResting b)
  ∧ (∀ q, q ≠ p → q ∉ allResting b → hs !! q = h !! q).
Proof.
  intros Hx Ho Hb Hp Hfilled.
  apply (bookOk_sides (Order.side_ o)) in Hb as (Hown & Hopp & Hnd & Hidx).
  rewrite (elem_of_allResting (Order.side_ o)) in Hp.
  apply executeMatches_inv in Hx as (o0 & levels' & s' & Ho0 & Hrun & -> & -> & ->).
  rewrite Ho in Ho0. injection Ho0 as <-.
  destruct (matchLevels_shape _ _ _ _ _ _ _ _ Hrun Ho)
    as (erased & partial & new & HL & Hpre & _ & _ & _ & _ & Hi & Hframe & _).
  simpl in *.
  pose proof (matchLevels_filledFrom _ _ _ _ _ _ _ Hrun) as Hf. simpl in Hf.
  apply NoDup_app in Hnd as (Hnd1 & Hdisj & Hnd2).
  assert (∀ q, q ∈ erased.*2 ++ partial → q ∈ resting (opposite (Order.side_ o) b))
    as Htouched.
  { intros q Hq. rewrite HL. apply elem_of_app in Hq as [Hq|Hq]; apply elem_of_app.
    - by left.
    - right. by eapply elem_of_prefix. }
  assert (∀ e, e ∈ erased → OrderBook.orderMap_ b !! idOf h e.2 = Some e.2) as Herased.
  { intros e He. eapply sideOk_idOf; [exact Hopp|].
    rewrite HL. apply elem_of_app. left. by apply list_elem_of_fmap_2. }
  assert (sideOk (OrderBook.sw_heap s') symbol (otherSide (Order.side_ o))
            (OrderBook.sw_orderMap s') levels') as Hopp'.
  { eapply matchLevels_sideOk; [exact Hrun|done|done|done| |done].
    simpl. tauto. }
  assert (sideOk (OrderBook.sw_heap s') symbol (Order.side_ o)
            (OrderBook.sw_orderMap s') (ownSide (Order.side_ o) b)) as Hown'.
  { eapply sideOk_frame; [exact Hown| |].
    - intros q Hq. apply Hframe; [intros ->; tauto|].
      intros Hq'. apply Htouched in Hq'. by apply (Hdisj q).
    - intros q id Hq Hid. rewrite Hi. apply eraseIds_keep; [done| |done].
      intros Hq'. apply (Hdisj q Hq). rewrite HL. apply elem_of_app. by left. }
  split; [|split].
  - apply (bookOk_sides (Order.side_ o)).
    rewrite opposite_setOpposite, ownSide_setOpposite.
    assert (OrderBook.orderMap_
              (OrderBook.setOrderMap (OrderBook.sw_orderMap s')
                 (setOpposite (Order.side_ o) levels' b))
            = OrderBook.sw_orderMap s') as -> by (by destruct (Order.side_ o)).
    split; [done|]. split; [done|]. split.
    + apply NoDup_app. split; [done|]. split.
      * intros q Hq Hq'. apply (Hdisj q Hq). rewrite HL. apply elem_of_app. by right.
      * rewrite HL in Hnd2. by apply NoDup_app in Hnd2 as (_ & _ & ?).
    + intros id q Hid.
      assert (OrderBook.orderMap_
                (OrderBook.setOrderMap (OrderBook.sw_orderMap s')
                   (setOpposite (Order.side_ o) levels' b)) !! id
              = OrderBook.sw_orderMap s' !! id) as Heq by (by destruct (Order.side_ o)).
      rewrite Heq, Hi in Hid.
      pose proof (lookup_weaken _ _ _ _ Hid (eraseIds_subseteq _ _ _)) as Hid0.
      destruct (Hidx _ _ Hid0) as (Hq & m & Hm & Hidm). split.
      * apply (elem_of_allResting (Order.side_ o)).
        rewrite opposite_setOpposite, ownSide_setOpposite.
        apply (elem_of_allResting (Order.side_ o)) in Hq as [Hq|Hq]; [by left|].
        right. rewrite HL in Hq. apply elem_of_app in Hq as [Hq|Hq]; [|done].
        exfalso. apply list_elem_of_fmap in Hq as (e & -> & He).
        rewrite <- Hidm in Hid.
        assert (idOf h e.2 = Order.orderId_ m) as Hide by (unfold idOf; by rewrite Hm).
        rewrite <- Hide, eraseIds_gone in Hid; done.
      * destruct (filledFrom_lookup _ _ _ _ Hf Hm) as (m' & Hm' & Hfills).
        exists m'. split; [done|]. apply fills_static in Hfills as (-> & _). done.
  - intros q Hq. apply (elem_of_allResting (Order.side_ o)) in Hq.
    rewrite opposite_setOpposite, ownSide_setOpposite in Hq.
    apply (elem_of_allResting (Order.side_ o)). destruct Hq as [?|Hq]; [by left|].
    right. rewrite HL. apply elem_of_app. by right.
  - intros q Hqp Hq. apply Hframe; [done|]. intros Hq'. apply Hq.
    apply (elem_of_allResting (Order.side_ o)). right. by apply Htouched.
Qed.

Lemma static_idsDistinct h h' :
  Forall2 sameStatic h h' → idsDistinct h → idsDistinct h'.
Proof.
  intros Hst Hids p q o' m' Ho' Hm' Heq.
  destruct (Forall2_lookup_r _ _ _ _ _ Hst Ho') as (o & Ho & (Hio & _)).
  destruct (Forall2_lookup_r _ _ _ _ _ Hst Hm') as (m & Hm & (Him & _)).
  eapply Hids; [exact Ho|exact Hm|congruence].
Qed.

Lemma isActive_not_filled o : Order.isActive o = true → Order.status_ o ≠ FILLED.
Proof.
  unfold Order.isActive. intros H Hs. rewrite Hs in H. done.
Qed.

(** An order that is in no queue is not indexed either. *)
Lemma bookOk_not_indexed h symbol b p o :
  bookOk h symbol b → idsDistinct h → h !! p = Some o → p ∉ allResting b →
  OrderBook.orderMap_ b !! Order.orderId_ o = None.
Proof.
  intros (_ & _ & _ & Hidx) Hids Ho Hp.
  destruct (OrderBook.orderMap_ b !! Order.orderId_ o) as [q|] eqn:Hq; [|done].
  destruct (Hidx _ _ Hq) as (Hrest & m & Hm & Hid).
  assert (q = p) as -> by (by eapply Hids). done.
Qed.

(** The order [matchLimitOrder] puts to rest: the book keeps its
    invariant, and the order is the one pointer more that rests in it. *)
Lemma rested_bookOk p os hs bs b' symbol :
  rested p os hs bs = Some b' →
  bookOk hs symbol bs →
  idsDistinct hs →
  hs !! p = Some os →
  Order.symbol_ os = symbol →
  Order.status_ os ≠ FILLED →
  p ∉ allResting bs →
  bookOk hs symbol b' ∧ allResting b' ≡ₚ p :: allResting bs.
Proof.
  intros Hr Hb Hids Hps Hsym Hst Hp.
  pose proof (bookOk_not_indexed _ _ _ _ _ Hb Hids Hps Hp) as Hnone.
  apply rested_sides in Hr as (Hopp' & Hadd & Hidx' & _).
  apply (bookOk_sides (Order.side_ os)) in Hb as (Hown & Hopp & Hnd & Hidx).
  rewrite (elem_of_allResting (Order.side_ os)) in Hp.
  destruct (addOrderAt_sideOk _ _ _ _ _ _ _ _ Hown Hids Hps eq_refl Hsym Hst
              ltac:(tauto) Hadd) as [Hown' Hperm].
  assert (allResting b' ≡ₚ p :: allResting bs) as Hall.
  { rewrite !(allResting_sides (Order.side_ os)), Hopp', Hperm. done. }
  split; [|done].
  apply (bookOk_sides (Order.side_ os)). rewrite Hidx', Hopp'.
  split; [done|]. split.
  { eapply sideOk_frame; [exact Hopp|done|].
    intros q id Hq Hid. rewrite lookup_insert_ne; [done|].
    intros <-. congruence. }
  split.
  { rewrite Hperm. simpl. apply NoDup_cons. split; [|done].
    rewrite elem_of_app. tauto. }
  intros id q Hid. rewrite Hidx' in Hid.
  destruct (decide (id = Order.orderId_ os)) as [->|Hne].
  - rewrite lookup_insert_eq in Hid. injection Hid as <-. split; [|by exists os].
    rewrite Hall. apply list_elem_of_here.
  - rewrite lookup_insert_ne in Hid by done.
    destruct (Hidx _ _ Hid) as [Hq Hm]. split; [|done].
    rewrite Hall. by apply list_elem_of_further.
Qed.

(** [matchOrder] keeps the invariant of the book; the incoming order is the
    only one that can come into the book, and no order out of the book
    changes but the incoming one. *)
Lemma matchOrder_bookOk p h b trades h' b' o symbol :
  OrderBook.matchOrder p h b = Some (trades, h', b') →
  h !! p = Some o →
  Order.symbol_ o = symbol →
  bookOk h symbol b →
  idsDistinct h →
  p ∉ allResting b →
  filledOnlyWhenDone h →
  bookOk h' symbol b'
  ∧ (∀ q, q ∈ allResting b' → q ∈ allResting b ∨ q = p)
  ∧ (∀ q, q ≠ p → q ∉ allResting b → h' !! q = h !! q).
Proof.
  intros Hrun Ho Hsym Hb Hids Hp Hfilled.
  pose proof Hrun as Hinv. apply matchOrder_inv in Hinv as (o0 & Ho0 & Hcase).
  rewrite Ho in Ho0. injection Ho0 as <-.
  destruct Hcase as [(_ & _ & _ & -> & ->)|(fe & hs & bs & os & Hx & Hps & Hcase)].
  { split; [|split].
    - eapply bookOk_frame; [done|]. intros q Hq.
      rewrite list_lookup_insert_ne; [done|]. by intros ->.
    - intros q Hq. by left.
    - intros q Hqp _. by rewrite list_lookup_insert_ne. }
  destruct (executeMatches_bookOk _ _ _ _ _ _ _ _ _ Hx Ho Hb Hp Hfilled)
    as (Hbs & Hsub & Hframe).
  assert (p ∉ allResting bs) as Hp' by (intros H; by apply Hp, Hsub).
  destruct Hcase as [(_ & -> & ->)|[(_ & _ & -> & ->)|(_ & -> & Hrest)]].
  - split; [|split].
    + eapply bookOk_frame; [done|]. intros q Hq.
      apply cancelledIfUnfilled_lookup_ne. by intros ->.
    + intros q Hq. left. by apply Hsub.
    + intros q Hqp Hq. rewrite cancelledIfUnfilled_lookup_ne by done.
      by apply Hframe.
  - split; [done|]. split; [|done]. intros q Hq. left. by apply Hsub.
  - destruct Hrest as [(_ & Hact & Hrested)|[_ ->]].
    + destruct (executeMatches_lookup _ _ _ _ _ _ _ _ Hx Ho) as (os' & Hps' & Hf).
      rewrite Hps in Hps'. injection Hps' as <-.
      apply fills_static in Hf as (_ & Hsym' & _).
      destruct (rested_bookOk _ _ _ _ _ symbol Hrested Hbs) as [Hb' Hperm];
        try done.
      * eapply static_idsDistinct; [|exact Hids].
        apply filledFrom_static. by eapply executeMatches_filledFrom.
      * congruence.
      * by apply isActive_not_filled.
      * split; [done|]. split; [|done]. intros q Hq. rewrite Hperm in Hq.
        apply elem_of_cons in Hq as [->|Hq]; [by right|left; by apply Hsub].
    + split; [done|]. split; [|done]. intros q Hq. left. by apply Hsub.
Qed.

(** What [matchOrder] does to the statuses of the store. *)
Lemma matchOrder_statuses p h b trades h' b' o :
  OrderBook.matchOrder p h b = Some (trades, h', b') →
  h !! p = Some o →
  Order.remainingQuantity_ o = Order.quantity_ o →
  filledOnlyWhenDone h → doneIsFilled h →
  filledOnlyWhenDone h' ∧ doneIsFilled h'.
Proof.
  intros Hrun Ho Hnew Hfilled Hdone.
  apply matchOrder_inv in Hrun as (o0 & Ho0 & Hcase).
  rewrite Ho in Ho0. injection Ho0 as <-.
  assert (∀ (hs : Heap) os st,
            filledOnlyWhenDone hs → doneIsFilled hs → hs !! p = Some os →
            st ≠ FILLED →
            (Order.remainingQuantity_ os = 0%N → ¬ (0 < Order.quantity_ os)%N) →
            filledOnlyWhenDone (<[p := Order.setStatus st os]> hs)
            ∧ doneIsFilled (<[p := Order.setStatus st os]> hs)) as Hset.
  { intros hs os st Hf Hd Hps Hst Hrem. split; intros q oq Hq.
    - destruct (decide (q = p)) as [->|Hne].
      + rewrite list_lookup_insert_eq in Hq by (by eapply lookup_lt_Some).
        injection Hq as <-. simpl. done.
      + rewrite list_lookup_insert_ne in Hq by done. by eapply Hf.
    - destruct (decide (q = p)) as [->|Hne].
      + rewrite list_lookup_insert_eq in Hq by (by eapply lookup_lt_Some).
        injection Hq as <-. simpl. intros Hz Hpos. by apply Hrem in Hz.
      + rewrite list_lookup_insert_ne in Hq by done. by eapply Hd. }
  destruct Hcase as [(_ & _ & _ & -> & _)|(fe & hs & bs & os & Hx & Hps & Hcase)].
  { apply Hset; try done. intros Hz. lia. }
  pose proof (executeMatches_filledFrom _ _ _ _ _ _ _ Hx) as Hf.
  pose proof (filledFrom_filledOnlyWhenDone _ _ Hf Hfilled) as Hfilled'.
  pose proof (filledFrom_doneIsFilled _ _ Hf Hdone) as Hdone'.
  destruct Hcase as [(_ & -> & _)|[(_ & _ & -> & _)|(_ & -> & _)]]; try done.
  unfold cancelledIfUnfilled.
  destruct (N.ltb_spec 0 (Order.remainingQuantity_ os)); [|done].
  apply Hset; try done. lia.
Qed.

Lemma ownSide_setOwnSide side idx m b :
  ownSide side (OrderBook.setOrderMap idx (setOwnSide side m b)) = m.
Proof. by destruct side. Qed.

Lemma opposite_setOwnSide side idx m b :
  opposite side (OrderBook.setOrderMap idx (setOwnSide side m b)) = opposite side b.
Proof. by destruct side. Qed.

Lemma orderMap_setOwnSide side m b :
  OrderBook.orderMap_ (setOwnSide side m b) = OrderBook.orderMap_ b.
Proof. by destruct side. Qed.

(** What the index designates: the pointer rests on the side of its order,
    which bears the id. *)
Lemma bookOk_indexed h symbol b orderId p :
  bookOk h symbol b →
  OrderBook.orderMap_ b !! orderId = Some p →
  ∃ o, h !! p = Some o
       ∧ Order.orderId_ o = orderId
       ∧ Order.symbol_ o = symbol
       ∧ Order.status_ o ≠ FILLED
       ∧ p ∈ resting (ownSide (Order.side_ o) b).
Proof.
  intros Hb Hp. pose proof Hb as (_ & _ & _ & Hidx).
  destruct (Hidx _ _ Hp) as (Hrest & m & Hm & Hid).
  destruct (bookOk_resting _ _ _ _ Hb Hrest) as (o & Ho & Hown & Hsym & Hst & _).
  rewrite Hm in Ho. injection Ho as <-. by exists m.
Qed.

(** [OrderBook::cancelOrder] on a book that satisfies its invariant: the
    order leaves the queues and the index, and no other order changes. *)
Lemma cancelOrder_bookOk orderId h b r h' b' symbol :
  OrderBook.cancelOrder orderId h b = Some (r, h', b') →
  bookOk h symbol b →
  idsDistinct h →
  (OrderBook.orderMap_ b !! orderId = None ∧ r = false ∧ h' = h ∧ b' = b)
  ∨ ∃ p o,
      h !! p = Some o
      ∧ Order.orderId_ o = orderId
      ∧ Order.symbol_ o = symbol
      ∧ Order.status_ o ≠ FILLED
      ∧ r = true
      ∧ h' = <[p := Order.setStatus CANCELLED o]> h
      ∧ bookOk h' symbol b'
      ∧ (p ∉ allResting b')
      ∧ (∀ q, q ∈ allResting b' → q ∈ allResting b).
Proof.
  intros Hrun Hb Hids.
  apply cancelOrder_inv in Hrun
    as [?|(p & o & levels' & Hp & Ho & -> & -> & Hrem & ->)]; [by left|].
  right. exists p, o.
  destruct (bookOk_indexed _ _ _ _ _ Hb Hp) as (o0 & Ho0 & Hid & Hsym & Hst & Hown).
  rewrite Ho in Ho0. injection Ho0 as <-.
  set (side := Order.side_ o) in *.
  pose proof Hb as Hsides.
  apply (bookOk_sides side) in Hsides as (Hside & Hopp & Hnd & Hidx).
  pose proof Hnd as Hnd'. apply NoDup_app in Hnd' as (Hnd1 & Hdisj & Hnd2).
  destruct (removeOrderAt_sideOk h (<[p := Order.setStatus CANCELLED o]> h)
              _ _ _ _ p o Hside Hids Hnd1 Ho Hown)
    as (m' & r1 & r2 & Hrem' & Hside' & Hr & Hr').
  { rewrite length_insert. by eapply lookup_lt_Some. }
  rewrite Hid in Hrem'. fold side in Hrem'. rewrite Hrem in Hrem'.
  injection Hrem' as ->.
  rewrite Hr in Hnd, Hnd1, Hdisj.
  assert (p ∉ r1 ++ r2) as Hp1.
  { apply NoDup_app in Hnd1 as (_ & Hd & Hn2). apply NoDup_cons in Hn2 as [Hn2 _].
    rewrite elem_of_app. intros [H|H]; [|done].
    apply (Hd _ H). apply list_elem_of_here. }
  assert (p ∉ resting (opposite side b)) as Hp2.
  { apply Hdisj. rewrite elem_of_app. right. apply list_elem_of_here. }
  assert (∀ q, q ∈ r1 ++ r2 → q ∈ r1 ++ p :: r2) as Hsub.
  { intros q. rewrite !elem_of_app, elem_of_cons. tauto. }
  assert (∀ q id, q ≠ p → OrderBook.orderMap_ b !! id = Some q →
                  delete orderId (OrderBook.orderMap_ b) !! id = Some q) as Hdel.
  { intros q id Hq Hl. rewrite lookup_delete_ne; [done|]. intros <-. congruence. }
  assert (∀ q, q ∈ allResting
                     (OrderBook.setOrderMap (delete orderId (OrderBook.orderMap_ b))
                        (setOwnSide side m' b)) ↔
               q ∈ r1 ++ r2 ∨ q ∈ resting (opposite side b)) as Hall.
  { intros q. rewrite (elem_of_allResting side), ownSide_setOwnSide,
      opposite_setOwnSide, Hr'. done. }
  split_and!; try done.
  - apply (bookOk_sides side).
    rewrite ownSide_setOwnSide, opposite_setOwnSide. simpl. split_and!.
    + eapply sideOk_frame; [exact Hside'| |].
      * intros q Hq. rewrite Hr' in Hq. rewrite list_lookup_insert_ne; [done|].
        by intros ->.
      * intros q id Hq Hl. rewrite Hr' in Hq. apply Hdel; [|done]. by intros ->.
    + eapply sideOk_frame; [exact Hopp| |].
      * intros q Hq. rewrite list_lookup_insert_ne; [done|]. by intros ->.
      * intros q id Hq Hl. apply Hdel; [|done]. by intros ->.
    + rewrite Hr'. eapply sublist_NoDup; [exact Hnd|].
      apply sublist_app; [|done]. apply sublist_app; [done|]. by apply sublist_cons.
    + intros id q Hl. simpl in Hl.
      destruct (decide (id = orderId)) as [->|Hne];
        [by rewrite lookup_delete_eq in Hl|].
      rewrite lookup_delete_ne in Hl by done.
      destruct (Hidx _ _ Hl) as (Hq & m & Hm & Hmid).
      assert (q ≠ p) as Hqp by (intros ->; congruence).
      split.
      * apply Hall. apply (elem_of_allResting side) in Hq as [Hq|Hq]; [|by right].
        left. rewrite Hr in Hq. revert Hq. rewrite !elem_of_app, elem_of_cons.
        tauto.
      * exists m. by rewrite list_lookup_insert_ne.
  - rewrite Hall. tauto.
  - intros q Hq. apply Hall in Hq. apply (elem_of_allResting side).
    destruct Hq as [Hq|Hq]; [left|by right]. rewrite Hr. by apply Hsub.
Qed.

Lemma modifyOrder_inv orderId newPrice newQuantity h b r h' b' :
  OrderBook.modifyOrder orderId newPrice newQuantity h b = Some (r, h', b') →
  (OrderBook.orderMap_ b !! orderId = None ∧ r = false ∧ h' = h ∧ b' = b)
  ∨ ∃ p o m1 m2,
      OrderBook.orderMap_ b !! orderId = Some p
      ∧ h !! p = Some o
      ∧ r = true
      ∧ h' = <[p := modified newPrice newQuantity o]> h
      ∧ Levels.removeOrderAt (ownComp (Order.side_ o)) (Order.price_ o) orderId h
          (ownSide (Order.side_ o) b) = Some m1
      ∧ Levels.addOrderAt (ownComp (Order.side_ o)) newPrice p h' m1 = Some m2
      ∧ b' = OrderBook.setOrderMap (OrderBook.orderMap_ b)
               (setOwnSide (Order.side_ o) m2 b).
Proof.
  unfold OrderBook.modifyOrder. intros H.
  destruct (OrderBook.orderMap_ b !! orderId) as [p|];
    [|left; split; [done|]; by simplify_eq].
  right. destruct (h !! p) as [o|] eqn:Ho; [|done]. cbn in H.
  exists p, o. fold (modified newPrice newQuantity o) in H.
  destruct (Order.side_ o); cbn in *;
    match type of H with
    | context [Levels.removeOrderAt ?a ?b ?c ?d ?e] =>
        destruct (Levels.removeOrderAt a b c d e) as [m1|] eqn:Hrem
    end; try done; cbn in H;
    match type of H with
    | context [Levels.addOrderAt ?a ?b ?c ?d ?e] =>
        destruct (Levels.addOrderAt a b c d e) as [m2|] eqn:Hadd
    end; try done; cbn in H; simplify_eq; exists m1, m2; split_and!; try done;
    by destruct b.
Qed.

Lemma idsDistinct_insert (h : Heap) p o o' :
  idsDistinct h → h !! p = Some o → Order.orderId_ o' = Order.orderId_ o →
  idsDistinct (<[p := o']> h).
Proof.
  intros Hids Ho Hid a c oa oc Ha Hc Heq.
  assert (p < length h) as Hlt by (by eapply lookup_lt_Some).
  destruct (decide (a = p)) as [->|Hap], (decide (c = p)) as [->|Hcp]; [done|..].
  - rewrite list_lookup_insert_eq in Ha by done. injection Ha as <-.
    rewrite list_lookup_insert_ne in Hc by done.
    eapply Hids; [exact Ho|exact Hc|congruence].
  - rewrite list_lookup_insert_eq in Hc by done. injection Hc as <-.
    rewrite list_lookup_insert_ne in Ha by done.
    eapply Hids; [exact Ha|exact Ho|congruence].
  - rewrite list_lookup_insert_ne in Ha, Hc by done. by eapply Hids.
Qed.

(** [OrderBook::modifyOrder] on a book that satisfies its invariant: the
    same orders rest in the book, and only the modified one changes. *)
Lemma modifyOrder_bookOk orderId newPrice newQuantity h b r h' b' symbol :
  OrderBook.modifyOrder orderId newPrice newQuantity h b = Some (r, h', b') →
  bookOk h symbol b →
  idsDistinct h →
  (OrderBook.orderMap_ b !! orderId = None ∧ r = false ∧ h' = h ∧ b' = b)
  ∨ ∃ p o,
      h !! p = Some o
      ∧ Order.orderId_ o = orderId
      ∧ Order.symbol_ o = symbol
      ∧ Order.status_ o ≠ FILLED
      ∧ p ∈ allResting b
      ∧ r = true
      ∧ h' = <[p := modified newPrice newQuantity o]> h
      ∧ bookOk h' symbol b'
      ∧ (∀ q, q ∈ allResting b' ↔ q ∈ allResting b).
Proof.
  intros Hrun Hb Hids.
  apply modifyOrder_inv in Hrun
    as [?|(p & o & m1 & m2 & Hp & Ho & -> & -> & Hrem & Hadd & ->)]; [by left|].
  right. exists p, o.
  destruct (bookOk_indexed _ _ _ _ _ Hb Hp) as (o0 & Ho0 & Hid & Hsym & Hst & Hown).
  rewrite Ho in Ho0. injection Ho0 as <-.
  set (side := Order.side_ o) in *.
  set (o2 := modified newPrice newQuantity o) in *.
  set (h2 := <[p := o2]> h) in *.
  assert (p < length h) as Hlt by (by eapply lookup_lt_Some).
  assert (h2 !! p = Some o2) as Ho2 by (by apply list_lookup_insert_eq).
  pose proof Hb as Hsides.
  apply (bookOk_sides side) in Hsides as (Hside & Hopp & Hnd & Hidx).
  pose proof Hnd as Hnd'. apply NoDup_app in Hnd' as (Hnd1 & Hdisj & Hnd2).
  destruct (removeOrderAt_sideOk h h _ _ _ _ p o Hside Hids Hnd1 Ho Hown Hlt)
    as (m' & r1 & r2 & Hrem' & Hside1 & Hr & Hr1).
  rewrite Hid in Hrem'. fold side in Hrem'. rewrite Hrem in Hrem'.
  injection Hrem' as <-.
  rewrite Hr in Hnd, Hnd1, Hdisj.
  assert (p ∉ r1 ++ r2) as Hp1.
  { apply NoDup_app in Hnd1 as (_ & Hd & Hn2). apply NoDup_cons in Hn2 as [Hn2 _].
    rewrite elem_of_app. intros [H|H]; [|done].
    apply (Hd _ H). apply list_elem_of_here. }
  assert (p ∉ resting (opposite side b)) as Hp2.
  { apply Hdisj. rewrite elem_of_app. right. apply list_elem_of_here. }
  assert (sideOk h2 symbol side (OrderBook.orderMap_ b) m1) as Hside2.
  { eapply sideOk_frame; [exact Hside1| |done].
    intros q Hq. rewrite Hr1 in Hq. unfold h2.
    rewrite list_lookup_insert_ne; [done|]. by intros ->. }
  destruct (addOrderAt_sideOk h2 symbol side (OrderBook.orderMap_ b) m1 p o2 m2)
    as [Hside3 Hperm]; try done.
  { by eapply idsDistinct_insert. }
  { by rewrite Hr1. }
  simpl in Hside3. rewrite Hid, insert_id in Hside3 by done.
  assert (∀ q, q ∈ allResting
                     (OrderBook.setOrderMap (OrderBook.orderMap_ b)
                        (setOwnSide side m2 b)) ↔ q ∈ allResting b) as Hall.
  { intros q. rewrite !(elem_of_allResting side), ownSide_setOwnSide,
      opposite_setOwnSide, Hperm, Hr1, Hr.
    rewrite elem_of_cons, !elem_of_app, elem_of_cons. tauto. }
  split_and!; try done.
  { apply (elem_of_allResting side). by left. }
  apply (bookOk_sides side).
  rewrite ownSide_setOwnSide, opposite_setOwnSide. simpl. split_and!.
  - done.
  - eapply sideOk_frame; [exact Hopp| |done].
    intros q Hq. unfold h2. rewrite list_lookup_insert_ne; [done|]. by intros ->.
  - rewrite Hperm, Hr1. simpl. apply NoDup_cons. split.
    + rewrite elem_of_app. intros [H|H]; [by apply Hp1|by apply Hp2].
    + eapply sublist_NoDup; [exact Hnd|].
      apply sublist_app; [|done]. apply sublist_app; [done|]. by apply sublist_cons.
  - intros id q Hl. simpl in Hl. destruct (Hidx _ _ Hl) as (Hq & m & Hm & Hmid).
    split; [by apply Hall|].
    destruct (decide (q = p)) as [->|Hqp].
    + exists o2. split; [done|]. rewrite Ho in Hm. by injection Hm as <-.
    + exists m. unfold h2. by rewrite list_lookup_insert_ne.
Qed.


(** * The invariant of the engine *)

Lemma engineOk_ids h e : engineOk h e → idsDistinct h.
Proof.
  intros (_ & Hid & _) p q o m Ho Hm Heq.
  rewrite (Hid _ _ Ho), (Hid _ _ Hm) in Heq. lia.
Qed.

Lemma engineOk_new : engineOk [] MatchingEngineCore.new.
Proof. split_and!; done. Qed.

(** An order rests in the book of its symbol only. *)
Lemma engineOk_rests h e symbol b q o :
  engineOk h e →
  MatchingEngineCore.orderBooks_ e !! symbol = Some b →
  q ∈ allResting b → h !! q = Some o →
  Order.symbol_ o = symbol.
Proof.
  intros (_ & _ & _ & _ & _ & Hbooks) Hb Hq Ho.
  destruct (bookOk_resting _ _ _ _ (Hbooks _ _ Hb) Hq) as (o' & Ho' & _ & Hsym & _).
  congruence.
Qed.

(** No book of the engine indexes a FILLED order. *)
Lemma engineOk_filled_not_indexed h e symbol b p o :
  engineOk h e →
  MatchingEngineCore.orderBooks_ e !! symbol = Some b →
  h !! p = Some o → Order.status_ o = FILLED →
  OrderBook.orderMap_ b !! Order.orderId_ o = None.
Proof.
  intros He Hb Ho Hst. pose proof (engineOk_ids _ _ He) as Hids.
  destruct He as (_ & _ & _ & _ & _ & Hbooks).
  destruct (OrderBook.orderMap_ b !! Order.orderId_ o) as [q|] eqn:Hq; [|done].
  destruct (bookOk_indexed _ _ _ _ _ (Hbooks _ _ Hb) Hq)
    as (m & Hm & Hid & _ & Hnf & _).
  assert (q = p) as -> by (by eapply Hids).
  rewrite Ho in Hm. injection Hm as <-. done.
Qed.

(** The engine after an operation of one of its books on a resting
    order. *)
Lemma engineOk_update h e e' symbol book book' p o o' :
  engineOk h e →
  MatchingEngineCore.orderBooks_ e !! symbol = Some book →
  h !! p = Some o →
  Order.symbol_ o = symbol →
  Order.orderId_ o' = Order.orderId_ o →
  Order.symbol_ o' = Order.symbol_ o →
  Order.status_ o' ≠ FILLED →
  (Order.remainingQuantity_ o' = 0 → ¬ 0 < Order.quantity_ o')%N →
  bookOk (<[p := o']> h) symbol book' →
  (∀ q, q ∈ allResting book' → q ∈ allResting book) →
  MatchingEngineCore.orderBooks_ e'
    = <[symbol := book']> (MatchingEngineCore.orderBooks_ e) →
  MatchingEngineCore.nextOrderId_ e' = MatchingEngineCore.nextOrderId_ e →
  (MatchingEngineCore.orderToSymbol_ e' !! Order.orderId_ o = Some symbol
   ∨ (Order.status_ o' = CANCELLED ∧ p ∉ allResting book')) →
  (∀ id, id ≠ Order.orderId_ o →
         MatchingEngineCore.orderToSymbol_ e' !! id
           = MatchingEngineCore.orderToSymbol_ e !! id) →
  engineOk (<[p := o']> h) e'.
Proof.
  intros He Hbook Ho Hsym Hid' Hsym' Hst' Hrem' Hok Hsub Hbooks' Hnext Hp Hother.
  pose proof (engineOk_ids _ _ He) as Hids.
  pose proof He as (Hn & Hid & Hots & Hfilled & Hdone & Hbooks).
  assert (p < length h) as Hlt by (by eapply lookup_lt_Some).
  assert (∀ symbol2 b2 q,
            MatchingEngineCore.orderBooks_ e !! symbol2 = Some b2 →
            symbol2 ≠ symbol → q ∈ allResting b2 → q ≠ p) as Hdisj.
  { intros symbol2 b2 q Hb2 Hne Hq ->.
    apply Hne. rewrite <- Hsym. symmetry. by eapply engineOk_rests. }
  split_and!.
  - rewrite Hnext, length_insert. done.
  - intros q oq Hq. destruct (decide (q = p)) as [->|Hne].
    + rewrite list_lookup_insert_eq in Hq by done. injection Hq as <-.
      rewrite Hid'. by eapply Hid.
    + rewrite list_lookup_insert_ne in Hq by done. by eapply Hid.
  - intros q oq Hq. destruct (decide (q = p)) as [->|Hne].
    + rewrite list_lookup_insert_eq in Hq by done. injection Hq as <-.
      rewrite Hid', Hsym', Hsym. destruct Hp as [Hp|[Hc Hp]]; [by left|right].
      split; [done|]. intros symbol2 b2 Hb2. rewrite Hbooks' in Hb2.
      destruct (decide (symbol2 = symbol)) as [->|Hs].
      * rewrite lookup_insert_eq in Hb2. by injection Hb2 as <-.
      * rewrite lookup_insert_ne in Hb2 by done. intros Hin.
        by eapply Hdisj.
    + rewrite list_lookup_insert_ne in Hq by done.
      destruct (Hots _ _ Hq) as [Hl|[Hc Hnw]]; [left|right].
      * rewrite Hother; [done|]. intros Heq. apply Hne. by eapply Hids.
      * split; [done|]. intros symbol2 b2 Hb2. rewrite Hbooks' in Hb2.
        destruct (decide (symbol2 = symbol)) as [->|Hs].
        -- rewrite lookup_insert_eq in Hb2. injection Hb2 as <-.
           intros Hin. by eapply Hnw, Hsub.
        -- rewrite lookup_insert_ne in Hb2 by done. by eapply Hnw.
  - intros q oq Hq. destruct (decide (q = p)) as [->|Hne].
    + rewrite list_lookup_insert_eq in Hq by done. by injection Hq as <-.
    + rewrite list_lookup_insert_ne in Hq by done. by eapply Hfilled.
  - intros q oq Hq. destruct (decide (q = p)) as [->|Hne].
    + rewrite list_lookup_insert_eq in Hq by done. injection Hq as <-.
      intros Hz Hpos. by apply Hrem' in Hz.
    + rewrite list_lookup_insert_ne in Hq by done. by eapply Hdone.
  - intros symbol2 b2 Hb2. rewrite Hbooks' in Hb2.
    destruct (decide (symbol2 = symbol)) as [->|Hs].
    + rewrite lookup_insert_eq in Hb2. by injection Hb2 as <-.
    + rewrite lookup_insert_ne in Hb2 by done.
      eapply bookOk_frame; [by eapply Hbooks|].
      intros q Hq. rewrite list_lookup_insert_ne; [done|].
      intros <-. by eapply Hdisj.
Qed.

Lemma engine_eta e books :
  books = MatchingEngineCore.orderBooks_ e →
  {| MatchingEngineCore.orderBooks_ := books;
     MatchingEngineCore.orderToSymbol_ := MatchingEngineCore.orderToSymbol_ e;
     MatchingEngineCore.nextOrderId_ := MatchingEngineCore.nextOrderId_ e;
     MatchingEngineCore.totalOrders_ := MatchingEngineCore.totalOrders_ e;
     MatchingEngineCore.totalTrades_ := MatchingEngineCore.totalTrades_ e |} = e.
Proof. intros ->. by destruct e. Qed.

(** [MatchingEngineCore::cancelOrder] keeps the invariant. *)
Lemma cancelOrder_engineOk orderId h e r h' e' :
  engineOk h e →
  MatchingEngineCore.cancelOrder orderId h e = Some (r, h', e') →
  engineOk h' e'.
Proof.
  intros He Hrun. pose proof (engineOk_ids _ _ He) as Hids.
  pose proof He as (Hn & Hid & Hots & Hfilled & Hdone & Hbooks).
  unfold MatchingEngineCore.cancelOrder in Hrun.
  destruct (MatchingEngineCore.orderToSymbol_ e !! orderId) as [symbol|] eqn:Hs;
    [|by simplify_eq].
  destruct (MatchingEngineCore.orderBooks_ e !! symbol) as [book|] eqn:Hbook;
    [|by simplify_eq].
  destruct (OrderBook.cancelOrder orderId h book) as [[[r0 h0] book']|] eqn:Hc;
    [|done].
  cbn in Hrun. injection Hrun as <- <- <-.
  destruct (cancelOrder_bookOk _ _ _ _ _ _ symbol Hc (Hbooks _ _ Hbook) Hids)
    as [(_ & -> & -> & ->)
       |(p & o & Ho & Hoid & Hsym & Hst & -> & -> & Hok & Hp & Hsub)].
  { rewrite engine_eta; [done|]. by rewrite insert_id. }
  eapply engineOk_update; try done.
  - simpl. intros Hz Hpos. apply Hst. by eapply Hdone.
  - right. by split.
  - intros id Hne. simpl. rewrite lookup_delete_ne; [done|]. congruence.
Qed.

(** [MatchingEngineCore::modifyOrder] keeps the invariant. *)
Lemma modifyOrder_engineOk orderId newPrice newQuantity h e r h' e' :
  engineOk h e →
  MatchingEngineCore.modifyOrder orderId newPrice newQuantity h e
    = Some (r, h', e') →
  engineOk h' e'.
Proof.
  intros He Hrun. pose proof (engineOk_ids _ _ He) as Hids.
  pose proof He as (Hn & Hid & Hots & Hfilled & Hdone & Hbooks).
  unfold MatchingEngineCore.modifyOrder in Hrun.
  destruct (MatchingEngineCore.orderToSymbol_ e !! orderId) as [symbol|] eqn:Hs;
    [|by simplify_eq].
  destruct (MatchingEngineCore.orderBooks_ e !! symbol) as [book|] eqn:Hbook;
    [|by simplify_eq].
  destruct (OrderBook.modifyOrder orderId newPrice newQuantity h book)
    as [[[r0 h0] book']|] eqn:Hc; [|done].
  cbn in Hrun. injection Hrun as <- <- <-.
  destruct (modifyOrder_bookOk _ _ _ _ _ _ _ _ symbol Hc (Hbooks _ _ Hbook) Hids)
    as [(_ & -> & -> & ->)
       |(p & o & Ho & Hoid & Hsym & Hst & Hp & -> & -> & Hok & Hsame)].
  { rewrite engine_eta; [done|]. by rewrite insert_id. }
  eapply engineOk_update; try done.
  - simpl. intros Hz. lia.
  - intros q Hq. by apply Hsame.
  - left. simpl. destruct (Hots _ _ Ho) as [Hl|[_ Hnw]]; [congruence|].
    by destruct (Hnw _ _ Hbook).
Qed.

(** [MatchingEngineCore::submitOrder] keeps the invariant, as long as the
    counter of order ids does not wrap around. *)
Lemma submitOrder_engineOk symbol side type price quantity clientId stopPrice
    h e orderId trades h' e' :
  engineOk h e →
  (MatchingEngineCore.nextOrderId_ e + 1 < two64)%N →
  MatchingEngineCore.submitOrder symbol side type price quantity clientId
    stopPrice h e = Some (orderId, trades, h', e') →
  engineOk h' e'.
Proof.
  intros He Hwrap Hrun. pose proof (engineOk_ids _ _ He) as Hids.
  pose proof He as (Hn & Hid & Hots & Hfilled & Hdone & Hbooks).
  unfold MatchingEngineCore.submitOrder in Hrun.
  set (o0 := Order.setClientId clientId
               (Order.new (MatchingEngineCore.nextOrderId_ e) symbol side type
                  price quantity stopPrice)) in *.
  set (p := length h) in *. set (h1 := h ++ [o0]) in *.
  set (b := MatchingEngineCore.getOrCreateOrderBook symbol e) in *.
  destruct (OrderBook.matchOrder p h1 b) as [[[trades0 h0] b']|] eqn:Hm; [|done].
  cbn in Hrun. injection Hrun as <- <- <- <-.
  assert (h1 !! p = Some o0) as Hp.
  { unfold h1, p. by rewrite lookup_app_r, Nat.sub_diag. }
  assert (∀ q, q ≠ p → h1 !! q = h !! q) as Hh1.
  { intros q Hq. unfold h1. destruct (decide (q < p)) as [Hlt|Hge].
    - by rewrite lookup_app_l.
    - rewrite !lookup_ge_None_2; [done|unfold p in *; lia|].
      rewrite length_app. simpl. unfold p in *. lia. }
  assert (∀ q o, h !! q = Some o → q ≠ p) as Hold.
  { intros q o Hq ->. apply lookup_lt_Some in Hq. unfold p in Hq. lia. }
  assert (bookOk h symbol b
          ∧ (∀ q, q ∈ allResting b →
                  ∃ b0, MatchingEngineCore.orderBooks_ e !! symbol = Some b0
                        ∧ q ∈ allResting b0)) as [Hb Hin].
  { unfold b, MatchingEngineCore.getOrCreateOrderBook.
    destruct (MatchingEngineCore.orderBooks_ e !! symbol) as [b0|] eqn:Hb0; simpl.
    - split; [by eapply Hbooks|]. intros q Hq. by exists b0.
    - split; [apply bookOk_new|]. intros q Hq. by apply elem_of_nil in Hq. }
  assert (∀ q, q ∈ allResting b → ∃ o, h !! q = Some o ∧ Order.symbol_ o = symbol)
    as Hrest.
  { intros q Hq. destruct (bookOk_resting _ _ _ _ Hb Hq) as (o & Ho & _ & Hs & _).
    by exists o. }
  assert (bookOk h1 symbol b) as Hb1.
  { eapply bookOk_frame; [exact Hb|]. intros q Hq.
    destruct (Hrest _ Hq) as (o & Ho & _). apply Hh1. by eapply Hold. }
  assert (∀ q o, h1 !! q = Some o → Order.orderId_ o = (N.of_nat q + 1)%N) as Hid1.
  { intros q o Hq. destruct (decide (q = p)) as [->|Hne].
    - rewrite Hp in Hq. injection Hq as <-. simpl. by rewrite Hn.
    - rewrite Hh1 in Hq by done. by eapply Hid. }
  assert (idsDistinct h1) as Hids1.
  { intros q1 q2 o1 o2 H1 H2 Heq.
    rewrite (Hid1 _ _ H1), (Hid1 _ _ H2) in Heq. lia. }
  assert (p ∉ allResting b) as Hpb.
  { intros Hq. destruct (Hrest _ Hq) as (o & Ho & _). by eapply Hold. }
  assert (filledOnlyWhenDone h1) as Hfilled1.
  { intros q o Hq. destruct (decide (q = p)) as [->|Hne].
    - rewrite Hp in Hq. by injection Hq as <-.
    - rewrite Hh1 in Hq by done. by eapply Hfilled. }
  assert (doneIsFilled h1) as Hdone1.
  { intros q o Hq. destruct (decide (q = p)) as [->|Hne].
    - rewrite Hp in Hq. injection Hq as <-. simpl. lia.
    - rewrite Hh1 in Hq by done. by eapply Hdone. }
  destruct (matchOrder_bookOk _ _ _ _ _ _ _ symbol Hm Hp eq_refl Hb1 Hids1 Hpb
              Hfilled1) as (Hb' & Hsub & Hframe).
  destruct (matchOrder_statuses _ _ _ _ _ _ _ Hm Hp eq_refl Hfilled1 Hdone1)
    as [Hfilled' Hdone'].
  pose proof (matchOrder_static _ _ _ _ _ _ Hm) as Hstatic.
  pose proof (matchOrder_length _ _ _ _ _ _ Hm) as Hlen.
  assert (∀ symbol2 b2 q,
            MatchingEngineCore.orderBooks_ e !! symbol2 = Some b2 →
            symbol2 ≠ symbol → q ∈ allResting b2 → h0 !! q = h !! q) as Hother.
  { intros symbol2 b2 q Hb2 Hne Hq.
    destruct (bookOk_resting _ _ _ _ (Hbooks _ _ Hb2) Hq) as (o & Ho & _ & Hs & _).
    assert (q ≠ p) as Hqp by (by eapply Hold).
    rewrite Hframe, Hh1; try done.
    intros Hqb. destruct (Hrest _ Hqb) as (o' & Ho' & Hs'). congruence. }
  split_and!; simpl.
  - unfold wrap64. rewrite N.mod_small by done.
    rewrite Hlen, Hn. unfold h1. rewrite length_app. simpl. lia.
  - intros q o' Hq.
    destruct (Forall2_lookup_r _ _ _ _ _ Hstatic Hq) as (o & Ho & (Hio & _)).
    rewrite Hio. by eapply Hid1.
  - intros q o' Hq.
    destruct (Forall2_lookup_r _ _ _ _ _ Hstatic Hq) as (o & Ho & (Hio & Hso & _)).
    destruct (decide (q = p)) as [->|Hne].
    + left. rewrite Hp in Ho. injection Ho as <-. rewrite Hio, Hso. simpl.
      by rewrite lookup_insert_eq.
    + rewrite Hh1 in Ho by done.
      destruct (Hots _ _ Ho) as [Hl|[Hc Hnw]]; [left|right].
      * rewrite Hio, Hso, lookup_insert_ne; [done|].
        rewrite (Hid _ _ Ho), Hn. unfold p in Hne. lia.
      * assert (q ∉ allResting b) as Hqb.
        { intros Hqb. destruct (Hin _ Hqb) as (b0 & Hb0 & Hq0).
          by eapply Hnw. }
        rewrite Hframe, Hh1, Ho in Hq by done. injection Hq as <-.
        split; [done|]. intros symbol2 b2 Hb2. simpl in Hb2.
        destruct (decide (symbol2 = symbol)) as [->|Hs].
        -- rewrite lookup_insert_eq in Hb2. injection Hb2 as <-.
           intros Hq'. by destruct (Hsub _ Hq').
        -- rewrite lookup_insert_ne in Hb2 by done. by eapply Hnw.
  - done.
  - done.
  - intros symbol2 b2 Hb2. simpl in Hb2.
    destruct (decide (symbol2 = symbol)) as [->|Hs].
    + rewrite lookup_insert_eq in Hb2. by injection Hb2 as <-.
    + rewrite lookup_insert_ne in Hb2 by done.
      eapply bookOk_frame; [by eapply Hbooks|].
      intros q Hq. by eapply Hother.
Qed.

(** Every state the engine reaches satisfies the invariant. *)
Lemma reachable_engineOk h e : reachable h e → engineOk h e.
Proof.
  induction 1.
  - apply engineOk_new.
  - by eapply submitOrder_engineOk.
  - by eapply cancelOrder_engineOk.
  - by eapply modifyOrder_engineOk.
Qed.

Lemma reachable_submitted symbol side type price quantity s :
  reachable s.1 s.2 →
  (MatchingEngineCore.nextOrderId_ s.2 + 1 < two64)%N →
  reachable (submitted symbol side type price quantity s).1
            (submitted symbol side type price quantity s).2.
Proof.
  intros Hr Hwrap. unfold submitted.
  destruct (MatchingEngineCore.submitOrder _ _ _ _ _ _ _ _ _)
    as [[[[orderId trades] h'] e']|] eqn:Hrun; [|done].
  simpl. by eapply reach_submit.
Qed.

(** In a state the engine reaches, no book indexes an order that is FILLED,
    or of which nothing remains of a positive quantity. *)
Lemma reachable_filled h e p o :
  reachable h e →
  h !! p = Some o →
  Order.status_ o = FILLED
  ∨ (Order.isFilled o = true ∧ (0 < Order.quantity_ o)%N) →
  Order.status_ o = FILLED
  ∧ MatchingEngineCore.orderToSymbol_ e !! Order.orderId_ o
    = Some (Order.symbol_ o)
  ∧ ∀ symbol b, MatchingEngineCore.orderBooks_ e !! symbol = Some b →
                OrderBook.orderMap_ b !! Order.orderId_ o = None.
Proof.
  intros Hr Ho Hf. apply reachable_engineOk in Hr as He.
  pose proof He as (_ & _ & Hots & _ & Hdone & _).
  assert (Order.status_ o = FILLED) as Hst.
  { destruct Hf as [Hf|[Hz Hpos]]; [done|]. eapply Hdone; [done| |done].
    unfold Order.isFilled in Hz. by apply N.eqb_eq in Hz. }
  split; [done|]. split.
  - destruct (Hots _ _ Ho) as [Hl|[Hc _]]; [done|congruence].
  - intros symbol b Hb. by eapply engineOk_filled_not_indexed.
Qed.


(** * Accounting of the sweep: what is traded is what is filled *)

Lemma tradedQuantity_app t1 t2 :
  tradedQuantity (t1 ++ t2) = (tradedQuantity t1 + tradedQuantity t2)%N.
Proof. induction t1 as [|t t1 IH]; simpl; [done|]. rewrite IH. lia. Qed.

Lemma totalRemaining_app h l1 l2 :
  totalRemaining h (l1 ++ l2) = (totalRemaining h l1 + totalRemaining h l2)%N.
Proof. induction l1 as [|q l1 IH]; simpl; [done|]. rewrite IH. lia. Qed.

Lemma totalRemaining_ext (h h' : Heap) l :
  (∀ q, q ∈ l → h' !! q = h !! q) → totalRemaining h' l = totalRemaining h l.
Proof.
  induction l as [|q l IH]; intros Hq; simpl; [done|].
  rewrite IH by (intros; apply Hq; by apply list_elem_of_further).
  unfold remainingOf. rewrite Hq by apply list_elem_of_here. done.
Qed.

Lemma totalRemaining_perm h l1 l2 :
  l1 ≡ₚ l2 → totalRemaining h l1 = totalRemaining h l2.
Proof. induction 1; simpl; lia. Qed.

(** The inner loop changes the incoming order and orders of the queue
    only. *)
Lemma matchQueue_frame sym p orders s orders' s' r :
  OrderBook.matchQueue sym p orders s = Some (orders', s') →
  r ≠ p → r ∉ orders.*2 →
  OrderBook.sw_heap s' !! r = OrderBook.sw_heap s !! r.
Proof.
  intros H Hp Hr.
  destruct (OrderBook.sw_heap s !! p) as [o|] eqn:Ho.
  - destruct (matchQueue_shape _ _ _ _ _ _ _ H Ho)
      as (erased & partial & new & -> & [k ->] & _ & _ & _ & _ & _ & Hframe & _).
    apply Hframe; [done|]. intros Hin. apply Hr.
    rewrite !fmap_app in *. rewrite !elem_of_app in *. tauto.
  - destruct orders as [|[n q] orders]; [cbn in H; by simplify_eq|].
    cbn [OrderBook.matchQueue] in H. rewrite Ho in H. done.
Qed.

Lemma matchLevels_frame tooFar sym p levels s levels' s' r :
  OrderBook.matchLevels tooFar sym p levels s = Some (levels', s') →
  r ≠ p → r ∉ resting levels →
  OrderBook.sw_heap s' !! r = OrderBook.sw_heap s !! r.
Proof.
  intros H Hp Hr.
  destruct (OrderBook.sw_heap s !! p) as [o|] eqn:Ho.
  - destruct (matchLevels_shape _ _ _ _ _ _ _ _ H Ho)
      as (erased & partial & new & HL & [k Hk] & _ & _ & _ & _ & _ & Hframe & _).
    apply Hframe; [done|]. intros Hin. apply Hr.
    rewrite HL, Hk. rewrite !elem_of_app in *. tauto.
  - destruct levels as [|[price level] levels]; [cbn in H; by simplify_eq|].
    cbn [OrderBook.matchLevels] in H. rewrite Ho in H. done.
Qed.

(** The accounting of the inner loop, for an incoming order that is not in
    the queue: the quantities of the new trades add up to what the incoming
    order lost in remaining quantity, and to what the orders of the queue
    lost; every new trade bears the symbol and the id of the incoming
    order. *)
Lemma matchQueue_account sym p orders s orders' s' o :
  OrderBook.matchQueue sym p orders s = Some (orders', s') →
  p ∉ orders.*2 → NoDup orders.*2 →
  OrderBook.sw_heap s !! p = Some o →
  ∃ o' new,
    OrderBook.sw_heap s' !! p = Some o'
    ∧ OrderBook.sw_trades s' = OrderBook.sw_trades s ++ new
    ∧ (tradedQuantity new + Order.remainingQuantity_ o')%N
      = Order.remainingQuantity_ o
    ∧ (totalRemaining (OrderBook.sw_heap s') orders.*2 + tradedQuantity new)%N
      = totalRemaining (OrderBook.sw_heap s) orders.*2
    ∧ Forall (λ t, Trade.symbol_ t = sym
                   ∧ takerId (Order.side_ o) t = Order.orderId_ o) new.
Proof.
  intros H. revert o. queue_induction H.
  - intros s o _ _ Ho. exists o, []. rewrite app_nil_r. by split_and!.
  - intros n q orders s o _ _ o0 _ _ Ho. exists o0, []. rewrite app_nil_r.
    split_and!; try done; simpl; lia.
  - intros n q orders s o m m1 orders' s' Ho Hpos Hm Hm1 Hle Hrec IH o0 Hp Hnd Ho0.
    rewrite Ho in Ho0. injection Ho0 as <-.
    rewrite fmap_cons in Hp, Hnd. simpl in Hp, Hnd.
    apply not_elem_of_cons in Hp as [Hpq Hp]. apply NoDup_cons in Hnd as [Hq Hnd].
    rewrite list_lookup_insert_ne in Hm1 by done. rewrite Hm in Hm1.
    injection Hm1 as <-.
    set (fq := N.min (Order.remainingQuantity_ o) (Order.remainingQuantity_ m)) in *.
    assert (OrderBook.sw_heap (afterFills p q o m m sym true s) !! p
            = Some (Order.fill fq o)) as Hp1.
    { simpl. rewrite list_lookup_insert_ne by done.
      apply list_lookup_insert_eq. by eapply lookup_lt_Some. }
    assert (OrderBook.sw_heap (afterFills p q o m m sym true s) !! q
            = Some (Order.fill fq m)) as Hq1.
    { simpl. apply list_lookup_insert_eq. rewrite length_insert.
      by eapply lookup_lt_Some. }
    destruct (IH _ Hp Hnd Hp1) as (o' & new & Ho' & Htr & Hacc & Hpas & Hall).
    exists o', (tradeOf sym o m :: new).
    pose proof (matchQueue_frame _ _ _ _ _ _ q Hrec ltac:(done) Hq) as Hfr.
    split_and!.
    + done.
    + rewrite Htr. simpl. by rewrite <- app_assoc.
    + simpl. fold fq. rewrite fill_remaining in Hacc. lia.
    + rewrite fmap_cons. simpl. fold fq.
      unfold remainingOf at 1 2. rewrite Hfr, Hq1, Hm. cbn [from_option].
      rewrite fill_remaining.
      rewrite (totalRemaining_ext (OrderBook.sw_heap s)
                 (OrderBook.sw_heap (afterFills p q o m m sym true s))) in Hpas.
      * lia.
      * intros r Hr. simpl. rewrite !list_lookup_insert_ne; [done|..];
          intros <-; done.
    + constructor; [|done]. split; [done|]. unfold tradeOf.
      destruct (Order.side_ o); simpl; by repeat case_decide.
  - intros n q orders s o m m1 orders' s' Ho Hpos Hm Hm1 Hle Hrec IH o0 Hp Hnd Ho0.
    rewrite Ho in Ho0. injection Ho0 as <-.
    rewrite fmap_cons in Hp, Hnd. simpl in Hp, Hnd.
    apply not_elem_of_cons in Hp as [Hpq Hp]. apply NoDup_cons in Hnd as [Hq Hnd].
    rewrite list_lookup_insert_ne in Hm1 by done. rewrite Hm in Hm1.
    injection Hm1 as <-.
    set (fq := N.min (Order.remainingQuantity_ o) (Order.remainingQuantity_ m)) in *.
    assert (OrderBook.sw_heap (afterFills p q o m m sym false s) !! p
            = Some (Order.fill fq o)) as Hp1.
    { simpl. rewrite list_lookup_insert_ne by done.
      apply list_lookup_insert_eq. by eapply lookup_lt_Some. }
    assert (OrderBook.sw_heap (afterFills p q o m m sym false s) !! q
            = Some (Order.fill fq m)) as Hq1.
    { simpl. apply list_lookup_insert_eq. rewrite length_insert.
      by eapply lookup_lt_Some. }
    destruct (IH _ Hp Hnd Hp1) as (o' & new & Ho' & Htr & Hacc & Hpas & Hall).
    exists o', (tradeOf sym o m :: new).
    pose proof (matchQueue_frame _ _ _ _ _ _ q Hrec ltac:(done) Hq) as Hfr.
    split_and!.
    + done.
    + rewrite Htr. simpl. by rewrite <- app_assoc.
    + simpl. fold fq. rewrite fill_remaining in Hacc. lia.
    + rewrite fmap_cons. simpl. fold fq.
      unfold remainingOf at 1 2. rewrite Hfr, Hq1, Hm. cbn [from_option].
      rewrite fill_remaining.
      rewrite (totalRemaining_ext (OrderBook.sw_heap s)
                 (OrderBook.sw_heap (afterFills p q o m m sym false s))) in Hpas.
      * lia.
      * intros r Hr. simpl. rewrite !list_lookup_insert_ne; [done|..];
          intros <-; done.
    + constructor; [|done]. split; [done|]. unfold tradeOf.
      destruct (Order.side_ o); simpl; by repeat case_decide.
Qed.

(** The same accounting for the outer loop, over the pointers resting on
    the side that is swept. *)
Lemma matchLevels_account tooFar sym p levels s levels' s' o :
  OrderBook.matchLevels tooFar sym p levels s = Some (levels', s') →
  p ∉ resting levels → NoDup (resting levels) →
  OrderBook.sw_heap s !! p = Some o →
  ∃ o' new,
    OrderBook.sw_heap s' !! p = Some o'
    ∧ OrderBook.sw_trades s' = OrderBook.sw_trades s ++ new
    ∧ (tradedQuantity new + Order.remainingQuantity_ o')%N
      = Order.remainingQuantity_ o
    ∧ (totalRemaining (OrderBook.sw_heap s') (resting levels) + tradedQuantity new)%N
      = totalRemaining (OrderBook.sw_heap s) (resting levels)
    ∧ Forall (λ t, Trade.symbol_ t = sym
                   ∧ takerId (Order.side_ o) t = Order.orderId_ o) new.
Proof.
  intros H. revert o. levels_induction H.
  - intros s o _ _ Ho. exists o, []. rewrite app_nil_r. by split_and!.
  - intros price level levels s o _ _ o0 _ _ Ho. exists o0, [].
    rewrite app_nil_r. split_and!; try done; simpl; lia.
  - intros price level levels s o _ _ _ _ o0 _ _ Ho. exists o0, [].
    rewrite app_nil_r. split_and!; try done; simpl; lia.
  - intros price level levels s o s1 levels' s' Ho Hpos Hnear Hq Hrec IH o0 Hp Hnd Ho0.
    rewrite Ho in Ho0. injection Ho0 as <-.
    rewrite resting_cons in Hp, Hnd. simpl in Hp, Hnd.
    apply not_elem_of_app in Hp as [Hp1 Hp2].
    apply NoDup_app in Hnd as (Hnd1 & Hdisj & Hnd2).
    destruct (matchQueue_account _ _ _ _ _ _ _ Hq Hp1 Hnd1 Ho)
      as (o1 & new1 & Ho1 & Htr1 & Hacc1 & Hpas1 & Hall1).
    destruct (IH _ Hp2 Hnd2 Ho1) as (o' & new2 & Ho' & Htr2 & Hacc2 & Hpas2 & Hall2).
    pose proof (matchQueue_filledFrom _ _ _ _ _ _ Hq) as Hf.
    destruct (filledFrom_lookup _ _ _ _ Hf Ho) as (o1' & Ho1' & Hfills).
    rewrite Ho1 in Ho1'. injection Ho1' as <-.
    apply fills_static in Hfills as (Hid & _ & Hside & _).
    exists o', (new1 ++ new2). split_and!.
    + done.
    + rewrite Htr2, Htr1. by rewrite <- app_assoc.
    + rewrite tradedQuantity_app. lia.
    + rewrite resting_cons, !totalRemaining_app, tradedQuantity_app. simpl.
      rewrite (totalRemaining_ext (OrderBook.sw_heap s1) (OrderBook.sw_heap s')
                 (PriceLevel.queue level)).
      2:{ intros r Hr. eapply matchLevels_frame; [exact Hrec| |by apply Hdisj].
          by intros ->. }
      rewrite (totalRemaining_ext (OrderBook.sw_heap s) (OrderBook.sw_heap s1)
                 (resting levels)) in Hpas2.
      2:{ intros r Hr. eapply matchQueue_frame; [exact Hq|by intros ->|].
          intros Hin. by eapply Hdisj. }
      unfold PriceLevel.queue in *. lia.
    + apply Forall_app. split; [done|]. by rewrite Hid, Hside in Hall2.
  - intros price level levels s o orders s1 Ho Hpos Hnear Hq Hne o0 Hp Hnd Ho0.
    rewrite Ho in Ho0. injection Ho0 as <-.
    rewrite resting_cons in Hp, Hnd. simpl in Hp, Hnd.
    apply not_elem_of_app in Hp as [Hp1 Hp2].
    apply NoDup_app in Hnd as (Hnd1 & Hdisj & Hnd2).
    destruct (matchQueue_account _ _ _ _ _ _ _ Hq Hp1 Hnd1 Ho)
      as (o1 & new1 & Ho1 & Htr1 & Hacc1 & Hpas1 & Hall1).
    exists o1, new1. split_and!; try done.
    rewrite resting_cons, !totalRemaining_app. simpl.
    rewrite (totalRemaining_ext (OrderBook.sw_heap s) (OrderBook.sw_heap s1)
               (resting levels)).
    2:{ intros r Hr. eapply matchQueue_frame; [exact Hq|by intros ->|].
        intros Hin. by eapply Hdisj. }
    unfold PriceLevel.queue in *. lia.
Qed.

Lemma totalRemaining_remainingOf (h h' : Heap) l :
  (∀ q, remainingOf h' q = remainingOf h q) →
  totalRemaining h' l = totalRemaining h l.
Proof. intros Hq. induction l as [|q l IH]; simpl; [done|]. by rewrite IH, Hq. Qed.

(** The accounting of [matchOrder], for an incoming order that does not
    rest on the side it sweeps. *)
Lemma matchOrder_account p h b trades h' b' o :
  OrderBook.matchOrder p h b = Some (trades, h', b') →
  h !! p = Some o →
  p ∉ resting (opposite (Order.side_ o) b) →
  NoDup (resting (opposite (Order.side_ o) b)) →
  ∃ o',
    h' !! p = Some o'
    ∧ sameStatic o o'
    ∧ (tradedQuantity trades + Order.remainingQuantity_ o')%N
      = Order.remainingQuantity_ o
    ∧ (totalRemaining h' (resting (opposite (Order.side_ o) b))
       + tradedQuantity trades)%N
      = totalRemaining h (resting (opposite (Order.side_ o) b))
    ∧ Forall (λ t, Trade.symbol_ t = OrderBook.symbol_ b
                   ∧ takerId (Order.side_ o) t = Order.orderId_ o) trades.
Proof.
  intros Hrun Ho Hp Hnd.
  apply matchOrder_inv in Hrun as (o0 & Ho0 & Hcase).
  rewrite Ho in Ho0. injection Ho0 as <-.
  assert (p < length h) as Hlt by (by eapply lookup_lt_Some).
  destruct Hcase as [(_ & _ & -> & -> & _)|(fe & hs & bs & os & Hx & Hps & Hcase)].
  { exists (Order.setStatus CANCELLED o).
    split; [by apply list_lookup_insert_eq|].
    split; [apply setStatus_static|].
    split; [simpl; lia|]. split; [|constructor].
    simpl. rewrite N.add_0_r. apply totalRemaining_ext.
    intros q Hq. rewrite list_lookup_insert_ne; [done|]. by intros ->. }
  apply executeMatches_inv in Hx as (o0 & levels' & s' & Ho0 & Hl & -> & -> & _).
  rewrite Ho in Ho0. injection Ho0 as <-.
  destruct (matchLevels_account _ _ _ _ _ _ _ _ Hl Hp Hnd Ho)
    as (o' & new & Ho' & Htr & Hacc & Hpas & Hall).
  simpl in Htr, Hpas. rewrite Hps in Ho'. injection Ho' as <-.
  rewrite Htr.
  pose proof (matchLevels_filledFrom _ _ _ _ _ _ _ Hl) as Hf. simpl in Hf.
  destruct (filledFrom_lookup _ _ _ _ Hf Ho) as (os' & Hps' & Hfills).
  rewrite Hps in Hps'. injection Hps' as <-.
  apply fills_static in Hfills as Hst.
  assert (∃ o', cancelledIfUnfilled p os (OrderBook.sw_heap s') !! p = Some o'
                ∧ sameStatic o o'
                ∧ Order.remainingQuantity_ o' = Order.remainingQuantity_ os)
    as (oc & Hoc & Hstc & Hremc).
  { rewrite (cancelledIfUnfilled_lookup _ _ _ Hps).
    destruct (0 <? _)%N; eexists; (split; [done|]); (split; [|done]);
      [|done].
    etrans; [exact Hst|apply setStatus_static]. }
  destruct Hcase as [(_ & -> & _)|[(_ & _ & -> & _)|(_ & -> & _)]].
  - exists oc. split; [done|]. split; [done|]. split; [lia|]. split; [|done].
    rewrite (totalRemaining_remainingOf (OrderBook.sw_heap s')); [done|].
    intros q. by apply cancelledIfUnfilled_remaining.
  - exists os. split; [done|]. split; [done|]. by split.
  - exists os. split; [done|]. split; [done|]. by split.
Qed.


(** * The prices of the trades of a sweep *)

Lemma sideOk_pricedAt h symbol side idx m : sideOk h symbol side idx m → pricedAt h m.
Proof.
  intros [_ Hl]. unfold pricedAt. eapply Forall_impl; [exact Hl|].
  intros [price l] (_ & _ & Hnodes). simpl in *. unfold PriceLevel.queue.
  rewrite Forall_fmap. eapply Forall_impl; [exact Hnodes|].
  intros [n q] (m0 & Hm & _ & Hprice & _). simpl in *. by exists m0.
Qed.

Lemma pricedAt_filledFrom h h' m : filledFrom h h' → pricedAt h m → pricedAt h' m.
Proof.
  intros Hf Hm. unfold pricedAt in *. eapply Forall_impl; [exact Hm|].
  intros kl Hq. eapply Forall_impl; [exact Hq|].
  intros q (o & Ho & Hprice). simpl in *.
  destruct (filledFrom_lookup _ _ _ _ Hf Ho) as (o' & Ho' & Hfills).
  apply fills_static in Hfills as (_ & _ & _ & _ & Hp & _).
  exists o'. split; [done|congruence].
Qed.

Lemma tooFarOf_static side o o' price :
  sameStatic o o' → tooFarOf side o' price = tooFarOf side o price.
Proof.
  intros (_ & _ & Hside & _ & Hprice & _).
  destruct side; unfold tooFarOf, OrderBook.askTooHigh, OrderBook.bidTooLow;
    by rewrite Hside, Hprice.
Qed.

(** Within its limit: the price test of the overload of the order's side
    lets the price pass. *)
Lemma tooFarOf_withinLimit o price :
  tooFarOf (Order.side_ o) o price = false →
  withinLimit (Order.side_ o) (Order.price_ o) price.
Proof.
  unfold tooFarOf, withinLimit, OrderBook.askTooHigh, OrderBook.bidTooLow.
  destruct (Order.side_ o) eqn:Hs; intros H;
    rewrite bool_decide_eq_true_2 in H by done; simpl in H;
    apply Z.ltb_ge in H; lia.
Qed.

(** The trades of a LIMIT order are made at levels that pass its price
    test. *)
Lemma matchLevels_within side sym p levels s levels' s' o :
  OrderBook.matchLevels (tooFarOf side) sym p levels s = Some (levels', s') →
  OrderBook.sw_heap s !! p = Some o →
  Order.type_ o = LIMIT →
  pricedAt (OrderBook.sw_heap s) levels →
  ∃ new,
    OrderBook.sw_trades s' = OrderBook.sw_trades s ++ new
    ∧ Forall (λ t, tooFarOf side o (Trade.price_ t) = false) new.
Proof.
  intros H. revert o. levels_induction H.
  - intros s o _ _ _. exists []. by rewrite app_nil_r.
  - intros price level levels s o _ _ o0 _ _ _. exists []. by rewrite app_nil_r.
  - intros price level levels s o _ _ _ _ o0 _ _ _. exists [].
    by rewrite app_nil_r.
  - intros price level levels s o s1 levels' s' Ho Hpos Hnear Hq Hrec IH o0 Ho0 Hty Hpr.
    rewrite Ho in Ho0. injection Ho0 as <-.
    apply Forall_cons in Hpr as [Hlevel Hpr]. simpl in Hlevel.
    pose proof (matchQueue_filledFrom _ _ _ _ _ _ Hq) as Hf.
    destruct (filledFrom_lookup _ _ _ _ Hf Ho) as (o1 & Ho1 & Hfills).
    apply fills_static in Hfills as Hst.
    destruct (IH o1 Ho1) as (new2 & Htr2 & Hall2).
    { destruct Hst as (_ & _ & _ & -> & _). done. }
    { by eapply pricedAt_filledFrom. }
    destruct (matchQueue_shape _ _ _ _ _ _ _ Hq Ho)
      as (erased & partial & new1 & Horders & [k Hk] & _ & Htr1 & Hwith & _).
    symmetry in Hk. apply app_eq_nil in Hk as [-> _].
    exists (new1 ++ new2). split.
    { rewrite Htr2, Htr1. by rewrite <- app_assoc. }
    apply Forall_app. split.
    + rewrite Forall_forall. intros t Ht.
      apply list_elem_of_lookup_1 in Ht as [i Hi].
      destruct (Forall2_lookup_l _ _ _ _ _ Hwith Hi) as (q & Hqi & m & Hm & Hprice & _).
      assert (q ∈ PriceLevel.queue level) as Hin.
      { unfold PriceLevel.queue. rewrite Horders.
        by apply list_elem_of_lookup_2 in Hqi. }
      rewrite Forall_forall in Hlevel.
      destruct (Hlevel _ Hin) as (m' & Hm' & Hp'). rewrite Hm in Hm'.
      injection Hm' as <-. rewrite Hprice, Hp'. by apply Hnear.
    + eapply Forall_impl; [exact Hall2|]. intros t Ht. simpl in Ht.
      by rewrite (tooFarOf_static _ _ _ _ Hst) in Ht.
  - intros price level levels s o orders s1 Ho Hpos Hnear Hq Hne o0 Ho0 Hty Hpr.
    rewrite Ho in Ho0. injection Ho0 as <-.
    apply Forall_cons in Hpr as [Hlevel Hpr]. simpl in Hlevel.
    destruct (matchQueue_shape _ _ _ _ _ _ _ Hq Ho)
      as (erased & partial & new1 & Horders & Hpre & _ & Htr1 & Hwith & _).
    exists new1. split; [done|].
    rewrite Forall_forall. intros t Ht.
    apply list_elem_of_lookup_1 in Ht as [i Hi].
    destruct (Forall2_lookup_l _ _ _ _ _ Hwith Hi) as (q & Hqi & m & Hm & Hprice & _).
    assert (q ∈ PriceLevel.queue level) as Hin.
    { unfold PriceLevel.queue. rewrite Horders.
      apply list_elem_of_lookup_2 in Hqi. destruct Hpre as [k ->].
      rewrite !fmap_app, !elem_of_app in *. tauto. }
    rewrite Forall_forall in Hlevel.
    destruct (Hlevel _ Hin) as (m' & Hm' & Hp'). rewrite Hm in Hm'.
    injection Hm' as <-. rewrite Hprice, Hp'. by apply Hnear.
Qed.

Section order.
Variables R R' : relation Z.
Hypothesis R_R' : ∀ a b, R a b → R' a b.
Hypothesis R'_refl : ∀ a, R' a a.

Lemma constant_sorted (k : Z) (l : list Z) :
  Forall (λ x, x = k) l → StronglySorted R' l.
Proof using R'_refl.
  induction 1 as [|x l -> Hl IH]; constructor; [done|].
  eapply Forall_impl; [exact Hl|]. by intros ? ->.
Qed.

(** Along the pointers resting on a side, the prices follow the order of
    the keys. *)
Lemma resting_prices_sorted h m :
  StronglySorted R (keys m) → pricedAt h m →
  StronglySorted R' (priceOf h <$> resting m).
Proof using R_R' R'_refl.
  induction m as [|[k l] m IH]; intros Hs Hp; [constructor|].
  unfold keys in Hs. rewrite fmap_cons in Hs. simpl in Hs.
  apply StronglySorted_cons in Hs as [Hk Hs].
  apply Forall_cons in Hp as [Hl Hp]. simpl in Hl.
  rewrite resting_cons, fmap_app.
  assert (Forall (λ x, x = k) (priceOf h <$> PriceLevel.queue l)) as Hconst.
  { rewrite Forall_fmap. eapply Forall_impl; [exact Hl|].
    intros q (o & Ho & Hprice). simpl. unfold priceOf. by rewrite Ho. }
  apply StronglySorted_app_2; [|by eapply constant_sorted|by apply IH].
  intros x1 x2 Hx1 Hx2. rewrite Forall_forall in Hconst.
  rewrite (Hconst _ Hx1). apply R_R'.
  apply list_elem_of_fmap in Hx2 as (q & -> & Hq).
  unfold resting in Hq. apply list_elem_of_bind in Hq as ([k2 l2] & Hq & Hin).
  rewrite Forall_forall in Hp. specialize (Hp _ Hin). simpl in Hp, Hq.
  rewrite Forall_forall in Hp. destruct (Hp _ Hq) as (o & Ho & Hprice).
  unfold priceOf. rewrite Ho. simpl. rewrite Hprice.
  rewrite Forall_forall in Hk. apply Hk.
  apply list_elem_of_fmap. by exists (k2, l2).
Qed.

End order.

Lemma tradeWith_prices h side trades l :
  Forall2 (tradeWith h side) trades l → Trade.price_ <$> trades = priceOf h <$> l.
Proof.
  induction 1 as [|t q trades l (m & Hm & Hprice & _) _ IH]; [done|].
  rewrite !fmap_cons, IH. f_equal. unfold priceOf. by rewrite Hm.
Qed.

(** The order of the keys of the side a taker sweeps. *)
Lemma sideOrder_noWorse side a b : sideOrder (otherSide side) a b → noWorse side a b.
Proof. destruct side; simpl; lia. Qed.

Lemma noWorse_refl side a : noWorse side a a.
Proof. destruct side; simpl; lia. Qed.

(** The trades of [matchOrder] come best price first. *)
Lemma matchOrder_bestFirst p h b trades h' b' o :
  OrderBook.matchOrder p h b = Some (trades, h', b') →
  h !! p = Some o →
  StronglySorted (sideOrder (otherSide (Order.side_ o)))
    (keys (opposite (Order.side_ o) b)) →
  pricedAt h (opposite (Order.side_ o) b) →
  StronglySorted (noWorse (Order.side_ o)) (Trade.price_ <$> trades).
Proof.
  intros Hrun Ho Hs Hp.
  destruct (matchOrder_touched _ _ _ _ _ _ _ Hrun Ho)
    as (filled & partial & [k Hk] & _ & Htr & _).
  rewrite (tradeWith_prices _ _ _ _ Htr).
  pose proof (resting_prices_sorted _ _ (sideOrder_noWorse (Order.side_ o))
                (noWorse_refl (Order.side_ o)) h _ Hs Hp) as Hsorted.
  rewrite Hk, fmap_app in Hsorted. by eapply StronglySorted_app_1_l.
Qed.

(** The trades of a LIMIT order are within its limit. *)
Lemma matchOrder_within p h b trades h' b' o :
  OrderBook.matchOrder p h b = Some (trades, h', b') →
  h !! p = Some o →
  Order.type_ o = LIMIT →
  pricedAt h (opposite (Order.side_ o) b) →
  Forall (λ t, withinLimit (Order.side_ o) (Order.price_ o) (Trade.price_ t)) trades.
Proof.
  intros Hrun Ho Hty Hp.
  apply matchOrder_inv in Hrun as (o0 & Ho0 & Hcase).
  rewrite Ho in Ho0. injection Ho0 as <-.
  destruct Hcase as [(Hf & _)|(fe & hs & bs & os & Hx & _)]; [congruence|].
  apply executeMatches_inv in Hx as (o0 & levels' & s' & Ho0 & Hl & -> & _).
  rewrite Ho in Ho0. injection Ho0 as <-.
  destruct (matchLevels_within _ _ _ _ _ _ _ _ Hl Ho Hty Hp) as (new & Htr & Hall).
  simpl in Htr. rewrite Htr. eapply Forall_impl; [exact Hall|].
  intros t Ht. by apply tooFarOf_withinLimit.
Qed.


(** * The operations of the engine on the states it reaches *)

Lemma matchOrder_symbol p h b trades h' b' :
  OrderBook.matchOrder p h b = Some (trades, h', b') →
  OrderBook.symbol_ b' = OrderBook.symbol_ b.
Proof.
  intros H. apply matchOrder_inv in H as (o & Ho & Hcase).
  destruct Hcase as [(_ & _ & _ & _ & ->)|(fe & hs & bs & os & Hx & Hps & Hcase)];
    [done|].
  destruct (executeMatches_shape _ _ _ _ _ _ _ _ Hx Ho)
    as (erased & partial & _ & _ & _ & _ & _ & _ & _ & Hsym & _).
  destruct Hcase as [(_ & _ & ->)|[(_ & _ & _ & ->)|(_ & _ & Hrest)]]; try done.
  destruct Hrest as [(_ & _ & Hr)|[_ ->]]; [|done].
  apply rested_sides in Hr as (_ & _ & _ & Hs). congruence.
Qed.

Lemma cancelOrder_symbol orderId h b r h' b' :
  OrderBook.cancelOrder orderId h b = Some (r, h', b') →
  OrderBook.symbol_ b' = OrderBook.symbol_ b.
Proof.
  intros H. apply cancelOrder_inv in H
    as [(_ & _ & _ & ->)|(p & o & levels' & _ & _ & _ & _ & _ & ->)]; [done|].
  by destruct (Order.side_ o).
Qed.

Lemma modifyOrder_symbol orderId newPrice newQuantity h b r h' b' :
  OrderBook.modifyOrder orderId newPrice newQuantity h b = Some (r, h', b') →
  OrderBook.symbol_ b' = OrderBook.symbol_ b.
Proof.
  intros H. apply modifyOrder_inv in H
    as [(_ & _ & _ & ->)|(p & o & m1 & m2 & _ & _ & _ & _ & _ & _ & ->)]; [done|].
  by destruct (Order.side_ o).
Qed.

(** Every book of a state the engine reaches is registered under its own
    symbol. *)
Lemma reachable_bookSymbols h e : reachable h e → bookSymbols e.
Proof.
  induction 1 as [|h e symbol side type price quantity clientId stopPrice
                   orderId trades h' e' _ IH _ Hrun
                  |h e orderId r h' e' _ IH Hrun
                  |h e orderId newPrice newQuantity r h' e' _ IH Hrun].
  - intros symbol b Hb. done.
  - unfold MatchingEngineCore.submitOrder in Hrun.
    destruct (OrderBook.matchOrder _ _ _) as [[[trades0 h0] b']|] eqn:Hm; [|done].
    cbn in Hrun. injection Hrun as <- <- <- <-.
    intros symbol2 b2 Hb2. simpl in Hb2.
    destruct (decide (symbol2 = symbol)) as [->|Hne].
    + rewrite lookup_insert_eq in Hb2. injection Hb2 as <-.
      rewrite (matchOrder_symbol _ _ _ _ _ _ Hm).
      unfold MatchingEngineCore.getOrCreateOrderBook.
      destruct (MatchingEngineCore.orderBooks_ e !! symbol) as [b0|] eqn:Hb0; simpl;
        [by apply IH|done].
    + rewrite lookup_insert_ne in Hb2 by done. by apply IH.
  - unfold MatchingEngineCore.cancelOrder in Hrun.
    destruct (MatchingEngineCore.orderToSymbol_ e !! orderId) as [symbol|];
      [|by simplify_eq].
    destruct (MatchingEngineCore.orderBooks_ e !! symbol) as [book|] eqn:Hbook;
      [|by simplify_eq].
    destruct (OrderBook.cancelOrder orderId h book) as [[[r0 h0] book']|] eqn:Hc;
      [|done].
    cbn in Hrun. injection Hrun as <- <- <-.
    intros symbol2 b2 Hb2. simpl in Hb2.
    destruct (decide (symbol2 = symbol)) as [->|Hne].
    + rewrite lookup_insert_eq in Hb2. injection Hb2 as <-.
      rewrite (cancelOrder_symbol _ _ _ _ _ _ Hc). by apply IH.
    + rewrite lookup_insert_ne in Hb2 by done. by apply IH.
  - unfold MatchingEngineCore.modifyOrder in Hrun.
    destruct (MatchingEngineCore.orderToSymbol_ e !! orderId) as [symbol|];
      [|by simplify_eq].
    destruct (MatchingEngineCore.orderBooks_ e !! symbol) as [book|] eqn:Hbook;
      [|by simplify_eq].
    destruct (OrderBook.modifyOrder orderId newPrice newQuantity h book)
      as [[[r0 h0] book']|] eqn:Hc; [|done].
    cbn in Hrun. injection Hrun as <- <- <-.
    intros symbol2 b2 Hb2. simpl in Hb2.
    destruct (decide (symbol2 = symbol)) as [->|Hne].
    + rewrite lookup_insert_eq in Hb2. injection Hb2 as <-.
      rewrite (modifyOrder_symbol _ _ _ _ _ _ _ _ Hc). by apply IH.
    + rewrite lookup_insert_ne in Hb2 by done. by apply IH.
Qed.

(** [submitOrder] in a state that satisfies the invariant: the call of
    [matchOrder] it makes, and the book it makes it on. *)
Lemma submitOrder_inv symbol side type price quantity clientId stopPrice
    h e orderId trades h' e' :
  engineOk h e →
  MatchingEngineCore.submitOrder symbol side type price quantity clientId
    stopPrice h e = Some (orderId, trades, h', e') →
  ∃ o0 b b',
    o0 = Order.setClientId clientId
           (Order.new (MatchingEngineCore.nextOrderId_ e) symbol side type price
              quantity stopPrice)
    ∧ b = MatchingEngineCore.getOrCreateOrderBook symbol e
    ∧ orderId = (N.of_nat (length h) + 1)%N
    ∧ OrderBook.matchOrder (length h) (h ++ [o0]) b = Some (trades, h', b')
    ∧ (h ++ [o0]) !! length h = Some o0
    ∧ MatchingEngineCore.orderBooks_ e'
      = <[symbol := b']> (MatchingEngineCore.orderBooks_ e)
    ∧ bookOk (h ++ [o0]) symbol b
    ∧ idsDistinct (h ++ [o0])
    ∧ filledOnlyWhenDone (h ++ [o0])
    ∧ (∀ q, q ∈ allResting b →
            ∃ o, h !! q = Some o ∧ (h ++ [o0]) !! q = Some o
                 ∧ Order.symbol_ o = symbol)
    ∧ (∀ q o, h !! q = Some o → (h ++ [o0]) !! q = Some o).
Proof.
  intros He Hrun. pose proof (engineOk_ids _ _ He) as Hids.
  pose proof He as (Hn & Hid & Hots & Hfilled & Hdone & Hbooks).
  unfold MatchingEngineCore.submitOrder in Hrun.
  set (o0 := Order.setClientId clientId
               (Order.new (MatchingEngineCore.nextOrderId_ e) symbol side type
                  price quantity stopPrice)) in *.
  set (b := MatchingEngineCore.getOrCreateOrderBook symbol e) in *.
  destruct (OrderBook.matchOrder (length h) (h ++ [o0]) b)
    as [[[trades0 h0] b']|] eqn:Hm; [|done].
  cbn in Hrun. injection Hrun as <- <- <- <-.
  exists o0, b, b'.
  assert ((h ++ [o0]) !! length h = Some o0) as Hp.
  { by rewrite lookup_app_r, Nat.sub_diag. }
  assert (∀ q o, h !! q = Some o → (h ++ [o0]) !! q = Some o) as Hh1.
  { intros q o Hq. by apply lookup_app_l_Some. }
  assert (bookOk h symbol b) as Hb.
  { unfold b, MatchingEngineCore.getOrCreateOrderBook.
    destruct (MatchingEngineCore.orderBooks_ e !! symbol) as [b0|] eqn:Hb0; simpl;
      [by eapply Hbooks|apply bookOk_new]. }
  assert (∀ q, q ∈ allResting b →
               ∃ o, h !! q = Some o ∧ (h ++ [o0]) !! q = Some o
                    ∧ Order.symbol_ o = symbol) as Hrest.
  { intros q Hq. destruct (bookOk_resting _ _ _ _ Hb Hq) as (o & Ho & _ & Hs & _).
    exists o. split_and!; [done|by apply Hh1|done]. }
  split_and!; try done.
  - eapply bookOk_frame; [exact Hb|]. intros q Hq.
    destruct (Hrest _ Hq) as (o & Ho & Ho1 & _). congruence.
  - intros q1 q2 o1 o2 H1 H2 Heq.
    assert (∀ q o, (h ++ [o0]) !! q = Some o →
                   Order.orderId_ o = (N.of_nat q + 1)%N) as Hid1.
    { intros q o Hq. destruct (decide (q < length h)) as [Hlt|Hge].
      - rewrite lookup_app_l in Hq by done. by eapply Hid.
      - apply lookup_lt_Some in Hq as Hlen. rewrite length_app in Hlen.
        simpl in Hlen. assert (q = length h) as -> by lia.
        rewrite Hp in Hq. injection Hq as <-. simpl. by rewrite Hn. }
    rewrite (Hid1 _ _ H1), (Hid1 _ _ H2) in Heq. lia.
  - intros q o Hq. destruct (decide (q < length h)) as [Hlt|Hge].
    + rewrite lookup_app_l in Hq by done. by eapply Hfilled.
    + apply lookup_lt_Some in Hq as Hlen. rewrite length_app in Hlen.
      simpl in Hlen. assert (q = length h) as -> by lia.
      rewrite Hp in Hq. by injection Hq as <-.
Qed.

(** From the orders on one side to the whole store. *)
Lemma totalRemaining_store (h h' : Heap) n L T :
  NoDup L → (∀ q, q ∈ L → q < n) →
  (∀ q, q < n → q ∉ L → h' !! q = h !! q) →
  (totalRemaining h' L + T)%N = totalRemaining h L →
  (totalRemaining h' (seq 0 n) + T)%N = totalRemaining h (seq 0 n).
Proof.
  intros Hnd Hlt Hframe Hacc.
  assert (L ⊆+ seq 0 n) as Hsub.
  { apply NoDup_submseteq; [done|]. intros q Hq. apply elem_of_seq.
    specialize (Hlt _ Hq). lia. }
  apply submseteq_Permutation in Hsub as [K HK].
  rewrite !(totalRemaining_perm _ _ _ HK), !totalRemaining_app.
  rewrite (totalRemaining_ext h h' K); [lia|].
  intros q Hq. apply Hframe.
  - assert (q ∈ seq 0 n) as Hin by (rewrite HK, elem_of_app; by right).
    apply elem_of_seq in Hin. lia.
  - pose proof (NoDup_seq 0 n) as Hnds. rewrite HK in Hnds.
    apply NoDup_app in Hnds as (_ & Hdisj & _). intros Hin. by eapply Hdisj.
Qed.

(** The trades [submitOrder] hands out, in a state that satisfies the
    invariant. *)
Lemma submitOrder_trades symbol side type price quantity clientId stopPrice
    h e orderId trades h' e' :
  engineOk h e → bookSymbols e →
  MatchingEngineCore.submitOrder symbol side type price quantity clientId
    stopPrice h e = Some (orderId, trades, h', e') →
  (∃ o', h' !! length h = Some o'
         ∧ sameStatic (Order.new orderId symbol side type price quantity stopPrice) o'
         ∧ (tradedQuantity trades + Order.remainingQuantity_ o')%N = quantity)
  ∧ (totalRemaining h' (seq 0 (length h)) + tradedQuantity trades)%N
    = totalRemaining h (seq 0 (length h))
  ∧ Forall (λ t, Trade.symbol_ t = symbol ∧ takerId side t = orderId) trades
  ∧ Forall (λ t, ∃ q m, h !! q = Some m
                        ∧ q ∈ resting (opposite side
                                (MatchingEngineCore.getOrCreateOrderBook symbol e))
                        ∧ passiveId side t = Order.orderId_ m
                        ∧ Order.side_ m = otherSide side
                        ∧ Order.symbol_ m = symbol
                        ∧ Order.price_ m = Trade.price_ t
                        ∧ Order.status_ m ≠ FILLED) trades
  ∧ StronglySorted (noWorse side) (Trade.price_ <$> trades)
  ∧ (type = LIMIT → Forall (λ t, withinLimit side price (Trade.price_ t)) trades).
Proof.
  intros He Hsyms Hrun.
  destruct (submitOrder_inv _ _ _ _ _ _ _ _ _ _ _ _ _ He Hrun)
    as (o0 & b & b' & Ho0 & Hb & Hid & Hm & Hp & Hbooks & Hok & Hids & Hfilled
        & Hrest & Hh1).
  pose proof He as (Hn & _).
  assert (OrderBook.symbol_ b = symbol) as Hsym.
  { rewrite Hb. unfold MatchingEngineCore.getOrCreateOrderBook.
    destruct (MatchingEngineCore.orderBooks_ e !! symbol) as [b0|] eqn:Hb0; simpl;
      [by apply Hsyms|done]. }
  assert (Order.side_ o0 = side) as Hside by (by rewrite Ho0).
  pose proof Hok as Hsides.
  apply (bookOk_sides side) in Hsides as (Hown & Hopp & Hnd & Hidx).
  apply NoDup_app in Hnd as (_ & _ & Hnd).
  assert (∀ q, q ∈ resting (opposite side b) → q ∈ allResting b) as Hall.
  { intros q Hq. apply (elem_of_allResting side). by right. }
  assert (∀ q, q ∈ resting (opposite side b) → q < length h) as Hlt.
  { intros q Hq. destruct (Hrest _ (Hall _ Hq)) as (o & Ho & _).
    by eapply lookup_lt_Some. }
  assert (length h ∉ resting (opposite side b)) as Hpn.
  { intros Hq. specialize (Hlt _ Hq). lia. }
  rewrite <- Hside in Hpn, Hnd.
  destruct (matchOrder_account _ _ _ _ _ _ _ Hm Hp Hpn Hnd)
    as (o' & Ho' & Hst & Hacc & Hpas & Htr).
  destruct (matchOrder_touched _ _ _ _ _ _ _ Hm Hp)
    as (filled & partial & [k Hk] & _ & Hwith & _ & Hframe).
  pose proof (matchOrder_bestFirst _ _ _ _ _ _ _ Hm Hp) as Hbf.
  pose proof (matchOrder_within _ _ _ _ _ _ _ Hm Hp) as Hwl.
  assert (Order.price_ o0 = price) as Hpr by (by rewrite Ho0).
  assert (Order.type_ o0 = type) as Hty by (by rewrite Ho0).
  rewrite Hside in *. rewrite Hpr, Hty in Hwl.
  split; [|split; [|split; [|split; [|split]]]].
  - exists o'. split; [done|]. split.
    + etrans; [|exact Hst]. rewrite Ho0, Hid, Hn. by repeat split.
    + rewrite Hacc, Ho0. done.
  - eapply totalRemaining_store; [exact Hnd|exact Hlt| |].
    + intros q Hq Hnin. rewrite Hframe.
      * destruct (lookup_lt_is_Some_2 h q Hq) as [o Ho]. rewrite Ho.
        by apply Hh1.
      * lia.
      * intros Hin. apply Hnin. rewrite Hk, elem_of_app. by left.
    + rewrite Hpas. apply totalRemaining_ext. intros q Hq.
      destruct (Hrest _ (Hall _ Hq)) as (o & Ho & Ho1 & _). congruence.
  - eapply Forall_impl; [exact Htr|]. intros t [Ht1 Ht2].
    rewrite Ht1, Ht2, Hsym, Ho0, Hid, Hn. done.
  - rewrite Forall_forall. intros t Ht.
    apply list_elem_of_lookup_1 in Ht as [i Hi].
    destruct (Forall2_lookup_l _ _ _ _ _ Hwith Hi) as (q & Hqi & m & Hqm & Hprice & Hpid).
    assert (q ∈ resting (opposite side b)) as Hq.
    { rewrite Hk, elem_of_app. left. by eapply list_elem_of_lookup_2. }
    destruct (sideOk_resting _ _ _ _ _ _ Hopp Hq)
      as (price0 & l & n & o & _ & _ & _ & Ho & Hso & _ & Hsymo & Hnf & _).
    rewrite Hqm in Ho. injection Ho as <-.
    destruct (Hrest _ (Hall _ Hq)) as (o & Ho & Ho1 & _).
    rewrite Hqm in Ho1. injection Ho1 as <-.
    exists q, m. rewrite <- Hb. by split_and!.
  - apply Hbf; [by destruct Hopp|by eapply sideOk_pricedAt].
  - intros Hl. apply Hwl; [done|by eapply sideOk_pricedAt].
Qed.

(** [cancelOrder] in a state that satisfies the invariant: nothing
    happens, or the order indexed under the id is cancelled and leaves its
    book. *)
Lemma cancelOrder_engine_inv orderId h e r h' e' :
  engineOk h e →
  MatchingEngineCore.cancelOrder orderId h e = Some (r, h', e') →
  (MatchingEngineCore.getOrder orderId e = None ∧ r = false ∧ h' = h ∧ e' = e)
  ∨ ∃ symbol book book' p o,
      MatchingEngineCore.orderToSymbol_ e !! orderId = Some symbol
      ∧ MatchingEngineCore.orderBooks_ e !! symbol = Some book
      ∧ OrderBook.orderMap_ book !! orderId = Some p
      ∧ OrderBook.cancelOrder orderId h book = Some (true, h', book')
      ∧ h !! p = Some o
      ∧ Order.orderId_ o = orderId
      ∧ Order.symbol_ o = symbol
      ∧ Order.status_ o ≠ FILLED
      ∧ r = true
      ∧ h' = <[p := Order.setStatus CANCELLED o]> h
      ∧ MatchingEngineCore.orderBooks_ e'
        = <[symbol := book']> (MatchingEngineCore.orderBooks_ e)
      ∧ MatchingEngineCore.orderToSymbol_ e'
        = delete orderId (MatchingEngineCore.orderToSymbol_ e)
      ∧ OrderBook.orderMap_ book' = delete orderId (OrderBook.orderMap_ book)
      ∧ bookOk h' symbol book'
      ∧ (p ∉ allResting book')
      ∧ (∀ q, q ∈ allResting book' → q ∈ allResting book).
Proof.
  intros He Hrun. pose proof (engineOk_ids _ _ He) as Hids.
  pose proof He as (Hn & Hid & Hots & Hfilled & Hdone & Hbooks).
  unfold MatchingEngineCore.cancelOrder, MatchingEngineCore.getOrder in *.
  destruct (MatchingEngineCore.orderToSymbol_ e !! orderId) as [symbol|] eqn:Hs;
    [|left; by simplify_eq].
  destruct (MatchingEngineCore.orderBooks_ e !! symbol) as [book|] eqn:Hbook;
    [|left; by simplify_eq].
  destruct (OrderBook.cancelOrder orderId h book) as [[[r0 h0] book']|] eqn:Hc;
    [|done].
  cbn in Hrun. injection Hrun as <- <- <-.
  pose proof Hc as Hinv. apply cancelOrder_inv in Hinv.
  destruct (cancelOrder_bookOk _ _ _ _ _ _ symbol Hc (Hbooks _ _ Hbook) Hids)
    as [(Hnone & -> & -> & ->)
       |(p & o & Ho & Hoid & Hsym & Hst & -> & -> & Hok & Hp & Hsub)].
  { left. split_and!; try done. rewrite engine_eta; [done|]. by rewrite insert_id. }
  right. exists symbol, book, book', p, o.
  destruct Hinv as [(_ & ? & _)|(p' & o' & levels' & Hp' & Ho' & _ & _ & _ & ->)];
    [done|].
  assert (p' = p) as ->.
  { destruct (bookOk_indexed _ _ _ _ _ (Hbooks _ _ Hbook) Hp')
      as (o2 & Ho2 & Hid2 & _). eapply Hids; [exact Ho2|exact Ho|congruence]. }
  split_and!; done.
Qed.

(** [modifyOrder] in a state that satisfies the invariant: nothing
    happens, or the order indexed under the id is changed and rests again
    in its book. *)
Lemma modifyOrder_engine_inv orderId newPrice newQuantity h e r h' e' :
  engineOk h e →
  MatchingEngineCore.modifyOrder orderId newPrice newQuantity h e
    = Some (r, h', e') →
  (MatchingEngineCore.getOrder orderId e = None ∧ r = false ∧ h' = h ∧ e' = e)
  ∨ ∃ symbol book book' p o,
      MatchingEngineCore.orderToSymbol_ e !! orderId = Some symbol
      ∧ MatchingEngineCore.orderBooks_ e !! symbol = Some book
      ∧ OrderBook.orderMap_ book !! orderId = Some p
      ∧ OrderBook.modifyOrder orderId newPrice newQuantity h book
        = Some (true, h', book')
      ∧ h !! p = Some o
      ∧ Order.orderId_ o = orderId
      ∧ Order.symbol_ o = symbol
      ∧ Order.status_ o ≠ FILLED
      ∧ r = true
      ∧ h' = <[p := modified newPrice newQuantity o]> h
      ∧ MatchingEngineCore.orderBooks_ e'
        = <[symbol := book']> (MatchingEngineCore.orderBooks_ e)
      ∧ MatchingEngineCore.orderToSymbol_ e' = MatchingEngineCore.orderToSymbol_ e
      ∧ OrderBook.orderMap_ book' = OrderBook.orderMap_ book
      ∧ bookOk h' symbol book'
      ∧ p ∈ allResting book
      ∧ (∀ q, q ∈ allResting book' ↔ q ∈ allResting book).
Proof.
  intros He Hrun. pose proof (engineOk_ids _ _ He) as Hids.
  pose proof He as (Hn & Hid & Hots & Hfilled & Hdone & Hbooks).
  unfold MatchingEngineCore.modifyOrder, MatchingEngineCore.getOrder in *.
  destruct (MatchingEngineCore.orderToSymbol_ e !! orderId) as [symbol|] eqn:Hs;
    [|left; by simplify_eq].
  destruct (MatchingEngineCore.orderBooks_ e !! symbol) as [book|] eqn:Hbook;
    [|left; by simplify_eq].
  destruct (OrderBook.modifyOrder orderId newPrice newQuantity h book)
    as [[[r0 h0] book']|] eqn:Hc; [|done].
  cbn in Hrun. injection Hrun as <- <- <-.
  pose proof Hc as Hinv. apply modifyOrder_inv in Hinv.
  destruct (modifyOrder_bookOk _ _ _ _ _ _ _ _ symbol Hc (Hbooks _ _ Hbook) Hids)
    as [(Hnone & -> & -> & ->)
       |(p & o & Ho & Hoid & Hsym & Hst & Hp & -> & -> & Hok & Hsame)].
  { left. split_and!; try done. rewrite engine_eta; [done|]. by rewrite insert_id. }
  right. exists symbol, book, book', p, o.
  destruct Hinv as [(_ & ? & _)
                   |(p' & o' & m1 & m2 & Hp' & Ho' & _ & _ & _ & _ & ->)];
    [done|].
  assert (p' = p) as ->.
  { destruct (bookOk_indexed _ _ _ _ _ (Hbooks _ _ Hbook) Hp')
      as (o2 & Ho2 & Hid2 & _). eapply Hids; [exact Ho2|exact Ho|congruence]. }
  split_and!; done.
Qed.

(** [submitOrder] changes no order outside of the book of the symbol but
    the new one. *)
Lemma submitOrder_frame symbol side type price quantity clientId stopPrice
    h e orderId trades h' e' q o :
  engineOk h e →
  MatchingEngineCore.submitOrder symbol side type price quantity clientId
    stopPrice h e = Some (orderId, trades, h', e') →
  h !! q = Some o →
  q ∉ allResting (MatchingEngineCore.getOrCreateOrderBook symbol e) →
  h' !! q = Some o.
Proof.
  intros He Hrun Hq Hnin.
  destruct (submitOrder_inv _ _ _ _ _ _ _ _ _ _ _ _ _ He Hrun)
    as (o0 & b & b' & Ho0 & Hb & Hid & Hm & Hp & Hbooks & Hok & Hids & Hfilled
        & Hrest & Hh1).
  assert (length h ∉ allResting b) as Hpn.
  { intros Hin. destruct (Hrest _ Hin) as (o1 & Ho1 & _).
    apply lookup_lt_Some in Ho1. lia. }
  destruct (matchOrder_bookOk _ _ _ _ _ _ _ symbol Hm Hp) as (_ & _ & Hframe);
    try done.
  { by rewrite Ho0. }
  rewrite Hframe.
  - by apply Hh1.
  - apply lookup_lt_Some in Hq. lia.
  - by rewrite Hb.
Qed.


(** * Resting orders are active, and no level is empty *)

Lemma fills_active_unless_filled o o' :
  rtc fillStep o o' → Order.isActive o = true → Order.status_ o' ≠ FILLED →
  Order.isActive o' = true.
Proof.
  intros Hf Ha Hnf. apply rtc_inv_r in Hf as [->|(z & Hz & q & ->)]; [done|].
  apply (fills_active o); [|done|].
  - eapply rtc_r; [exact Hz|]. by exists q.
  - intros Hrem. by apply fill_status_filled in Hrem.
Qed.

Lemma matchOrder_restingActive p h b trades h' b' o symbol :
  OrderBook.matchOrder p h b = Some (trades, h', b') →
  h !! p = Some o →
  Order.symbol_ o = symbol →
  bookOk h symbol b →
  idsDistinct h →
  p ∉ allResting b →
  filledOnlyWhenDone h →
  restingActive h b →
  restingActive h' b'.
Proof.
  intros Hrun Ho Hsym Hb Hids Hp Hfilled Hact.
  pose proof Hrun as Hinv. apply matchOrder_inv in Hinv as (o0 & Ho0 & Hcase).
  rewrite Ho in Ho0. injection Ho0 as <-.
  destruct Hcase as [(_ & _ & _ & -> & ->)|(fe & hs & bs & os & Hx & Hps & Hcase)].
  { intros q Hq. destruct (Hact _ Hq) as (oq & Hoq & Ha). exists oq.
    split; [|done]. rewrite list_lookup_insert_ne; [done|]. by intros ->. }
  destruct (executeMatches_bookOk _ _ _ _ _ _ _ _ _ Hx Ho Hb Hp Hfilled)
    as (Hbs & Hsub & Hframe).
  pose proof (executeMatches_filledFrom _ _ _ _ _ _ _ Hx) as Hf.
  assert (restingActive hs bs) as Hacts.
  { intros q Hq. destruct (Hact _ (Hsub _ Hq)) as (oq & Hoq & Ha).
    destruct (filledFrom_lookup _ _ _ _ Hf Hoq) as (oq' & Hoq' & Hfills).
    exists oq'. split; [done|].
    destruct (bookOk_resting _ _ _ _ Hbs Hq) as (o2 & Ho2 & _ & _ & Hnf & _).
    rewrite Hoq' in Ho2. injection Ho2 as <-.
    by eapply fills_active_unless_filled. }
  assert (p ∉ allResting bs) as Hp' by (intros H; by apply Hp, Hsub).
  destruct Hcase as [(_ & -> & ->)|[(_ & _ & -> & ->)|(_ & -> & Hrest)]]; [|done|].
  - intros q Hq. destruct (Hacts _ Hq) as (oq & Hoq & Ha). exists oq.
    split; [|done]. rewrite cancelledIfUnfilled_lookup_ne; [done|]. by intros ->.
  - destruct Hrest as [(_ & Ha & Hrested)|[_ ->]]; [|done].
    destruct (executeMatches_lookup _ _ _ _ _ _ _ _ Hx Ho) as (os' & Hps' & Hfs).
    rewrite Hps in Hps'. injection Hps' as <-.
    apply fills_static in Hfs as (_ & Hsym' & _).
    destruct (rested_bookOk _ _ _ _ _ symbol Hrested Hbs) as [_ Hperm]; try done.
    + eapply static_idsDistinct; [|exact Hids]. by apply filledFrom_static.
    + congruence.
    + by apply isActive_not_filled.
    + intros q Hq. rewrite Hperm in Hq.
      apply elem_of_cons in Hq as [->|Hq]; [by exists os|by apply Hacts].
Qed.

(** ** No empty level *)

Lemma set_noEmpty comp price l m :
  PriceLevel.isEmpty l = false → noEmptyLevel m →
  noEmptyLevel (Levels.set comp price l m).
Proof.
  intros Hl. unfold noEmptyLevel.
  induction m as [|[k l'] m IH]; intros Hm; simpl.
  - by constructor.
  - apply Forall_cons in Hm as [Hk Hm].
    destruct (Z.eqb_spec price k) as [->|Hne]; [by constructor|].
    destruct (comp price k); constructor; try done.
    + by constructor.
    + by apply IH.
Qed.

Lemma erase_noEmpty price m : noEmptyLevel m → noEmptyLevel (Levels.erase price m).
Proof.
  unfold noEmptyLevel. intros Hm. rewrite Forall_forall in *.
  intros kl Hkl. apply Hm. by eapply erase_subseteq.
Qed.

Lemma addOrderAt_noEmpty comp price p h m m' :
  Levels.addOrderAt comp price p h m = Some m' → noEmptyLevel m → noEmptyLevel m'.
Proof.
  unfold Levels.addOrderAt, PriceLevel.addOrder. intros H Hm.
  destruct (h !! p) as [o|]; [|done]. cbn in H. injection H as <-.
  apply set_noEmpty; [|done]. unfold PriceLevel.isEmpty. simpl.
  by destruct (PriceLevel.orders_ _).
Qed.

Lemma removeOrderAt_noEmpty comp price orderId h m m' :
  Levels.removeOrderAt comp price orderId h m = Some m' →
  noEmptyLevel m → noEmptyLevel m'.
Proof.
  intros H Hm. apply removeOrderAt_inv in H as [[_ ->]|(l & l' & _ & _ & ->)];
    [done|].
  destruct (PriceLevel.isEmpty l') eqn:He; [by apply erase_noEmpty|].
  by apply set_noEmpty.
Qed.

Lemma matchLevels_noEmpty tooFar sym p levels s levels' s' :
  OrderBook.matchLevels tooFar sym p levels s = Some (levels', s') →
  noEmptyLevel levels → noEmptyLevel levels'.
Proof.
  intros H. levels_induction H; try done.
  - intros price level levels s o s1 levels' s' _ _ _ _ _ IH Hm.
    apply Forall_cons in Hm as [_ Hm]. by apply IH.
  - intros price level levels s o orders s1 _ _ _ _ Hne Hm.
    apply Forall_cons in Hm as [_ Hm]. constructor; [|done].
    simpl. unfold PriceLevel.isEmpty. simpl. by destruct orders.
Qed.

Lemma noEmptyBook_sides side b :
  noEmptyBook b ↔ noEmptyLevel (ownSide side b) ∧ noEmptyLevel (opposite side b).
Proof. unfold noEmptyBook. destruct side; simpl; tauto. Qed.

Lemma matchOrder_noEmpty p h b trades h' b' :
  OrderBook.matchOrder p h b = Some (trades, h', b') →
  noEmptyBook b → noEmptyBook b'.
Proof.
  intros Hrun Hne. apply matchOrder_inv in Hrun as (o & Ho & Hcase).
  destruct Hcase as [(_ & _ & _ & _ & ->)|(fe & hs & bs & os & Hx & Hps & Hcase)];
    [done|].
  assert (noEmptyBook bs) as Hbs.
  { apply executeMatches_inv in Hx as (o0 & levels' & s' & Ho0 & Hl & _ & _ & ->).
    rewrite Ho in Ho0. injection Ho0 as <-.
    apply (noEmptyBook_sides (Order.side_ o)) in Hne as [Hown Hopp].
    apply (noEmptyBook_sides (Order.side_ o)).
    rewrite opposite_setOpposite, ownSide_setOpposite. split; [done|].
    by eapply matchLevels_noEmpty. }
  destruct Hcase as [(_ & _ & ->)|[(_ & _ & _ & ->)|(_ & _ & Hrest)]]; try done.
  destruct Hrest as [(_ & _ & Hr)|[_ ->]]; [|done].
  apply rested_sides in Hr as (Hopp' & Hadd & _).
  apply (noEmptyBook_sides (Order.side_ os)) in Hbs as [Hown Hopp].
  apply (noEmptyBook_sides (Order.side_ os)). rewrite Hopp'. split; [|done].
  by eapply addOrderAt_noEmpty.
Qed.

Lemma cancelOrder_noEmpty orderId h b r h' b' :
  OrderBook.cancelOrder orderId h b = Some (r, h', b') →
  noEmptyBook b → noEmptyBook b'.
Proof.
  intros H Hne. apply cancelOrder_inv in H
    as [(_ & _ & _ & ->)|(p & o & levels' & _ & _ & _ & _ & Hrem & ->)]; [done|].
  apply (noEmptyBook_sides (Order.side_ o)) in Hne as [Hown Hopp].
  apply (noEmptyBook_sides (Order.side_ o)).
  rewrite ownSide_setOwnSide, opposite_setOwnSide. split; [|done].
  by eapply removeOrderAt_noEmpty.
Qed.

Lemma modifyOrder_noEmpty orderId newPrice newQuantity h b r h' b' :
  OrderBook.modifyOrder orderId newPrice newQuantity h b = Some (r, h', b') →
  noEmptyBook b → noEmptyBook b'.
Proof.
  intros H Hne. apply modifyOrder_inv in H
    as [(_ & _ & _ & ->)|(p & o & m1 & m2 & _ & _ & _ & _ & Hrem & Hadd & ->)];
    [done|].
  apply (noEmptyBook_sides (Order.side_ o)) in Hne as [Hown Hopp].
  apply (noEmptyBook_sides (Order.side_ o)).
  rewrite ownSide_setOwnSide, opposite_setOwnSide. split; [|done].
  eapply addOrderAt_noEmpty; [exact Hadd|]. by eapply removeOrderAt_noEmpty.
Qed.

(** ** On the states of the engine *)

Lemma reachable_engineRests h e : reachable h e → engineRests h e.
Proof.
  induction 1 as [|h e symbol side type price quantity clientId stopPrice
                   orderId trades h' e' Hr IH _ Hrun
                  |h e orderId r h' e' Hr IH Hrun
                  |h e orderId newPrice newQuantity r h' e' Hr IH Hrun].
  - intros symbol b Hb. done.
  - pose proof (reachable_engineOk _ _ Hr) as He.
    pose proof He as (_ & _ & _ & _ & _ & Hoks).
    destruct (submitOrder_inv _ _ _ _ _ _ _ _ _ _ _ _ _ He Hrun)
      as (o0 & b & b' & Ho0 & Hb & Hid & Hm & Hp & Hbooks & Hok & Hids & Hfilled
          & Hrest & Hh1).
    assert (restingActive (h ++ [o0]) b ∧ noEmptyBook b) as [Hact Hne].
    { rewrite Hb. unfold MatchingEngineCore.getOrCreateOrderBook.
      destruct (MatchingEngineCore.orderBooks_ e !! symbol) as [b0|] eqn:Hb0; simpl.
      - destruct (IH _ _ Hb0) as [Ha ?]. split; [|done].
        intros q Hq. destruct (Ha _ Hq) as (oq & Hoq & Hactive).
        exists oq. split; [by apply Hh1|done].
      - split; [|by split; constructor]. intros q Hq. by apply elem_of_nil in Hq. }
    assert (length h ∉ allResting b) as Hpn.
    { intros Hin. destruct (Hrest _ Hin) as (o1 & Ho1 & _).
      apply lookup_lt_Some in Ho1. lia. }
    intros symbol2 b2 Hb2. rewrite Hbooks in Hb2.
    destruct (decide (symbol2 = symbol)) as [->|Hs].
    + rewrite lookup_insert_eq in Hb2. injection Hb2 as <-. split.
      * eapply (matchOrder_restingActive _ _ _ _ _ _ _ symbol); try done.
        by rewrite Ho0.
      * by eapply matchOrder_noEmpty.
    + rewrite lookup_insert_ne in Hb2 by done.
      destruct (IH _ _ Hb2) as [Ha ?]. split; [|done].
      intros q Hq. destruct (Ha _ Hq) as (oq & Hoq & Hactive).
      exists oq. split; [|done].
      eapply submitOrder_frame; [exact He|exact Hrun|exact Hoq|].
      rewrite <- Hb. intros Hin. destruct (Hrest _ Hin) as (o1 & Ho1 & _ & Hs1).
      rewrite Hoq in Ho1. injection Ho1 as <-.
      apply Hs. rewrite <- Hs1. symmetry. by eapply engineOk_rests.
  - pose proof (reachable_engineOk _ _ Hr) as He.
    destruct (cancelOrder_engine_inv _ _ _ _ _ _ He Hrun)
      as [(_ & _ & -> & ->)
         |(symbol & book & book' & p & o & Hots & Hbook & Hidx & Hc & Ho & Hoid
           & Hsym & Hst & -> & -> & Hbooks & _ & _ & Hok & Hp & Hsub)]; [done|].
    intros symbol2 b2 Hb2. rewrite Hbooks in Hb2.
    destruct (decide (symbol2 = symbol)) as [->|Hs].
    + rewrite lookup_insert_eq in Hb2. injection Hb2 as <-.
      destruct (IH _ _ Hbook) as [Ha Hne]. split.
      * intros q Hq. destruct (Ha _ (Hsub _ Hq)) as (oq & Hoq & Hactive).
        exists oq. split; [|done]. rewrite list_lookup_insert_ne; [done|].
        by intros ->.
      * by eapply cancelOrder_noEmpty.
    + rewrite lookup_insert_ne in Hb2 by done.
      destruct (IH _ _ Hb2) as [Ha ?]. split; [|done].
      intros q Hq. destruct (Ha _ Hq) as (oq & Hoq & Hactive).
      exists oq. split; [|done]. rewrite list_lookup_insert_ne; [done|].
      intros <-. apply Hs. rewrite <- Hsym. symmetry. by eapply engineOk_rests.
  - pose proof (reachable_engineOk _ _ Hr) as He.
    destruct (modifyOrder_engine_inv _ _ _ _ _ _ _ _ He Hrun)
      as [(_ & _ & -> & ->)
         |(symbol & book & book' & p & o & Hots & Hbook & Hidx & Hc & Ho & Hoid
           & Hsym & Hst & -> & -> & Hbooks & _ & _ & Hok & Hp & Hsame)]; [done|].
    assert (p < length h) as Hlt by (by eapply lookup_lt_Some).
    intros symbol2 b2 Hb2. rewrite Hbooks in Hb2.
    destruct (decide (symbol2 = symbol)) as [->|Hs].
    + rewrite lookup_insert_eq in Hb2. injection Hb2 as <-.
      destruct (IH _ _ Hbook) as [Ha Hne]. split.
      * intros q Hq. destruct (decide (q = p)) as [->|Hqp].
        -- eexists. split; [by apply list_lookup_insert_eq|done].
        -- apply Hsame in Hq. destruct (Ha _ Hq) as (oq & Hoq & Hactive).
           exists oq. split; [|done]. by rewrite list_lookup_insert_ne.
      * by eapply modifyOrder_noEmpty.
    + rewrite lookup_insert_ne in Hb2 by done.
      destruct (IH _ _ Hb2) as [Ha ?]. split; [|done].
      intros q Hq. destruct (Ha _ Hq) as (oq & Hoq & Hactive).
      exists oq. split; [|done]. rewrite list_lookup_insert_ne; [done|].
      intros <-. apply Hs. rewrite <- Hsym. symmetry. by eapply engineOk_rests.
Qed.

(** ** The operations are defined *)

Lemma cancelOrder_defined orderId h b symbol :
  bookOk h symbol b → idsDistinct h →
  is_Some (OrderBook.cancelOrder orderId h b).
Proof.
  intros Hb Hids. unfold OrderBook.cancelOrder.
  destruct (OrderBook.orderMap_ b !! orderId) as [p|] eqn:Hp; [|done].
  destruct (bookOk_indexed _ _ _ _ _ Hb Hp) as (o & Ho & Hid & Hsym & Hst & Hown).
  rewrite Ho. cbn.
  apply (bookOk_sides (Order.side_ o)) in Hb as (Hside & _ & Hnd & _).
  apply NoDup_app in Hnd as (Hnd & _).
  destruct (removeOrderAt_sideOk h (<[p := Order.setStatus CANCELLED o]> h)
              _ _ _ _ p o Hside Hids Hnd Ho Hown)
    as (m' & _ & _ & Hrem & _).
  { rewrite length_insert. by eapply lookup_lt_Some. }
  rewrite Hid in Hrem. destruct (Order.side_ o); simpl in Hrem; by rewrite Hrem.
Qed.

Lemma modifyOrder_defined orderId newPrice newQuantity h b symbol :
  bookOk h symbol b → idsDistinct h →
  is_Some (OrderBook.modifyOrder orderId newPrice newQuantity h b).
Proof.
  intros Hb Hids. unfold OrderBook.modifyOrder.
  destruct (OrderBook.orderMap_ b !! orderId) as [p|] eqn:Hp; [|done].
  destruct (bookOk_indexed _ _ _ _ _ Hb Hp) as (o & Ho & Hid & Hsym & Hst & Hown).
  rewrite Ho. cbn.
  assert (p < length h) as Hlt by (by eapply lookup_lt_Some).
  apply (bookOk_sides (Order.side_ o)) in Hb as (Hside & _ & Hnd & _).
  apply NoDup_app in Hnd as (Hnd & _).
  destruct (removeOrderAt_sideOk h h _ _ _ _ p o Hside Hids Hnd Ho Hown Hlt)
    as (m' & _ & _ & Hrem & _).
  rewrite Hid in Hrem.
  destruct (Order.side_ o); simpl in Hrem; rewrite Hrem; cbn;
    match goal with
    | |- context [Levels.addOrderAt ?c ?pr ?q ?hh ?m] =>
        destruct (addOrderAt_defined c pr q hh m) as [m2 ->];
          [by rewrite length_insert|done]
    end.
Qed.

(** In a state that satisfies the invariant, no operation of the engine
    meets a dangling pointer or iterator. *)
Lemma engineOk_defined h e :
  engineOk h e →
  (∀ symbol side type price quantity clientId stopPrice,
     is_Some (MatchingEngineCore.submitOrder symbol side type price quantity
                clientId stopPrice h e))
  ∧ (∀ orderId, is_Some (MatchingEngineCore.cancelOrder orderId h e))
  ∧ (∀ orderId newPrice newQuantity,
       is_Some (MatchingEngineCore.modifyOrder orderId newPrice newQuantity h e)).
Proof.
  intros He. pose proof (engineOk_ids _ _ He) as Hids.
  pose proof He as (_ & _ & _ & _ & _ & Hbooks). split_and!.
  - intros symbol side type price quantity clientId stopPrice.
    unfold MatchingEngineCore.submitOrder.
    set (o0 := Order.setClientId _ _).
    set (b := MatchingEngineCore.getOrCreateOrderBook symbol e).
    destruct (matchOrder_defined (length h) (h ++ [o0]) b) as [[[tr h'] b'] ->];
      [rewrite length_app; simpl; lia| |done].
    assert (bookOk h symbol b) as Hb.
    { unfold b, MatchingEngineCore.getOrCreateOrderBook.
      destruct (MatchingEngineCore.orderBooks_ e !! symbol) as [b0|] eqn:Hb0; simpl;
        [by eapply Hbooks|apply bookOk_new]. }
    apply bookOk_closed in Hb. destruct Hb as [Hb1 Hb2].
    split; (eapply Forall_impl; [eassumption|]);
      intros q Hq; simpl in *; rewrite length_app; lia.
  - intros orderId. unfold MatchingEngineCore.cancelOrder.
    destruct (MatchingEngineCore.orderToSymbol_ e !! orderId) as [symbol|]; [|done].
    destruct (MatchingEngineCore.orderBooks_ e !! symbol) as [book|] eqn:Hbook;
      [|done].
    destruct (cancelOrder_defined orderId h book symbol) as [[[r h'] b'] ->];
      [by eapply Hbooks|done|done].
  - intros orderId newPrice newQuantity. unfold MatchingEngineCore.modifyOrder.
    destruct (MatchingEngineCore.orderToSymbol_ e !! orderId) as [symbol|]; [|done].
    destruct (MatchingEngineCore.orderBooks_ e !! symbol) as [book|] eqn:Hbook;
      [|done].
    destruct (modifyOrder_defined orderId newPrice newQuantity h book symbol)
      as [[[r h'] b'] ->]; [by eapply Hbooks|done|done].
Qed.


(** * What [getOrder] finds, and the best prices *)

(** The order [getOrder] returns bears the id, is not FILLED and rests on
    its side of the book of its symbol. *)
Lemma getOrder_rests h e orderId p :
  engineOk h e →
  MatchingEngineCore.getOrder orderId e = Some p →
  ∃ b o,
    h !! p = Some o
    ∧ MatchingEngineCore.orderBooks_ e !! Order.symbol_ o = Some b
    ∧ Order.orderId_ o = orderId
    ∧ Order.status_ o ≠ FILLED
    ∧ p ∈ resting (ownSide (Order.side_ o) b).
Proof.
  intros He Hget. pose proof He as (_ & _ & _ & _ & _ & Hbooks).
  unfold MatchingEngineCore.getOrder, OrderBook.getOrder in Hget.
  destruct (MatchingEngineCore.orderToSymbol_ e !! orderId) as [symbol|]; [|done].
  destruct (MatchingEngineCore.orderBooks_ e !! symbol) as [b|] eqn:Hb; [|done].
  destruct (bookOk_indexed _ _ _ _ _ (Hbooks _ _ Hb) Hget)
    as (o & Ho & Hid & Hsym & Hst & Hown).
  exists b, o. rewrite Hsym. by split_and!.
Qed.

(** Every order that rests in a book is found by [getOrder] under its
    id. *)
Lemma rests_getOrder h e symbol b q :
  engineOk h e →
  MatchingEngineCore.orderBooks_ e !! symbol = Some b →
  q ∈ allResting b →
  ∃ o, h !! q = Some o
       ∧ Order.symbol_ o = symbol
       ∧ q ∈ resting (ownSide (Order.side_ o) b)
       ∧ MatchingEngineCore.getOrder (Order.orderId_ o) e = Some q.
Proof.
  intros He Hb Hq. pose proof He as (_ & _ & Hots & _ & _ & Hbooks).
  destruct (bookOk_resting _ _ _ _ (Hbooks _ _ Hb) Hq)
    as (o & Ho & Hown & Hsym & Hst & Hidx).
  exists o. split_and!; try done.
  unfold MatchingEngineCore.getOrder, OrderBook.getOrder.
  destruct (Hots _ _ Ho) as [Hl|[_ Hnw]]; [|by destruct (Hnw _ _ Hb)].
  by rewrite Hl, Hsym, Hb.
Qed.

Lemma ownSide_getBest side symbol e b :
  MatchingEngineCore.orderBooks_ e !! symbol = Some b →
  getBest side symbol e
  = match ownSide side b with [] => 0%Z | (price, _) :: _ => price end.
Proof.
  intros Hb. unfold getBest, MatchingEngineCore.getBestBid,
    MatchingEngineCore.getBestAsk. rewrite Hb. by destruct side.
Qed.

(** On a side that satisfies the invariant and has no empty level, the
    first key is the price of a resting order, and no resting order has a
    better one. *)
Lemma sideOk_best h symbol side idx k l m :
  sideOk h symbol side idx ((k, l) :: m) →
  noEmptyLevel ((k, l) :: m) →
  (∃ q o, q ∈ resting ((k, l) :: m) ∧ h !! q = Some o ∧ Order.price_ o = k)
  ∧ ∀ q o, q ∈ resting ((k, l) :: m) → h !! q = Some o →
           atLeastAsGood side k (Order.price_ o).
Proof.
  intros Hside Hne. split.
  - apply Forall_cons in Hne as [Hl _]. simpl in Hl.
    unfold PriceLevel.isEmpty in Hl.
    destruct (PriceLevel.orders_ l) as [|[n q] orders] eqn:Horders; [done|].
    assert (q ∈ resting ((k, l) :: m)) as Hq.
    { rewrite resting_cons, elem_of_app. left. unfold PriceLevel.queue.
      rewrite Horders. apply list_elem_of_here. }
    destruct Hside as [_ Hlevels]. apply Forall_cons in Hlevels as [Hlevel _].
    destruct (levelOk_nodes _ _ _ _ _ _ (n, q) Hlevel) as (o & Ho & _ & Hp & _).
    { rewrite Horders. apply list_elem_of_here. }
    by exists q, o.
  - intros q o Hq Ho.
    destruct (sideOk_resting _ _ _ _ _ _ Hside Hq)
      as (price & l' & n & o' & Hin & _ & _ & Ho' & _ & Hprice & _).
    rewrite Ho in Ho'. injection Ho' as <-. rewrite Hprice.
    destruct Hside as [Hs _]. unfold keys in Hs. rewrite fmap_cons in Hs.
    apply StronglySorted_cons in Hs as [Hk _]. simpl in Hk.
    apply elem_of_cons in Hin as [Heq|Hin].
    + injection Heq as -> _. destruct side; simpl; lia.
    + rewrite Forall_forall in Hk.
      assert (sideOrder side k price) as Hord.
      { apply Hk. apply list_elem_of_fmap. by exists (price, l'). }
      destruct side; simpl in *; lia.
Qed.

Lemma cancelOrder_counters orderId h e r h' e' :
  MatchingEngineCore.cancelOrder orderId h e = Some (r, h', e') →
  MatchingEngineCore.totalOrders_ e' = MatchingEngineCore.totalOrders_ e
  ∧ MatchingEngineCore.totalTrades_ e' = MatchingEngineCore.totalTrades_ e
  ∧ length h' = length h.
Proof.
  unfold MatchingEngineCore.cancelOrder. intros Hrun.
  destruct (MatchingEngineCore.orderToSymbol_ e !! orderId) as [symbol|];
    [|by simplify_eq].
  destruct (MatchingEngineCore.orderBooks_ e !! symbol) as [book|];
    [|by simplify_eq].
  destruct (OrderBook.cancelOrder orderId h book) as [[[r0 h0] book']|] eqn:Hc;
    [|done].
  cbn in Hrun. injection Hrun as <- <- <-. simpl. split_and!; try done.
  apply cancelOrder_inv in Hc
    as [(_ & _ & -> & _)|(p & o & levels' & _ & _ & _ & -> & _)]; [done|].
  by rewrite length_insert.
Qed.

Lemma modifyOrder_counters orderId newPrice newQuantity h e r h' e' :
  MatchingEngineCore.modifyOrder orderId newPrice newQuantity h e
    = Some (r, h', e') →
  MatchingEngineCore.totalOrders_ e' = MatchingEngineCore.totalOrders_ e
  ∧ MatchingEngineCore.totalTrades_ e' = MatchingEngineCore.totalTrades_ e
  ∧ length h' = length h.
Proof.
  unfold MatchingEngineCore.modifyOrder. intros Hrun.
  destruct (MatchingEngineCore.orderToSymbol_ e !! orderId) as [symbol|];
    [|by simplify_eq].
  destruct (MatchingEngineCore.orderBooks_ e !! symbol) as [book|];
    [|by simplify_eq].
  destruct (OrderBook.modifyOrder orderId newPrice newQuantity h book)
    as [[[r0 h0] book']|] eqn:Hc; [|done].
  cbn in Hrun. injection Hrun as <- <- <-. simpl. split_and!; try done.
  apply modifyOrder_inv in Hc
    as [(_ & _ & -> & _)|(p & o & m1 & m2 & _ & _ & _ & -> & _)]; [done|].
  by rewrite length_insert.
Qed.

(** The counter of orders is the number of orders submitted so far. *)
Lemma reachable_totalOrders h e :
  reachable h e → MatchingEngineCore.totalOrders_ e = N.of_nat (length h).
Proof.
  induction 1 as [|h e symbol side type price quantity clientId stopPrice
                   orderId trades h' e' Hr IH Hwrap Hrun
                  |h e orderId r h' e' Hr IH Hrun
                  |h e orderId newPrice newQuantity r h' e' Hr IH Hrun].
  - done.
  - pose proof (reachable_engineOk _ _ Hr) as (Hn & _).
    unfold MatchingEngineCore.submitOrder in Hrun.
    destruct (OrderBook.matchOrder _ _ _) as [[[trades0 h0] b']|] eqn:Hm; [|done].
    cbn in Hrun. injection Hrun as <- <- <- <-. simpl.
    rewrite (matchOrder_length _ _ _ _ _ _ Hm), length_app, IH. simpl.
    unfold wrap64. rewrite N.mod_small; lia.
  - destruct (cancelOrder_counters _ _ _ _ _ _ Hrun) as (-> & _ & ->). done.
  - destruct (modifyOrder_counters _ _ _ _ _ _ _ _ Hrun) as (-> & _ & ->). done.
Qed.

(** An order resting in the book [submitOrder] works on is found by
    [getOrder]. *)
Lemma getOrCreate_getOrder h e symbol side q m :
  engineOk h e →
  q ∈ resting (opposite side (MatchingEngineCore.getOrCreateOrderBook symbol e)) →
  h !! q = Some m →
  MatchingEngineCore.getOrder (Order.orderId_ m) e = Some q.
Proof.
  intros He Hq Hm. unfold MatchingEngineCore.getOrCreateOrderBook in Hq.
  destruct (MatchingEngineCore.orderBooks_ e !! symbol) as [b|] eqn:Hb;
    simpl in Hq; [|destruct side; by apply elem_of_nil in Hq].
  destruct (rests_getOrder h e symbol b q He Hb) as (o & Ho & _ & _ & Hget).
  { apply (elem_of_allResting side). by right. }
  congruence.
Qed.

(** [getOrder] reads the index of the book registered for the id. *)
Lemma getOrder_Some orderId e p :
  MatchingEngineCore.getOrder orderId e = Some p ↔
  ∃ symbol book,
    MatchingEngineCore.orderToSymbol_ e !! orderId = Some symbol
    ∧ MatchingEngineCore.orderBooks_ e !! symbol = Some book
    ∧ OrderBook.orderMap_ book !! orderId = Some p.
Proof.
  unfold MatchingEngineCore.getOrder, OrderBook.getOrder. split.
  - intros H.
    destruct (MatchingEngineCore.orderToSymbol_ e !! orderId) as [symbol|]; [|done].
    destruct (MatchingEngineCore.orderBooks_ e !! symbol) as [book|] eqn:Hb; [|done].
    by exists symbol, book.
  - intros (symbol & book & -> & -> & H). done.
Qed.

(** What [getOrder] finds after an entry left the index of one book and
    the map from ids to symbols. *)
Lemma getOrder_after_erase orderId symbol book book' e e' orderId2 :
  MatchingEngineCore.orderBooks_ e !! symbol = Some book →
  MatchingEngineCore.orderBooks_ e'
    = <[symbol := book']> (MatchingEngineCore.orderBooks_ e) →
  MatchingEngineCore.orderToSymbol_ e'
    = delete orderId (MatchingEngineCore.orderToSymbol_ e) →
  OrderBook.orderMap_ book' = delete orderId (OrderBook.orderMap_ book) →
  MatchingEngineCore.getOrder orderId2 e'
  = if decide (orderId2 = orderId) then None
    else MatchingEngineCore.getOrder orderId2 e.
Proof.
  intros Hbook Hbooks Hots Hidx.
  unfold MatchingEngineCore.getOrder, OrderBook.getOrder. rewrite Hots, Hbooks.
  destruct (decide (orderId2 = orderId)) as [->|Hne];
    [by rewrite lookup_delete_eq|].
  rewrite lookup_delete_ne by done.
  destruct (MatchingEngineCore.orderToSymbol_ e !! orderId2) as [symbol2|]; [|done].
  destruct (decide (symbol2 = symbol)) as [->|Hs].
  - rewrite lookup_insert_eq, Hbook, Hidx. by rewrite lookup_delete_ne.
  - by rewrite lookup_insert_ne.
Qed.

(** What [getOrder] finds after one book was replaced by one with the same
    index. *)
Lemma getOrder_same_index symbol book book' e e' orderId :
  MatchingEngineCore.orderBooks_ e !! symbol = Some book →
  MatchingEngineCore.orderBooks_ e'
    = <[symbol := book']> (MatchingEngineCore.orderBooks_ e) →
  MatchingEngineCore.orderToSymbol_ e' = MatchingEngineCore.orderToSymbol_ e →
  OrderBook.orderMap_ book' = OrderBook.orderMap_ book →
  MatchingEngineCore.getOrder orderId e' = MatchingEngineCore.getOrder orderId e.
Proof.
  intros Hbook Hbooks Hots Hidx.
  unfold MatchingEngineCore.getOrder, OrderBook.getOrder. rewrite Hots, Hbooks.
  destruct (MatchingEngineCore.orderToSymbol_ e !! orderId) as [symbol2|]; [|done].
  destruct (decide (symbol2 = symbol)) as [->|Hs].
  - by rewrite lookup_insert_eq, Hbook, Hidx.
  - by rewrite lookup_insert_ne.
Qed.

(** ** Where [modifyOrder] puts the order *)

(** [m[price].addOrder(order)] puts the order at the back of the queue of
    the level at the price, between the orders that rested before. *)
Lemma addOrderAt_resting h symbol side idx m price p m' :
  sideOk h symbol side idx m →
  Levels.addOrderAt (ownComp side) price p h m = Some m' →
  ∃ s1 s2 l,
    resting m = s1 ++ s2
    ∧ resting m' = s1 ++ p :: s2
    ∧ Levels.find price m' = Some l
    ∧ PriceLevel.queue l = PriceLevel.queue (Levels.at_ price m) ++ [p].
Proof.
  intros Hside Hadd.
  unfold Levels.addOrderAt, PriceLevel.addOrder in Hadd.
  destruct (h !! p) as [o|]; [|done]. cbn in Hadd. injection Hadd as <-.
  set (l0 := Levels.at_ price m).
  set (l' := PriceLevel.mk _ _ _ _ _).
  destruct (at_split _ _ _ _ price _ l' Hside) as (m1 & m2 & Hset & Hrest & _).
  fold l0 in Hrest.
  exists (resting m1 ++ PriceLevel.queue l0), (resting m2), l'.
  assert (PriceLevel.queue l' = PriceLevel.queue l0 ++ [p]) as Hq.
  { unfold PriceLevel.queue, l'. simpl. by rewrite fmap_app. }
  split_and!.
  - by rewrite Hrest, app_assoc.
  - rewrite Hset, resting_split, Hq. by rewrite <- !app_assoc.
  - apply find_set.
  - done.
Qed.

(** [OrderBook::modifyOrder] on a book that satisfies its invariant: the
    order leaves its place and comes back at the back of the queue of the
    level at the new price; the other orders of its side keep their
    order. *)
Lemma modifyOrder_order orderId newPrice newQuantity h b h' b' symbol p o :
  OrderBook.modifyOrder orderId newPrice newQuantity h b = Some (true, h', b') →
  bookOk h symbol b →
  idsDistinct h →
  OrderBook.orderMap_ b !! orderId = Some p →
  h !! p = Some o →
  ∃ r1 r2 s1 s2 l,
    resting (ownSide (Order.side_ o) b) = r1 ++ p :: r2
    ∧ resting (ownSide (Order.side_ o) b') = s1 ++ p :: s2
    ∧ r1 ++ r2 = s1 ++ s2
    ∧ opposite (Order.side_ o) b' = opposite (Order.side_ o) b
    ∧ Levels.find newPrice (ownSide (Order.side_ o) b') = Some l
    ∧ last (PriceLevel.queue l) = Some p.
Proof.
  intros Hrun Hb Hids Hp Ho.
  apply modifyOrder_inv in Hrun
    as [(? & ? & _)|(p' & o' & m1 & m2 & Hp' & Ho' & _ & -> & Hrem & Hadd & ->)];
    [done|].
  rewrite Hp in Hp'. injection Hp' as <-.
  rewrite Ho in Ho'. injection Ho' as <-.
  destruct (bookOk_indexed _ _ _ _ _ Hb Hp) as (o0 & Ho0 & Hid & Hsym & Hst & Hown).
  rewrite Ho in Ho0. injection Ho0 as <-.
  set (side := Order.side_ o) in *.
  assert (p < length h) as Hlt by (by eapply lookup_lt_Some).
  apply (bookOk_sides side) in Hb as (Hside & Hopp & Hnd & Hidx).
  apply NoDup_app in Hnd as (Hnd1 & _).
  destruct (removeOrderAt_sideOk h h _ _ _ _ p o Hside Hids Hnd1 Ho Hown Hlt)
    as (m' & r1 & r2 & Hrem' & Hside1 & Hr & Hr1).
  rewrite Hid in Hrem'. fold side in Hrem'. rewrite Hrem in Hrem'.
  injection Hrem' as <-.
  assert (sideOk (<[p := modified newPrice newQuantity o]> h) symbol side
            (OrderBook.orderMap_ b) m1) as Hside2.
  { eapply sideOk_frame; [exact Hside1| |done].
    intros q Hq. rewrite Hr1 in Hq. rewrite list_lookup_insert_ne; [done|].
    intros ->. rewrite Hr in Hnd1. apply NoDup_app in Hnd1 as (_ & Hd & Hn2).
    apply NoDup_cons in Hn2 as [Hn2 _]. apply elem_of_app in Hq as [Hq|Hq]; [|done].
    apply (Hd _ Hq). apply list_elem_of_here. }
  destruct (addOrderAt_resting _ _ _ _ _ _ _ _ Hside2 Hadd)
    as (s1 & s2 & l & Hs & Hs' & Hfind & Hq).
  exists r1, r2, s1, s2, l.
  rewrite ownSide_setOwnSide, opposite_setOwnSide.
  split_and!; try done.
  - by rewrite <- Hr1.
  - rewrite Hq. apply last_snoc.
Qed.

(** The maps and counters of the engine after [submitOrder]. *)
Lemma submitOrder_maps symbol side type price quantity clientId stopPrice
    h e orderId trades h' e' :
  MatchingEngineCore.submitOrder symbol side type price quantity clientId
    stopPrice h e = Some (orderId, trades, h', e') →
  orderId = MatchingEngineCore.nextOrderId_ e
  ∧ MatchingEngineCore.orderToSymbol_ e'
    = <[orderId := symbol]> (MatchingEngineCore.orderToSymbol_ e)
  ∧ (∃ b', MatchingEngineCore.orderBooks_ e'
           = <[symbol := b']> (MatchingEngineCore.orderBooks_ e))
  ∧ MatchingEngineCore.totalTrades_ e'
    = wrap64 (MatchingEngineCore.totalTrades_ e + N.of_nat (length trades)).
Proof.
  unfold MatchingEngineCore.submitOrder. intros Hrun.
  destruct (OrderBook.matchOrder _ _ _) as [[[trades0 h0] b']|] eqn:Hm; [|done].
  cbn in Hrun. injection Hrun as <- <- <- <-. simpl. split_and!; try done.
  by exists b'.
Qed.

(** ** The depth of a side *)

Lemma depth_keys levels m : (OrderBook.depth levels m).*1 = take levels (keys m).
Proof.
  unfold OrderBook.depth, keys. rewrite <- fmap_take, <- list_fmap_compose.
  by apply list_fmap_ext.
Qed.

Lemma getDepth_ownSide side symbol levels e b :
  MatchingEngineCore.orderBooks_ e !! symbol = Some b →
  getDepth side symbol levels e = OrderBook.depth levels (ownSide side b).
Proof.
  intros Hb. unfold getDepth, MatchingEngineCore.getBidDepth,
    MatchingEngineCore.getAskDepth. rewrite Hb. by destruct side.
Qed.

(** Every level of a side that satisfies the invariant and has no empty
    level holds an order at its price. *)
Lemma sideOk_level_order h symbol side idx m k :
  sideOk h symbol side idx m → noEmptyLevel m → k ∈ keys m →
  ∃ q o, q ∈ resting m ∧ h !! q = Some o ∧ Order.price_ o = k.
Proof.
  intros [_ Hl] Hne Hk. unfold keys in Hk.
  apply list_elem_of_fmap in Hk as ([k' l] & -> & Hin). simpl.
  unfold noEmptyLevel in Hne. rewrite Forall_forall in Hne, Hl.
  pose proof (Hne _ Hin) as Hl'. simpl in Hl'. unfold PriceLevel.isEmpty in Hl'.
  destruct (PriceLevel.orders_ l) as [|[n q] orders] eqn:Horders; [done|].
  destruct (levelOk_nodes _ _ _ _ _ _ (n, q) (Hl _ Hin)) as (o & Ho & _ & Hp & _).
  { rewrite Horders. apply list_elem_of_here. }
  exists q, o. split_and!; try done.
  apply elem_of_resting. exists k', l, n. split; [done|].
  rewrite Horders. apply list_elem_of_here.
Qed.

(** ** Whether the new order rests *)

(** After [submitOrder], [getOrder] finds the new order exactly when its
    type is one that rests and something remains of it. *)
Lemma submitOrder_getOrder symbol side type price quantity clientId stopPrice
    h e orderId trades h' e' :
  engineOk h e →
  MatchingEngineCore.submitOrder symbol side type price quantity clientId
    stopPrice h e = Some (orderId, trades, h', e') →
  ∃ o',
    h' !! length h = Some o'
    ∧ ((restingType type ∧ (0 < Order.remainingQuantity_ o')%N
        ∧ Order.isActive o' = true
        ∧ MatchingEngineCore.getOrder orderId e' = Some (length h))
       ∨ ((¬ restingType type ∨ Order.remainingQuantity_ o' = 0%N)
          ∧ MatchingEngineCore.getOrder orderId e' = None)).
Proof.
  intros He Hrun.
  destruct (submitOrder_inv _ _ _ _ _ _ _ _ _ _ _ _ _ He Hrun)
    as (o0 & b & b' & Ho0 & Hb & Hid & Hm & Hp & Hbooks & Hok & Hids & Hfilled
        & Hrest & Hh1).
  destruct (submitOrder_maps _ _ _ _ _ _ _ _ _ _ _ _ _ Hrun) as (_ & Hots & _).
  assert (Order.type_ o0 = type ∧ Order.orderId_ o0 = orderId
          ∧ Order.status_ o0 = PENDING) as (Hty & Hoid & Hst).
  { rewrite Ho0. simpl. destruct He as (-> & _). by rewrite Hid. }
  assert (OrderBook.orderMap_ b !! orderId = None) as Hfresh.
  { destruct (OrderBook.orderMap_ b !! orderId) as [q|] eqn:Hq; [|done].
    destruct (bookOk_indexed _ _ _ _ _ Hok Hq) as (oq & Hoq & Hidq & _ & _ & Hin).
    assert (q = length h) as -> by (eapply Hids; [exact Hoq|exact Hp|congruence]).
    destruct (Hrest (length h)) as (o2 & Ho2 & _).
    { apply (elem_of_allResting (Order.side_ oq)). by left. }
    apply lookup_lt_Some in Ho2. lia. }
  assert (∀ bs, OrderBook.orderMap_ bs ⊆ OrderBook.orderMap_ b →
                MatchingEngineCore.orderBooks_ e'
                  = <[symbol := bs]> (MatchingEngineCore.orderBooks_ e) →
                MatchingEngineCore.getOrder orderId e' = None) as Hnone.
  { intros bs Hsub Hbs.
    destruct (MatchingEngineCore.getOrder orderId e') as [q|] eqn:Hget; [|done].
    apply getOrder_Some in Hget as (s2 & b2 & Hs2 & Hb2 & Hq2).
    rewrite Hots, lookup_insert_eq in Hs2. injection Hs2 as <-.
    rewrite Hbs, lookup_insert_eq in Hb2. injection Hb2 as <-.
    pose proof (lookup_weaken _ _ _ _ Hq2 Hsub). congruence. }
  pose proof Hm as Hinv. apply matchOrder_inv in Hinv as (o1 & Ho1 & Hcase).
  rewrite Hp in Ho1. injection Ho1 as <-.
  destruct Hcase as [(Hfok & _ & _ & -> & ->)|(fe & hs & bs & os & Hx & Hps & Hcase)].
  { eexists. split; [apply list_lookup_insert_eq; by eapply lookup_lt_Some|].
    right. split; [|eapply Hnone; [|exact Hbooks]; done].
    left. rewrite <- Hty, Hfok. intros [?|[?|?]]; done. }
  destruct (executeMatches_shrinks _ _ _ _ _ _ _ _ Hx Hp) as (_ & _ & Hidx).
  destruct (executeMatches_lookup _ _ _ _ _ _ _ _ Hx Hp) as (os' & Hps' & Hfills).
  rewrite Hps in Hps'. injection Hps' as <-.
  destruct Hcase as [(Htype & -> & ->)|[(Hfok & _ & -> & ->)|(Hrt & -> & Hcase)]].
  - eexists. split; [by apply cancelledIfUnfilled_lookup|].
    right. split; [|eapply Hnone; [|exact Hbooks]; done].
    left. rewrite <- Hty. intros [?|[?|?]]; destruct Htype; congruence.
  - exists os. split; [done|]. right. split; [|eapply Hnone; [|exact Hbooks]; done].
    left. rewrite <- Hty, Hfok. intros [?|[?|?]]; done.
  - exists os. split; [done|].
    destruct Hcase as [(Hpos & Ha & Hr)|[Hno ->]].
    + left. rewrite <- Hty. split_and!; try done.
      apply rested_sides in Hr as (_ & _ & Hidx' & _).
      apply getOrder_Some. exists symbol, b'.
      rewrite Hots, Hbooks, !lookup_insert_eq. split_and!; try done.
      rewrite Hidx'. apply fills_static in Hfills as (-> & _).
      by rewrite Hoid, lookup_insert_eq.
    + right. split; [|eapply Hnone; [|exact Hbooks]; done]. right.
      destruct Hno as [?|Hina]; [done|].
      destruct (decide (Order.remainingQuantity_ os = 0%N)) as [?|Hnz]; [done|].
      rewrite (fills_active _ _ Hfills) in Hina; [done| |done].
      unfold Order.isActive. by rewrite Hst.
Qed.


(** * Fill-or-kill on exact aggregates *)

Lemma tooFarOf_within side o price :
  Order.side_ o = side →
  tooFarOf side o price = negb (bool_decide (withinLimit side (Order.price_ o) price)).
Proof.
  intros <-. unfold tooFarOf, withinLimit, OrderBook.askTooHigh, OrderBook.bidTooLow.
  destruct (Order.side_ o) eqn:Hs; rewrite bool_decide_eq_true_2 by done; simpl.
  - destruct (Z.ltb_spec (Order.price_ o) price).
    + by rewrite bool_decide_eq_false_2 by lia.
    + by rewrite bool_decide_eq_true_2 by lia.
  - destruct (Z.ltb_spec price (Order.price_ o)).
    + by rewrite bool_decide_eq_false_2 by lia.
    + by rewrite bool_decide_eq_true_2 by lia.
Qed.

(** Past a level out of the limit, every level is out of the limit. *)
Lemma withinLevels_beyond side limit price m :
  ¬ withinLimit side limit price →
  Forall (sideOrder (otherSide side) price) (keys m) →
  withinLevels side limit m = [].
Proof.
  intros Hout. unfold withinLevels, keys.
  induction m as [|[price' l] m IH]; intros Hall; [done|].
  rewrite fmap_cons in Hall. apply Forall_cons in Hall as [Hhead Hall].
  rewrite filter_cons_False; [by apply IH|]. simpl in *.
  intros Hin. apply Hout. destruct side; simpl in *; lia.
Qed.

(** On a sorted side the levels within the limit are the first ones. *)
Lemma withinLevels_take side limit m :
  StronglySorted (sideOrder (otherSide side)) (keys m) →
  ∃ k, withinLevels side limit m = take k m.
Proof.
  induction m as [|[price l] m IH]; intros Hs; [by exists 0|].
  unfold keys in Hs. rewrite fmap_cons in Hs.
  apply StronglySorted_inv in Hs as [Hs Hall].
  destruct (decide (withinLimit side limit price)) as [Hin|Hout].
  - destruct (IH Hs) as [k Hk]. exists (S k). unfold withinLevels in *.
    rewrite filter_cons_True by done. simpl. by rewrite Hk.
  - exists 0. unfold withinLevels. rewrite filter_cons_False by done.
    by apply (withinLevels_beyond side limit price).
Qed.

Lemma wrap64_small n : (n < two64)%N → wrap64 n = n.
Proof. intros. unfold wrap64. by apply N.mod_small. Qed.

Lemma queueRemaining_total h l :
  queueRemaining h l = totalRemaining h (PriceLevel.queue l).
Proof. done. Qed.

(** What the loop of [canFillEntireOrder] computes for a FOK order when the
    aggregates are exact and their sum does not wrap around. *)
Lemma canFillLoop_spec h side o levels acc :
  Order.side_ o = side → Order.type_ o = FOK →
  StronglySorted (sideOrder (otherSide side)) (keys levels) →
  consistentLevels h levels →
  (acc + totalRemaining h (resting levels) < two64)%N →
  (acc < Order.remainingQuantity_ o)%N →
  OrderBook.canFillLoop (tooFarOf side) o levels acc
  = bool_decide (Order.remainingQuantity_ o
                 ≤ acc + totalRemaining h
                           (resting (withinLevels side (Order.price_ o) levels)))%N.
Proof.
  intros Hside Hty. revert acc.
  induction levels as [|[price l] levels IH]; intros acc Hs Hc Hb Hacc.
  - simpl. rewrite bool_decide_eq_false_2; [done|]. lia.
  - unfold keys in Hs. rewrite fmap_cons in Hs.
    apply StronglySorted_inv in Hs as [Hs Hall].
    apply Forall_cons in Hc as [Hl Hc]. simpl in Hl.
    rewrite resting_cons, totalRemaining_app in Hb.
    cbn [OrderBook.canFillLoop]. rewrite Hty.
    rewrite (bool_decide_eq_false_2 (FOK = LIMIT)) by done.
    rewrite (bool_decide_eq_true_2 (FOK = FOK)) by done. cbn [orb andb].
    rewrite (tooFarOf_within side o price Hside).
    destruct (decide (withinLimit side (Order.price_ o) price)) as [Hin|Hout].
    + rewrite bool_decide_eq_true_2 by done. cbn [negb].
      unfold withinLevels. rewrite filter_cons_True by done.
      fold (withinLevels side (Order.price_ o) levels).
      rewrite resting_cons, totalRemaining_app.
      unfold aggregateConsistent in Hl. rewrite queueRemaining_total in Hl.
      rewrite Hl. rewrite wrap64_small by lia.
      destruct (N.leb_spec (Order.remainingQuantity_ o)
                  (acc + totalRemaining h (PriceLevel.queue l))).
      * rewrite bool_decide_eq_true_2; [done|]. lia.
      * rewrite IH; [|done|done|lia|lia]. apply bool_decide_ext. lia.
    + rewrite bool_decide_eq_false_2 by done. cbn [negb].
      unfold withinLevels. rewrite filter_cons_False by done.
      fold (withinLevels side (Order.price_ o) levels).
      rewrite (withinLevels_beyond side _ price) by done. simpl.
      rewrite bool_decide_eq_false_2; [done|]. lia.
Qed.

Lemma totalRemaining_zero h l :
  Forall (λ q, remainingOf h q = 0%N) l → totalRemaining h l = 0%N.
Proof. induction 1 as [|q l Hq _ IH]; simpl; [done|]. lia. Qed.

Lemma keys_take_cons k price (l : PriceLevel.t) m :
  keys (take (S k) ((price, l) :: m)) = price :: keys (take k m).
Proof. done. Qed.

(** The trades of one run of the inner loop are made at the price of the
    level. *)
Lemma matchQueue_prices sym p price l s orders' s' o new :
  OrderBook.matchQueue sym p (PriceLevel.orders_ l) s = Some (orders', s') →
  OrderBook.sw_heap s !! p = Some o →
  Forall (λ q, ∃ m, OrderBook.sw_heap s !! q = Some m ∧ Order.price_ m = price)
    (PriceLevel.queue l) →
  OrderBook.sw_trades s' = OrderBook.sw_trades s ++ new →
  Forall (λ t, Trade.price_ t = price) new.
Proof.
  intros Hq Ho Hpr Hnew.
  destruct (matchQueue_shape _ _ _ _ _ _ _ Hq Ho)
    as (erased & partial & new' & Hsplit & Hpre & _ & Htr & Hwith & _).
  rewrite Htr in Hnew. apply app_inv_head in Hnew as <-.
  apply Forall_forall. intros t Ht.
  apply list_elem_of_lookup in Ht as [i Ht].
  destruct (Forall2_lookup_l _ _ _ _ _ Hwith Ht) as (q & Hqi & (m & Hm & Hprice & _)).
  assert (q ∈ PriceLevel.queue l) as Hin.
  { unfold PriceLevel.queue. rewrite Hsplit.
    apply list_elem_of_lookup_2 in Hqi. rewrite fmap_app in *.
    apply elem_of_app in Hqi as [Hqi|Hqi]; apply elem_of_app; [by left|right].
    destruct Hpre as [rest ->]. rewrite fmap_app. apply elem_of_app. by left. }
  rewrite Forall_forall in Hpr. destruct (Hpr _ Hin) as (m' & Hm' & Hp').
  congruence.
Qed.

(** A sweep with no price test that finds enough in the first [k] levels
    fills the order at these levels. *)
Lemma matchLevels_enough tooFar sym p levels s levels' s' o k :
  OrderBook.matchLevels tooFar sym p levels s = Some (levels', s') →
  OrderBook.sw_heap s !! p = Some o →
  Order.type_ o ≠ LIMIT →
  p ∉ resting levels → NoDup (resting levels) →
  pricedAt (OrderBook.sw_heap s) levels →
  (Order.remainingQuantity_ o
   ≤ totalRemaining (OrderBook.sw_heap s) (resting (take k levels)))%N →
  ∃ o' new,
    OrderBook.sw_heap s' !! p = Some o'
    ∧ Order.remainingQuantity_ o' = 0%N
    ∧ OrderBook.sw_trades s' = OrderBook.sw_trades s ++ new
    ∧ Forall (λ t, Trade.price_ t ∈ keys (take k levels)) new.
Proof.
  intros H. revert o k. levels_induction H.
  - intros s o k Ho _ _ _ _ Hle. rewrite take_nil in Hle. simpl in Hle.
    exists o, []. split_and!; [done|lia|by rewrite app_nil_r|constructor].
  - intros price level levels s o Ho Hz o0 k Ho0 _ _ _ _ _. simplify_eq.
    exists o, []. split_and!; [done|done|by rewrite app_nil_r|constructor].
  - intros price level levels s o Ho _ Hty _ o0 k Ho0 Hnl. simplify_eq.
  - intros price level levels s o s1 levels' s' Ho Hpos _ Hq Hrec IH o0 k Ho0 Hty
      Hp Hnd Hpr Hle.
    simplify_eq. destruct k as [|k]; [simpl in Hle; lia|].
    rewrite resting_cons in Hp, Hnd. apply not_elem_of_app in Hp as [Hpq Hpl].
    apply NoDup_app in Hnd as (Hndq & Hdisj & Hndl).
    apply Forall_cons in Hpr as [Hlevel Hpr]. simpl in Hlevel.
    pose proof (matchQueue_filledFrom _ _ _ _ _ _ Hq) as Hf.
    destruct (matchQueue_account _ _ _ _ _ _ _ Hq Hpq Hndq Ho)
      as (o1 & new1 & Ho1 & Htr1 & Hacc1 & Hpas1 & _).
    destruct (matchQueue_shape _ _ _ _ _ _ _ Hq Ho)
      as (erased & partial & new' & Hsplit & _ & _ & _ & _ & Hdone & _).
    rewrite app_nil_r in Hsplit. subst erased.
    assert (totalRemaining (OrderBook.sw_heap s1) (PriceLevel.queue level) = 0%N)
      as Hzero.
    { apply totalRemaining_zero. unfold PriceLevel.queue. by rewrite Forall_fmap. }
    assert (totalRemaining (OrderBook.sw_heap s1) (resting (take k levels))
            = totalRemaining (OrderBook.sw_heap s) (resting (take k levels)))
      as Hsame.
    { apply totalRemaining_ext. intros q Hin.
      assert (q ∈ resting levels) as Hin'.
      { rewrite <- (take_drop k levels), resting_app. apply elem_of_app. by left. }
      eapply matchQueue_frame; [exact Hq| |].
      - intros ->. done.
      - intros Hqq. by apply (Hdisj q). }
    change (take (S k) ((price, level) :: levels))
      with ((price, level) :: take k levels) in Hle.
    rewrite resting_cons, totalRemaining_app in Hle.
    destruct (IH o1 k Ho1) as (o' & new & Ho' & Hz & Htr & Hall).
    {
      destruct (filledFrom_lookup _ _ _ _ Hf Ho) as (o2 & Ho2 & Hfills).
      rewrite Ho1 in Ho2. injection Ho2 as <-.
      apply fills_static in Hfills as (_&_&_&Hty'&_). congruence. }
    { done. } { done. } { by eapply pricedAt_filledFrom. }
    { rewrite Hsame. unfold PriceLevel.queue in *. lia. }
    exists o', (new1 ++ new). split; [done|]. split; [done|].
    split. { rewrite Htr, Htr1. by rewrite app_assoc. }
    apply Forall_app. split.
    + pose proof (matchQueue_prices _ _ _ _ _ _ _ _ _ Hq Ho Hlevel Htr1) as Hp1.
      eapply Forall_impl; [exact Hp1|]. intros t ->.
      rewrite keys_take_cons. apply list_elem_of_here.
    + eapply Forall_impl; [exact Hall|]. intros t Ht.
      rewrite keys_take_cons. by apply list_elem_of_further.
  - intros price level levels s o orders s1 Ho Hpos _ Hq Hne o0 k Ho0 Hty
      Hp Hnd Hpr Hle.
    simplify_eq. destruct k as [|k]; [simpl in Hle; lia|].
    rewrite resting_cons in Hp, Hnd. apply not_elem_of_app in Hp as [Hpq Hpl].
    apply NoDup_app in Hnd as (Hndq & Hdisj & Hndl).
    apply Forall_cons in Hpr as [Hlevel Hpr]. simpl in Hlevel.
    destruct (matchQueue_account _ _ _ _ _ _ _ Hq Hpq Hndq Ho)
      as (o1 & new1 & Ho1 & Htr1 & _).
    destruct (matchQueue_exhausts _ _ _ _ _ _ Hq) as [?|(o2 & Ho2 & Hz)]; [done|].
    rewrite Ho1 in Ho2. injection Ho2 as <-.
    exists o1, new1. split_and!; [done..|].
    pose proof (matchQueue_prices _ _ _ _ _ _ _ _ _ Hq Ho Hlevel Htr1) as Hp1.
    eapply Forall_impl; [exact Hp1|]. intros t ->.
    rewrite keys_take_cons. apply list_elem_of_here.
Qed.

Lemma canFill_loop o b :
  canFill o b
  = OrderBook.canFillLoop (tooFarOf (Order.side_ o)) o
      (opposite (Order.side_ o) b) 0.
Proof. unfold canFill. by destruct (Order.side_ o). Qed.

(** Fill-or-kill on a side whose aggregates are exact: with enough resting
    within the limit the order is filled completely, within its limit;
    otherwise it is refused and nothing else changes. *)
Lemma matchOrder_fok p h b trades h' b' o symbol :
  OrderBook.matchOrder p h b = Some (trades, h', b') →
  h !! p = Some o → Order.type_ o = FOK →
  (0 < Order.remainingQuantity_ o)%N →
  bookOk h symbol b → p ∉ allResting b →
  consistentLevels h (opposite (Order.side_ o) b) →
  (totalRemaining h (resting (opposite (Order.side_ o) b)) < two64)%N →
  ((Order.remainingQuantity_ o
    ≤ available h (Order.side_ o) (Order.price_ o) b)%N →
   ∃ o', h' !! p = Some o'
         ∧ rtc fillStep o o'
         ∧ Order.remainingQuantity_ o' = 0%N
         ∧ tradedQuantity trades = Order.remainingQuantity_ o
         ∧ Forall (λ t, withinLimit (Order.side_ o) (Order.price_ o)
                          (Trade.price_ t)) trades)
  ∧ ((available h (Order.side_ o) (Order.price_ o) b
      < Order.remainingQuantity_ o)%N →
     trades = [] ∧ h' = <[p := Order.setStatus CANCELLED o]> h ∧ b' = b).
Proof.
  intros Hrun Ho Hty Hpos Hok Hp Hc Hb.
  apply (bookOk_sides (Order.side_ o)) in Hok as (_ & Hopp & Hnd & _).
  apply NoDup_app in Hnd as (_ & _ & Hnd).
  rewrite (allResting_sides (Order.side_ o)) in Hp.
  apply not_elem_of_app in Hp as [_ Hp].
  pose proof Hopp as [Hsorted _].
  pose proof (canFillLoop_spec h _ o _ 0%N eq_refl Hty Hsorted Hc) as Hspec.
  rewrite <- canFill_loop in Hspec. rewrite !N.add_0_l in Hspec.
  specialize (Hspec Hb Hpos).
  fold (available h (Order.side_ o) (Order.price_ o) b) in Hspec.
  apply matchOrder_inv in Hrun as (o0 & Ho0 & Hcase).
  rewrite Ho in Ho0. injection Ho0 as <-.
  destruct Hcase as [(_ & Hcan & -> & -> & ->)|(fe & hs & bs & os & Hx & Hps & Hcase)].
  - rewrite Hcan in Hspec. symmetry in Hspec.
    apply bool_decide_eq_false in Hspec. split; [intros; lia|done].
  - destruct Hcase as [([Hm|Hm] & _)|[(_ & Hcan & -> & ->)|([Hm|[Hm|Hm]] & _)]];
      try congruence.
    rewrite Hcan in Hspec. symmetry in Hspec. apply bool_decide_eq_true in Hspec.
    split; [intros _|intros; lia].
    destruct (executeMatches_lookup _ _ _ _ _ _ _ _ Hx Ho) as (os' & Hps' & Hfills).
    rewrite Hps in Hps'. injection Hps' as <-.
    apply executeMatches_inv in Hx as (o0 & levels' & s' & Ho0 & Hl & -> & -> & _).
    rewrite Ho in Ho0. injection Ho0 as <-.
    destruct (withinLevels_take (Order.side_ o) (Order.price_ o) _ Hsorted)
      as [k Hk].
    unfold available in Hspec. rewrite Hk in Hspec.
    destruct (matchLevels_enough _ _ _ _ _ _ _ _ k Hl Ho) as (o' & new & Ho' & Hz & Htr & Hall).
    { congruence. } { done. } { done. } { by eapply sideOk_pricedAt. } { done. }
    destruct (matchLevels_account _ _ _ _ _ _ _ _ Hl Hp Hnd Ho)
      as (o'' & new' & Ho'' & Htr' & Hacc & _).
    simpl in Htr, Htr'. rewrite Ho' in Ho''. injection Ho'' as <-.
    rewrite Htr in Htr'. subst new'.
    rewrite Hps in Ho'. injection Ho' as <-.
    exists os. split; [done|]. split; [done|]. split; [done|].
    split; [rewrite Htr; lia|].
    rewrite Htr. eapply Forall_impl; [exact Hall|]. intros t Ht. simpl in Ht.
    rewrite <- Hk in Ht. unfold keys, withinLevels in Ht.
    apply list_elem_of_fmap in Ht as ([price l] & -> & Hin).
    by apply list_elem_of_filter in Hin as [Hin _].
Qed.


(** * Aggregates stay exact as long as nothing trades *)

(** ** Levels *)

Lemma set_Forall (P : Price * PriceLevel.t → Prop) comp price l m :
  P (price, l) → Forall P m → Forall P (Levels.set comp price l m).
Proof.
  intros Hl. induction m as [|[k l'] m IH]; intros Hm; simpl.
  - by constructor.
  - apply Forall_cons in Hm as [Hk Hm].
    destruct (Z.eqb_spec price k) as [->|Hne]; [by constructor|].
    destruct (comp price k); constructor; try done.
    + by constructor.
    + by apply IH.
Qed.

Lemma erase_Forall (P : Price * PriceLevel.t → Prop) price m :
  Forall P m → Forall P (Levels.erase price m).
Proof.
  intros Hm. rewrite Forall_forall in *.
  intros kl Hkl. apply Hm. by eapply erase_subseteq.
Qed.

Lemma find_Forall (P : Price * PriceLevel.t → Prop) price m l :
  Forall P m → Levels.find price m = Some l → P (price, l).
Proof.
  intros Hm Hf. rewrite Forall_forall in Hm. by apply Hm, find_Some_elem.
Qed.

Lemma sub64_exact a b : (b ≤ a)%N → (a < two64)%N → sub64 a b = (a - b)%N.
Proof.
  intros Hle Ha. unfold sub64. rewrite (N.mod_small b) by lia.
  replace (a + two64 - b)%N with (a - b + 1 * two64)%N by lia.
  rewrite N.Div0.mod_add. apply N.mod_small. lia.
Qed.

(** The node an iterator designates is the first one with its identity,
    and it is the one [erase] takes out. *)
Lemma deref_eraseNode n q orders :
  PriceLevel.deref n orders = Some q →
  ∃ o1 o2, orders = o1 ++ (n, q) :: o2 ∧ PriceLevel.eraseNode n orders = o1 ++ o2.
Proof.
  induction orders as [|[n' q'] orders IH]; simpl; [done|].
  destruct (decide (n = n')) as [->|Hne].
  - intros [= ->]. by exists [], orders.
  - intros Hd. destruct (IH Hd) as (o1 & o2 & -> & Heq).
    exists ((n', q') :: o1), o2. split; [done|]. simpl. by rewrite Heq.
Qed.

Lemma exactLevel_queue h l :
  exactLevel h l ↔
  PriceLevel.totalQuantity_ l = totalRemaining h (PriceLevel.orders_ l).*2
  ∧ (PriceLevel.totalQuantity_ l < two64)%N.
Proof. done. Qed.

Lemma removeOrder_exact orderId h l l' :
  exactLevel h l → PriceLevel.removeOrder orderId h l = Some l' →
  exactLevel h l'
  ∧ (PriceLevel.totalQuantity_ l' ≤ PriceLevel.totalQuantity_ l)%N.
Proof.
  unfold PriceLevel.removeOrder. intros Hl H.
  destruct (PriceLevel.orderMap_ l !! orderId) as [it|];
    [|simplify_eq; split; [done|lia]].
  destruct (PriceLevel.deref it (PriceLevel.orders_ l)) as [p|] eqn:Hd; [|done].
  cbn in H. destruct (h !! p) as [o|] eqn:Ho; [|done]. cbn in H.
  injection H as <-.
  destruct (deref_eraseNode _ _ _ Hd) as (o1 & o2 & Horders & Herase).
  destruct (proj1 (exactLevel_queue h l) Hl) as [Hc Hb].
  rewrite exactLevel_queue. simpl.
  rewrite Herase. rewrite Horders in Hc.
  rewrite fmap_app, totalRemaining_app in *. rewrite fmap_cons in Hc.
  change (totalRemaining h ((it, p).2 :: o2.*2))
    with (remainingOf h p + totalRemaining h o2.*2)%N in Hc.
  unfold remainingOf in Hc. rewrite Ho in Hc. simpl in Hc.
  rewrite sub64_exact by lia. lia.
Qed.

Lemma removeOrderAt_exact comp price orderId h m m' :
  exactLevels h m →
  Levels.removeOrderAt comp price orderId h m = Some m' →
  exactLevels h m'.
Proof.
  intros Hm H. apply removeOrderAt_inv in H as [[_ ->]|(l & l' & Hf & Hrem & ->)];
    [done|].
  pose proof (find_Forall _ _ _ _ Hm Hf) as Hl. simpl in Hl.
  destruct (removeOrder_exact _ _ _ _ Hl Hrem) as [Hl' _].
  destruct (PriceLevel.isEmpty l'); [by apply erase_Forall|].
  by apply (set_Forall (λ kl, exactLevel h kl.2)).
Qed.

Lemma removeOrderAt_room comp price orderId h m m' quantity :
  exactLevels h m → roomLevels quantity m →
  Levels.removeOrderAt comp price orderId h m = Some m' →
  roomLevels quantity m'.
Proof.
  intros Hm Hroom H.
  apply removeOrderAt_inv in H as [[_ ->]|(l & l' & Hf & Hrem & ->)]; [done|].
  pose proof (find_Forall _ _ _ _ Hm Hf) as Hl. simpl in Hl.
  pose proof (find_Forall _ _ _ _ Hroom Hf) as Hr. simpl in Hr.
  destruct (removeOrder_exact _ _ _ _ Hl Hrem) as [_ Hle].
  destruct (PriceLevel.isEmpty l'); [by apply erase_Forall|].
  apply (set_Forall (λ kl, (PriceLevel.totalQuantity_ kl.2 + quantity < two64)%N));
    [simpl; lia|done].
Qed.

Lemma addOrderAt_exact comp price p h m m' o :
  exactLevels h m → h !! p = Some o →
  (Order.remainingQuantity_ o < two64)%N →
  roomLevels (Order.remainingQuantity_ o) m →
  Levels.addOrderAt comp price p h m = Some m' →
  exactLevels h m'.
Proof.
  intros Hm Ho Hq Hroom H.
  unfold Levels.addOrderAt, PriceLevel.addOrder in H. rewrite Ho in H.
  cbn in H. injection H as <-.
  apply (set_Forall (λ kl, exactLevel h kl.2)); [|done]. simpl.
  assert (exactLevel h (Levels.at_ price m)
          ∧ (PriceLevel.totalQuantity_ (Levels.at_ price m)
             + Order.remainingQuantity_ o < two64)%N) as [Hl Hr].
  { unfold Levels.at_. destruct (Levels.find price m) as [l|] eqn:Hf; simpl.
    - split; [apply (find_Forall _ _ _ _ Hm Hf)|apply (find_Forall _ _ _ _ Hroom Hf)].
    - split; [by split|lia]. }
  destruct (proj1 (exactLevel_queue h _) Hl) as [Hc Hb].
  apply exactLevel_queue. simpl.
  rewrite wrap64_small by done. split; [|done].
  rewrite fmap_app, totalRemaining_app.
  change (totalRemaining h [(PriceLevel.nextNode_ (Levels.at_ price m), p)].*2)
    with (remainingOf h p + 0)%N.
  unfold remainingOf. rewrite Ho. simpl. lia.
Qed.

Lemma exactLevels_ext (h h' : Heap) m :
  (∀ q, q ∈ resting m → remainingOf h' q = remainingOf h q) →
  exactLevels h m → exactLevels h' m.
Proof.
  intros Hsame Hm. unfold exactLevels in *. rewrite Forall_forall in *.
  intros kl Hkl. destruct (Hm _ Hkl) as [Hc Hb]. split; [|done].
  unfold aggregateConsistent in *. rewrite Hc.
  unfold queueRemaining.
  assert (∀ l, (∀ q, q ∈ l → q ∈ resting m) →
               foldr (λ p acc, (remainingOf h p + acc)%N) 0%N l
               = foldr (λ p acc, (remainingOf h' p + acc)%N) 0%N l) as Hl.
  { induction l as [|q l IH]; intros Hin; simpl; [done|].
    rewrite Hsame by (apply Hin, list_elem_of_here).
    rewrite IH; [done|]. intros q' Hq'. by apply Hin, list_elem_of_further. }
  apply Hl. intros q Hq. unfold resting. apply list_elem_of_bind. by exists kl.
Qed.

Lemma remainingOf_setStatus (h : Heap) p o st q :
  h !! p = Some o →
  remainingOf (<[p := Order.setStatus st o]> h) q = remainingOf h q.
Proof.
  intros Ho. unfold remainingOf. destruct (decide (q = p)) as [->|Hne].
  - rewrite list_lookup_insert_eq by (by eapply lookup_lt_Some). by rewrite Ho.
  - by rewrite list_lookup_insert_ne.
Qed.

(** ** A sweep that makes no trade changes nothing *)

Lemma matchQueue_trades sym p orders s orders' s' :
  OrderBook.matchQueue sym p orders s = Some (orders', s') →
  ∃ new,
    OrderBook.sw_trades s' = OrderBook.sw_trades s ++ new
    ∧ (orders ≠ [] →
       (∃ o, OrderBook.sw_heap s !! p = Some o ∧ (0 < Order.remainingQuantity_ o)%N) →
       new ≠ []).
Proof.
  intros H. queue_induction H.
  - intros s. exists []. by rewrite app_nil_r.
  - intros n q orders s o Ho Hz. exists []. rewrite app_nil_r. split; [done|].
    intros _ (o' & Ho' & Hpos). simplify_eq. lia.
  - intros n q orders s o m m1 orders' s' _ _ _ _ _ _ (new & Htr & _).
    exists (tradeOf sym o m :: new). split; [|done].
    rewrite Htr. simpl. by rewrite <- app_assoc.
  - intros n q orders s o m m1 orders' s' _ _ _ _ _ _ (new & Htr & _).
    exists (tradeOf sym o m :: new). split; [|done].
    rewrite Htr. simpl. by rewrite <- app_assoc.
Qed.

Lemma matchLevels_quiet tooFar sym p levels s levels' s' :
  OrderBook.matchLevels tooFar sym p levels s = Some (levels', s') →
  noEmptyLevel levels →
  ∃ new,
    OrderBook.sw_trades s' = OrderBook.sw_trades s ++ new
    ∧ (new = [] → levels' = levels ∧ s' = s).
Proof.
  intros H. levels_induction H.
  - intros s _. exists []. by rewrite app_nil_r.
  - intros price level levels s o _ _ _. exists []. by rewrite app_nil_r.
  - intros price level levels s o _ _ _ _ _. exists []. by rewrite app_nil_r.
  - intros price level levels s o s1 levels' s' Ho Hpos _ Hq _ IH Hne.
    apply Forall_cons in Hne as [Hl Hne]. simpl in Hl.
    destruct (matchQueue_trades _ _ _ _ _ _ Hq) as (new1 & Htr1 & Hnew1).
    destruct (IH Hne) as (new2 & Htr2 & _).
    exists (new1 ++ new2). split; [by rewrite Htr2, Htr1, app_assoc|].
    intros Hnil. apply app_eq_nil in Hnil as [Hnil _]. exfalso.
    apply Hnew1; [|by eauto|done].
    unfold PriceLevel.isEmpty in Hl. by destruct (PriceLevel.orders_ level).
  - intros price level levels s o orders s1 Ho Hpos _ Hq _ Hne.
    apply Forall_cons in Hne as [Hl Hne]. simpl in Hl.
    destruct (matchQueue_trades _ _ _ _ _ _ Hq) as (new1 & Htr1 & Hnew1).
    exists new1. split; [done|]. intros Hnil. exfalso.
    apply Hnew1; [|by eauto|done].
    unfold PriceLevel.isEmpty in Hl. by destruct (PriceLevel.orders_ level).
Qed.

Lemma setOpposite_same side b :
  OrderBook.setOrderMap (OrderBook.orderMap_ b) (setOpposite side (opposite side b) b)
  = b.
Proof. by destruct b, side. Qed.

Lemma executeMatches_quiet p fe h b hs bs :
  OrderBook.executeMatches p fe h b = Some ([], hs, bs) →
  noEmptyBook b → hs = h ∧ bs = b.
Proof.
  intros Hx Hne.
  apply executeMatches_inv in Hx as (o & levels' & s' & Ho & Hl & Htr & -> & ->).
  apply (noEmptyBook_sides (Order.side_ o)) in Hne as [_ Hne].
  destruct (matchLevels_quiet _ _ _ _ _ _ _ Hl Hne) as (new & Hnew & Hsame).
  simpl in Hnew. rewrite <- Htr in Hnew. subst new.
  destruct (Hsame eq_refl) as [-> ->]. simpl. split; [done|].
  apply setOpposite_same.
Qed.

(** ** Books *)

Lemma exactBook_sides side h b :
  exactBook h b ↔
  exactLevels h (ownSide side b) ∧ exactLevels h (opposite side b).
Proof. unfold exactBook. destruct side; simpl; tauto. Qed.

Lemma roomBook_sides side quantity b :
  roomBook quantity b ↔
  roomLevels quantity (ownSide side b) ∧ roomLevels quantity (opposite side b).
Proof. unfold roomBook. destruct side; simpl; tauto. Qed.

Lemma exactBook_ext (h h' : Heap) b :
  (∀ q, q ∈ allResting b → remainingOf h' q = remainingOf h q) →
  exactBook h b → exactBook h' b.
Proof.
  intros Hsame [Hb Ha].
  split; (eapply exactLevels_ext; [|done]); intros q Hq; apply Hsame;
    unfold allResting; apply elem_of_app; [by left|by right].
Qed.

Lemma exactBook_new h symbol : exactBook h (OrderBook.new symbol).
Proof. split; constructor. Qed.

Lemma remainingOf_ne (h : Heap) p o q :
  q ≠ p → remainingOf (<[p := o]> h) q = remainingOf h q.
Proof. intros Hne. unfold remainingOf. by rewrite list_lookup_insert_ne. Qed.

(** [matchOrder] with no trade: the store changes at the incoming order
    at most, and the aggregates stay exact. *)
Lemma matchOrder_exact p h b h' b' o :
  OrderBook.matchOrder p h b = Some ([], h', b') →
  h !! p = Some o →
  noEmptyBook b → p ∉ allResting b →
  exactBook h b →
  (Order.remainingQuantity_ o < two64)%N →
  roomBook (Order.remainingQuantity_ o) b →
  exactBook h' b' ∧ ∀ q, q ≠ p → h' !! q = h !! q.
Proof.
  intros Hrun Ho Hne Hp Hex Hq Hroom.
  apply matchOrder_inv in Hrun as (o0 & Ho0 & Hcase).
  rewrite Ho in Ho0. injection Ho0 as <-.
  destruct Hcase as [(_ & _ & _ & -> & ->)|(fe & hs & bs & os & Hx & Hps & Hcase)].
  { split.
    - eapply exactBook_ext; [|done]. intros q _. by apply remainingOf_setStatus.
    - intros q Hqp. by rewrite list_lookup_insert_ne. }
  destruct (executeMatches_quiet _ _ _ _ _ _ Hx Hne) as [-> ->].
  rewrite Ho in Hps. injection Hps as <-.
  destruct Hcase as [(_ & -> & ->)|[(_ & _ & -> & ->)|(_ & -> & Hrest)]].
  - split.
    + eapply exactBook_ext; [|done]. intros q _.
      by apply cancelledIfUnfilled_remaining.
    + intros q Hqp. by apply cancelledIfUnfilled_lookup_ne.
  - done.
  - split; [|done]. destruct Hrest as [(_ & _ & Hrested)|[_ ->]]; [|done].
    unfold rested in Hrested.
    destruct (Levels.addOrderAt _ _ _ _ _) as [levels|] eqn:Hadd; [|done].
    cbn in Hrested. injection Hrested as <-.
    apply (exactBook_sides (Order.side_ o)) in Hex as [Hown Hopp].
    apply (roomBook_sides (Order.side_ o)) in Hroom as [Hroom _].
    apply (exactBook_sides (Order.side_ o)).
    rewrite ownSide_setOwnSide, opposite_setOwnSide. split; [|done].
    eapply addOrderAt_exact; [exact Hown|exact Ho|exact Hq|exact Hroom|exact Hadd].
Qed.

(** [cancelOrder] keeps the aggregates exact. *)
Lemma cancelOrder_exact orderId h b r h' b' :
  OrderBook.cancelOrder orderId h b = Some (r, h', b') →
  exactBook h b → exactBook h' b'.
Proof.
  intros Hrun Hex.
  apply cancelOrder_inv in Hrun
    as [(_ & _ & -> & ->)|(p & o & levels' & _ & Ho & _ & -> & Hrem & ->)]; [done|].
  assert (exactBook (<[p := Order.setStatus CANCELLED o]> h) b) as Hex'.
  { eapply exactBook_ext; [|done]. intros q _. by apply remainingOf_setStatus. }
  apply (exactBook_sides (Order.side_ o)) in Hex' as [Hown Hopp].
  apply (exactBook_sides (Order.side_ o)).
  rewrite ownSide_setOwnSide, opposite_setOwnSide. split; [|done].
  eapply removeOrderAt_exact; [exact Hown|exact Hrem].
Qed.

(** [modifyOrder] keeps the aggregates exact when no aggregate wraps around
    under the new quantity. *)
Lemma modifyOrder_exact orderId newPrice newQuantity h b r h' b' symbol :
  OrderBook.modifyOrder orderId newPrice newQuantity h b = Some (r, h', b') →
  bookOk h symbol b → idsDistinct h →
  exactBook h b →
  (newQuantity < two64)%N → roomBook newQuantity b →
  exactBook h' b'.
Proof.
  intros Hrun Hok Hids Hex Hq Hroom.
  apply modifyOrder_inv in Hrun
    as [(_ & _ & -> & ->)|(p & o & m1 & m2 & Hidx & Ho & _ & -> & Hrem & Hadd & ->)];
    [done|].
  destruct (bookOk_indexed _ _ _ _ _ Hok Hidx) as (o' & Ho' & Hid & _ & _ & Hin).
  rewrite Ho in Ho'. injection Ho' as <-.
  apply (bookOk_sides (Order.side_ o)) in Hok as (Hown & _ & Hnd & _).
  pose proof Hnd as Hnd0. apply NoDup_app in Hnd as (Hndo & Hdisj & _).
  destruct (removeOrderAt_sideOk h h symbol _ _ _ p o Hown Hids Hndo Ho Hin)
    as (m' & r1 & r2 & Hrem' & _ & Hsplit & Hsplit').
  { by eapply lookup_lt_Some. }
  rewrite Hid, Hrem in Hrem'. injection Hrem' as <-.
  assert (p ∉ resting m1) as Hp1.
  { rewrite Hsplit'. rewrite Hsplit in Hndo.
    apply NoDup_app in Hndo as (_ & Hd1 & Hd2). apply NoDup_cons in Hd2 as [Hd2 _].
    intros Hp. apply elem_of_app in Hp as [Hp|Hp]; [|done].
    apply (Hd1 _ Hp). apply list_elem_of_here. }
  assert (p ∉ resting (opposite (Order.side_ o) b)) as Hp2 by (by apply Hdisj).
  apply (exactBook_sides (Order.side_ o)) in Hex as [Hexo Hexp].
  apply (roomBook_sides (Order.side_ o)) in Hroom as [Hroom _].
  apply (exactBook_sides (Order.side_ o)).
  rewrite ownSide_setOwnSide, opposite_setOwnSide. split.
  - eapply (addOrderAt_exact _ _ _ _ _ _ (modified newPrice newQuantity o));
      [| | | |exact Hadd].
    + eapply exactLevels_ext; [|eapply removeOrderAt_exact; [exact Hexo|exact Hrem]].
      intros q Hq1. apply remainingOf_ne. by intros ->.
    + apply list_lookup_insert_eq. by eapply lookup_lt_Some.
    + done.
    + eapply removeOrderAt_room; [exact Hexo|exact Hroom|exact Hrem].
  - eapply exactLevels_ext; [|done]. intros q Hq1. apply remainingOf_ne.
    by intros ->.
Qed.

(** ** The engine *)

Lemma submitOrder_exact symbol side type price quantity clientId stopPrice
    h e orderId h' e' :
  reachable h e → exactAggregates h e → roomFor quantity e →
  MatchingEngineCore.submitOrder symbol side type price quantity clientId
    stopPrice h e = Some (orderId, [], h', e') →
  exactAggregates h' e'.
Proof.
  intros Hr Hex [Hq Hroom] Hrun. pose proof (reachable_engineOk _ _ Hr) as He.
  pose proof (reachable_engineRests _ _ Hr) as Hrests.
  destruct (submitOrder_inv _ _ _ _ _ _ _ _ _ _ _ _ _ He Hrun)
    as (o0 & b & b' & Ho0 & Hb & Hid & Hm & Hp & Hbooks & Hok & Hids & Hfilled
        & Hrest & Hh1).
  assert (Order.remainingQuantity_ o0 = quantity) as Hrem by (by rewrite Ho0).
  assert (length h ∉ allResting b) as Hnew.
  { intros Hin. destruct (Hrest _ Hin) as (o & Hoq & _).
    apply lookup_lt_Some in Hoq. lia. }
  assert (∀ q o, h !! q = Some o → remainingOf (h ++ [o0]) q = remainingOf h q)
    as Hsame.
  { intros q o Hoq. unfold remainingOf. by rewrite (Hh1 _ _ Hoq), Hoq. }
  assert (exactBook (h ++ [o0]) b ∧ roomBook quantity b ∧ noEmptyBook b)
    as (Hexb & Hroomb & Hneb).
  { rewrite Hb. unfold MatchingEngineCore.getOrCreateOrderBook.
    destruct (MatchingEngineCore.orderBooks_ e !! symbol) as [b0|] eqn:Hb0; simpl.
    - split; [|split; [by eapply Hroom|by eapply Hrests]].
      eapply exactBook_ext; [|by eapply Hex]. intros q Hin.
      destruct (Hrest q) as (o & Hoq & _).
      { rewrite Hb. unfold MatchingEngineCore.getOrCreateOrderBook.
        by rewrite Hb0. }
      by eapply Hsame.
    - split; [apply exactBook_new|]. split; split; constructor. }
  rewrite <- Hrem in Hq, Hroomb.
  destruct (matchOrder_exact _ _ _ _ _ _ Hm Hp Hneb Hnew Hexb Hq Hroomb)
    as [Hex' Hframe].
  intros symbol2 b2 Hb2. rewrite Hbooks in Hb2.
  destruct (decide (symbol2 = symbol)) as [->|Hne].
  { rewrite lookup_insert_eq in Hb2. by injection Hb2 as <-. }
  rewrite lookup_insert_ne in Hb2 by done.
  eapply exactBook_ext; [|by eapply Hex]. intros q Hin.
  destruct He as (_ & _ & _ & _ & _ & Hoks).
  destruct (bookOk_resting _ _ _ _ (Hoks _ _ Hb2) Hin) as (o & Hoq & _).
  unfold remainingOf. rewrite Hframe.
  - by rewrite (Hh1 _ _ Hoq), Hoq.
  - apply lookup_lt_Some in Hoq. lia.
Qed.

Lemma cancelOrder_engine_exact orderId h e r h' e' :
  reachable h e → exactAggregates h e →
  MatchingEngineCore.cancelOrder orderId h e = Some (r, h', e') →
  exactAggregates h' e'.
Proof.
  intros Hr Hex Hrun. pose proof (reachable_engineOk _ _ Hr) as He.
  destruct (cancelOrder_engine_inv _ _ _ _ _ _ He Hrun)
    as [(_ & _ & -> & ->)
       |(symbol & book & book' & p & o & _ & Hbook & _ & Hc & Ho & _ & _ & _ & _
         & Hh' & Hbooks & _)]; [done|].
  intros symbol2 b2 Hb2. rewrite Hbooks in Hb2.
  destruct (decide (symbol2 = symbol)) as [->|Hne].
  { rewrite lookup_insert_eq in Hb2. injection Hb2 as <-.
    eapply cancelOrder_exact; [exact Hc|]. by eapply Hex. }
  rewrite lookup_insert_ne in Hb2 by done.
  eapply exactBook_ext; [|by eapply Hex]. intros q _. rewrite Hh'.
  by apply remainingOf_setStatus.
Qed.

Lemma modifyOrder_engine_exact orderId newPrice newQuantity h e r h' e' :
  reachable h e → exactAggregates h e → roomFor newQuantity e →
  MatchingEngineCore.modifyOrder orderId newPrice newQuantity h e
    = Some (r, h', e') →
  exactAggregates h' e'.
Proof.
  intros Hr Hex [Hq Hroom] Hrun. pose proof (reachable_engineOk _ _ Hr) as He.
  destruct (modifyOrder_engine_inv _ _ _ _ _ _ _ _ He Hrun)
    as [(_ & _ & -> & ->)
       |(symbol & book & book' & p & o & _ & Hbook & _ & Hc & Ho & _ & Hsym & _ & _
         & Hh' & Hbooks & _)]; [done|].
  pose proof He as (_ & _ & _ & _ & _ & Hoks).
  intros symbol2 b2 Hb2. rewrite Hbooks in Hb2.
  destruct (decide (symbol2 = symbol)) as [->|Hne].
  { rewrite lookup_insert_eq in Hb2. injection Hb2 as <-.
    eapply modifyOrder_exact; [exact Hc|by eapply Hoks|by eapply engineOk_ids
                              |by eapply Hex|done|by eapply Hroom]. }
  rewrite lookup_insert_ne in Hb2 by done.
  eapply exactBook_ext; [|by eapply Hex]. intros q Hin. rewrite Hh'.
  apply remainingOf_ne. intros ->.
  destruct (bookOk_resting _ _ _ _ (Hoks _ _ Hb2) Hin) as (o' & Ho' & _ & Hsym' & _).
  congruence.
Qed.


(** * The character arrays of the messages *)

Lemma untilNul_no_nul a : CharArray.NUL ∉ CharArray.untilNul a.
Proof.
  induction a as [|c a IH]; simpl; [apply not_elem_of_nil|].
  destruct (decide (c = CharArray.NUL)) as [->|Hne]; [apply not_elem_of_nil|].
  apply not_elem_of_cons. by split.
Qed.

Lemma untilNul_length a : length (CharArray.untilNul a) ≤ length a.
Proof.
  induction a as [|c a IH]; simpl; [done|].
  destruct (decide (c = CharArray.NUL)); simpl; lia.
Qed.

Lemma untilNul_id a : CharArray.NUL ∉ a → CharArray.untilNul a = a.
Proof.
  induction a as [|c a IH]; simpl; [done|]. intros Hn.
  apply not_elem_of_cons in Hn as [Hc Ha].
  destruct (decide (c = CharArray.NUL)); [done|]. by rewrite IH.
Qed.

Lemma untilNul_app x y :
  CharArray.NUL ∉ x → CharArray.untilNul (x ++ CharArray.NUL :: y) = x.
Proof.
  induction x as [|c x IH]; simpl.
  - intros _. by destruct (decide (CharArray.NUL = CharArray.NUL)).
  - intros Hn. apply not_elem_of_cons in Hn as [Hc Hx].
    destruct (decide (c = CharArray.NUL)); [done|]. by rewrite IH.
Qed.

(** With a NUL in the array, the C string is shorter than the array. *)
Lemma untilNul_shorter a :
  CharArray.NUL ∈ a → length (CharArray.untilNul a) < length a.
Proof.
  induction a as [|c a IH]; simpl; [by intros H; apply elem_of_nil in H|].
  intros Hin. destruct (decide (c = CharArray.NUL)); simpl; [lia|].
  apply elem_of_cons in Hin as [Heq|Hin]; [done|]. apply IH in Hin. lia.
Qed.

Lemma chars_length s : length (chars s) = String.length s.
Proof. induction s as [|c s IH]; simpl; [done|]. by rewrite IH. Qed.

(** What [strncpy] leaves in a terminated array. *)
Lemma strncpy_shape size a s :
  terminated size a →
  ∃ pad,
    CharArray.strncpy a s (size - 1)
    = take (size - 1) (CharArray.untilNul (chars s))
      ++ CharArray.NUL :: replicate pad CharArray.NUL
    ∧ length (take (size - 1) (CharArray.untilNul (chars s))) + S pad = size.
Proof.
  intros [Hlen Hlast]. apply last_Some in Hlast as [a' ->].
  rewrite length_app in Hlen. simpl in Hlen.
  unfold CharArray.strncpy. fold (chars s).
  set (src := take (size - 1) (CharArray.untilNul (chars s))).
  assert (length src ≤ size - 1) as Hsrc by (unfold src; rewrite length_take; lia).
  exists (size - 1 - length src). split; [|lia].
  rewrite drop_app_length' by lia. f_equal.
  change (CharArray.NUL :: replicate (size - 1 - length src) CharArray.NUL)
    with (replicate (S (size - 1 - length src)) CharArray.NUL).
  by rewrite replicate_S_end.
Qed.

Lemma strncpy_terminated size a s :
  terminated size a → terminated size (CharArray.strncpy a s (size - 1)).
Proof.
  intros Ha. destruct (strncpy_shape size a s Ha) as (pad & -> & Hlen).
  split.
  - rewrite length_app. simpl. rewrite length_replicate. lia.
  - change (CharArray.NUL :: replicate pad CharArray.NUL)
      with (replicate (S pad) CharArray.NUL).
    rewrite replicate_S_end, app_assoc. apply last_snoc.
Qed.

Lemma strncpy_toString size a s :
  terminated size a →
  CharArray.toString (CharArray.strncpy a s (size - 1)) = Some (truncated size s).
Proof.
  intros Ha. destruct (strncpy_shape size a s Ha) as (pad & -> & Hlen).
  unfold CharArray.toString. rewrite decide_True.
  - rewrite untilNul_app; [done|].
    intros Hin. apply elem_of_take in Hin as (i & Hin & _).
    apply list_elem_of_lookup_2 in Hin. by apply untilNul_no_nul in Hin.
  - apply elem_of_app. right. apply list_elem_of_here.
Qed.

Lemma zeroed_terminated size : 0 < size → terminated size (CharArray.zeroed size).
Proof.
  intros Hpos. unfold CharArray.zeroed. split; [apply length_replicate|].
  destruct size as [|size]; [lia|]. rewrite replicate_S_end. apply last_snoc.
Qed.

(** A string with no NUL that fits is kept as it is. *)
Lemma truncated_fits size s :
  String.length s < size → CharArray.NUL ∉ chars s → truncated size s = s.
Proof.
  intros Hlen Hn. unfold truncated. rewrite untilNul_id by done.
  rewrite take_ge by (rewrite chars_length; lia).
  apply String.string_of_list_ascii_of_string.
Qed.

(** What [std::string(a)] reads from an array is kept as it is by an array
    of the same size. *)
Lemma toString_fits size a s :
  length a = size → CharArray.toString a = Some s → truncated size s = s.
Proof.
  intros Hlen Hs. unfold CharArray.toString in Hs.
  destruct (decide (CharArray.NUL ∈ a)) as [Hin|]; [|done]. injection Hs as <-.
  unfold truncated, chars. rewrite String.list_ascii_of_string_of_list_ascii.
  rewrite untilNul_id by apply untilNul_no_nul.
  rewrite take_ge; [done|]. apply untilNul_shorter in Hin. lia.
Qed.


(** * What the server reads from the order it submitted *)

Lemma fill_pendingUntilFilled q o :
  pendingUntilFilled o → pendingUntilFilled (Order.fill q o).
Proof.
  intros [Hle Hst]. unfold pendingUntilFilled, Order.fill. simpl.
  destruct (N.ltb_spec (Order.remainingQuantity_ o) q) as [Hlt|Hge].
  - rewrite N.sub_diag. split; lia.
  - split; [lia|]. intros Hpos.
    destruct (N.eqb_spec (Order.remainingQuantity_ o - q) 0) as [Hz|Hnz]; [lia|].
    destruct (N.ltb_spec (Order.remainingQuantity_ o - q) (Order.quantity_ o))
      as [Hlt|Hge']; [right; by split|].
    left. destruct Hst as [[Hp Heq]|[_ Hlt]]; [lia| |lia].
    split; [done|lia].
Qed.

Lemma fills_pendingUntilFilled o o' :
  rtc fillStep o o' → pendingUntilFilled o → pendingUntilFilled o'.
Proof.
  induction 1 as [|a b c [q ->] _ IH]; [done|].
  intros Ha. by apply IH, fill_pendingUntilFilled.
Qed.

Lemma isNew_pendingUntilFilled o : isNew o → pendingUntilFilled o.
Proof. intros [Hst Hrem]. split; [lia|]. intros _. left. by split. Qed.

(** An order that may rest is only changed by fills. *)
Lemma matchOrder_resting_fills p h b trades h' b' o :
  OrderBook.matchOrder p h b = Some (trades, h', b') →
  h !! p = Some o → restingType (Order.type_ o) →
  ∃ o', h' !! p = Some o' ∧ rtc fillStep o o'.
Proof.
  intros Hrun Ho Hty. apply matchOrder_inv in Hrun as (o0 & Ho0 & Hcase).
  rewrite Ho in Ho0. injection Ho0 as <-.
  assert (Order.type_ o ≠ FOK ∧ Order.type_ o ≠ MARKET ∧ Order.type_ o ≠ IOC)
    as (Hf & Hm & Hi) by (destruct Hty as [->|[->| ->]]; by split_and!).
  destruct Hcase as [(? & _)|(fe & hs & bs & os & Hx & Hps & Hcase)]; [done|].
  destruct Hcase as [([?|?] & _)|[(? & _)|(_ & -> & _)]]; try done.
  destruct (executeMatches_lookup _ _ _ _ _ _ _ _ Hx Ho) as (os' & Hps' & Hfills).
  exists os'. by split.
Qed.

(** The status the server reads from a new order that [getOrder] finds. *)
Lemma submitOrder_resting_status symbol side type price quantity clientId
    stopPrice h e orderId trades h' e' o' :
  engineOk h e →
  MatchingEngineCore.submitOrder symbol side type price quantity clientId
    stopPrice h e = Some (orderId, trades, h', e') →
  restingType type →
  h' !! length h = Some o' →
  (0 < Order.remainingQuantity_ o')%N →
  (Order.status_ o' = PENDING ∧ Order.remainingQuantity_ o' = quantity)
  ∨ (Order.status_ o' = PARTIAL_FILL ∧ (Order.remainingQuantity_ o' < quantity)%N).
Proof.
  intros He Hrun Hty Ho' Hpos.
  destruct (submitOrder_inv _ _ _ _ _ _ _ _ _ _ _ _ _ He Hrun)
    as (o0 & b & b' & Ho0 & Hb & Hid & Hm & Hp & _).
  assert (Order.type_ o0 = type ∧ isNew o0 ∧ Order.quantity_ o0 = quantity)
    as (Hty0 & Hnew & Hq) by (by rewrite Ho0).
  rewrite <- Hty0 in Hty.
  destruct (matchOrder_resting_fills _ _ _ _ _ _ _ Hm Hp Hty) as (o2 & Ho2 & Hfills).
  rewrite Ho' in Ho2. injection Ho2 as <-.
  destruct (fills_pendingUntilFilled _ _ Hfills (isNew_pendingUntilFilled _ Hnew))
    as [_ Hcase].
  apply fills_static in Hfills as (_ & _ & _ & _ & _ & Hqq).
  rewrite <- Hq, <- Hqq. by apply Hcase.
Qed.


(** * The receive loop of the server *)

Lemma receiveMessage_Some len stream :
  len ≤ length stream →
  Server.receiveMessage len stream = (Some (take len stream), drop len stream).
Proof. intros. unfold Server.receiveMessage. by rewrite decide_True. Qed.

Lemma receiveMessage_None len stream :
  length stream < len → Server.receiveMessage len stream = (None, []).
Proof. intros. unfold Server.receiveMessage. rewrite decide_False; [done|lia]. Qed.

Lemma receiveMessage_shorter len stream r stream' :
  Server.receiveMessage len stream = (r, stream') →
  length stream' + len ≤ length stream ∨ stream' = [].
Proof.
  unfold Server.receiveMessage. destruct (decide (len ≤ length stream)).
  - intros [= <- <-]. left. rewrite length_drop. lia.
  - intros [= <- <-]. by right.
Qed.

(** One iteration of the loop. *)
Lemma handleClient_step sizeofHeader sizeofMessage headerType fuel stream :
  Server.handleClient sizeofHeader sizeofMessage headerType (S fuel) stream
  = match Server.receiveMessage sizeofHeader stream with
    | (None, _) => Some []
    | (Some header, stream) =>
        match headerType header with
        | Some t =>
            if decide (handledType t) then
              match Server.receiveMessage (sizeofMessage t) stream with
              | (Some msg, stream) =>
                  calls ← Server.handleClient sizeofHeader sizeofMessage headerType
                             fuel stream;
                  Some ((t, msg) :: calls)
              | (None, stream) =>
                  Server.handleClient sizeofHeader sizeofMessage headerType fuel
                    stream
              end
            else Server.handleClient sizeofHeader sizeofMessage headerType fuel
                   stream
        | None => Server.handleClient sizeofHeader sizeofMessage headerType fuel
                    stream
        end
    end.
Proof.
  cbn [Server.handleClient].
  destruct (Server.receiveMessage sizeofHeader stream) as [[header|] stream'];
    [|done].
  destruct (headerType header) as [t|]; [|done].
  destruct t; reflexivity.
Qed.

(** The loop ends: every iteration reads the bytes of a header at least. *)
Lemma handleClient_defined sizeofHeader sizeofMessage headerType fuel stream :
  0 < sizeofHeader →
  length stream < fuel →
  is_Some (Server.handleClient sizeofHeader sizeofMessage headerType fuel stream).
Proof.
  intros Hpos. revert stream.
  induction fuel as [|fuel IH]; intros stream Hlen; [lia|].
  rewrite handleClient_step.
  destruct (Server.receiveMessage sizeofHeader stream) as [[header|] stream1]
    eqn:Hr1; [|done].
  assert (length stream1 < fuel) as Hlen1.
  { unfold Server.receiveMessage in Hr1.
    destruct (decide (sizeofHeader ≤ length stream)); [|done].
    injection Hr1 as _ <-. rewrite length_drop. lia. }
  destruct (headerType header) as [t|]; [|by apply IH].
  destruct (decide (handledType t)); [|by apply IH].
  destruct (Server.receiveMessage (sizeofMessage t) stream1) as [[msg|] stream2]
    eqn:Hr2.
  - destruct (receiveMessage_shorter _ _ _ _ Hr2) as [Hle| ->].
    + destruct (IH stream2) as [calls ->]; [lia|]. done.
    + destruct (IH []) as [calls ->]; [simpl; lia|]. done.
  - destruct (receiveMessage_shorter _ _ _ _ Hr2) as [Hle| ->].
    + apply IH. lia.
    + apply IH. simpl. lia.
Qed.


(** * The index of a level *)

Lemma deref_None n orders : n ∉ orders.*1 → PriceLevel.deref n orders = None.
Proof.
  induction orders as [|[n' q] orders IH]; simpl; [done|].
  intros Hn. apply not_elem_of_cons in Hn as [Hne Hn].
  destruct (decide (n = n')); [done|]. by apply IH.
Qed.

(** A resting order is found by the level it rests in. *)
Lemma sideOk_level_getOrder h symbol side idx m q :
  sideOk h symbol side idx m → q ∈ resting m →
  ∃ o l, h !! q = Some o
         ∧ Order.side_ o = side
         ∧ Levels.find (Order.price_ o) m = Some l
         ∧ PriceLevel.getOrder (Order.orderId_ o) l = Some (Some q).
Proof.
  intros Hside Hq.
  destruct (sideOk_resting _ _ _ _ _ _ Hside Hq)
    as (price & l & n & o & Hin & Hnode & Hfind & Ho & Hsd & Hprice & _ & _ & Hlm & _).
  destruct Hside as [_ Hl]. rewrite Forall_forall in Hl.
  destruct (Hl _ Hin) as (_ & Hnd & _). simpl in Hnd.
  exists o, l. split; [done|]. split; [done|]. split; [by rewrite Hprice|].
  unfold PriceLevel.getOrder. rewrite Hlm.
  by rewrite (deref_elem _ _ _ Hnd Hnode).
Qed.

(** The levels the other side is left with after [matchOrder]. *)
Lemma matchOrder_opposite p h b trades h' b' o :
  OrderBook.matchOrder p h b = Some (trades, h', b') →
  h !! p = Some o →
  Forall (λ kl', ∃ l, (kl'.1, l) ∈ opposite (Order.side_ o) b
                      ∧ kl'.2 = PriceLevel.setOrders (PriceLevel.orders_ kl'.2) l
                      ∧ PriceLevel.orders_ kl'.2 `suffix_of` PriceLevel.orders_ l)
    (opposite (Order.side_ o) b').
Proof.
  intros Hrun Ho. apply matchOrder_inv in Hrun as (o0 & Ho0 & Hcase).
  rewrite Ho in Ho0. injection Ho0 as <-.
  destruct Hcase as [(_ & _ & _ & _ & ->)|(fe & hs & bs & os & Hx & Hps & Hcase)].
  { apply Forall_forall. intros [k l] Hin. exists l.
    split; [done|]. split; [by rewrite setOrders_same|done]. }
  destruct (executeMatches_lookup _ _ _ _ _ _ _ _ Hx Ho) as (os' & Hps' & Hfills).
  rewrite Hps in Hps'. injection Hps' as <-.
  apply fills_static in Hfills as (_ & _ & Hside & _).
  assert (Forall (λ kl', ∃ l, (kl'.1, l) ∈ opposite (Order.side_ o) b
                      ∧ kl'.2 = PriceLevel.setOrders (PriceLevel.orders_ kl'.2) l
                      ∧ PriceLevel.orders_ kl'.2 `suffix_of` PriceLevel.orders_ l)
            (opposite (Order.side_ o) bs)) as Hbs.
  { apply executeMatches_inv in Hx as (o0 & levels' & s' & Ho0 & Hl & _ & _ & ->).
    rewrite Ho in Ho0. injection Ho0 as <-.
    rewrite opposite_setOpposite. by eapply matchLevels_levels. }
  destruct Hcase as [(_ & _ & ->)|[(_ & _ & _ & ->)|(_ & _ & Hrest)]]; [done..|].
  destruct Hrest as [(_ & _ & Hrested)|[_ ->]]; [|done].
  unfold rested in Hrested.
  destruct (Levels.addOrderAt _ _ _ _ _) as [levels|]; [|done].
  cbn in Hrested. injection Hrested as <-.
  rewrite Hside, opposite_setOwnSide. done.
Qed.

Lemma sorted_find side m price l :
  StronglySorted (sideOrder side) (keys m) → (price, l) ∈ m →
  Levels.find price m = Some l.
Proof.
  unfold keys. induction m as [|[k l0] m IH]; simpl.
  { intros _ H. by apply elem_of_nil in H. }
  intros Hs Hin. apply StronglySorted_inv in Hs as [Hs Hk].
  apply elem_of_cons in Hin as [Heq|Hin].
  - injection Heq as -> ->. by rewrite Z.eqb_refl.
  - destruct (Z.eqb_spec price k) as [->|Hne]; [|by apply IH].
    exfalso. rewrite Forall_forall in Hk.
    apply (sideOrder_irrefl side k). apply Hk.
    apply list_elem_of_fmap. by exists (k, l).
Qed.

(** An order that [matchOrder] took out of a level that is still there
    has left its iterator behind in the index of the level: the level's
    [getOrder] reads an erased node. *)
Lemma matchOrder_stale p h b trades h' b' o symbol q m l' :
  OrderBook.matchOrder p h b = Some (trades, h', b') →
  h !! p = Some o →
  bookOk h symbol b →
  q ∈ resting (opposite (Order.side_ o) b) →
  h !! q = Some m →
  q ∉ resting (opposite (Order.side_ o) b') →
  Levels.find (Order.price_ m) (opposite (Order.side_ o) b') = Some l' →
  PriceLevel.getOrder (Order.orderId_ m) l' = None.
Proof.
  intros Hrun Ho Hok Hq Hm Hgone Hfind.
  apply (bookOk_sides (Order.side_ o)) in Hok as (_ & Hopp & _).
  destruct (sideOk_resting _ _ _ _ _ _ Hopp Hq)
    as (price & l & n & m0 & Hin & Hnode & Hfl & Hm0 & _ & Hprice & _ & _ & Hlm & _).
  rewrite Hm in Hm0. injection Hm0 as <-. subst price.
  pose proof Hopp as [Hsorted Hl]. rewrite Forall_forall in Hl.
  destruct (Hl _ Hin) as (_ & Hnd & _). simpl in Hnd.
  pose proof (matchOrder_opposite _ _ _ _ _ _ _ Hrun Ho) as Hlevels.
  rewrite Forall_forall in Hlevels.
  destruct (Hlevels _ (find_Some_elem _ _ _ Hfind)) as (l0 & Hin0 & Heq & Hsuf).
  simpl in Hin0, Heq, Hsuf.
  rewrite (sorted_find _ _ _ _ Hsorted Hin0) in Hfl. injection Hfl as ->.
  unfold PriceLevel.getOrder. rewrite Heq. simpl. rewrite Hlm.
  rewrite deref_None; [done|].
  intros Hn. apply list_elem_of_fmap in Hn as ([n' q'] & Hn' & Hin').
  simpl in Hn'. subst n'.
  assert ((n, q') ∈ PriceLevel.orders_ l) as Hin2.
  { destruct Hsuf as [pre ->]. apply elem_of_app. by right. }
  assert (q' = q) as ->.
  { apply list_elem_of_lookup in Hin2 as [i Hi].
    apply list_elem_of_lookup in Hnode as [j Hj].
    assert (i = j) as ->.
    { eapply NoDup_lookup; [exact Hnd| |]; rewrite list_lookup_fmap.
      - by rewrite Hi.
      - by rewrite Hj. }
    congruence. }
  apply Hgone. apply elem_of_resting. exists (Order.price_ m), l', n.
  split; [by apply find_Some_elem|done].
Qed.

(** Adding an order to a side takes no order out of it. *)
Lemma set_keeps comp price (l' : PriceLevel.t) m q :
  (∀ q', q' ∈ PriceLevel.queue (Levels.at_ price m) → q' ∈ PriceLevel.queue l') →
  q ∈ resting m → q ∈ resting (Levels.set comp price l' m).
Proof.
  induction m as [|[k l0] m IH]; intros Hsub Hq.
  { by apply elem_of_nil in Hq. }
  unfold Levels.at_ in Hsub, IH. cbn [Levels.find Levels.set] in *.
  rewrite resting_cons in Hq.
  destruct (Z.eqb_spec price k) as [->|Hne].
  - rewrite resting_cons. apply elem_of_app in Hq as [Hq|Hq]; apply elem_of_app;
      [left; by apply Hsub|by right].
  - destruct (comp price k).
    + rewrite !resting_cons, !elem_of_app. apply elem_of_app in Hq. tauto.
    + rewrite resting_cons. apply elem_of_app in Hq as [Hq|Hq]; apply elem_of_app;
        [by left|right; by apply IH].
Qed.

Lemma addOrderAt_keeps comp price p h m m' q :
  Levels.addOrderAt comp price p h m = Some m' →
  q ∈ resting m → q ∈ resting m'.
Proof.
  unfold Levels.addOrderAt, PriceLevel.addOrder. intros H Hq.
  destruct (h !! p) as [o|]; [|done]. cbn in H. injection H as <-.
  apply set_keeps; [|done]. intros q' Hq'. unfold PriceLevel.queue in *. simpl.
  rewrite fmap_app. apply elem_of_app. by left.
Qed.

(** [matchOrder] takes no order out of the side of the incoming order. *)
Lemma matchOrder_ownSide_kept p h b trades h' b' o q :
  OrderBook.matchOrder p h b = Some (trades, h', b') →
  h !! p = Some o →
  q ∈ resting (ownSide (Order.side_ o) b) →
  q ∈ resting (ownSide (Order.side_ o) b').
Proof.
  intros Hrun Ho Hq. apply matchOrder_inv in Hrun as (o0 & Ho0 & Hcase).
  rewrite Ho in Ho0. injection Ho0 as <-.
  destruct Hcase as [(_ & _ & _ & _ & ->)|(fe & hs & bs & os & Hx & Hps & Hcase)];
    [done|].
  destruct (executeMatches_sides _ _ _ _ _ _ _ _ Hx Ho) as (Hown & _).
  destruct (executeMatches_lookup _ _ _ _ _ _ _ _ Hx Ho) as (os' & Hps' & Hfills).
  rewrite Hps in Hps'. injection Hps' as <-.
  apply fills_static in Hfills as (_ & _ & Hside & _).
  rewrite <- Hown in Hq.
  destruct Hcase as [(_ & _ & ->)|[(_ & _ & _ & ->)|(_ & _ & Hrest)]]; [done..|].
  destruct Hrest as [(_ & _ & Hrested)|[_ ->]]; [|done].
  unfold rested in Hrested.
  destruct (Levels.addOrderAt _ _ _ _ _) as [levels|] eqn:Hadd; [|done].
  cbn in Hrested. injection Hrested as <-.
  rewrite Hside in *. rewrite ownSide_setOwnSide. by eapply addOrderAt_keeps.
Qed.

Lemma ownSide_otherSide side b : ownSide (otherSide side) b = opposite side b.
Proof. by destruct side. Qed.

Lemma otherSide_cases (s side : Side) : s = side ∨ s = otherSide side.
Proof. destruct s, side; auto. Qed.


(** * The orders behind the quantity of a level *)

(** The queue of a level of a book of the engine holds the orders of its
    symbol, side and price that [getOrder] finds. *)
Lemma level_queue_live h e symbol b side price l :
  engineOk h e →
  MatchingEngineCore.orderBooks_ e !! symbol = Some b →
  (price, l) ∈ ownSide side b →
  PriceLevel.queue l ≡ₚ liveAt h e symbol side price.
Proof.
  intros He Hb Hin. pose proof He as (_ & _ & _ & _ & _ & Hoks).
  pose proof (Hoks _ _ Hb) as Hok.
  pose proof Hok as Hok'.
  apply (bookOk_sides side) in Hok' as (Hown & _ & Hnd & _).
  apply NoDup_app in Hnd as (Hnd & _).
  pose proof Hown as [Hsorted Hl]. rewrite Forall_forall in Hl.
  apply NoDup_Permutation.
  - apply list_elem_of_split in Hin as (m1 & m2 & Hm). rewrite Hm in Hnd.
    rewrite resting_app, resting_cons in Hnd.
    apply NoDup_app in Hnd as (_ & _ & Hnd). by apply NoDup_app in Hnd as (Hnd & _).
  - apply NoDup_filter, NoDup_seq.
  - intros p. unfold liveAt. rewrite list_elem_of_filter, elem_of_seq. split.
    + intros Hp. unfold PriceLevel.queue in Hp.
      apply list_elem_of_fmap in Hp as ([n p'] & -> & Hnode). simpl.
      destruct (levelOk_nodes _ _ _ _ _ _ (n, p') (Hl _ Hin) Hnode)
        as (o & Ho & Hside & Hprice & Hsym & _ & _ & Hidx).
      simpl in *. split; [|apply lookup_lt_Some in Ho; lia].
      exists o. split; [done|]. split; [|done].
      destruct (rests_getOrder _ _ _ _ p' He Hb) as (o' & Ho' & _ & _ & Hget).
      { apply (elem_of_allResting side). left. apply elem_of_resting.
        by exists price, l, n. }
      rewrite Ho in Ho'. by injection Ho' as <-.
    + intros [(o & Ho & Hget & Hsym & Hside & Hprice) _].
      destruct (getOrder_rests _ _ _ _ He Hget) as (b0 & o' & Ho' & Hb0 & _ & _ & Hrest).
      rewrite Ho in Ho'. injection Ho' as <-.
      rewrite Hsym, Hb in Hb0. injection Hb0 as <-. rewrite Hside in Hrest.
      destruct (sideOk_resting _ _ _ _ _ _ Hown Hrest)
        as (price' & l' & n & o' & Hin' & Hnode & _ & Ho' & _ & Hprice' & _).
      rewrite Ho in Ho'. injection Ho' as <-.
      assert (price' = price) as -> by congruence.
      pose proof (sorted_find _ _ _ _ Hsorted Hin) as Hf.
      rewrite (sorted_find _ _ _ _ Hsorted Hin') in Hf. injection Hf as ->.
      unfold PriceLevel.queue. apply list_elem_of_fmap. by exists (n, p).
Qed.

Lemma exactBook_level h b side price l :
  exactBook h b → (price, l) ∈ ownSide side b →
  PriceLevel.totalQuantity_ l = totalRemaining h (PriceLevel.queue l).
Proof.
  intros Hex Hin. apply (exactBook_sides side) in Hex as [Hown _].
  unfold exactLevels in Hown. rewrite Forall_forall in Hown.
  by destruct (Hown _ Hin) as [Hc _].
Qed.

(** An engine with one book has room for a quantity when the book has. *)
Lemma roomFor_singleton quantity e symbol b :
  MatchingEngineCore.orderBooks_ e = {[ symbol := b ]} →
  (quantity < two64)%N → roomBook quantity b → roomFor quantity e.
Proof.
  intros He Hq Hb. split; [done|]. intros symbol2 b2. rewrite He.
  intros Hb2. apply lookup_singleton_Some in Hb2 as [_ <-]. done.
Qed.

Lemma submitted_exact symbol side type price quantity s :
  reachable s.1 s.2 → exactAggregates s.1 s.2 → roomFor quantity s.2 →
  (∀ orderId trades h' e',
     MatchingEngineCore.submitOrder symbol side type price quantity
       String.EmptyString 0 s.1 s.2 = Some (orderId, trades, h', e') →
     trades = []) →
  exactAggregates (submitted symbol side type price quantity s).1
                  (submitted symbol side type price quantity s).2.
Proof.
  intros Hr Hex Hroom Hquiet. unfold submitted.
  destruct (MatchingEngineCore.submitOrder _ _ _ _ _ _ _ _ _)
    as [[[[orderId trades] h'] e']|] eqn:Hrun; [|done].
  simpl. pose proof (Hquiet _ _ _ _ eq_refl) as ->.
  by eapply submitOrder_exact.
Qed.


(** * The claims *)

(** C1 (aggregate consistency) fails on the code.  After the resting sell of
    100 at 150.00 is half filled by [matchOrder], the sell still rests with 50
    remaining, but the level keeps its aggregate of 100: the sweep never
    touches [totalQuantity_]. *)
Theorem C1_partial_fill_leaves_stale_total :
  ∃ trades h b l,
    matchAll [0; 1] partialFillOrders (OrderBook.new AAPL) = Some (trades, h, b)
    ∧ OrderBook.asks_ b = [(1500000%Z, l)]
    ∧ PriceLevel.queue l = [0]
    ∧ queueRemaining h l = 50%N
    ∧ PriceLevel.totalQuantity_ l = 100%N
    ∧ OrderBook.getAskQuantityAtLevel 1500000 b = 100%N
    ∧ ¬ aggregateConsistent h l.
Proof.
  do 4 eexists. split; [vm_compute; reflexivity|].
  split; [reflexivity|]. repeat split; try (vm_compute; reflexivity).
  vm_compute. discriminate.
Qed.

(** C7.  Every trade [matchOrder] emits was made against an order resting
    on the opposite side, and carries that order's id and that order's
    price, which is the same before and after the call; the price of the
    incoming order plays no part.  In scenario S2 the buy at 152.00 trades
    at 150.00 with the resting sell. *)
Theorem C7_trade_price_is_passive_price :
  (∀ p h b trades h' b' o t,
     OrderBook.matchOrder p h b = Some (trades, h', b') →
     h !! p = Some o →
     t ∈ trades →
     ∃ q m m',
       q ∈ resting (opposite (Order.side_ o) b)
       ∧ h !! q = Some m ∧ h' !! q = Some m'
       ∧ passiveId (Order.side_ o) t = Order.orderId_ m
       ∧ Trade.price_ t = Order.price_ m
       ∧ Trade.price_ t = Order.price_ m')
  ∧ ∃ h' b',
      OrderBook.matchOrder 1 improvementOrders improvementBook
      = Some ([ {| Trade.buyOrderId_ := 2; Trade.sellOrderId_ := 1;
                   Trade.symbol_ := AAPL; Trade.price_ := 1500000;
                   Trade.quantity_ := 50 |} ], h', b').
Proof.
  split.
  - intros p h b trades h' b' o t Hrun Ho Ht.
    destruct (matchOrder_touched _ _ _ _ _ _ _ Hrun Ho)
      as (filled & partial & Hprefix & _ & Hnew & _).
    apply list_elem_of_lookup in Ht as [i Ht].
    destruct (Forall2_lookup_l _ _ _ _ _ Hnew Ht) as (q & Hq & (m & Hm & Hprice & Hid)).
    pose proof (matchOrder_static _ _ _ _ _ _ Hrun) as Hst.
    destruct (Forall2_lookup_l _ _ _ _ _ Hst Hm) as (m' & Hm' & (_&_&_&_&Hp'&_)).
    exists q, m, m'. split_and!; try done; [|congruence].
    eapply elem_of_prefix; [|exact Hprefix]. by eapply list_elem_of_lookup_2.
  - do 2 eexists. vm_compute. reflexivity.
Qed.

Lemma C7_witness :
  ∃ trades h' b' o t,
    OrderBook.matchOrder 1 improvementOrders improvementBook = Some (trades, h', b')
    ∧ improvementOrders !! 1 = Some o
    ∧ t ∈ trades
    ∧ Order.price_ o = 1520000%Z
    ∧ Trade.price_ t = 1500000%Z
    ∧ ∃ q m m',
        q ∈ resting (opposite (Order.side_ o) improvementBook)
        ∧ improvementOrders !! q = Some m ∧ h' !! q = Some m'
        ∧ passiveId (Order.side_ o) t = Order.orderId_ m
        ∧ Trade.price_ t = Order.price_ m
        ∧ Trade.price_ t = Order.price_ m'.
Proof.
  destruct C7_trade_price_is_passive_price as [Hgen (h' & b' & Hrun)].
  eexists _, h', b', _, _.
  split; [exact Hrun|]. split; [reflexivity|].
  split; [apply list_elem_of_here|]. split; [reflexivity|]. split; [reflexivity|].
  eapply Hgen; [exact Hrun|reflexivity|apply list_elem_of_here].
Defined.

(** C8.  Within a level, and across levels best first, resting orders are
    filled in the order of their queue, and [addOrder] puts an order at the
    back of the queue of its level: the trades of [matchOrder] are made, in
    order, with the first orders of the opposite side; all of these but
    possibly the last are filled; no other resting order changes.  In
    scenario S3 the buy of 150 fills A for 100, then B for 50, and leaves
    C. *)
Theorem C8_fifo_within_level :
  (∀ p h l l',
     PriceLevel.addOrder p h l = Some l' →
     PriceLevel.queue l' = PriceLevel.queue l ++ [p])
  ∧ (∀ p h b trades h' b' o,
       OrderBook.matchOrder p h b = Some (trades, h', b') →
       h !! p = Some o →
       ∃ filled partial,
         (filled ++ partial) `prefix_of` resting (opposite (Order.side_ o) b)
         ∧ length partial ≤ 1
         ∧ Forall2 (tradeWith h (Order.side_ o)) trades (filled ++ partial)
         ∧ Forall (λ q, remainingOf h' q = 0%N) filled
         ∧ ∀ r, r ≠ p → r ∉ filled ++ partial → h' !! r = h !! r)
  ∧ levelView <$> OrderBook.asks_ fifoBook = [(1500000%Z, 300%N, [0; 1; 2])]
  ∧ ∃ h' b',
      OrderBook.matchOrder 3 fifoOrders fifoBook
      = Some ([ {| Trade.buyOrderId_ := 4; Trade.sellOrderId_ := 1;
                   Trade.symbol_ := AAPL; Trade.price_ := 1500000;
                   Trade.quantity_ := 100 |};
                {| Trade.buyOrderId_ := 4; Trade.sellOrderId_ := 2;
                   Trade.symbol_ := AAPL; Trade.price_ := 1500000;
                   Trade.quantity_ := 50 |} ], h', b')
      ∧ remainingOf h' 0 = 0%N ∧ remainingOf h' 1 = 50%N
      ∧ h' !! 2 = fifoOrders !! 2
      ∧ resting (OrderBook.asks_ b') = [1; 2].
Proof.
  split_and!.
  - intros p h l l' H. unfold PriceLevel.addOrder in H.
    destruct (h !! p) as [o|]; [|done]. cbn in H. simplify_eq.
    unfold PriceLevel.queue; simpl. by rewrite fmap_app.
  - intros. by eapply matchOrder_touched.
  - vm_compute. reflexivity.
  - do 2 eexists. split; [vm_compute; reflexivity|]. by vm_compute.
Qed.

Lemma C8_witness :
  ∃ trades h' b' o,
    OrderBook.matchOrder 3 fifoOrders fifoBook = Some (trades, h', b')
    ∧ fifoOrders !! 3 = Some o
    ∧ ∃ filled partial,
        (filled ++ partial) `prefix_of` resting (opposite (Order.side_ o) fifoBook)
        ∧ length partial ≤ 1
        ∧ Forall2 (tradeWith fifoOrders (Order.side_ o)) trades (filled ++ partial)
        ∧ Forall (λ q, remainingOf h' q = 0%N) filled
        ∧ ∀ r, r ≠ 3 → r ∉ filled ++ partial → h' !! r = fifoOrders !! r.
Proof.
  destruct C8_fifo_within_level as (_ & Hgen & _ & (h' & b' & Hrun & _)).
  eexists _, h', b', _. split; [exact Hrun|]. split; [reflexivity|].
  eapply Hgen; [exact Hrun|reflexivity].
Defined.

(** C3 (fill-or-kill is all or nothing) fails on the code.  Once the sell of
    100 at 150.00 is half filled, 50 remain at 150.00 but the level still
    reports 100, so [canFillEntireOrder] accepts a FOK buy of 100 at 150.00;
    the sweep then fills 50 and leaves the FOK order partly filled, neither
    cancelled nor complete. *)
Theorem C3_fok_partly_filled_on_stale_total :
  ∃ l h' b' o',
    OrderBook.asks_ partialFillBook = [(1500000%Z, l)]
    ∧ queueRemaining partialFillHeap l = 50%N
    ∧ partialFillHeap !! 2 = Some (order 3 BUY FOK 1500000 100)
    ∧ OrderBook.matchOrder 2 partialFillHeap partialFillBook
      = Some ([ {| Trade.buyOrderId_ := 3; Trade.sellOrderId_ := 1;
                   Trade.symbol_ := AAPL; Trade.price_ := 1500000;
                   Trade.quantity_ := 50 |} ], h', b')
    ∧ h' !! 2 = Some o'
    ∧ Order.remainingQuantity_ o' = 50%N
    ∧ Order.status_ o' = PARTIAL_FILL.
Proof.
  do 4 eexists. split; [vm_compute; reflexivity|].
  split; [vm_compute; reflexivity|]. split; [vm_compute; reflexivity|].
  split; [vm_compute; reflexivity|]. split; [vm_compute; reflexivity|].
  split; reflexivity.
Qed.

(** C5 (stop orders match like LIMIT orders) fails on the code.  Against a
    sell of 50 resting at 150.00, a LIMIT buy of 50 at 149.00 makes no trade
    and comes to rest; the same order of type STOP_LIMIT or STOP_LOSS trades
    at 150.00 and empties the book: the price test of [executeMatches] only
    looks at orders whose type is LIMIT. *)
Theorem C5_stop_orders_ignore_their_price :
  ∃ hl bl hs bs hs' bs',
    OrderBook.matchOrder 3 belowAskOrders belowAskBook = Some ([], hl, bl)
    ∧ levelView <$> OrderBook.bids_ bl = [(1490000%Z, 50%N, [3])]
    ∧ levelView <$> OrderBook.asks_ bl = [(1500000%Z, 50%N, [0])]
    ∧ OrderBook.matchOrder 2 belowAskOrders belowAskBook
      = Some ([ {| Trade.buyOrderId_ := 3; Trade.sellOrderId_ := 1;
                   Trade.symbol_ := AAPL; Trade.price_ := 1500000;
                   Trade.quantity_ := 50 |} ], hs, bs)
    ∧ OrderBook.bids_ bs = [] ∧ OrderBook.asks_ bs = []
    ∧ OrderBook.matchOrder 4 belowAskOrders belowAskBook
      = Some ([ {| Trade.buyOrderId_ := 5; Trade.sellOrderId_ := 1;
                   Trade.symbol_ := AAPL; Trade.price_ := 1500000;
                   Trade.quantity_ := 50 |} ], hs', bs')
    ∧ OrderBook.bids_ bs' = [] ∧ OrderBook.asks_ bs' = [].
Proof.
  do 6 eexists. split; [vm_compute; reflexivity|].
  split; [vm_compute; reflexivity|]. split; [vm_compute; reflexivity|].
  split; [vm_compute; reflexivity|]. split; [vm_compute; reflexivity|].
  split; [vm_compute; reflexivity|]. split; [vm_compute; reflexivity|].
  split; vm_compute; reflexivity.
Qed.

(** C2 (an IOC order fills only while the LIMIT price predicate holds)
    fails on the code.  The book holds one sell of 50 at 150.00.  An IOC buy
    of 50 at 149.00 is outside its limit at that level, and [matchOrder]
    still trades its 50 at 150.00: the order is FILLED and the asks are empty.
    The same buy as a LIMIT order does not trade and leaves the sell
    resting. *)
Theorem C2_ioc_order_ignores_its_price :
  ∃ o t hi bi oi hl bl,
    belowAskOrders !! 1 = Some o
    ∧ Order.type_ o = IOC ∧ Order.side_ o = BUY
    ∧ Order.price_ o = 1490000%Z
    ∧ levelView <$> OrderBook.asks_ belowAskBook = [(1500000%Z, 50%N, [0])]
    ∧ ¬ withinLimit BUY (Order.price_ o) 1500000
    ∧ OrderBook.matchOrder 1 belowAskOrders belowAskBook = Some ([t], hi, bi)
    ∧ t = {| Trade.buyOrderId_ := 2; Trade.sellOrderId_ := 1;
             Trade.symbol_ := AAPL; Trade.price_ := 1500000;
             Trade.quantity_ := 50 |}
    ∧ (Order.price_ o < Trade.price_ t)%Z
    ∧ OrderBook.bids_ bi = [] ∧ OrderBook.asks_ bi = []
    ∧ hi !! 1 = Some oi
    ∧ Order.remainingQuantity_ oi = 0%N ∧ Order.status_ oi = FILLED
    ∧ OrderBook.matchOrder 3 belowAskOrders belowAskBook = Some ([], hl, bl)
    ∧ levelView <$> OrderBook.bids_ bl = [(1490000%Z, 50%N, [3])]
    ∧ levelView <$> OrderBook.asks_ bl = [(1500000%Z, 50%N, [0])].
Proof.
  do 7 eexists. split; [reflexivity|]. split; [reflexivity|].
  split; [reflexivity|]. split; [reflexivity|].
  split; [vm_compute; reflexivity|]. split; [by vm_compute|].
  split; [vm_compute; reflexivity|]. split; [reflexivity|].
  split; [by vm_compute|]. split; [vm_compute; reflexivity|].
  split; [vm_compute; reflexivity|]. split; [vm_compute; reflexivity|].
  split; [vm_compute; reflexivity|]. split; [vm_compute; reflexivity|].
  split; [vm_compute; reflexivity|]. split; vm_compute; reflexivity.
Qed.

(** C4 as stated fails: [modifyOrder] moves the resting buy from 149.00 to
    151.00 without matching it, and both sides stay non-empty with the best
    bid above the best ask of 150.00. *)
Lemma C4_counterexample :
  notCrossed spreadBook
  ∧ ∃ h' b',
      OrderBook.modifyOrder 2 1510000 100 spreadOrders spreadBook
      = Some (true, h', b')
      ∧ OrderBook.bids_ b' ≠ [] ∧ OrderBook.asks_ b' ≠ []
      ∧ OrderBook.getBestBid b' = 1510000%Z
      ∧ OrderBook.getBestAsk b' = 1500000%Z
      ∧ ¬ notCrossed b'.
Proof.
  split; [right; right; by vm_compute|].
  do 2 eexists. split; [vm_compute; reflexivity|].
  split; [by vm_compute|]. split; [by vm_compute|].
  split; [vm_compute; reflexivity|]. split; [vm_compute; reflexivity|].
  intros [H|[H|H]]; vm_compute in H; done.
Qed.

(** C6 as stated fails at quantity zero: a LIMIT buy of 0 has nothing
    remaining after [matchOrder], and its status is still PENDING. *)
Lemma C6_counterexample :
  ∃ h' b' o',
    OrderBook.matchOrder 0 zeroOrders (OrderBook.new AAPL) = Some ([], h', b')
    ∧ h' !! 0 = Some o'
    ∧ Order.remainingQuantity_ o' = 0%N
    ∧ Order.status_ o' = PENDING
    ∧ ¬ (Order.status_ o' = FILLED ↔ Order.remainingQuantity_ o' = 0%N).
Proof.
  do 3 eexists. split; [vm_compute; reflexivity|]. split; [reflexivity|].
  split; [reflexivity|]. split; [reflexivity|].
  intros [_ H]. specialize (H eq_refl). vm_compute in H. discriminate.
Qed.

(** C4, amended.  A new book is sorted and not crossed, and [cancelOrder]
    and [matchOrder], for every order type, keep a sorted book that is not
    crossed sorted and not crossed: when they return, one side is empty or
    the best bid is below the best ask.  ([modifyOrder] is left out: it
    re-rests without matching.) *)
Theorem C4_cancel_and_match_keep_book_uncrossed h b :
  sortedBook b →
  notCrossed b →
  (∀ orderId r h' b',
     OrderBook.cancelOrder orderId h b = Some (r, h', b') →
     sortedBook b' ∧ notCrossed b')
  ∧ (∀ p trades h' b',
       OrderBook.matchOrder p h b = Some (trades, h', b') →
       sortedBook b' ∧ notCrossed b')
  ∧ (∀ symbol, sortedBook (OrderBook.new symbol) ∧ notCrossed (OrderBook.new symbol)).
Proof.
  intros Hs Hnc. split_and!.
  - intros. by eapply cancelOrder_notCrossed.
  - intros. by eapply matchOrder_notCrossed.
  - intros symbol. split; [split; constructor|by left].
Qed.

Lemma C4_witness :
  sortedBook belowAskBook
  ∧ notCrossed belowAskBook
  ∧ (∃ h' b',
       OrderBook.cancelOrder 1 belowAskOrders belowAskBook = Some (true, h', b')
       ∧ sortedBook b' ∧ notCrossed b')
  ∧ (∃ h' b',
       OrderBook.matchOrder 3 belowAskOrders belowAskBook = Some ([], h', b')
       ∧ OrderBook.getBestBid b' = 1490000%Z
       ∧ OrderBook.getBestAsk b' = 1500000%Z
       ∧ sortedBook b' ∧ notCrossed b').
Proof.
  assert (sortedBook belowAskBook) as Hs by compute_done.
  assert (notCrossed belowAskBook) as Hnc by (by left).
  destruct (C4_cancel_and_match_keep_book_uncrossed belowAskOrders belowAskBook Hs Hnc)
    as (Hcancel & Hmatch & _).
  split; [exact Hs|]. split; [exact Hnc|]. split.
  - destruct (OrderBook.cancelOrder 1 belowAskOrders belowAskBook)
      as [[[r h'] b']|] eqn:Hrun; [|by vm_compute in Hrun].
    assert (r = true) as -> by (vm_compute in Hrun; congruence).
    exists h', b'. split; [reflexivity|]. exact (Hcancel 1%N true h' b' Hrun).
  - destruct (OrderBook.matchOrder 3 belowAskOrders belowAskBook)
      as [[[trades h'] b']|] eqn:Hrun; [|by vm_compute in Hrun].
    assert (trades = [] ∧ OrderBook.getBestBid b' = 1490000%Z
            ∧ OrderBook.getBestAsk b' = 1500000%Z) as (-> & Hbid & Hask).
    { vm_compute in Hrun. injection Hrun as <- _ <-. by split_and!. }
    exists h', b'. split; [reflexivity|]. split; [exact Hbid|]. split; [exact Hask|].
    exact (Hmatch 3 [] h' b' Hrun).
Defined.

(** C6, amended.  For a new order of positive quantity, after [matchOrder]
    returns: its status is FILLED exactly when nothing remains of it; a
    MARKET, IOC or FOK order that was not in the book is not in the book; a
    LIMIT order with something remaining rests at its price on its side, is
    indexed under its id, and is PENDING or PARTIAL_FILL. *)
Theorem C6_status_after_matchOrder p h b o :
  h !! p = Some o →
  isNew o →
  (0 < Order.quantity_ o)%N →
  closed h b →
  ∃ trades h' b' o',
    OrderBook.matchOrder p h b = Some (trades, h', b')
    ∧ h' !! p = Some o'
    ∧ (Order.status_ o' = FILLED ↔ Order.remainingQuantity_ o' = 0%N)
    ∧ (Order.type_ o = MARKET ∨ Order.type_ o = IOC ∨ Order.type_ o = FOK →
       ¬ restsIn p b → ¬ restsIn p b')
    ∧ (Order.type_ o = LIMIT → (0 < Order.remainingQuantity_ o')%N →
       restsAtItsPrice p o' b'
       ∧ (Order.status_ o' = PENDING ∨ Order.status_ o' = PARTIAL_FILL)).
Proof.
  intros Ho [Hpending Hrem] Hqty Hcl.
  destruct (matchOrder_defined p h b) as [[[trades h'] b'] Hrun];
    [by eapply lookup_lt_Some|done|].
  assert (filledIffDone o) as Hiff.
  { unfold filledIffDone. rewrite Hpending, Hrem. split; [done|lia]. }
  pose proof Hrun as Hinv. apply matchOrder_inv in Hinv as (o0 & Ho0 & Hcase).
  rewrite Ho in Ho0. injection Ho0 as <-.
  exists trades, h', b'.
  destruct Hcase as [(Hfok & _ & _ & -> & ->)|(fe & hs & bs & os & Hx & Hps & Hcase)].
  { exists (Order.setStatus CANCELLED o). split; [done|].
    split; [apply list_lookup_insert_eq; by eapply lookup_lt_Some|].
    split; [simpl; split; [done|lia]|]. split; [done|]. congruence. }
  destruct (executeMatches_lookup _ _ _ _ _ _ _ _ Hx Ho) as (os' & Hps' & Hf).
  rewrite Hps in Hps'. injection Hps' as <-.
  pose proof (fills_filledIffDone _ _ Hf Hiff) as Hiff'.
  assert (¬ restsIn p b → ¬ restsIn p bs) as Hnever.
  { intros Hnot Hin. apply Hnot. by eapply executeMatches_restsIn. }
  destruct Hcase as [(Hty & -> & ->)|[(Hty & _ & -> & ->)|(Hty & -> & Hrest)]].
  - eexists. split; [done|]. split; [by apply cancelledIfUnfilled_lookup|].
    split_and!.
    + destruct (N.ltb_spec 0 (Order.remainingQuantity_ os)); [|done].
      simpl. split; [done|lia].
    + done.
    + destruct Hty; congruence.
  - exists os. split_and!; try done. congruence.
  - destruct Hrest as [(Hpos & Hact & Hrested)|[Hno ->]].
    + exists os. split_and!; try done.
      * destruct Hty as [?|[?|?]]; intros [?|[?|?]]; congruence.
      * intros _ _. split; [by eapply rested_restsAtItsPrice|].
        unfold Order.isActive in Hact. apply orb_true_iff in Hact as [H|H];
          apply bool_decide_eq_true in H; [by left|by right].
    + exists os. split_and!; try done.
      intros _ Hpos. destruct Hno as [Hz|Hact]; [lia|].
      exfalso. rewrite (fills_active o os) in Hact; try done.
      * unfold Order.isActive. rewrite Hpending. done.
      * lia.
Qed.

Lemma C6_witness :
  belowAskOrders !! 3 = Some (order 4 BUY LIMIT 1490000 50)
  ∧ isNew (order 4 BUY LIMIT 1490000 50)
  ∧ (0 < Order.quantity_ (order 4 BUY LIMIT 1490000 50))%N
  ∧ closed belowAskOrders belowAskBook
  ∧ ∃ trades h' b' o',
      OrderBook.matchOrder 3 belowAskOrders belowAskBook = Some (trades, h', b')
      ∧ h' !! 3 = Some o'
      ∧ (Order.status_ o' = FILLED ↔ Order.remainingQuantity_ o' = 0%N)
      ∧ (LIMIT = MARKET ∨ LIMIT = IOC ∨ LIMIT = FOK →
         ¬ restsIn 3 belowAskBook → ¬ restsIn 3 b')
      ∧ (LIMIT = LIMIT → (0 < Order.remainingQuantity_ o')%N →
         restsAtItsPrice 3 o' b'
         ∧ (Order.status_ o' = PENDING ∨ Order.status_ o' = PARTIAL_FILL)).
Proof.
  assert (closed belowAskOrders belowAskBook) as Hcl by compute_done.
  split; [reflexivity|]. split; [split; reflexivity|]. split; [reflexivity|].
  split; [exact Hcl|].
  exact (C6_status_after_matchOrder 3 belowAskOrders belowAskBook
           (order 4 BUY LIMIT 1490000 50) eq_refl (conj eq_refl eq_refl) eq_refl Hcl).
Defined.

(** C9.  On a well-formed book, for an order whose id is not in the index,
    [addOrder] followed by [cancelOrder] of its id succeeds, returns true,
    and leaves the levels, the queues, the aggregates and the index as they
    were; in the store, only the status of that order changes. *)
Theorem C9_add_then_cancel_round_trip p h b o :
  h !! p = Some o →
  wfBook b →
  OrderBook.orderMap_ b !! Order.orderId_ o = None →
  ∃ b1 b2,
    OrderBook.addOrder p h b = Some b1
    ∧ OrderBook.cancelOrder (Order.orderId_ o) h b1
      = Some (true, <[p := Order.setStatus CANCELLED o]> h, b2)
    ∧ view b2 = view b.
Proof.
  intros Ho ((Hsb & Hsa) & Hwb & Hwa) Hidx.
  assert (<[p := Order.setStatus CANCELLED o]> h !! p
          = Some (Order.setStatus CANCELLED o)) as Ho'.
  { apply list_lookup_insert_eq. by eapply lookup_lt_Some. }
  unfold OrderBook.addOrder, OrderBook.cancelOrder. rewrite Ho. cbn.
  destruct (Order.side_ o) eqn:Hside; cbn.
  - destruct (addOrderAt_removeOrderAt Z.gt Z.gtb gtb_spec_gt _ Zgt_irrefl
                (Order.price_ o) p h _ o _ (OrderBook.bids_ b) Hsb Hwb Ho Ho' eq_refl)
      as (m1 & m2 & Hadd & Hrem & Hview).
    rewrite Hadd. cbn. eexists _, _. split; [done|].
    unfold OrderBook.setBids, OrderBook.setAsks, OrderBook.setOrderMap.
    cbn [OrderBook.orderMap_ OrderBook.bids_ OrderBook.asks_ OrderBook.symbol_].
    rewrite lookup_insert_eq, Ho. cbn [mbind option_bind]. rewrite Hside.
    simpl in Hrem. rewrite Hrem. cbn [mbind option_bind]. split; [done|].
    unfold view; simpl. by rewrite Hview, delete_insert_id.
  - destruct (addOrderAt_removeOrderAt Z.lt Z.ltb ltb_spec_lt _ Zlt_irrefl
                (Order.price_ o) p h _ o _ (OrderBook.asks_ b) Hsa Hwa Ho Ho' eq_refl)
      as (m1 & m2 & Hadd & Hrem & Hview).
    rewrite Hadd. cbn. eexists _, _. split; [done|].
    unfold OrderBook.setBids, OrderBook.setAsks, OrderBook.setOrderMap.
    cbn [OrderBook.orderMap_ OrderBook.bids_ OrderBook.asks_ OrderBook.symbol_].
    rewrite lookup_insert_eq, Ho. cbn [mbind option_bind]. rewrite Hside.
    simpl in Hrem. rewrite Hrem. cbn [mbind option_bind]. split; [done|].
    unfold view; simpl. by rewrite Hview, delete_insert_id.
Qed.

Lemma C9_witness :
  belowAskOrders !! 3 = Some (order 4 BUY LIMIT 1490000 50)
  ∧ wfBook belowAskBook
  ∧ OrderBook.orderMap_ belowAskBook !! 4%N = None
  ∧ ∃ b1 b2,
      OrderBook.addOrder 3 belowAskOrders belowAskBook = Some b1
      ∧ OrderBook.cancelOrder 4 belowAskOrders b1
        = Some (true,
                <[3 := Order.setStatus CANCELLED (order 4 BUY LIMIT 1490000 50)]>
                  belowAskOrders, b2)
      ∧ view b2 = view belowAskBook.
Proof.
  assert (wfBook belowAskBook) as Hwf by compute_done.
  assert (OrderBook.orderMap_ belowAskBook !! 4%N = None) as Hidx
    by (vm_compute; reflexivity).
  split; [reflexivity|]. split; [exact Hwf|]. split; [exact Hidx|].
  exact (C9_add_then_cancel_round_trip 3 belowAskOrders belowAskBook
           (order 4 BUY LIMIT 1490000 50) eq_refl Hwf Hidx).
Defined.

(** C10.  In every state the engine reaches, the counter of order ids not
    having wrapped around, take an order that is FILLED, or of which nothing
    remains of a positive quantity.  No book indexes its id.  The engine's
    [getOrder] with its id returns null; [cancelOrder] and [modifyOrder]
    return false and change neither the store nor the engine; and
    [orderToSymbol_] still maps its id to its symbol. *)
Theorem C10_filled_order_is_out_of_reach h e p o :
  reachable h e →
  h !! p = Some o →
  Order.status_ o = FILLED
  ∨ (Order.isFilled o = true ∧ (0 < Order.quantity_ o)%N) →
  MatchingEngineCore.getOrder (Order.orderId_ o) e = None
  ∧ MatchingEngineCore.cancelOrder (Order.orderId_ o) h e = Some (false, h, e)
  ∧ (∀ newPrice newQuantity,
       MatchingEngineCore.modifyOrder (Order.orderId_ o) newPrice newQuantity h e
       = Some (false, h, e))
  ∧ MatchingEngineCore.orderToSymbol_ e !! Order.orderId_ o
    = Some (Order.symbol_ o)
  ∧ (∀ symbol b, MatchingEngineCore.orderBooks_ e !! symbol = Some b →
                 OrderBook.getOrder (Order.orderId_ o) b = None).
Proof.
  intros Hr Ho Hf.
  destruct (reachable_filled _ _ _ _ Hr Ho Hf) as (_ & Hots & Hidx).
  unfold MatchingEngineCore.getOrder, MatchingEngineCore.cancelOrder,
    MatchingEngineCore.modifyOrder, OrderBook.getOrder. rewrite Hots.
  destruct (MatchingEngineCore.orderBooks_ e !! Order.symbol_ o) as [book|] eqn:Hb.
  - pose proof (Hidx _ _ Hb) as Hnone.
    unfold OrderBook.cancelOrder, OrderBook.modifyOrder. rewrite Hnone. cbn.
    rewrite engine_eta by (by rewrite insert_id). by split_and!.
  - by split_and!.
Qed.

Lemma C10_witness :
  reachable filledState.1 filledState.2
  ∧ filledState.1 !! 0 = Some (Order.fill 50 (order 1 SELL LIMIT 1500000 50))
  ∧ Order.status_ (Order.fill 50 (order 1 SELL LIMIT 1500000 50)) = FILLED
  ∧ MatchingEngineCore.getOrder 1 filledState.2 = None
  ∧ MatchingEngineCore.cancelOrder 1 filledState.1 filledState.2
    = Some (false, filledState.1, filledState.2)
  ∧ MatchingEngineCore.modifyOrder 1 1490000 10 filledState.1 filledState.2
    = Some (false, filledState.1, filledState.2)
  ∧ MatchingEngineCore.orderToSymbol_ filledState.2 !! 1%N = Some AAPL.
Proof.
  assert (reachable filledState.1 filledState.2) as Hr.
  { unfold filledState. apply reachable_submitted; [|by compute_done].
    apply reachable_submitted; [apply reach_new|by compute_done]. }
  assert (filledState.1 !! 0 = Some (Order.fill 50 (order 1 SELL LIMIT 1500000 50)))
    as Ho by (vm_compute; reflexivity).
  assert (Order.status_ (Order.fill 50 (order 1 SELL LIMIT 1500000 50)) = FILLED)
    as Hst by reflexivity.
  destruct (C10_filled_order_is_out_of_reach _ _ 0 _ Hr Ho (or_introl Hst))
    as (Hget & Hcancel & Hmodify & Hots & _).
  split; [exact Hr|]. split; [exact Ho|]. split; [exact Hst|].
  split; [exact Hget|]. split; [exact Hcancel|].
  split; [exact (Hmodify 1490000%Z 10%N)|exact Hots].
Defined.


(** * Further properties of the code *)

(** ** Order.h, Order.cpp *)

(** X1.  [Order::fill] on an order of which no more remains than its
    quantity: the filled quantity grows by the requested quantity clamped to
    what remained, filled and remaining quantities still add up to the
    quantity, and the status is FILLED when nothing remains, PARTIAL_FILL
    when something but not everything remains, and unchanged otherwise. *)
Theorem X1_fill_accounting quantity o :
  (Order.remainingQuantity_ o ≤ Order.quantity_ o)%N →
  (Order.quantity_ o < two64)%N →
  let o' := Order.fill quantity o in
  let filled := N.min quantity (Order.remainingQuantity_ o) in
  Order.remainingQuantity_ o' = (Order.remainingQuantity_ o - filled)%N
  ∧ Order.getFilledQuantity o' = (Order.getFilledQuantity o + filled)%N
  ∧ (Order.getFilledQuantity o' + Order.remainingQuantity_ o')%N = Order.quantity_ o
  ∧ Order.status_ o' =
      (if decide (Order.remainingQuantity_ o' = 0%N) then FILLED
       else if decide (Order.remainingQuantity_ o' = Order.quantity_ o)
            then Order.status_ o else PARTIAL_FILL).
Proof.
  intros Hle Hq. simpl.
  assert (∀ r, (r ≤ Order.quantity_ o)%N →
               sub64 (Order.quantity_ o) r = (Order.quantity_ o - r)%N) as Hsub.
  { intros r Hr. unfold sub64. rewrite (N.mod_small r) by lia.
    replace (Order.quantity_ o + two64 - r)%N
      with ((Order.quantity_ o - r) + 1 * two64)%N by lia.
    rewrite N.Div0.mod_add. apply N.mod_small. lia. }
  unfold Order.getFilledQuantity, Order.fill; simpl.
  destruct (N.ltb_spec (Order.remainingQuantity_ o) quantity) as [Hlt|Hge].
  - rewrite N.min_r by lia. rewrite !Hsub by lia. rewrite N.sub_diag.
    split_and!; try lia. simpl. done.
  - rewrite N.min_l by lia. rewrite !Hsub by lia. split_and!; try lia.
    repeat case_decide; nbool; try lia; done.
Qed.

Lemma X1_witness :
  Order.remainingQuantity_ (Order.fill 100 (Order.fill 30 (order 1 BUY LIMIT 1500000 100)))
  = (70 - N.min 100 70)%N
  ∧ Order.getFilledQuantity
      (Order.fill 100 (Order.fill 30 (order 1 BUY LIMIT 1500000 100)))
    = (30 + N.min 100 70)%N
  ∧ Order.status_ (Order.fill 100 (Order.fill 30 (order 1 BUY LIMIT 1500000 100)))
    = FILLED.
Proof.
  pose (o := Order.fill 30 (order 1 BUY LIMIT 1500000 100)).
  assert (Order.remainingQuantity_ o ≤ Order.quantity_ o)%N as Hle
    by (vm_compute; discriminate).
  assert (Order.quantity_ o < two64)%N as Hq by reflexivity.
  destruct (X1_fill_accounting 100 o Hle Hq) as (Hr & Hf & _ & Hs).
  split; [exact Hr|]. split; [exact Hf|exact Hs].
Defined.

(** X2.  When the sum of two quantities is below 2^64, so that it is a
    [Quantity] the code can pass, two calls of [Order::fill] in a row leave
    the order as one call with the sum of the two quantities does. *)
Theorem X2_fill_twice a b o :
  (a + b < two64)%N →
  Order.fill b (Order.fill a o) = Order.fill (wrap64 (a + b)) o.
Proof.
  intros Hsum. rewrite (wrap64_small (a + b)) by exact Hsum.
  unfold Order.fill; simpl.
  destruct (N.ltb_spec (Order.remainingQuantity_ o) a) as [Ha|Ha];
    destruct (N.ltb_spec (Order.remainingQuantity_ o) (a + b)) as [Hab|Hab];
    try lia.
  - rewrite N.sub_diag. simpl.
    destruct (N.ltb_spec 0 b); simpl; by rewrite ?N.sub_diag.
  - destruct (N.ltb_spec (Order.remainingQuantity_ o - a) b) as [Hb|Hb]; [|lia].
    rewrite !N.sub_diag. simpl. done.
  - destruct (N.ltb_spec (Order.remainingQuantity_ o - a) b) as [Hb|Hb]; [lia|].
    replace (Order.remainingQuantity_ o - a - b)%N
      with (Order.remainingQuantity_ o - (a + b))%N by lia.
    f_equal.
    destruct (N.eqb_spec (Order.remainingQuantity_ o - (a + b)) 0) as [Hz|Hz];
      [done|].
    destruct (N.ltb_spec (Order.remainingQuantity_ o - (a + b)) (Order.quantity_ o))
      as [Hl|Hl]; [done|].
    destruct (N.eqb_spec (Order.remainingQuantity_ o - a) 0); [lia|].
    destruct (N.ltb_spec (Order.remainingQuantity_ o - a) (Order.quantity_ o));
      [lia|done].
Qed.

Lemma X2_witness :
  (30 + 80 < two64)%N
  ∧ Order.fill 80 (Order.fill 30 (order 1 BUY LIMIT 1500000 100))
    = Order.fill (wrap64 (30 + 80)) (order 1 BUY LIMIT 1500000 100).
Proof.
  assert (30 + 80 < two64)%N as Hsum by reflexivity.
  split; [exact Hsum|].
  exact (X2_fill_twice 30 80 (order 1 BUY LIMIT 1500000 100) Hsum).
Defined.

(** ** MatchingEngine.cpp, OrderBook.cpp: what [submitOrder] trades *)

(** The state after the [submitted] calls of an example is one the engine
    reaches. *)
Ltac reached :=
  repeat (apply reachable_submitted; [|by compute_done]); apply reach_new.

(** X3.  In every state the engine reaches, the quantities of the trades
    [submitOrder] hands out add up to what the new order filled, and to what
    the orders submitted before lost in remaining quantity. *)
Theorem X3_traded_quantity_is_filled_quantity
    symbol side type price quantity clientId stopPrice h e orderId trades h' e' :
  reachable h e →
  MatchingEngineCore.submitOrder symbol side type price quantity clientId
    stopPrice h e = Some (orderId, trades, h', e') →
  (∃ o', h' !! length h = Some o'
         ∧ Order.orderId_ o' = orderId
         ∧ Order.quantity_ o' = quantity
         ∧ (tradedQuantity trades + Order.remainingQuantity_ o')%N = quantity)
  ∧ (totalRemaining h' (seq 0 (length h)) + tradedQuantity trades)%N
    = totalRemaining h (seq 0 (length h)).
Proof.
  intros Hr Hrun.
  destruct (submitOrder_trades _ _ _ _ _ _ _ _ _ _ _ _ _
              (reachable_engineOk _ _ Hr) (reachable_bookSymbols _ _ Hr) Hrun)
    as ((o' & Ho' & (Hid & _ & _ & _ & _ & Hq) & Hacc) & Hpas & _).
  split; [|done]. exists o'. by split_and!.
Qed.

Lemma X3_witness :
  ∃ trades h' e',
    MatchingEngineCore.submitOrder AAPL BUY LIMIT 1510000 80 String.EmptyString 0
      ladderState.1 ladderState.2 = Some (4%N, trades, h', e')
    ∧ tradedQuantity trades = 80%N
    ∧ (∃ o', h' !! 3 = Some o'
             ∧ (tradedQuantity trades + Order.remainingQuantity_ o')%N = 80%N)
    ∧ (totalRemaining h' (seq 0 3) + tradedQuantity trades)%N
      = totalRemaining ladderState.1 (seq 0 3).
Proof.
  assert (reachable ladderState.1 ladderState.2) as Hr
    by (unfold ladderState; reached).
  destruct (MatchingEngineCore.submitOrder AAPL BUY LIMIT 1510000 80
              String.EmptyString 0 ladderState.1 ladderState.2)
    as [[[[orderId trades] h'] e']|] eqn:Hrun; [|by vm_compute in Hrun].
  assert (orderId = 4%N ∧ tradedQuantity trades = 80%N) as [-> Hq].
  { vm_compute in Hrun. injection Hrun as <- <- _ _. by split. }
  destruct (X3_traded_quantity_is_filled_quantity _ _ _ _ _ _ _ _ _ _ _ _ _ Hr Hrun)
    as ((o' & Ho' & _ & _ & Hacc) & Hpas).
  exists trades, h', e'. split; [reflexivity|]. split; [exact Hq|].
  split; [|exact Hpas]. exists o'. split; [exact Ho'|exact Hacc].
Defined.

(** X4.  In every state the engine reaches, every trade [submitOrder] hands
    out bears the symbol of the new order and its id on its side; the id on
    the other side is that of an order of the other side and of the same
    symbol that [getOrder] found before the call. *)
Theorem X4_trades_pair_the_new_order_with_resting_orders
    symbol side type price quantity clientId stopPrice h e orderId trades h' e' :
  reachable h e →
  MatchingEngineCore.submitOrder symbol side type price quantity clientId
    stopPrice h e = Some (orderId, trades, h', e') →
  Forall (λ t, Trade.symbol_ t = symbol
               ∧ takerId side t = orderId
               ∧ ∃ q m, MatchingEngineCore.getOrder (passiveId side t) e = Some q
                        ∧ h !! q = Some m
                        ∧ Order.orderId_ m = passiveId side t
                        ∧ Order.side_ m = otherSide side
                        ∧ Order.symbol_ m = symbol) trades.
Proof.
  intros Hr Hrun. pose proof (reachable_engineOk _ _ Hr) as He.
  destruct (submitOrder_trades _ _ _ _ _ _ _ _ _ _ _ _ _
              He (reachable_bookSymbols _ _ Hr) Hrun)
    as (_ & _ & Htaker & Hpassive & _).
  rewrite Forall_forall in *. intros t Ht.
  destruct (Htaker _ Ht) as [Hsym Hid].
  destruct (Hpassive _ Ht) as (q & m & Hm & Hq & Hpid & Hside & Hsymm & _).
  split; [done|]. split; [done|]. exists q, m.
  rewrite Hpid. split_and!; try done. by eapply getOrCreate_getOrder.
Qed.

Lemma X4_witness :
  ∃ trades h' e',
    MatchingEngineCore.submitOrder AAPL BUY LIMIT 1510000 80 String.EmptyString 0
      ladderState.1 ladderState.2 = Some (4%N, trades, h', e')
    ∧ (Trade.sellOrderId_ <$> trades) = [1%N; 2%N]
    ∧ Forall (λ t, Trade.symbol_ t = AAPL
                   ∧ takerId BUY t = 4%N
                   ∧ ∃ q m, MatchingEngineCore.getOrder (passiveId BUY t)
                              ladderState.2 = Some q
                            ∧ ladderState.1 !! q = Some m
                            ∧ Order.orderId_ m = passiveId BUY t
                            ∧ Order.side_ m = otherSide BUY
                            ∧ Order.symbol_ m = AAPL) trades.
Proof.
  assert (reachable ladderState.1 ladderState.2) as Hr
    by (unfold ladderState; reached).
  destruct (MatchingEngineCore.submitOrder AAPL BUY LIMIT 1510000 80
              String.EmptyString 0 ladderState.1 ladderState.2)
    as [[[[orderId trades] h'] e']|] eqn:Hrun; [|by vm_compute in Hrun].
  assert (orderId = 4%N ∧ (Trade.sellOrderId_ <$> trades) = [1%N; 2%N]) as [-> Hq].
  { vm_compute in Hrun. injection Hrun as <- <- _ _. by split. }
  exists trades, h', e'. split; [reflexivity|]. split; [exact Hq|].
  exact (X4_trades_pair_the_new_order_with_resting_orders
           _ _ _ _ _ _ _ _ _ _ _ _ _ Hr Hrun).
Defined.

(** X5.  In every state the engine reaches, a LIMIT order trades within
    its limit: no trade of a buy is above its price, no trade of a sell
    below. *)
Theorem X5_limit_order_trades_within_its_limit
    symbol side price quantity clientId stopPrice h e orderId trades h' e' :
  reachable h e →
  MatchingEngineCore.submitOrder symbol side LIMIT price quantity clientId
    stopPrice h e = Some (orderId, trades, h', e') →
  Forall (λ t, withinLimit side price (Trade.price_ t)) trades.
Proof.
  intros Hr Hrun.
  destruct (submitOrder_trades _ _ _ _ _ _ _ _ _ _ _ _ _
              (reachable_engineOk _ _ Hr) (reachable_bookSymbols _ _ Hr) Hrun)
    as (_ & _ & _ & _ & _ & Hlimit).
  by apply Hlimit.
Qed.

Lemma X5_witness :
  ∃ trades h' e',
    MatchingEngineCore.submitOrder AAPL BUY LIMIT 1500000 80 String.EmptyString 0
      ladderState.1 ladderState.2 = Some (4%N, trades, h', e')
    ∧ (Trade.price_ <$> trades) = [1500000%Z]
    ∧ Forall (λ t, withinLimit BUY 1500000 (Trade.price_ t)) trades.
Proof.
  assert (reachable ladderState.1 ladderState.2) as Hr
    by (unfold ladderState; reached).
  destruct (MatchingEngineCore.submitOrder AAPL BUY LIMIT 1500000 80
              String.EmptyString 0 ladderState.1 ladderState.2)
    as [[[[orderId trades] h'] e']|] eqn:Hrun; [|by vm_compute in Hrun].
  assert (orderId = 4%N ∧ (Trade.price_ <$> trades) = [1500000%Z]) as [-> Hq].
  { vm_compute in Hrun. injection Hrun as <- <- _ _. by split. }
  exists trades, h', e'. split; [reflexivity|]. split; [exact Hq|].
  exact (X5_limit_order_trades_within_its_limit _ _ _ _ _ _ _ _ _ _ _ _ Hr Hrun).
Defined.

(** X6.  In every state the engine reaches, the trades of [submitOrder]
    come best price first, whatever the type of the order: prices never
    decrease along the trades of a buy and never increase along those of a
    sell. *)
Theorem X6_trades_come_best_price_first
    symbol side type price quantity clientId stopPrice h e orderId trades h' e' :
  reachable h e →
  MatchingEngineCore.submitOrder symbol side type price quantity clientId
    stopPrice h e = Some (orderId, trades, h', e') →
  StronglySorted (noWorse side) (Trade.price_ <$> trades).
Proof.
  intros Hr Hrun.
  destruct (submitOrder_trades _ _ _ _ _ _ _ _ _ _ _ _ _
              (reachable_engineOk _ _ Hr) (reachable_bookSymbols _ _ Hr) Hrun)
    as (_ & _ & _ & _ & Hsorted & _).
  done.
Qed.

Lemma X6_witness :
  ∃ trades h' e',
    MatchingEngineCore.submitOrder AAPL BUY MARKET 0 80 String.EmptyString 0
      ladderState.1 ladderState.2 = Some (4%N, trades, h', e')
    ∧ (Trade.price_ <$> trades) = [1500000%Z; 1510000%Z]
    ∧ StronglySorted (noWorse BUY) (Trade.price_ <$> trades).
Proof.
  assert (reachable ladderState.1 ladderState.2) as Hr
    by (unfold ladderState; reached).
  destruct (MatchingEngineCore.submitOrder AAPL BUY MARKET 0 80
              String.EmptyString 0 ladderState.1 ladderState.2)
    as [[[[orderId trades] h'] e']|] eqn:Hrun; [|by vm_compute in Hrun].
  assert (orderId = 4%N ∧ (Trade.price_ <$> trades) = [1500000%Z; 1510000%Z])
    as [-> Hq].
  { vm_compute in Hrun. injection Hrun as <- <- _ _. by split. }
  exists trades, h', e'. split; [reflexivity|]. split; [exact Hq|].
  exact (X6_trades_come_best_price_first _ _ _ _ _ _ _ _ _ _ _ _ _ Hr Hrun).
Defined.

(** ** MatchingEngine.cpp: the engine on the states it reaches *)

(** X7.  As long as the counter of ids has not wrapped around, the n-th
    call of [submitOrder] returns the id n, which is the value of
    [getTotalOrders] after the call; the order it creates bears that id, and
    so do all the orders created before bear the rank of their call. *)
Theorem X7_ids_count_the_submissions
    symbol side type price quantity clientId stopPrice h e orderId trades h' e' :
  reachable h e →
  (MatchingEngineCore.nextOrderId_ e + 1 < two64)%N →
  MatchingEngineCore.submitOrder symbol side type price quantity clientId
    stopPrice h e = Some (orderId, trades, h', e') →
  orderId = (MatchingEngineCore.totalOrders_ e + 1)%N
  ∧ MatchingEngineCore.totalOrders_ e' = orderId
  ∧ length h' = S (length h)
  ∧ orderId = N.of_nat (length h')
  ∧ ∀ p o, h' !! p = Some o → Order.orderId_ o = (N.of_nat p + 1)%N.
Proof.
  intros Hr Hwrap Hrun.
  pose proof (reach_submit _ _ _ _ _ _ _ _ _ _ _ _ _ Hr Hwrap Hrun) as Hr'.
  pose proof (reachable_totalOrders _ _ Hr) as Ht.
  pose proof (reachable_totalOrders _ _ Hr') as Ht'.
  pose proof (reachable_engineOk _ _ Hr) as He.
  pose proof (reachable_engineOk _ _ Hr') as (_ & Hids & _).
  destruct (submitOrder_inv _ _ _ _ _ _ _ _ _ _ _ _ _ He Hrun)
    as (o0 & b & b' & _ & _ & Hid & Hm & _).
  apply matchOrder_length in Hm. rewrite length_app in Hm. simpl in Hm.
  split_and!; try done; lia.
Qed.

Lemma X7_witness :
  ∃ trades h' e',
    MatchingEngineCore.submitOrder AAPL BUY LIMIT 1510000 80 String.EmptyString 0
      ladderState.1 ladderState.2 = Some (4%N, trades, h', e')
    ∧ MatchingEngineCore.totalOrders_ ladderState.2 = 3%N
    ∧ MatchingEngineCore.totalOrders_ e' = 4%N
    ∧ length h' = 4
    ∧ ∀ p o, h' !! p = Some o → Order.orderId_ o = (N.of_nat p + 1)%N.
Proof.
  assert (reachable ladderState.1 ladderState.2) as Hr
    by (unfold ladderState; reached).
  assert (MatchingEngineCore.nextOrderId_ ladderState.2 + 1 < two64)%N as Hwrap
    by (by compute_done).
  destruct (MatchingEngineCore.submitOrder AAPL BUY LIMIT 1510000 80
              String.EmptyString 0 ladderState.1 ladderState.2)
    as [[[[orderId trades] h'] e']|] eqn:Hrun; [|by vm_compute in Hrun].
  assert (orderId = 4%N) as ->.
  { vm_compute in Hrun. by injection Hrun as <- _ _ _. }
  destruct (X7_ids_count_the_submissions _ _ _ _ _ _ _ _ _ _ _ _ _ Hr Hwrap Hrun)
    as (_ & Htotal & Hlen & _ & Hids).
  exists trades, h', e'. split; [reflexivity|]. split; [reflexivity|].
  split; [exact Htotal|]. split; [exact Hlen|exact Hids].
Defined.

(** X8.  In no state the engine reaches does [submitOrder], [cancelOrder]
    or [modifyOrder] go through a dangling list iterator or a pointer outside
    of the store: the three are defined there, for all arguments. *)
Theorem X8_operations_are_defined h e :
  reachable h e →
  (∀ symbol side type price quantity clientId stopPrice,
     is_Some (MatchingEngineCore.submitOrder symbol side type price quantity
                clientId stopPrice h e))
  ∧ (∀ orderId, is_Some (MatchingEngineCore.cancelOrder orderId h e))
  ∧ (∀ orderId newPrice newQuantity,
       is_Some (MatchingEngineCore.modifyOrder orderId newPrice newQuantity h e)).
Proof. intros Hr. by apply engineOk_defined, reachable_engineOk. Qed.

Lemma X8_witness :
  is_Some (MatchingEngineCore.submitOrder AAPL BUY FOK 1510000 80
             String.EmptyString 0 ladderState.1 ladderState.2)
  ∧ is_Some (MatchingEngineCore.cancelOrder 2 ladderState.1 ladderState.2)
  ∧ is_Some (MatchingEngineCore.modifyOrder 3 1500000 10 ladderState.1 ladderState.2).
Proof.
  assert (reachable ladderState.1 ladderState.2) as Hr
    by (unfold ladderState; reached).
  destruct (X8_operations_are_defined _ _ Hr) as (Hsubmit & Hcancel & Hmodify).
  split; [apply Hsubmit|]. split; [apply Hcancel|apply Hmodify].
Defined.

(** X9.  In every state the engine reaches, the order [getOrder] returns
    for an id bears that id, which is its rank among the submissions; it is
    PENDING or PARTIAL_FILL, and it is in the queue of the level at its price
    on its side of the book of its symbol.  Conversely, every order in a
    queue of a book is the one [getOrder] returns for its id. *)
Theorem X9_getOrder_finds_the_resting_orders h e :
  reachable h e →
  (∀ orderId p,
     MatchingEngineCore.getOrder orderId e = Some p →
     ∃ o b l,
       h !! p = Some o
       ∧ Order.orderId_ o = orderId
       ∧ orderId = (N.of_nat p + 1)%N
       ∧ Order.isActive o = true
       ∧ MatchingEngineCore.orderBooks_ e !! Order.symbol_ o = Some b
       ∧ Levels.find (Order.price_ o) (ownSide (Order.side_ o) b) = Some l
       ∧ p ∈ PriceLevel.queue l)
  ∧ (∀ symbol b q,
       MatchingEngineCore.orderBooks_ e !! symbol = Some b →
       q ∈ allResting b →
       ∃ o, h !! q = Some o
            ∧ Order.symbol_ o = symbol
            ∧ MatchingEngineCore.getOrder (Order.orderId_ o) e = Some q).
Proof.
  intros Hr. pose proof (reachable_engineOk _ _ Hr) as He.
  pose proof (reachable_engineRests _ _ Hr) as Hrests.
  pose proof He as (_ & Hids & _ & _ & _ & Hbooks). split.
  - intros orderId p Hget.
    destruct (getOrder_rests _ _ _ _ He Hget) as (b & o & Ho & Hb & Hid & _ & Hown).
    destruct (sideOk_resting h (Order.symbol_ o) (Order.side_ o)
                (OrderBook.orderMap_ b) (ownSide (Order.side_ o) b) p)
      as (price & l & n & o' & _ & Hn & Hfind & Ho' & _ & Hprice & _); [|done|].
    { apply (bookOk_sides (Order.side_ o)). by eapply Hbooks. }
    rewrite Ho in Ho'. injection Ho' as <-.
    destruct (Hrests _ _ Hb) as [Hact _].
    destruct (Hact p) as (o' & Ho' & Ha).
    { apply (elem_of_allResting (Order.side_ o)). by left. }
    rewrite Ho in Ho'. injection Ho' as <-.
    exists o, b, l. split_and!; try done.
    + rewrite <- Hid. by eapply Hids.
    + by rewrite Hprice.
    + unfold PriceLevel.queue. apply list_elem_of_fmap. by exists (n, p).
  - intros symbol b q Hb Hq.
    destruct (rests_getOrder _ _ _ _ _ He Hb Hq) as (o & Ho & Hsym & _ & Hget).
    by exists o.
Qed.

Lemma X9_witness :
  ∃ p o b l,
    MatchingEngineCore.getOrder 2 ladderState.2 = Some p
    ∧ ladderState.1 !! p = Some o
    ∧ Order.orderId_ o = 2%N
    ∧ Order.isActive o = true
    ∧ MatchingEngineCore.orderBooks_ ladderState.2 !! Order.symbol_ o = Some b
    ∧ Levels.find (Order.price_ o) (ownSide (Order.side_ o) b) = Some l
    ∧ p ∈ PriceLevel.queue l.
Proof.
  assert (reachable ladderState.1 ladderState.2) as Hr
    by (unfold ladderState; reached).
  destruct (X9_getOrder_finds_the_resting_orders _ _ Hr) as [Hget _].
  destruct (MatchingEngineCore.getOrder 2 ladderState.2) as [p|] eqn:Hp;
    [|by vm_compute in Hp].
  destruct (Hget 2%N p Hp) as (o & b & l & Ho & Hid & _ & Ha & Hb & Hl & Hq).
  exists p, o, b, l. split; [reflexivity|]. split; [exact Ho|].
  split; [exact Hid|]. split; [exact Ha|]. split; [exact Hb|].
  split; [exact Hl|exact Hq].
Defined.

(** X10.  In every state the engine reaches, [cancelOrder] succeeds exactly
    on the ids for which [getOrder] returns an order.  It then marks that
    order CANCELLED and changes no other order; afterwards [getOrder]
    returns null for the id and what it returned before for every other id,
    and a second [cancelOrder] of the id returns false and changes nothing.
    On any other id [cancelOrder] returns false and changes nothing. *)
Theorem X10_cancelOrder_takes_one_order_out h e :
  reachable h e →
  (∀ orderId p,
     MatchingEngineCore.getOrder orderId e = Some p →
     ∃ o e',
       h !! p = Some o
       ∧ MatchingEngineCore.cancelOrder orderId h e
         = Some (true, <[p := Order.setStatus CANCELLED o]> h, e')
       ∧ MatchingEngineCore.getOrder orderId e' = None
       ∧ (∀ orderId2, orderId2 ≠ orderId →
            MatchingEngineCore.getOrder orderId2 e'
            = MatchingEngineCore.getOrder orderId2 e)
       ∧ MatchingEngineCore.cancelOrder orderId
           (<[p := Order.setStatus CANCELLED o]> h) e'
         = Some (false, <[p := Order.setStatus CANCELLED o]> h, e'))
  ∧ (∀ orderId,
       MatchingEngineCore.getOrder orderId e = None →
       MatchingEngineCore.cancelOrder orderId h e = Some (false, h, e)).
Proof.
  intros Hr. pose proof (reachable_engineOk _ _ Hr) as He.
  destruct (engineOk_defined _ _ He) as (_ & Hdef & _). split.
  - intros orderId p Hget.
    destruct (Hdef orderId) as [[[r h'] e'] Hrun].
    destruct (cancelOrder_engine_inv _ _ _ _ _ _ He Hrun)
      as [(Hnone & _)|(symbol & book & book' & p' & o & Hots & Hbook & Hidx & _ & Ho
                      & _ & _ & _ & -> & -> & Hbooks & Hots' & Hidx' & _)];
      [congruence|].
    assert (p' = p) as ->.
    { apply getOrder_Some in Hget as (s2 & b2 & Hs2 & Hb2 & Hp2). congruence. }
    exists o, e'. split; [done|]. split; [done|].
    pose proof (getOrder_after_erase _ _ _ _ _ _ orderId Hbook Hbooks Hots' Hidx')
      as Hsame.
    rewrite decide_True in Hsame by done.
    split; [done|]. split.
    + intros orderId2 Hne.
      rewrite (getOrder_after_erase _ _ _ _ _ _ orderId2 Hbook Hbooks Hots' Hidx').
      by rewrite decide_False.
    + unfold MatchingEngineCore.cancelOrder. rewrite Hots'.
      by rewrite lookup_delete_eq.
  - intros orderId Hget.
    destruct (Hdef orderId) as [[[r h'] e'] Hrun]. rewrite Hrun.
    destruct (cancelOrder_engine_inv _ _ _ _ _ _ He Hrun)
      as [(_ & -> & -> & ->)|(symbol & book & book' & p' & o & Hots & Hbook & Hidx
                             & _)]; [done|].
    assert (MatchingEngineCore.getOrder orderId e = Some p') as Hsome
      by (apply getOrder_Some; by exists symbol, book).
    congruence.
Qed.

Lemma X10_witness :
  ∃ e',
    MatchingEngineCore.getOrder 2 ladderState.2 = Some 1
    ∧ MatchingEngineCore.cancelOrder 2 ladderState.1 ladderState.2
      = Some (true,
              <[1 := Order.setStatus CANCELLED (order 2 SELL LIMIT 1510000 50)]>
                ladderState.1, e')
    ∧ MatchingEngineCore.getOrder 2 e' = None
    ∧ MatchingEngineCore.getOrder 1 e' = Some 0
    ∧ MatchingEngineCore.cancelOrder 7 ladderState.1 ladderState.2
      = Some (false, ladderState.1, ladderState.2).
Proof.
  assert (reachable ladderState.1 ladderState.2) as Hr
    by (unfold ladderState; reached).
  destruct (X10_cancelOrder_takes_one_order_out _ _ Hr) as [Hsome Hnone].
  assert (MatchingEngineCore.getOrder 2 ladderState.2 = Some 1) as Hget
    by (vm_compute; reflexivity).
  destruct (Hsome 2%N 1 Hget) as (o & e' & Ho & Hrun & Hgone & Hother & _).
  assert (o = order 2 SELL LIMIT 1510000 50) as ->.
  { vm_compute in Ho. by injection Ho as <-. }
  exists e'. split; [exact Hget|]. split; [exact Hrun|]. split; [exact Hgone|].
  split.
  - rewrite (Hother 1%N) by discriminate. vm_compute. reflexivity.
  - apply Hnone. vm_compute. reflexivity.
Defined.

(** X11.  In every state the engine reaches, [modifyOrder] succeeds exactly
    on the ids for which [getOrder] returns an order.  The order gets the
    new price, the new quantity as quantity and as remaining quantity, and
    the status PENDING; [getOrder] returns what it returned before, for
    every id.  The order loses its time priority: it is the last one in the
    queue of the level at the new price, also when the price is the old
    one, while the other orders of its side keep their order and the other
    side is untouched.  On any other id [modifyOrder] returns false and
    changes nothing. *)
Theorem X11_modifyOrder_puts_the_order_at_the_back h e :
  reachable h e →
  (∀ orderId p newPrice newQuantity,
     MatchingEngineCore.getOrder orderId e = Some p →
     ∃ o e' b b' l r1 r2 s1 s2,
       h !! p = Some o
       ∧ MatchingEngineCore.modifyOrder orderId newPrice newQuantity h e
         = Some (true, <[p := modified newPrice newQuantity o]> h, e')
       ∧ (∀ orderId2, MatchingEngineCore.getOrder orderId2 e'
                      = MatchingEngineCore.getOrder orderId2 e)
       ∧ MatchingEngineCore.orderBooks_ e !! Order.symbol_ o = Some b
       ∧ MatchingEngineCore.orderBooks_ e' !! Order.symbol_ o = Some b'
       ∧ Levels.find newPrice (ownSide (Order.side_ o) b') = Some l
       ∧ last (PriceLevel.queue l) = Some p
       ∧ resting (ownSide (Order.side_ o) b) = r1 ++ p :: r2
       ∧ resting (ownSide (Order.side_ o) b') = s1 ++ p :: s2
       ∧ r1 ++ r2 = s1 ++ s2
       ∧ opposite (Order.side_ o) b' = opposite (Order.side_ o) b)
  ∧ (∀ orderId newPrice newQuantity,
       MatchingEngineCore.getOrder orderId e = None →
       MatchingEngineCore.modifyOrder orderId newPrice newQuantity h e
       = Some (false, h, e)).
Proof.
  intros Hr. pose proof (reachable_engineOk _ _ Hr) as He.
  pose proof (engineOk_ids _ _ He) as Hids.
  pose proof He as (_ & _ & _ & _ & _ & Hoks).
  destruct (engineOk_defined _ _ He) as (_ & _ & Hdef). split.
  - intros orderId p newPrice newQuantity Hget.
    destruct (Hdef orderId newPrice newQuantity) as [[[r h'] e'] Hrun].
    destruct (modifyOrder_engine_inv _ _ _ _ _ _ _ _ He Hrun)
      as [(Hnone & _)|(symbol & book & book' & p' & o & Hots & Hbook & Hidx & Hc & Ho
                      & _ & Hsym & _ & -> & -> & Hbooks & Hots' & Hidx' & _)];
      [congruence|].
    assert (p' = p) as ->.
    { apply getOrder_Some in Hget as (s2 & b2 & Hs2 & Hb2 & Hp2). congruence. }
    destruct (modifyOrder_order _ _ _ _ _ _ _ symbol p o Hc (Hoks _ _ Hbook) Hids
                Hidx Ho) as (r1 & r2 & s1 & s2 & l & H1 & H2 & H3 & H4 & H5 & H6).
    exists o, e', book, book', l, r1, r2, s1, s2. rewrite Hsym.
    split_and!; try done.
    + intros orderId2. by eapply getOrder_same_index.
    + by rewrite Hbooks, lookup_insert_eq.
  - intros orderId newPrice newQuantity Hget.
    destruct (Hdef orderId newPrice newQuantity) as [[[r h'] e'] Hrun]. rewrite Hrun.
    destruct (modifyOrder_engine_inv _ _ _ _ _ _ _ _ He Hrun)
      as [(_ & -> & -> & ->)|(symbol & book & book' & p' & o & Hots & Hbook & Hidx
                             & _)]; [done|].
    assert (MatchingEngineCore.getOrder orderId e = Some p') as Hsome
      by (apply getOrder_Some; by exists symbol, book).
    congruence.
Qed.

Lemma X11_witness :
  ∃ e' b' l,
    MatchingEngineCore.getOrder 1 fifoState.2 = Some 0
    ∧ MatchingEngineCore.modifyOrder 1 1500000 100 fifoState.1 fifoState.2
      = Some (true,
              <[0 := modified 1500000 100 (order 1 SELL LIMIT 1500000 100)]>
                fifoState.1, e')
    ∧ MatchingEngineCore.orderBooks_ e' !! AAPL = Some b'
    ∧ Levels.find 1500000 (OrderBook.asks_ b') = Some l
    ∧ PriceLevel.queue l = [1; 0].
Proof.
  assert (reachable fifoState.1 fifoState.2) as Hr
    by (unfold fifoState; reached).
  destruct (X11_modifyOrder_puts_the_order_at_the_back _ _ Hr) as [Hsome _].
  assert (MatchingEngineCore.getOrder 1 fifoState.2 = Some 0) as Hget
    by (vm_compute; reflexivity).
  destruct (Hsome 1%N 0 1500000%Z 100%N Hget)
    as (o & e' & b & b' & l & r1 & r2 & s1 & s2 & Ho & Hrun & _ & _ & Hb' & Hl & _).
  assert (o = order 1 SELL LIMIT 1500000 100) as ->.
  { vm_compute in Ho. by injection Ho as <-. }
  exists e', b', l. split; [exact Hget|]. split; [exact Hrun|].
  split; [exact Hb'|]. split; [exact Hl|].
  vm_compute in Hrun. injection Hrun as <-.
  vm_compute in Hb'. injection Hb' as <-.
  vm_compute in Hl. injection Hl as <-. reflexivity.
Defined.

(** X12.  In every state the engine reaches, [submitOrder] for a symbol
    leaves the books of the other symbols as they are, with their best
    prices; it changes no order of another symbol, and [getOrder] still
    returns the orders of the other symbols. *)
Theorem X12_submitOrder_leaves_other_symbols_alone
    symbol side type price quantity clientId stopPrice h e orderId trades h' e' :
  reachable h e →
  MatchingEngineCore.submitOrder symbol side type price quantity clientId
    stopPrice h e = Some (orderId, trades, h', e') →
  (∀ symbol2, symbol2 ≠ symbol →
     MatchingEngineCore.orderBooks_ e' !! symbol2
     = MatchingEngineCore.orderBooks_ e !! symbol2
     ∧ MatchingEngineCore.getBestBid symbol2 e'
       = MatchingEngineCore.getBestBid symbol2 e
     ∧ MatchingEngineCore.getBestAsk symbol2 e'
       = MatchingEngineCore.getBestAsk symbol2 e)
  ∧ (∀ q o, h !! q = Some o → Order.symbol_ o ≠ symbol → h' !! q = Some o)
  ∧ (∀ orderId2 q o,
       MatchingEngineCore.getOrder orderId2 e = Some q →
       h !! q = Some o → Order.symbol_ o ≠ symbol →
       MatchingEngineCore.getOrder orderId2 e' = Some q).
Proof.
  intros Hr Hrun. pose proof (reachable_engineOk _ _ Hr) as He.
  destruct (submitOrder_maps _ _ _ _ _ _ _ _ _ _ _ _ _ Hrun)
    as (Hid & Hots & [b' Hbooks] & _).
  assert (∀ symbol2, symbol2 ≠ symbol →
            MatchingEngineCore.orderBooks_ e' !! symbol2
            = MatchingEngineCore.orderBooks_ e !! symbol2) as Hother.
  { intros symbol2 Hne. by rewrite Hbooks, lookup_insert_ne. }
  split_and!.
  - intros symbol2 Hne. unfold MatchingEngineCore.getBestBid,
      MatchingEngineCore.getBestAsk. by rewrite !Hother.
  - intros q o Hq Hsym.
    eapply submitOrder_frame; [exact He|exact Hrun|exact Hq|].
    destruct (submitOrder_inv _ _ _ _ _ _ _ _ _ _ _ _ _ He Hrun)
      as (o0 & b & b0 & _ & Hb & _ & _ & _ & _ & _ & _ & _ & Hrest & _).
    rewrite <- Hb. intros Hin. destruct (Hrest _ Hin) as (o1 & Ho1 & _ & Hs1).
    congruence.
  - intros orderId2 q o Hget Hq Hsym.
    apply getOrder_Some in Hget as (s2 & b2 & Hs2 & Hb2 & Hp2).
    pose proof He as (Hn & Hids & _ & _ & _ & Hoks).
    destruct (bookOk_indexed _ _ _ _ _ (Hoks _ _ Hb2) Hp2)
      as (o1 & Ho1 & Hoid & Hs & _).
    rewrite Hq in Ho1. injection Ho1 as <-.
    apply getOrder_Some. exists s2, b2.
    rewrite Hots, Hother by congruence. split_and!; try done.
    rewrite lookup_insert_ne; [done|].
    rewrite Hid, Hn, <- Hoid, (Hids _ _ Hq). apply lookup_lt_Some in Hq. lia.
Qed.

Lemma X12_witness :
  ∃ trades h' e',
    MatchingEngineCore.submitOrder AAPL BUY MARKET 0 200 String.EmptyString 0
      twoSymbolState.1 twoSymbolState.2 = Some (3%N, trades, h', e')
    ∧ MSFT ≠ AAPL
    ∧ MatchingEngineCore.orderBooks_ e' !! MSFT
      = MatchingEngineCore.orderBooks_ twoSymbolState.2 !! MSFT
    ∧ MatchingEngineCore.getBestBid MSFT e' = 3000000%Z
    ∧ h' !! 1 = twoSymbolState.1 !! 1
    ∧ MatchingEngineCore.getOrder 2 e' = Some 1.
Proof.
  assert (reachable twoSymbolState.1 twoSymbolState.2) as Hr
    by (unfold twoSymbolState, restingState; reached).
  destruct (MatchingEngineCore.submitOrder AAPL BUY MARKET 0 200
              String.EmptyString 0 twoSymbolState.1 twoSymbolState.2)
    as [[[[orderId trades] h'] e']|] eqn:Hrun; [|by vm_compute in Hrun].
  assert (orderId = 3%N) as ->.
  { vm_compute in Hrun. by injection Hrun as <- _ _ _. }
  destruct (X12_submitOrder_leaves_other_symbols_alone
              _ _ _ _ _ _ _ _ _ _ _ _ _ Hr Hrun) as (Hbooks & Horders & Hget).
  assert (MSFT ≠ AAPL) as Hne by discriminate.
  destruct (Hbooks MSFT Hne) as (Hb & Hbid & _).
  exists trades, h', e'. split; [reflexivity|]. split; [exact Hne|].
  split; [exact Hb|]. split; [rewrite Hbid; vm_compute; reflexivity|].
  assert (twoSymbolState.1 !! 1 = Some (Order.new 2 MSFT BUY LIMIT 3000000 50 0))
    as Ho by (vm_compute; reflexivity).
  split.
  - rewrite Ho. apply Horders; [exact Ho|]. simpl. discriminate.
  - apply (Hget 2%N 1 (Order.new 2 MSFT BUY LIMIT 3000000 50 0));
      [vm_compute; reflexivity|exact Ho|]. simpl. discriminate.
Defined.

(** X13.  In every state the engine reaches, a MARKET order sweeps the
    other side of the book of its symbol at any price: after [submitOrder]
    nothing remains of it or that side is empty.  What remains is marked
    CANCELLED; an order of positive quantity of which nothing remains is
    FILLED; the order never rests: its own side is as before and [getOrder]
    returns null for its id. *)
Theorem X13_market_order_sweeps_and_never_rests
    symbol side price quantity clientId stopPrice h e orderId trades h' e' :
  reachable h e →
  MatchingEngineCore.submitOrder symbol side MARKET price quantity clientId
    stopPrice h e = Some (orderId, trades, h', e') →
  ∃ o' b',
    h' !! length h = Some o'
    ∧ MatchingEngineCore.orderBooks_ e' !! symbol = Some b'
    ∧ (Order.remainingQuantity_ o' = 0%N ∨ opposite side b' = [])
    ∧ ((0 < Order.remainingQuantity_ o')%N → Order.status_ o' = CANCELLED)
    ∧ (Order.remainingQuantity_ o' = 0%N → (0 < quantity)%N →
       Order.status_ o' = FILLED)
    ∧ ownSide side b'
      = ownSide side (MatchingEngineCore.getOrCreateOrderBook symbol e)
    ∧ MatchingEngineCore.getOrder orderId e' = None.
Proof.
  intros Hr Hrun. pose proof (reachable_engineOk _ _ Hr) as He.
  destruct (submitOrder_inv _ _ _ _ _ _ _ _ _ _ _ _ _ He Hrun)
    as (o0 & b & b' & Ho0 & Hb & Hid & Hm & Hp & Hbooks & Hok & Hids & Hfilled
        & Hrest & Hh1).
  assert (Order.side_ o0 = side ∧ Order.type_ o0 = MARKET
          ∧ Order.orderId_ o0 = orderId
          ∧ Order.remainingQuantity_ o0 = quantity
          ∧ Order.status_ o0 = PENDING) as (Hside & Hty & Hoid & Hq & Hst).
  { rewrite Ho0. simpl. destruct He as (-> & _). by rewrite Hid. }
  pose proof Hm as Hinv. apply matchOrder_inv in Hinv as (o1 & Ho1 & Hcase).
  rewrite Hp in Ho1. injection Ho1 as <-.
  destruct Hcase as [(Hfok & _)|(fe & hs & bs & os & Hx & Hps & Hcase)]; [congruence|].
  destruct Hcase as [(_ & -> & ->)|[(Hfok & _)|([?|[?|?]] & _)]]; try congruence.
  destruct (executeMatches_sides _ _ _ _ _ _ _ _ Hx Hp) as (Hown & _ & os' & Hps' & Hex).
  rewrite Hps in Hps'. injection Hps' as <-.
  destruct (executeMatches_shrinks _ _ _ _ _ _ _ _ Hx Hp) as (_ & _ & Hidx).
  destruct (executeMatches_lookup _ _ _ _ _ _ _ _ Hx Hp) as (os' & Hps' & Hfills).
  rewrite Hps in Hps'. injection Hps' as <-.
  rewrite Hside in *.
  assert (MatchingEngineCore.getOrder orderId e' = None) as Hnone.
  { destruct (MatchingEngineCore.getOrder orderId e') as [q|] eqn:Hget; [|done].
    apply getOrder_Some in Hget as (s2 & b2 & Hs2 & Hb2 & Hq2).
    destruct (submitOrder_maps _ _ _ _ _ _ _ _ _ _ _ _ _ Hrun) as (_ & Hots & _).
    rewrite Hots, lookup_insert_eq in Hs2. injection Hs2 as <-.
    rewrite Hbooks, lookup_insert_eq in Hb2. injection Hb2 as <-.
    pose proof (lookup_weaken _ _ _ _ Hq2 Hidx) as Hq1.
    destruct (bookOk_indexed _ _ _ _ _ Hok Hq1) as (oq & Hoq & Hidq & _ & _ & Hin).
    assert (q = length h) as -> by (eapply Hids; [exact Hoq|exact Hp|congruence]).
    destruct (Hrest (length h)) as (o2 & Ho2 & _).
    { apply (elem_of_allResting (Order.side_ oq)). by left. }
    apply lookup_lt_Some in Ho2. lia. }
  rewrite Hb in Hown.
  eexists _, bs. split; [by apply cancelledIfUnfilled_lookup|].
  split; [by rewrite Hbooks, lookup_insert_eq|].
  destruct (N.ltb_spec 0 (Order.remainingQuantity_ os)) as [Hpos|Hzero]; simpl.
  - split; [destruct Hex as [?|[?|[? _]]]; [lia|by right|congruence]|].
    split; [done|]. split; [lia|]. by split.
  - assert (Order.remainingQuantity_ os = 0%N) as Hz by lia.
    split; [by left|]. split; [lia|]. split; [|by split].
    intros _ Hquantity.
    apply (fills_filledIffDone _ _ Hfills); [|done].
    split; [congruence|lia].
Qed.

Lemma X13_witness :
  ∃ trades h' e' o' b',
    MatchingEngineCore.submitOrder AAPL BUY MARKET 0 200 String.EmptyString 0
      ladderState.1 ladderState.2 = Some (4%N, trades, h', e')
    ∧ (Trade.price_ <$> trades) = [1500000%Z; 1510000%Z]
    ∧ h' !! 3 = Some o'
    ∧ MatchingEngineCore.orderBooks_ e' !! AAPL = Some b'
    ∧ OrderBook.asks_ b' = []
    ∧ Order.remainingQuantity_ o' = 100%N
    ∧ Order.status_ o' = CANCELLED
    ∧ MatchingEngineCore.getOrder 4 e' = None.
Proof.
  assert (reachable ladderState.1 ladderState.2) as Hr
    by (unfold ladderState; reached).
  destruct (MatchingEngineCore.submitOrder AAPL BUY MARKET 0 200
              String.EmptyString 0 ladderState.1 ladderState.2)
    as [[[[orderId trades] h'] e']|] eqn:Hrun; [|by vm_compute in Hrun].
  assert (orderId = 4%N ∧ (Trade.price_ <$> trades) = [1500000%Z; 1510000%Z])
    as [-> Hprices].
  { vm_compute in Hrun. injection Hrun as <- <- _ _. by split. }
  destruct (X13_market_order_sweeps_and_never_rests _ _ _ _ _ _ _ _ _ _ _ _ Hr Hrun)
    as (o' & b' & Ho' & Hb' & Hswept & Hcancelled & _ & _ & Hget).
  assert (Order.remainingQuantity_ o' = 100%N) as Hrem.
  { vm_compute in Hrun. injection Hrun as _ <- _. vm_compute in Ho'.
    by injection Ho' as <-. }
  exists trades, h', e', o', b'. split; [reflexivity|]. split; [exact Hprices|].
  split; [exact Ho'|]. split; [exact Hb'|].
  split; [destruct Hswept as [Hz|Hempty]; [rewrite Hrem in Hz; discriminate|exact Hempty]|].
  split; [exact Hrem|]. split; [apply Hcancelled; rewrite Hrem; reflexivity|exact Hget].
Defined.

(** X14.  In every state the engine reaches, [getBestBid] is the highest
    price of the buy orders of the symbol that [getOrder] finds, and
    [getBestAsk] the lowest price of its sell orders: no such order has a
    better price, and one has that price, unless there is none, in which
    case the answer is 0. *)
Theorem X14_best_price_is_the_best_resting_price h e side symbol :
  reachable h e →
  (∀ orderId p o,
     MatchingEngineCore.getOrder orderId e = Some p → h !! p = Some o →
     Order.symbol_ o = symbol → Order.side_ o = side →
     atLeastAsGood side (getBest side symbol e) (Order.price_ o))
  ∧ ((∃ orderId p o,
        MatchingEngineCore.getOrder orderId e = Some p ∧ h !! p = Some o
        ∧ Order.symbol_ o = symbol ∧ Order.side_ o = side
        ∧ Order.price_ o = getBest side symbol e)
     ∨ (getBest side symbol e = 0%Z
        ∧ ∀ orderId p o,
            MatchingEngineCore.getOrder orderId e = Some p → h !! p = Some o →
            Order.symbol_ o = symbol → Order.side_ o ≠ side)).
Proof.
  intros Hr. pose proof (reachable_engineOk _ _ Hr) as He.
  pose proof He as (_ & _ & _ & _ & _ & Hoks).
  assert (∀ orderId p o,
            MatchingEngineCore.getOrder orderId e = Some p → h !! p = Some o →
            Order.symbol_ o = symbol → Order.side_ o = side →
            ∃ b, MatchingEngineCore.orderBooks_ e !! symbol = Some b
                 ∧ p ∈ resting (ownSide side b)) as Hin.
  { intros orderId p o Hget Ho Hsym Hside.
    destruct (getOrder_rests _ _ _ _ He Hget) as (b & o' & Ho' & Hb & _ & _ & Hown).
    rewrite Ho in Ho'. injection Ho' as <-. exists b. by rewrite <- Hsym, <- Hside. }
  destruct (MatchingEngineCore.orderBooks_ e !! symbol) as [b|] eqn:Hb.
  2:{ split.
      - intros orderId p o Hget Ho Hsym Hside.
        by destruct (Hin _ _ _ Hget Ho Hsym Hside) as (b & ? & _).
      - right. split.
        + unfold getBest, MatchingEngineCore.getBestBid,
            MatchingEngineCore.getBestAsk. rewrite Hb. by destruct side.
        + intros orderId p o Hget Ho Hsym Hside.
          by destruct (Hin _ _ _ Hget Ho Hsym Hside) as (b & ? & _). }
  rewrite (ownSide_getBest side symbol e b Hb).
  pose proof (Hoks _ _ Hb) as Hok.
  apply (bookOk_sides side) in Hok as (Hside & _).
  destruct (reachable_engineRests _ _ Hr _ _ Hb) as [_ Hne].
  apply (noEmptyBook_sides side) in Hne as [Hne _].
  destruct (ownSide side b) as [|[k l] m] eqn:Hown.
  { split.
    - intros orderId p o Hget Ho Hsym Hs.
      destruct (Hin _ _ _ Hget Ho Hsym Hs) as (b' & Hb' & Hp).
      injection Hb' as <-. rewrite Hown in Hp. by apply elem_of_nil in Hp.
    - right. split; [done|]. intros orderId p o Hget Ho Hsym Hs.
      destruct (Hin _ _ _ Hget Ho Hsym Hs) as (b' & Hb' & Hp).
      injection Hb' as <-. rewrite Hown in Hp. by apply elem_of_nil in Hp. }
  destruct (sideOk_best _ _ _ _ _ _ _ Hside Hne) as [(q & o & Hq & Ho & Hprice) Hbest].
  split.
  - intros orderId p o' Hget Ho' Hsym Hs.
    destruct (Hin _ _ _ Hget Ho' Hsym Hs) as (b' & Hb' & Hp).
    injection Hb' as <-. rewrite Hown in Hp. by eapply Hbest.
  - left.
    destruct (sideOk_resting _ _ _ _ _ _ Hside Hq)
      as (_ & _ & _ & o' & _ & _ & _ & Ho' & Hs & _ & Hsym & _).
    rewrite Ho in Ho'. injection Ho' as <-.
    destruct (rests_getOrder h e symbol b q He Hb) as (o' & Ho' & _ & _ & Hget).
    { apply (elem_of_allResting side). left. by rewrite Hown. }
    rewrite Ho in Ho'. injection Ho' as <-.
    exists (Order.orderId_ o), q, o. by split_and!.
Qed.

Lemma X14_witness :
  getBest BUY AAPL ladderState.2 = 1490000%Z
  ∧ getBest SELL AAPL ladderState.2 = 1500000%Z
  ∧ (∀ orderId p o,
       MatchingEngineCore.getOrder orderId ladderState.2 = Some p →
       ladderState.1 !! p = Some o →
       Order.symbol_ o = AAPL → Order.side_ o = SELL →
       atLeastAsGood SELL (getBest SELL AAPL ladderState.2) (Order.price_ o)).
Proof.
  assert (reachable ladderState.1 ladderState.2) as Hr
    by (unfold ladderState; reached).
  split; [vm_compute; reflexivity|]. split; [vm_compute; reflexivity|].
  exact (proj1 (X14_best_price_is_the_best_resting_price _ _ SELL AAPL Hr)).
Defined.

(** X15.  In every state the engine reaches, [getBidDepth] and
    [getAskDepth] list at most [levels] levels, best price first and no
    price twice; the first price is the one [getBestBid] or [getBestAsk]
    returns; every level listed holds an order that [getOrder] finds; and
    when fewer than [levels] levels are listed, no resting order of that
    side is left out. *)
Theorem X15_depth_lists_the_best_levels h e side symbol levels :
  reachable h e →
  length (getDepth side symbol levels e) ≤ levels
  ∧ StronglySorted (sideOrder side) (getDepth side symbol levels e).*1
  ∧ (∀ k, head (getDepth side symbol levels e).*1 = Some k →
          k = getBest side symbol e)
  ∧ (∀ k, k ∈ (getDepth side symbol levels e).*1 →
          ∃ orderId p o,
            MatchingEngineCore.getOrder orderId e = Some p ∧ h !! p = Some o
            ∧ Order.symbol_ o = symbol ∧ Order.side_ o = side
            ∧ Order.price_ o = k)
  ∧ (length (getDepth side symbol levels e) < levels →
     ∀ orderId p o,
       MatchingEngineCore.getOrder orderId e = Some p → h !! p = Some o →
       Order.symbol_ o = symbol → Order.side_ o = side →
       Order.price_ o ∈ (getDepth side symbol levels e).*1).
Proof.
  intros Hr. pose proof (reachable_engineOk _ _ Hr) as He.
  pose proof He as (_ & _ & _ & _ & _ & Hoks).
  destruct (MatchingEngineCore.orderBooks_ e !! symbol) as [b|] eqn:Hb.
  2:{ assert (getDepth side symbol levels e = []) as ->.
      { unfold getDepth, MatchingEngineCore.getBidDepth,
          MatchingEngineCore.getAskDepth. rewrite Hb. by destruct side. }
      simpl. split_and!; [lia|constructor|done| |].
      - intros k Hk. by apply elem_of_nil in Hk.
      - intros _ orderId p o Hget Ho Hsym Hside.
        destruct (getOrder_rests _ _ _ _ He Hget) as (b & o' & Ho' & Hb' & _).
        rewrite Ho in Ho'. injection Ho' as <-. congruence. }
  rewrite (getDepth_ownSide side symbol levels e b Hb).
  rewrite (ownSide_getBest side symbol e b Hb), depth_keys.
  pose proof (Hoks _ _ Hb) as Hok.
  apply (bookOk_sides side) in Hok as (Hside & _).
  destruct (reachable_engineRests _ _ Hr _ _ Hb) as [_ Hne].
  apply (noEmptyBook_sides side) in Hne as [Hne _].
  pose proof Hside as [Hsorted _].
  split_and!.
  - unfold OrderBook.depth. rewrite length_fmap, length_take. lia.
  - rewrite <- (take_drop levels (keys (ownSide side b))) in Hsorted.
    by apply StronglySorted_app_1_l in Hsorted.
  - intros k Hk. unfold keys in Hk.
    destruct (ownSide side b) as [|[k' l] m]; [by destruct levels|].
    destruct levels; simpl in Hk; [done|]. by injection Hk as <-.
  - intros k Hk. apply elem_of_take in Hk as (i & Hk & _).
    apply list_elem_of_lookup_2 in Hk.
    destruct (sideOk_level_order _ _ _ _ _ _ Hside Hne Hk) as (q & o & Hq & Ho & Hp).
    destruct (sideOk_resting _ _ _ _ _ _ Hside Hq)
      as (_ & _ & _ & o' & _ & _ & _ & Ho' & Hs & _ & Hsym & _).
    rewrite Ho in Ho'. injection Ho' as <-.
    destruct (rests_getOrder h e symbol b q He Hb) as (o' & Ho' & _ & _ & Hget).
    { apply (elem_of_allResting side). by left. }
    rewrite Ho in Ho'. injection Ho' as <-.
    exists (Order.orderId_ o), q, o. by split_and!.
  - intros Hfew orderId p o Hget Ho Hsym Hs.
    unfold OrderBook.depth in Hfew. rewrite length_fmap, length_take in Hfew.
    rewrite take_ge by (unfold keys; rewrite length_fmap; lia).
    destruct (getOrder_rests _ _ _ _ He Hget) as (b' & o' & Ho' & Hb' & _ & _ & Hown).
    rewrite Ho in Ho'. injection Ho' as <-. rewrite Hsym, Hb in Hb'.
    injection Hb' as <-. rewrite Hs in Hown.
    destruct (sideOk_resting _ _ _ _ _ _ Hside Hown)
      as (price & l & n & o' & Hin & _ & _ & Ho' & _ & Hprice & _).
    rewrite Ho in Ho'. injection Ho' as <-. rewrite Hprice.
    unfold keys. apply list_elem_of_fmap. by exists (price, l).
Qed.

Lemma X15_witness :
  (getDepth SELL AAPL 1 ladderState.2).*1 = [1500000%Z]
  ∧ (getDepth SELL AAPL 10 ladderState.2).*1 = [1500000%Z; 1510000%Z]
  ∧ StronglySorted (sideOrder SELL) (getDepth SELL AAPL 10 ladderState.2).*1
  ∧ (∀ k, head (getDepth SELL AAPL 10 ladderState.2).*1 = Some k →
          k = getBest SELL AAPL ladderState.2).
Proof.
  assert (reachable ladderState.1 ladderState.2) as Hr
    by (unfold ladderState; reached).
  destruct (X15_depth_lists_the_best_levels _ _ SELL AAPL 10 Hr)
    as (_ & Hsorted & Hhead & _).
  split; [vm_compute; reflexivity|]. split; [vm_compute; reflexivity|].
  split; [exact Hsorted|exact Hhead].
Defined.

(** X16.  In every state the engine reaches, [getOrder] returns the order
    [submitOrder] just created exactly when its type is LIMIT, STOP_LOSS or
    STOP_LIMIT and something remains of it; the order is then PENDING or
    PARTIAL_FILL.  For a MARKET, IOC or FOK order, and for an order of which
    nothing remains, [getOrder] returns null right after the call. *)
Theorem X16_getOrder_after_submitOrder
    symbol side type price quantity clientId stopPrice h e orderId trades h' e' :
  reachable h e →
  MatchingEngineCore.submitOrder symbol side type price quantity clientId
    stopPrice h e = Some (orderId, trades, h', e') →
  ∃ o',
    h' !! length h = Some o'
    ∧ (MatchingEngineCore.getOrder orderId e' = Some (length h)
       ∨ MatchingEngineCore.getOrder orderId e' = None)
    ∧ (MatchingEngineCore.getOrder orderId e' = Some (length h) ↔
       restingType type ∧ (0 < Order.remainingQuantity_ o')%N)
    ∧ (MatchingEngineCore.getOrder orderId e' = Some (length h) →
       Order.isActive o' = true).
Proof.
  intros Hr Hrun.
  destruct (submitOrder_getOrder _ _ _ _ _ _ _ _ _ _ _ _ _
              (reachable_engineOk _ _ Hr) Hrun)
    as (o' & Ho' & [(Hrt & Hpos & Ha & Hget)|(Hno & Hget)]);
    exists o'; (split; [done|]); rewrite Hget.
  - split; [by left|]. by split.
  - split; [by right|]. split; [|done]. split; [done|].
    intros [Hrt Hpos]. destruct Hno as [?|Hz]; [done|lia].
Qed.

Lemma X16_witness :
  ∃ trades h' e' o',
    MatchingEngineCore.submitOrder AAPL BUY LIMIT 1510000 200 String.EmptyString 0
      ladderState.1 ladderState.2 = Some (4%N, trades, h', e')
    ∧ h' !! 3 = Some o'
    ∧ Order.remainingQuantity_ o' = 100%N
    ∧ MatchingEngineCore.getOrder 4 e' = Some 3
    ∧ Order.isActive o' = true.
Proof.
  assert (reachable ladderState.1 ladderState.2) as Hr
    by (unfold ladderState; reached).
  destruct (MatchingEngineCore.submitOrder AAPL BUY LIMIT 1510000 200
              String.EmptyString 0 ladderState.1 ladderState.2)
    as [[[[orderId trades] h'] e']|] eqn:Hrun; [|by vm_compute in Hrun].
  assert (orderId = 4%N) as ->.
  { vm_compute in Hrun. by injection Hrun as <- _ _ _. }
  destruct (X16_getOrder_after_submitOrder _ _ _ _ _ _ _ _ _ _ _ _ _ Hr Hrun)
    as (o' & Ho' & _ & Hiff & Hactive).
  assert (Order.remainingQuantity_ o' = 100%N) as Hrem.
  { vm_compute in Hrun. injection Hrun as _ <- _. vm_compute in Ho'.
    by injection Ho' as <-. }
  assert (MatchingEngineCore.getOrder 4 e' = Some 3) as Hget.
  { apply Hiff. split; [by left|]. rewrite Hrem. reflexivity. }
  exists trades, h', e', o'. split; [reflexivity|]. split; [exact Ho'|].
  split; [exact Hrem|]. split; [exact Hget|exact (Hactive Hget)].
Defined.

(** ** Fill-or-kill *)

(** X17.  [submitOrder] of a FOK order of positive quantity, in a state the
    engine reaches where the aggregates of the levels of the opposite side
    are the sums over their queues and these sums add up to less than 2^64.
    When the orders resting at prices within the limit hold at least the
    quantity, the order is filled completely: the trades add up to the
    quantity, each one at a price within the limit, and the order is
    FILLED.  When they hold less, the order is refused: there is no trade,
    the order is CANCELLED with its whole quantity remaining, and the book
    and the other orders stay as they were. *)
Theorem X17_fill_or_kill_on_exact_aggregates
    symbol side price quantity clientId stopPrice h e orderId trades h' e' :
  reachable h e →
  (0 < quantity)%N →
  consistentLevels h
    (opposite side (MatchingEngineCore.getOrCreateOrderBook symbol e)) →
  (totalRemaining h
     (resting (opposite side (MatchingEngineCore.getOrCreateOrderBook symbol e)))
   < two64)%N →
  MatchingEngineCore.submitOrder symbol side FOK price quantity clientId
    stopPrice h e = Some (orderId, trades, h', e') →
  ∃ o',
    h' !! length h = Some o'
    ∧ ((quantity
        ≤ available h side price
            (MatchingEngineCore.getOrCreateOrderBook symbol e))%N →
       tradedQuantity trades = quantity
       ∧ Order.remainingQuantity_ o' = 0%N
       ∧ Order.status_ o' = FILLED
       ∧ Forall (λ t, withinLimit side price (Trade.price_ t)) trades)
    ∧ ((available h side price
          (MatchingEngineCore.getOrCreateOrderBook symbol e)
        < quantity)%N →
       trades = []
       ∧ Order.remainingQuantity_ o' = quantity
       ∧ Order.status_ o' = CANCELLED
       ∧ MatchingEngineCore.getOrCreateOrderBook symbol e'
         = MatchingEngineCore.getOrCreateOrderBook symbol e
       ∧ ∀ q o, h !! q = Some o → h' !! q = Some o).
Proof.
  intros Hr Hpos Hc Hb Hrun. pose proof (reachable_engineOk _ _ Hr) as He.
  destruct (submitOrder_inv _ _ _ _ _ _ _ _ _ _ _ _ _ He Hrun)
    as (o0 & b & b' & Ho0 & Hbk & Hid & Hm & Hp & Hbooks & Hok & Hids & Hfilled
        & Hrest & Hh1).
  assert (Order.side_ o0 = side ∧ Order.type_ o0 = FOK
          ∧ Order.price_ o0 = price
          ∧ Order.remainingQuantity_ o0 = quantity
          ∧ Order.quantity_ o0 = quantity
          ∧ Order.status_ o0 = PENDING) as (Hside & Hty & Hprice & Hq & Hqq & Hst).
  { by rewrite Ho0. }
  rewrite <- Hbk in *.
  assert (∀ l, l ⊆ resting (opposite side b) →
               totalRemaining (h ++ [o0]) l = totalRemaining h l) as Hsame.
  { intros l Hl. apply totalRemaining_ext. intros q Hin.
    destruct (Hrest q) as (o & Hoq & Hoq' & _); [|congruence].
    apply (elem_of_allResting side). right. by apply Hl. }
  assert (length h ∉ allResting b) as Hnew.
  { intros Hin. destruct (Hrest _ Hin) as (o & Hoq & _).
    apply lookup_lt_Some in Hoq. lia. }
  assert (available (h ++ [o0]) side price b = available h side price b) as Hav.
  { unfold available. apply Hsame. intros q Hin. unfold resting in *.
    apply list_elem_of_bind in Hin as (kl & Hq1 & Hkl). apply list_elem_of_bind.
    exists kl. split; [done|]. unfold withinLevels in Hkl.
    by apply list_elem_of_filter in Hkl as [_ Hkl]. }
  destruct (matchOrder_fok _ _ _ _ _ _ _ symbol Hm Hp Hty) as [Hyes Hno].
  { lia. } { done. } { done. }
  { rewrite Hside. unfold consistentLevels in *. apply Forall_forall.
    intros kl Hkl. rewrite Forall_forall in Hc. specialize (Hc _ Hkl).
    unfold aggregateConsistent in *. rewrite Hc.
    change (totalRemaining h (PriceLevel.queue kl.2)
            = totalRemaining (h ++ [o0]) (PriceLevel.queue kl.2)).
    symmetry. apply Hsame. intros q Hin. unfold resting.
    apply list_elem_of_bind. by exists kl. }
  { rewrite Hside, Hsame by done. done. }
  rewrite Hside, Hprice, Hq, Hav in Hyes, Hno.
  destruct (N.le_gt_cases quantity (available h side price b)) as [Hle|Hgt].
  - destruct (Hyes Hle) as (o' & Ho' & Hfills & Hz & Htq & Hall).
    exists o'. split; [done|]. split; [intros _|intros; lia].
    split; [done|]. split; [done|]. split; [|done].
    apply (fills_filledIffDone _ _ Hfills); [|done].
    split; [congruence|lia].
  - destruct (Hno Hgt) as (-> & -> & ->).
    exists (Order.setStatus CANCELLED o0).
    split. { apply list_lookup_insert_eq. by eapply lookup_lt_Some. }
    split; [intros; lia|intros _].
    split; [done|]. split; [done|]. split; [done|]. split.
    + unfold MatchingEngineCore.getOrCreateOrderBook at 1.
      by rewrite Hbooks, lookup_insert_eq.
    + intros q o Hoq. rewrite list_lookup_insert_ne; [by apply Hh1|].
      apply lookup_lt_Some in Hoq. lia.
Qed.

Lemma X17_witness :
  ∃ trades h' e' o',
    MatchingEngineCore.submitOrder AAPL BUY FOK 1500000 50 String.EmptyString 0
      ladderState.1 ladderState.2 = Some (4%N, trades, h', e')
    ∧ h' !! 3 = Some o'
    ∧ tradedQuantity trades = 50%N
    ∧ Order.remainingQuantity_ o' = 0%N
    ∧ Order.status_ o' = FILLED
    ∧ Forall (λ t, withinLimit BUY 1500000 (Trade.price_ t)) trades.
Proof.
  assert (reachable ladderState.1 ladderState.2) as Hr
    by (unfold ladderState; reached).
  destruct (MatchingEngineCore.submitOrder AAPL BUY FOK 1500000 50
              String.EmptyString 0 ladderState.1 ladderState.2)
    as [[[[orderId trades] h'] e']|] eqn:Hrun; [|by vm_compute in Hrun].
  assert (orderId = 4%N) as ->.
  { vm_compute in Hrun. by injection Hrun as <- _ _ _. }
  destruct (X17_fill_or_kill_on_exact_aggregates AAPL BUY 1500000 50
              String.EmptyString 0 ladderState.1 ladderState.2 4 trades h' e')
    as (o' & Ho' & Hyes & _).
  - exact Hr.
  - reflexivity.
  - vm_compute. repeat constructor.
  - vm_compute. reflexivity.
  - exact Hrun.
  - destruct Hyes as (Htq & Hz & Hst & Hall); [vm_compute; discriminate|].
    exists trades, h', e', o'. split; [reflexivity|]. split; [exact Ho'|].
    split; [exact Htq|]. split; [exact Hz|]. split; [exact Hst|exact Hall].
Defined.

(** ** Aggregates of the levels *)

(** X18.  The aggregate quantities of the levels stay exact as long as
    nothing trades.  In a state the engine reaches where the aggregate of
    every level of every book is the sum of the remaining quantities over
    its queue (below 2^64), they are so again after a [submitOrder] that
    returns no trade, after any [cancelOrder], and after any [modifyOrder],
    provided that for [submitOrder] and [modifyOrder] the quantity is below
    2^64 and no aggregate wraps around when the quantity is added to it. *)
Theorem X18_aggregates_stay_exact_without_trades h e :
  reachable h e →
  exactAggregates h e →
  (∀ symbol side type price quantity clientId stopPrice orderId h' e',
     roomFor quantity e →
     MatchingEngineCore.submitOrder symbol side type price quantity clientId
       stopPrice h e = Some (orderId, [], h', e') →
     exactAggregates h' e')
  ∧ (∀ orderId r h' e',
       MatchingEngineCore.cancelOrder orderId h e = Some (r, h', e') →
       exactAggregates h' e')
  ∧ (∀ orderId newPrice newQuantity r h' e',
       roomFor newQuantity e →
       MatchingEngineCore.modifyOrder orderId newPrice newQuantity h e
         = Some (r, h', e') →
       exactAggregates h' e').
Proof.
  intros Hr Hex. split_and!.
  - intros. by eapply submitOrder_exact.
  - intros. by eapply cancelOrder_engine_exact.
  - intros. by eapply modifyOrder_engine_exact.
Qed.

Lemma X18_witness :
  ∃ h' e',
    MatchingEngineCore.modifyOrder 1 1520000 70 restingState.1 restingState.2
      = Some (true, h', e')
    ∧ exactAggregates h' e'
    ∧ MatchingEngineCore.getAskDepth AAPL 10 e' = [(1520000%Z, 70%N)].
Proof.
  assert (exactAggregates restingState.1 restingState.2) as Hex.
  { destruct (MatchingEngineCore.submitOrder AAPL SELL LIMIT 1500000 100
                String.EmptyString 0 [] MatchingEngineCore.new)
      as [[[[orderId trades] h1] e1]|] eqn:Hrun; [|by vm_compute in Hrun].
    assert (trades = [] ∧ (h1, e1) = restingState) as [-> Heq].
    { unfold restingState, submitted. simpl. rewrite Hrun.
      vm_compute in Hrun. injection Hrun as _ <- _ _. by split. }
    rewrite <- Heq. simpl.
    destruct (X18_aggregates_stay_exact_without_trades [] MatchingEngineCore.new)
      as (Hsubmit & _).
    - apply reach_new.
    - intros symbol b Hb. done.
    - eapply Hsubmit; [|exact Hrun].
      split; [reflexivity|]. intros symbol b Hb. done. }
  assert (reachable restingState.1 restingState.2) as Hr
    by (unfold restingState; reached).
  destruct (MatchingEngineCore.modifyOrder 1 1520000 70 restingState.1
              restingState.2) as [[[r h'] e']|] eqn:Hrun; [|by vm_compute in Hrun].
  assert (r = true ∧ MatchingEngineCore.getAskDepth AAPL 10 e'
                     = [(1520000%Z, 70%N)]) as [-> Hdepth].
  { vm_compute in Hrun. injection Hrun as <- _ <-. by split. }
  exists h', e'. split; [reflexivity|]. split; [|exact Hdepth].
  destruct (X18_aggregates_stay_exact_without_trades _ _ Hr Hex)
    as (_ & _ & Hmodify).
  eapply Hmodify; [|exact Hrun].
  apply (roomFor_singleton _ _ AAPL
           (default (OrderBook.new AAPL)
              (MatchingEngineCore.orderBooks_ restingState.2 !! AAPL)));
    [by vm_compute|reflexivity|].
  split.
  - assert (OrderBook.bids_
              (default (OrderBook.new AAPL)
                 (MatchingEngineCore.orderBooks_ restingState.2 !! AAPL)) = [])
      as -> by (by vm_compute).
    constructor.
  - assert ((PriceLevel.totalQuantity_
               <$> (OrderBook.asks_
                      (default (OrderBook.new AAPL)
                         (MatchingEngineCore.orderBooks_ restingState.2 !! AAPL))).*2)
            = [100%N]) as Hl by (by vm_compute).
    unfold roomLevels.
    destruct (OrderBook.asks_ _) as [|[k l] [|? ?]]; try discriminate.
    injection Hl as Hl. constructor; [|constructor]. simpl in *.
    rewrite Hl. reflexivity.
Defined.

(** ** Message.h *)

(** X19.  The strings of a [NewOrderMessage] whose two arrays end with a
    NUL, as those of a new message do: [setSymbol] and [setClientId] keep
    the arrays terminated and leave the other string alone; [getSymbol]
    after [setSymbol] returns the characters of the string before its first
    NUL, 15 of them at most, and [getClientId] after [setClientId] 31 at
    most; a string with no NUL that is short enough comes back as it is. *)
Theorem X19_message_strings_are_truncated (m : NewOrderMessage.t) (s : string) :
  terminatedOrder m →
  terminatedOrder (NewOrderMessage.setSymbol s m)
  ∧ terminatedOrder (NewOrderMessage.setClientId s m)
  ∧ NewOrderMessage.getSymbol (NewOrderMessage.setSymbol s m)
    = Some (truncated 16 s)
  ∧ NewOrderMessage.getClientId (NewOrderMessage.setClientId s m)
    = Some (truncated 32 s)
  ∧ NewOrderMessage.getClientId (NewOrderMessage.setSymbol s m)
    = NewOrderMessage.getClientId m
  ∧ NewOrderMessage.getSymbol (NewOrderMessage.setClientId s m)
    = NewOrderMessage.getSymbol m
  ∧ (CharArray.NUL ∉ chars s →
     (String.length s < 16 → truncated 16 s = s)
     ∧ (String.length s < 32 → truncated 32 s = s)).
Proof.
  intros [Hsym Hcl]. split_and!.
  - split; [|done]. by apply (strncpy_terminated 16).
  - split; [done|]. by apply (strncpy_terminated 32).
  - by apply (strncpy_toString 16).
  - by apply (strncpy_toString 32).
  - done.
  - done.
  - intros Hn. split; intros Hlen; by apply truncated_fits.
Qed.

Lemma X19_witness :
  terminatedOrder NewOrderMessage.new
  ∧ NewOrderMessage.getSymbol (NewOrderMessage.setSymbol "AAPL" NewOrderMessage.new)
    = Some "AAPL"%string
  ∧ NewOrderMessage.getSymbol
      (NewOrderMessage.setSymbol "VERYLONGSYMBOLNAME" NewOrderMessage.new)
    = Some "VERYLONGSYMBOLN"%string
  ∧ NewOrderMessage.getSymbol
      (NewOrderMessage.setSymbol "GE"
         (NewOrderMessage.setSymbol "VERYLONGSYMBOLNAME" NewOrderMessage.new))
    = Some "GE"%string.
Proof.
  assert (terminatedOrder NewOrderMessage.new) as Hnew.
  { split; (split; [reflexivity|vm_compute; reflexivity]). }
  split; [exact Hnew|].
  destruct (X19_message_strings_are_truncated NewOrderMessage.new "AAPL" Hnew)
    as (_ & _ & Ha & _).
  destruct (X19_message_strings_are_truncated NewOrderMessage.new
              "VERYLONGSYMBOLNAME" Hnew) as (Hlong & _ & Hb & _).
  destruct (X19_message_strings_are_truncated
              (NewOrderMessage.setSymbol "VERYLONGSYMBOLNAME" NewOrderMessage.new)
              "GE" Hlong) as (_ & _ & Hc & _).
  split; [exact Ha|]. split; [exact Hb|exact Hc].
Defined.

(** ** Server.cpp: the handlers *)

(** X20.  [handleNewOrder] on a message whose strings are terminated, in a
    state the engine reaches: the order is submitted with the strings and
    numbers of the message; the acknowledgement carries the client's id of
    the order and the id the engine gave, always with status PENDING and
    the text "Order accepted".  An execution report follows exactly when
    the order may rest (LIMIT or a stop type) and came to rest partly
    filled; it then reports PARTIAL_FILL, the quantity traded and the
    quantity remaining, and as execution price the price of the order
    itself, not the prices of its trades.  An order that was filled
    completely, or cancelled, gets the acknowledgement only. *)
Theorem X20_handleNewOrder_acknowledges_and_reports msg symbol clientId h e :
  reachable h e →
  NewOrderMessage.getSymbol msg = Some symbol →
  NewOrderMessage.getClientId msg = Some clientId →
  length (NewOrderMessage.symbol msg) = NewOrderMessage.sizeof_symbol →
  (NewOrderMessage.quantity msg < two64)%N →
  ∃ trades h' e' o' ack out,
    MatchingEngineCore.submitOrder symbol (NewOrderMessage.side msg)
      (NewOrderMessage.orderType msg) (NewOrderMessage.price msg)
      (NewOrderMessage.quantity msg) clientId (NewOrderMessage.stopPrice msg) h e
    = Some ((N.of_nat (length h) + 1)%N, trades, h', e')
    ∧ Server.handleNewOrder msg h e = Some (out, h', e')
    ∧ h' !! length h = Some o'
    ∧ OrderAckMessage.clientOrderId ack = NewOrderMessage.clientOrderId msg
    ∧ OrderAckMessage.orderId ack = (N.of_nat (length h) + 1)%N
    ∧ OrderAckMessage.status ack = PENDING
    ∧ OrderAckMessage.getMessage ack = Some "Order accepted"%string
    ∧ ((restingType (NewOrderMessage.orderType msg)
        ∧ (0 < Order.remainingQuantity_ o' < NewOrderMessage.quantity msg)%N) →
       ∃ exec,
         out = [Server.SentAck ack; Server.SentExecutionReport exec]
         ∧ ExecutionReportMessage.orderId exec = (N.of_nat (length h) + 1)%N
         ∧ ExecutionReportMessage.getSymbol exec = Some symbol
         ∧ ExecutionReportMessage.side exec = NewOrderMessage.side msg
         ∧ ExecutionReportMessage.executionPrice exec = NewOrderMessage.price msg
         ∧ ExecutionReportMessage.executionQuantity exec = tradedQuantity trades
         ∧ ExecutionReportMessage.remainingQuantity exec
           = Order.remainingQuantity_ o'
         ∧ ExecutionReportMessage.status exec = PARTIAL_FILL
         ∧ ExecutionReportMessage.tradeId exec = 0%N)
    ∧ (¬ (restingType (NewOrderMessage.orderType msg)
          ∧ (0 < Order.remainingQuantity_ o' < NewOrderMessage.quantity msg)%N) →
       out = [Server.SentAck ack]).
Proof.
  intros Hr Hsym Hcl Hlen Hq. pose proof (reachable_engineOk _ _ Hr) as He.
  destruct (engineOk_defined _ _ He) as (Hdef & _).
  destruct (Hdef symbol (NewOrderMessage.side msg) (NewOrderMessage.orderType msg)
              (NewOrderMessage.price msg) (NewOrderMessage.quantity msg) clientId
              (NewOrderMessage.stopPrice msg)) as [[[[orderId trades] h'] e'] Hrun].
  destruct (submitOrder_inv _ _ _ _ _ _ _ _ _ _ _ _ _ He Hrun)
    as (_ & _ & _ & _ & _ & -> & _).
  destruct (submitOrder_getOrder _ _ _ _ _ _ _ _ _ _ _ _ _ He Hrun)
    as (o' & Ho' & Hget).
  destruct (submitOrder_trades _ _ _ _ _ _ _ _ _ _ _ _ _ He
              (reachable_bookSymbols _ _ Hr) Hrun)
    as ((o2 & Ho2 & (_ & Hsym' & Hside' & _ & Hprice' & Hqq') & Hacc) & _).
  rewrite Ho' in Ho2. injection Ho2 as <-. simpl in Hsym', Hside', Hprice', Hqq'.
  set (ack := OrderAckMessage.setMessage "Order accepted"
                (OrderAckMessage.setStatus PENDING
                   (OrderAckMessage.setOrderId (N.of_nat (length h) + 1)%N
                      (OrderAckMessage.setClientOrderId
                         (NewOrderMessage.clientOrderId msg) OrderAckMessage.new)))).
  assert (∀ out,
            match MatchingEngineCore.getOrder (N.of_nat (length h) + 1)%N e' with
            | None => Some ([Server.SentAck ack], h', e')
            | Some order =>
                o ← h' !! order;
                if bool_decide (Order.status_ o ≠ PENDING)
                then Some ([Server.SentAck ack;
                            Server.SentExecutionReport
                              (ExecutionReportMessage.mk
                                 (MessageHeader.new EXECUTION_REPORT)
                                 (N.of_nat (length h) + 1)%N
                                 (CharArray.strncpy (CharArray.zeroed 16)
                                    (Order.symbol_ o) 15)
                                 (Order.side_ o) (Order.price_ o)
                                 (Order.getFilledQuantity o)
                                 (Order.remainingQuantity_ o) (Order.status_ o)
                                 0%N)], h', e')
                else Some ([Server.SentAck ack], h', e')
            end = Some (out, h', e') →
            Server.handleNewOrder msg h e = Some (out, h', e')) as Hh.
  { intros out <-. unfold Server.handleNewOrder. rewrite Hsym, Hcl. cbn.
    rewrite Hrun. done. }
  destruct Hget as [(Hty & Hpos & _ & Hg)|(Hnot & Hg)]; rewrite Hg in Hh.
  - rewrite Ho' in Hh. cbn in Hh.
    destruct (submitOrder_resting_status _ _ _ _ _ _ _ _ _ _ _ _ _ _ He Hrun
                Hty Ho' Hpos) as [[Hst Hrem]|[Hst Hrem]].
    + rewrite bool_decide_eq_false_2 in Hh by (rewrite Hst; by intros H).
      exists trades, h', e', o', ack, [Server.SentAck ack].
      split; [done|]. split; [by apply Hh|].
      split_and!; try done.
      intros (_ & _ & Hlt). lia.
    + rewrite bool_decide_eq_true_2 in Hh by (by rewrite Hst).
      eexists trades, h', e', o', ack, _.
      split; [done|]. split; [by apply Hh|].
      split_and!; try done.
      * intros _. eexists. split; [done|]. simpl.
        split_and!; try done.
        -- unfold ExecutionReportMessage.getSymbol. simpl.
           transitivity (Some (truncated 16 (Order.symbol_ o'))).
           { apply (strncpy_toString 16 (CharArray.zeroed 16)).
             apply zeroed_terminated. lia. }
           rewrite Hsym'. f_equal.
           by apply (toString_fits 16 (NewOrderMessage.symbol msg)).
        -- unfold Order.getFilledQuantity. rewrite Hqq'.
           rewrite sub64_exact by lia. lia.
      * intros Hn. exfalso. apply Hn. split; [done|lia].
  - exists trades, h', e', o', ack, [Server.SentAck ack].
    split; [done|]. split; [by apply Hh|].
    split_and!; try done.
    intros (Hty & Hpos & _). destruct Hnot as [Hnot|Hz]; [done|lia].
Qed.

Lemma X20_witness :
  ∃ trades h' e' ack exec,
    Server.handleNewOrder buyMessage ladderState.1 ladderState.2
    = Some ([Server.SentAck ack; Server.SentExecutionReport exec], h', e')
    ∧ MatchingEngineCore.submitOrder AAPL BUY LIMIT 1505000 80 "client1" 0
        ladderState.1 ladderState.2 = Some (4%N, trades, h', e')
    ∧ (Trade.price_ <$> trades) = [1500000%Z]
    ∧ OrderAckMessage.clientOrderId ack = 7%N
    ∧ OrderAckMessage.orderId ack = 4%N
    ∧ OrderAckMessage.status ack = PENDING
    ∧ ExecutionReportMessage.getSymbol exec = Some AAPL
    ∧ ExecutionReportMessage.executionPrice exec = 1505000%Z
    ∧ ExecutionReportMessage.executionQuantity exec = 50%N
    ∧ ExecutionReportMessage.remainingQuantity exec = 30%N
    ∧ ExecutionReportMessage.status exec = PARTIAL_FILL.
Proof.
  assert (reachable ladderState.1 ladderState.2) as Hr
    by (unfold ladderState; reached).
  destruct (X20_handleNewOrder_acknowledges_and_reports buyMessage AAPL "client1"
              ladderState.1 ladderState.2 Hr)
    as (trades & h' & e' & o' & ack & out & Hrun & Hh & Ho' & Hc & Hid & Hst & _
        & Hexec & _).
  - vm_compute. reflexivity.
  - vm_compute. reflexivity.
  - reflexivity.
  - reflexivity.
  - change (NewOrderMessage.side buyMessage) with BUY in *.
    change (NewOrderMessage.orderType buyMessage) with LIMIT in *.
    change (NewOrderMessage.price buyMessage) with 1505000%Z in *.
    change (NewOrderMessage.quantity buyMessage) with 80%N in *.
    change (NewOrderMessage.stopPrice buyMessage) with 0%Z in *.
    change (NewOrderMessage.clientOrderId buyMessage) with 7%N in *.
    assert ((Trade.price_ <$> trades) = [1500000%Z]
            ∧ tradedQuantity trades = 50%N
            ∧ Order.remainingQuantity_ o' = 30%N) as (Hprices & Htq & Hrem).
    { vm_compute in Hrun. injection Hrun as <- <- _. vm_compute in Ho'.
      injection Ho' as <-. by split_and!. }
    destruct Hexec as (exec & -> & _ & Hsym & _ & Hprice & Hq & Hr' & Hst' & _).
    { split; [by left|]. rewrite Hrem. split; reflexivity. }
    exists trades, h', e', ack, exec.
    split; [exact Hh|]. split; [exact Hrun|]. split; [exact Hprices|].
    split; [exact Hc|]. split; [exact Hid|]. split; [exact Hst|].
    split; [exact Hsym|]. split; [exact Hprice|].
    split; [by rewrite Hq|]. split; [by rewrite Hr'|exact Hst'].
Defined.

(** X21.  [handleCancelOrder] and [handleModifyOrder] in a state the engine
    reaches answer with one acknowledgement that bears the id of the
    message and no client id of the order.  When [getOrder] finds the id,
    the order is cancelled and the answer is CANCELLED, "Order cancelled",
    respectively the order is modified and the answer is PENDING,
    "Order modified"; when it does not, the engine and the orders stay as
    they are and the answer is REJECTED, "Order not found", respectively
    "Failed to modify order".  The client id of the message plays no
    part. *)
Theorem X21_cancel_and_modify_are_acknowledged h e :
  reachable h e →
  (∀ msg,
     ∃ ack h' e',
       Server.handleCancelOrder msg h e = Some ([Server.SentAck ack], h', e')
       ∧ OrderAckMessage.orderId ack = CancelOrderMessage.orderId msg
       ∧ OrderAckMessage.clientOrderId ack = 0%N
       ∧ ((MatchingEngineCore.getOrder (CancelOrderMessage.orderId msg) e ≠ None
           ∧ MatchingEngineCore.cancelOrder (CancelOrderMessage.orderId msg) h e
             = Some (true, h', e')
           ∧ OrderAckMessage.status ack = CANCELLED
           ∧ OrderAckMessage.getMessage ack = Some "Order cancelled"%string)
          ∨ (MatchingEngineCore.getOrder (CancelOrderMessage.orderId msg) e = None
             ∧ h' = h ∧ e' = e
             ∧ OrderAckMessage.status ack = REJECTED
             ∧ OrderAckMessage.getMessage ack = Some "Order not found"%string)))
  ∧ (∀ msg,
       ∃ ack h' e',
         Server.handleModifyOrder msg h e = Some ([Server.SentAck ack], h', e')
         ∧ OrderAckMessage.orderId ack = ModifyOrderMessage.orderId msg
         ∧ OrderAckMessage.clientOrderId ack = 0%N
         ∧ ((MatchingEngineCore.getOrder (ModifyOrderMessage.orderId msg) e ≠ None
             ∧ MatchingEngineCore.modifyOrder (ModifyOrderMessage.orderId msg)
                 (ModifyOrderMessage.newPrice msg)
                 (ModifyOrderMessage.newQuantity msg) h e
               = Some (true, h', e')
             ∧ OrderAckMessage.status ack = PENDING
             ∧ OrderAckMessage.getMessage ack = Some "Order modified"%string)
            ∨ (MatchingEngineCore.getOrder (ModifyOrderMessage.orderId msg) e = None
               ∧ h' = h ∧ e' = e
               ∧ OrderAckMessage.status ack = REJECTED
               ∧ OrderAckMessage.getMessage ack
                 = Some "Failed to modify order"%string))).
Proof.
  intros Hr. pose proof (reachable_engineOk _ _ Hr) as He.
  destruct (engineOk_defined _ _ He) as (_ & Hcdef & Hmdef). split.
  - intros msg. destruct (Hcdef (CancelOrderMessage.orderId msg))
      as [[[r h'] e'] Hrun].
    unfold Server.handleCancelOrder. rewrite Hrun. cbn.
    destruct (cancelOrder_engine_inv _ _ _ _ _ _ He Hrun)
      as [(Hnone & -> & -> & ->)
         |(symbol & book & book' & p & o & Hots & Hbook & Hidx & _ & _ & _ & _ & _
           & -> & _)].
    + eexists _, h, e. split; [done|]. split; [done|]. split; [done|].
      right. split_and!; try done.
    + eexists _, h', e'. split; [done|]. split; [done|]. split; [done|].
      left. split_and!; try done.
      assert (MatchingEngineCore.getOrder (CancelOrderMessage.orderId msg) e
              = Some p) as Hsome by (apply getOrder_Some; by exists symbol, book).
      congruence.
  - intros msg. destruct (Hmdef (ModifyOrderMessage.orderId msg)
                            (ModifyOrderMessage.newPrice msg)
                            (ModifyOrderMessage.newQuantity msg))
      as [[[r h'] e'] Hrun].
    unfold Server.handleModifyOrder. rewrite Hrun. cbn.
    destruct (modifyOrder_engine_inv _ _ _ _ _ _ _ _ He Hrun)
      as [(Hnone & -> & -> & ->)
         |(symbol & book & book' & p & o & Hots & Hbook & Hidx & _ & _ & _ & _ & _
           & -> & _)].
    + eexists _, h, e. split; [done|]. split; [done|]. split; [done|].
      right. split_and!; try done.
    + eexists _, h', e'. split; [done|]. split; [done|]. split; [done|].
      left. split_and!; try done.
      assert (MatchingEngineCore.getOrder (ModifyOrderMessage.orderId msg) e
              = Some p) as Hsome by (apply getOrder_Some; by exists symbol, book).
      congruence.
Qed.

Lemma X21_witness :
  ∃ ack h' e' nack,
    Server.handleCancelOrder (cancelMessage 2) ladderState.1 ladderState.2
    = Some ([Server.SentAck ack], h', e')
    ∧ OrderAckMessage.orderId ack = 2%N
    ∧ OrderAckMessage.status ack = CANCELLED
    ∧ OrderAckMessage.getMessage ack = Some "Order cancelled"%string
    ∧ Server.handleCancelOrder (cancelMessage 9) ladderState.1 ladderState.2
      = Some ([Server.SentAck nack], ladderState.1, ladderState.2)
    ∧ OrderAckMessage.status nack = REJECTED
    ∧ OrderAckMessage.getMessage nack = Some "Order not found"%string.
Proof.
  assert (reachable ladderState.1 ladderState.2) as Hr
    by (unfold ladderState; reached).
  destruct (X21_cancel_and_modify_are_acknowledged _ _ Hr) as [Hcancel _].
  destruct (Hcancel (cancelMessage 2)) as (ack & h' & e' & Hh & Hid & _ & Hcase).
  destruct (Hcancel (cancelMessage 9)) as (nack & h2 & e2 & Hh2 & _ & _ & Hcase2).
  destruct Hcase as [(_ & _ & Hst & Hm)|(Hnone & _)];
    [|by vm_compute in Hnone].
  destruct Hcase2 as [(Hsome & _)|(_ & -> & -> & Hst2 & Hm2)];
    [exfalso; apply Hsome; by vm_compute|].
  exists ack, h', e', nack. split; [exact Hh|]. split; [exact Hid|].
  split; [exact Hst|]. split; [exact Hm|]. split; [exact Hh2|].
  split; [exact Hst2|exact Hm2].
Defined.

(** ** Server.cpp: the receive loop *)

(** X22.  [handleClient] reads the bytes of a header and then, for a type
    it handles, the bytes of a whole message from what follows.  So for a
    message that arrives as a client sends it, once and starting with its
    own header: the loop ends, and when fewer bytes than a header follow the
    message no handler is called at all; otherwise the first call is the
    handler of the type in the header, with the message minus its header
    followed by the first bytes of what the client sent next, and the loop
    goes on after these bytes. *)
Theorem X22_handleClient_reads_past_the_message
    sizeofHeader sizeofMessage headerType t m rest fuel :
  0 < sizeofHeader →
  handledType t →
  length m = sizeofMessage t →
  sizeofHeader ≤ length m →
  headerType (take sizeofHeader m) = Some t →
  length (m ++ rest) < fuel →
  ∃ calls,
    Server.handleClient sizeofHeader sizeofMessage headerType fuel (m ++ rest)
    = Some calls
    ∧ (length rest < sizeofHeader → calls = [])
    ∧ (sizeofHeader ≤ length rest →
       ∃ calls',
         calls = (t, drop sizeofHeader m ++ take sizeofHeader rest) :: calls'
         ∧ Server.handleClient sizeofHeader sizeofMessage headerType (fuel - 1)
             (drop sizeofHeader rest) = Some calls').
Proof.
  intros Hpos Ht Hm Hle Hty Hfuel.
  destruct fuel as [|fuel]; [lia|]. rewrite length_app in Hfuel.
  rewrite handleClient_step.
  rewrite receiveMessage_Some by (rewrite length_app; lia).
  rewrite take_app_le, drop_app_le by done. rewrite Hty.
  rewrite decide_True by done.
  replace (S fuel - 1) with fuel by lia.
  assert (length (drop sizeofHeader m) = sizeofMessage t - sizeofHeader) as Hd
    by (rewrite length_drop; lia).
  destruct (decide (sizeofHeader ≤ length rest)) as [Hrest|Hrest].
  - rewrite receiveMessage_Some by (rewrite length_app; lia).
    rewrite take_app_ge, drop_app_ge by lia. rewrite Hd.
    replace (sizeofMessage t - (sizeofMessage t - sizeofHeader))
      with sizeofHeader by lia.
    destruct (handleClient_defined sizeofHeader sizeofMessage headerType
                fuel (drop sizeofHeader rest) Hpos) as [calls' Hcalls].
    { rewrite length_drop. lia. }
    rewrite Hcalls. cbn. eexists. split; [done|]. split; [lia|].
    intros _. by exists calls'.
  - rewrite receiveMessage_None by (rewrite length_app; lia).
    destruct fuel as [|fuel]; [lia|].
    rewrite handleClient_step. rewrite receiveMessage_None by (simpl; lia).
    exists []. split; [done|]. split; [done|]. lia.
Qed.

Lemma X22_witness :
  Server.handleClient exampleHeader exampleSize exampleType 100 exampleCancel
  = Some []
  ∧ Server.handleClient exampleHeader exampleSize exampleType 200
      (exampleCancel ++ exampleCancel)
    = Some [(CANCEL_ORDER, drop 16 exampleCancel ++ take 16 exampleCancel)].
Proof.
  split.
  - destruct (X22_handleClient_reads_past_the_message exampleHeader exampleSize
                exampleType CANCEL_ORDER exampleCancel [] 100)
      as (calls & Hcalls & Hnone & _).
    + unfold exampleHeader. lia.
    + right. by left.
    + reflexivity.
    + vm_compute. lia.
    + reflexivity.
    + vm_compute. lia.
    + rewrite app_nil_r in Hcalls. rewrite Hcalls. f_equal. apply Hnone.
      vm_compute. lia.
  - destruct (X22_handleClient_reads_past_the_message exampleHeader exampleSize
                exampleType CANCEL_ORDER exampleCancel exampleCancel 200)
      as (calls & Hcalls & _ & Hsome).
    + unfold exampleHeader. lia.
    + right. by left.
    + reflexivity.
    + vm_compute. lia.
    + reflexivity.
    + vm_compute. lia.
    + rewrite Hcalls. f_equal. destruct Hsome as (calls' & -> & Hrest).
      { vm_compute. lia. }
      f_equal. vm_compute in Hrest. by injection Hrest as <-.
Defined.

(** ** OrderBook.cpp: the index of a level *)

(** X23.  Every level keeps an index of its own from order ids to list
    iterators.  In every state the engine reaches, [PriceLevel::getOrder]
    on the level at the price of an order that [getOrder] finds returns
    that order.  But the sweep erases filled orders from the list only: when
    an order that [getOrder] found before a [submitOrder] is not found after
    it, and the level at its price is still in the book, the index of the
    level still holds the iterator of the erased node, and
    [PriceLevel::getOrder] for the id reads through it, which is
    undefined. *)
Theorem X23_level_index_outlives_filled_orders h e :
  reachable h e →
  (∀ orderId q,
     MatchingEngineCore.getOrder orderId e = Some q →
     ∃ o b l,
       h !! q = Some o
       ∧ MatchingEngineCore.orderBooks_ e !! Order.symbol_ o = Some b
       ∧ Levels.find (Order.price_ o) (ownSide (Order.side_ o) b) = Some l
       ∧ PriceLevel.getOrder orderId l = Some (Some q))
  ∧ (∀ symbol side type price quantity clientId stopPrice orderId trades h' e'
       id q m b' l',
       (MatchingEngineCore.nextOrderId_ e + 1 < two64)%N →
       MatchingEngineCore.submitOrder symbol side type price quantity clientId
         stopPrice h e = Some (orderId, trades, h', e') →
       MatchingEngineCore.getOrder id e = Some q →
       h !! q = Some m →
       MatchingEngineCore.getOrder id e' = None →
       MatchingEngineCore.orderBooks_ e' !! Order.symbol_ m = Some b' →
       Levels.find (Order.price_ m) (ownSide (Order.side_ m) b') = Some l' →
       PriceLevel.getOrder id l' = None).
Proof.
  intros Hr. pose proof (reachable_engineOk _ _ Hr) as He. split.
  - intros orderId q Hget.
    destruct (getOrder_rests _ _ _ _ He Hget) as (b & o & Ho & Hb & Hid & _ & Hin).
    pose proof He as (_ & _ & _ & _ & _ & Hbooks).
    pose proof (Hbooks _ _ Hb) as Hok.
    apply (bookOk_sides (Order.side_ o)) in Hok as (Hown & _).
    destruct (sideOk_level_getOrder _ _ _ _ _ _ Hown Hin)
      as (o' & l & Ho' & _ & Hfind & Hlevel).
    rewrite Ho in Ho'. injection Ho' as <-. rewrite Hid in Hlevel.
    by exists o, b, l.
  - intros symbol side type price quantity clientId stopPrice orderId trades h' e'
      id q m b' l' Hwrap Hrun Hget Hm Hnone Hb' Hfind.
    pose proof (submitOrder_engineOk _ _ _ _ _ _ _ _ _ _ _ _ _ He Hwrap Hrun) as He'.
    destruct (submitOrder_inv _ _ _ _ _ _ _ _ _ _ _ _ _ He Hrun)
      as (o0 & b & b2 & Ho0 & Hb & Hid & Hrunb & Hp & Hbooks & Hok & Hids & Hfilled
          & Hrest & Hh1).
    assert (Order.side_ o0 = side) as Hside by (by rewrite Ho0).
    destruct (getOrder_rests _ _ _ _ He Hget) as (b0 & o & Ho & Hb0 & Hoid & _ & Hin).
    rewrite Hm in Ho. injection Ho as <-.
    assert (q ∉ allResting b') as Hgone.
    { intros Hq. destruct (rests_getOrder _ _ _ _ _ He' Hb' Hq) as (o' & Ho' & _ & _ & Hg).
      pose proof (matchOrder_static _ _ _ _ _ _ Hrunb) as Hst.
      destruct (Forall2_lookup_l _ _ _ _ _ Hst (Hh1 _ _ Hm)) as (o2 & Ho2 & (Hi & _)).
      rewrite Ho' in Ho2. injection Ho2 as <-. rewrite Hi, Hoid in Hg. congruence. }
    destruct (decide (Order.symbol_ m = symbol)) as [Hsym|Hsym].
    + rewrite Hsym, Hbooks, lookup_insert_eq in Hb'. injection Hb' as <-.
      assert (b = b0) as ->.
      { rewrite Hb. unfold MatchingEngineCore.getOrCreateOrderBook.
        rewrite Hsym in Hb0. by rewrite Hb0. }
      destruct (otherSide_cases (Order.side_ m) side) as [Hs|Hs]; rewrite Hs in *.
      * exfalso. apply Hgone. apply (elem_of_allResting side). left.
        rewrite <- Hside. eapply matchOrder_ownSide_kept; [exact Hrunb|exact Hp|].
        by rewrite Hside.
      * rewrite ownSide_otherSide in Hin, Hfind. rewrite <- Hoid.
        rewrite <- Hside in Hin, Hfind.
        eapply (matchOrder_stale _ _ _ _ _ _ _ symbol q m);
          [exact Hrunb|exact Hp|exact Hok|exact Hin|by apply Hh1| |exact Hfind].
        intros Hq. apply Hgone. apply (elem_of_allResting (Order.side_ o0)).
        by right.
    + exfalso. apply Hgone.
      rewrite Hbooks, lookup_insert_ne in Hb' by done.
      rewrite Hb0 in Hb'. injection Hb' as <-.
      apply (elem_of_allResting (Order.side_ m)). by left.
Qed.

Lemma X23_witness :
  ∃ trades h' e' b' l',
    MatchingEngineCore.submitOrder AAPL BUY LIMIT 1500000 100 String.EmptyString 0
      fifoState.1 fifoState.2 = Some (3%N, trades, h', e')
    ∧ MatchingEngineCore.getOrder 1 fifoState.2 = Some 0
    ∧ MatchingEngineCore.getOrder 1 e' = None
    ∧ MatchingEngineCore.orderBooks_ e' !! AAPL = Some b'
    ∧ Levels.find 1500000 (OrderBook.asks_ b') = Some l'
    ∧ PriceLevel.queue l' = [1]
    ∧ PriceLevel.getOrder 1 l' = None
    ∧ PriceLevel.getOrder 2 l' = Some (Some 1).
Proof.
  assert (reachable fifoState.1 fifoState.2) as Hr
    by (unfold fifoState; reached).
  destruct (MatchingEngineCore.submitOrder AAPL BUY LIMIT 1500000 100
              String.EmptyString 0 fifoState.1 fifoState.2)
    as [[[[orderId trades] h'] e']|] eqn:Hrun; [|by vm_compute in Hrun].
  assert (orderId = 3%N) as ->.
  { vm_compute in Hrun. by injection Hrun as <- _ _ _. }
  destruct (MatchingEngineCore.orderBooks_ e' !! AAPL) as [b'|] eqn:Hb'.
  2:{ vm_compute in Hrun. injection Hrun as _ _ <-. by vm_compute in Hb'. }
  destruct (Levels.find 1500000 (OrderBook.asks_ b')) as [l'|] eqn:Hl'.
  2:{ vm_compute in Hrun. injection Hrun as _ _ <-. vm_compute in Hb'.
      injection Hb' as <-. by vm_compute in Hl'. }
  assert (MatchingEngineCore.getOrder 1 e' = None
          ∧ PriceLevel.queue l' = [1]
          ∧ PriceLevel.getOrder 2 l' = Some (Some 1)) as (Hnone & Hqueue & Hlive).
  { vm_compute in Hrun. injection Hrun as _ _ <-. vm_compute in Hb'.
    injection Hb' as <-. vm_compute in Hl'. injection Hl' as <-. by split_and!. }
  destruct (X23_level_index_outlives_filled_orders _ _ Hr) as [_ Hstale].
  exists trades, h', e', b', l'. split; [reflexivity|]. split; [reflexivity|].
  split; [exact Hnone|]. split; [exact Hb'|]. split; [exact Hl'|].
  split; [exact Hqueue|]. split; [|exact Hlive].
  eapply (Hstale AAPL BUY LIMIT 1500000%Z 100%N String.EmptyString 0%Z 3%N trades
            h' e' 1%N 0 (order 1 SELL LIMIT 1500000 100) b' l');
    [by compute_done|exact Hrun|reflexivity|reflexivity|exact Hnone|exact Hb'
    |exact Hl'].
Defined.

(** ** The quantities of the depth *)

(** X24.  In a state the engine reaches where the aggregates are exact,
    the quantity [getBidDepth] or [getAskDepth] lists next to a price is the
    sum of the remaining quantities of the orders of that symbol, side and
    price that [getOrder] finds. *)
Theorem X24_depth_quantity_is_what_rests h e side symbol levels price quantity :
  reachable h e →
  exactAggregates h e →
  (price, quantity) ∈ getDepth side symbol levels e →
  quantity = totalRemaining h (liveAt h e symbol side price).
Proof.
  intros Hr Hex Hin. pose proof (reachable_engineOk _ _ Hr) as He.
  destruct (MatchingEngineCore.orderBooks_ e !! symbol) as [b|] eqn:Hb.
  2:{ unfold getDepth, MatchingEngineCore.getBidDepth,
        MatchingEngineCore.getAskDepth in Hin. rewrite Hb in Hin.
      destruct side; by apply elem_of_nil in Hin. }
  rewrite (getDepth_ownSide side symbol levels e b Hb) in Hin.
  unfold OrderBook.depth in Hin.
  apply list_elem_of_fmap in Hin as ([k l] & Heq & Hl). simpl in Heq.
  injection Heq as -> ->.
  assert ((k, l) ∈ ownSide side b) as Hin.
  { rewrite <- (take_drop levels (ownSide side b)). apply elem_of_app. by left. }
  rewrite (exactBook_level h b side k l (Hex _ _ Hb) Hin).
  apply totalRemaining_perm. by eapply level_queue_live.
Qed.

Lemma X24_witness :
  getDepth SELL AAPL 10 fifoState.2 = [(1500000%Z, 200%N)]
  ∧ liveAt fifoState.1 fifoState.2 AAPL SELL 1500000 = [0; 1]
  ∧ totalRemaining fifoState.1 (liveAt fifoState.1 fifoState.2 AAPL SELL 1500000)
    = 200%N.
Proof.
  assert (reachable restingState.1 restingState.2) as Hr1
    by (unfold restingState; reached).
  assert (reachable fifoState.1 fifoState.2) as Hr
    by (unfold fifoState; reached).
  assert (exactAggregates restingState.1 restingState.2) as Hex1.
  { unfold restingState. apply submitted_exact.
    - apply reach_new.
    - intros symbol b Hb. done.
    - split; [reflexivity|]. intros symbol b Hb. done.
    - intros orderId trades h' e' Hrun. vm_compute in Hrun.
      by injection Hrun as _ <- _ _. }
  assert (exactAggregates fifoState.1 fifoState.2) as Hex.
  { change fifoState with (submitted AAPL SELL LIMIT 1500000 100 restingState).
    apply submitted_exact; [exact Hr1|exact Hex1| |].
    - apply (roomFor_singleton _ _ AAPL
               (default (OrderBook.new AAPL)
                  (MatchingEngineCore.orderBooks_ restingState.2 !! AAPL)));
        [by vm_compute|reflexivity|].
      split.
      + assert (OrderBook.bids_
                  (default (OrderBook.new AAPL)
                     (MatchingEngineCore.orderBooks_ restingState.2 !! AAPL)) = [])
          as -> by (by vm_compute).
        constructor.
      + assert ((PriceLevel.totalQuantity_
                   <$> (OrderBook.asks_
                          (default (OrderBook.new AAPL)
                             (MatchingEngineCore.orderBooks_ restingState.2
                                !! AAPL))).*2) = [100%N]) as Hl
          by (by vm_compute).
        unfold roomLevels.
        destruct (OrderBook.asks_ _) as [|[k l] [|? ?]]; try discriminate.
        injection Hl as Hl. constructor; [|constructor]. simpl in *.
        rewrite Hl. reflexivity.
    - intros orderId trades h' e' Hrun. vm_compute in Hrun.
      by injection Hrun as _ <- _ _. }
  assert (getDepth SELL AAPL 10 fifoState.2 = [(1500000%Z, 200%N)]) as Hdepth
    by (by vm_compute).
  split; [exact Hdepth|]. split; [by vm_compute|].
  symmetry. apply (X24_depth_quantity_is_what_rests _ _ SELL AAPL 10 _ _ Hr Hex).
  rewrite Hdepth. apply list_elem_of_here.
Defined.

